(* ===== verification/_CoqProject ===== *)
-Q . S2P
Prelude.v
GoTime.v
Heap.v
Task.v
Scheduler.v
SchedulerFacts.v
SchedulerProps.v
SchedulerSpec.v
CircuitBreaker.v
Config.v
Store.v
Events.v
NodeServer.v
NodeFacts.v
Dispatch.v
Master.v
MasterFacts.v
Worker.v
EndToEnd.v
NodeTrace.v
Observe.v
Counters.v
Lifecycle.v
WebSocket.v
LoadTest.v
Cluster.v
Router.v
LoadMaster.v
Entry.v
Durable.v
Finish.v
Net.v
