(* ===== verification/Prelude.v ===== *)
(** * Master-Worker task orchestrator: verification development

    ** The program

    A master accepts tasks over HTTP, keeps them in a scheduler and hands them to
    workers over one gRPC stream per worker; workers report the outcome and send
    heartbeats.  Around the scheduler are a circuit breaker per worker, a task
    store, an event bus for the dashboard and periodic checks.

    ** Files

    - [Prelude]: field update, wrap-around integers, map iteration order, generic
      lemmas, the tactics [simpl_fields] and [b2p].
    - [GoTime]: [time.Time] and [time.Duration]; saturating [Sub], wrapping products.
    - [Heap]: the standard library's [container/heap] ([up], [down], [Push], [Pop],
      [Init]) over an interface with laws, as [heap.Interface] is.
    - [Task]: [internal/task/task.go], the task record and its state machine.
    - [Scheduler]: [internal/task/scheduler.go].  [SchedulerFacts] has what each
      operation does and the invariants, [Inv] and the weaker [Loose] that also holds
      when a task is held twice; [SchedulerProps] the properties of the operations;
      [SchedulerSpec] an abstract scheduler and the refinement.
    - [CircuitBreaker]: [internal/circuitbreaker/circuit_breaker.go], a breaker and
      the registry with its double-checked creation.
    - [Config]: [internal/config/config.go], with the parsers of numbers and durations
      that it calls.
    - [Store]: [internal/store/*.go], the store interface as a class with its laws,
      the memory store (which keeps pointers) and the database store (which keeps
      encoded copies).
    - [Events]: [internal/events/event_bus.go], channels with buffers and closing.
    - [NodeServer]: [internal/server/node_server.go], every handler, over any task
      store.  [NodeFacts] has the properties of the handlers one by one; [Dispatch]
      interleaves the dispatch loops of all streams with everything else, one lock
      operation at a time, and shows that a round of [NodeServer] is a run of a loop.
    - [Master]: the handlers of [internal/master/master.go]; [MasterFacts] their
      properties.
    - [Worker]: [internal/worker/worker.go], the execution of an assignment and the
      process with its receiver, semaphore, task goroutines and shutdown.
    - [EndToEnd]: a dispatch round of the master, the execution on a worker and the
      report, composed.
    - [NodeTrace]: any sequence of the node service's operations and what stays true
      of its tasks; [Observe]: the collectors of [internal/metrics], the gRPC
      interceptors and the logger; [Counters]: what the metrics are after a run of
      [NodeTrace].
    - [Lifecycle]: the master's process: [NewMaster], [Start], [startGRPC] and
      [startHTTP] of [internal/master/master.go] as steps of their goroutines, with
      [internal/health] and the rate limiter of [internal/middleware].
    - [WebSocket]: [internal/master/api_handlers.go], the handlers of all event
      streams against the bus of [Events].
    - [LoadTest]: [cmd/loadtest/main.go], its goroutines and percentiles.
    - [Cluster]: the node of [NodeTrace] with one process of [Worker] per stream, the
      assignments on the wire and the reports under way.
    - [Router]: the routing table of [startHTTP], the mux of [net/http] that it is
      registered with, [serve], a request from its path to its handler's answer, and
      [httpServer], the limiter around it.  [LoadMaster]: the load test's client
      against that server.
    - [Entry]: [main.go], [NewWorker] and the heartbeat loop, the tickers, opening the
      database, [internal/tls] and [internal/tracing].
    - [Durable]: the runs of [NodeTrace] over the database of [Store], and what a
      crash after any of them leaves.
    - [Finish]: the steps of [Cluster] as a game against what the commands answer.
    - [Net]: the loops of [Dispatch] with the streams and workers of [Cluster],
      interleaved without any condition.

    ** State

    Tasks are shared by pointer between the scheduler, the store and the handlers,
    so the scheduler's [World] is a memory of tasks [Mem] (a finite map from
    pointers to tasks) and the [Scheduler] record, whose queues hold pointers.
    [Node] adds the store, the breakers, the bus, the workers, the streams and the
    metrics.  A method with a lock is one function of the state; a method that Go
    runs in several critical sections is split where the interleaving matters
    ([getFast] and [getSlow], [unsubscribeDelete] and [closeChan], the steps of
    [Dispatch.sysStep]).

    What the code reads from outside is an argument: the clock, random numbers, the
    iteration order of a Go map ([map_order] says that a list is one), the outcome
    of a send, decoded request bodies, the conversion of an out-of-range float.
    Tasks that the code allocates get a pointer that the theorems assume unused.

    ** Theorems

    - Nothing is lost: over any sequence of scheduler and task calls a task that
      entered is completed or held, also when a task in flight is enqueued again, and
      under unused ids it is so exactly once ([no_task_lost]); the calls refine an
      abstract scheduler without heap, loops and slices, each with the effect that
      its arguments determine ([scheduler_refines_spec]); queued work never waits
      while every loop sleeps ([no_lost_wakeup]).
    - Each scheduler operation, on every branch: [Dequeue_most_urgent] and
      [Dequeue_drains_in_order] (the heap agrees with priority and age), the exact
      effect of reports, retries, timeouts and requeueing, duplicates included.
    - The task state machine: [calls_follow_transitions], [retries_are_bounded],
      [retry_delay_window].
    - Breakers open, half-open and close at their thresholds and never share state.
    - The node service: one dispatch round, a report, the cleanup of a stream, the
      health check; what a failed send, a reconnection, a late report and a stale
      worker id do.
    - Components together: a task from its dispatch over its execution to its report
      ([task_end_to_end]); what stays true of the tasks over any run of the node
      service, and under which conditions more does ([node_well_formed]), and its
      metrics ([metrics_count_the_run]); the event streams against the bus
      ([websocket_delivery], [websocket_handlers_clean_up],
      [disconnected_client_lingers]).
    - The cluster: in any interleaving of the master's loops and its workers, failed
      sends and reused ids included, each entry in flight is queued again, on its way
      to, in or on its way back from a worker whose stream is served, or was passed
      over by a cleanup because its task named another worker
      ([in_flight_tasks_accounted_for], with the case in which that happens,
      [late_report_duplicates_dispatch]).  With successful sends, unused ids and one
      round at a time ([Cluster]), the last case does not arise
      ([cluster_accounts_for_tasks]), what is sent is executed at most once per
      assignment ([cluster_executes_what_was_sent]), the end of the streams gives
      everything back ([closing_streams_recovers]), and from every reachable state the
      cluster can lead all its tasks to COMPLETED or DEAD, whatever the commands
      answer ([work_can_always_finish]): each retry costs an attempt.
    - After a crash the database brings back exactly what was held, but for the tasks
      whose last save failed and those that had been retried from the dead letter
      queue ([crash_recovers_held_tasks]).
    - The HTTP interface: the tree search picks the most specific pattern
      ([mux_picks_most_specific]), redirects end and path values are there
      ([redirects_end], [path_values_present]), only POST changes anything but the
      subscriptions to events ([get_requests_are_safe]) and no sequence of requests
      behind the limiter loses or makes up a task ([requests_conserve_tasks]).
    - The processes: the exit status ([master_exit_status]) and the intervals that
      panic ([heartbeat_interval_panics]); mutual authentication ([mutual_tls]); a
      worker's concurrency, bookkeeping and shutdown ([worker_concurrency_bounded],
      [worker_accounts_for_assignments], [graceful_shutdown_reports_all],
      [shutdown_can_abandon_tasks]); the master's, which the pending RPCs hold up
      ([master_start_returns], [master_shutdown_completes],
      [shutdown_cuts_requests], [ready_after_shutdown]).
    - The load test counts what the master holds ([load_test_against_master]).
    - Equivalences: draining the queue is sorting it, the load test's report is that
      of its replies one after another ([load_report_sequential]), a whole round is
      a run of its steps ([rounds_are_loop_steps]), and a limited
      server is a server of the admitted requests ([limiter_transparent]).
    - The store's recovery and aliasing, the bus's delivery and freedom from panics,
      the environment's values, the HTTP API's submissions and dead-letter retries.
    - Behaviour that differs from what the code or its documents mean is stated as
      it is ([send_failure_leaves_entry], [reconnect_loses_stream],
      [stale_worker_takes_task], [stale_report_overrides_retry],
      [late_report_duplicates_dispatch], [late_report_counts_for_breaker],
      [same_instant_submissions_collide], [dead_letter_retry_is_not_saved],
      [refused_loop_spins], [AllTasks_overlooks_urgent],
      [batch_sleep_below_second], [retried_duration_negative]).

    ** Bounds and fuel

    Counters are int32 or int64 with wrap-around.  The heap's loops recur with fuel:
    [up] the index and [down] the length, and each round halves the index or moves
    to a child, so [Heap]'s lemmas hold without a condition on it.  ParseDuration's
    loop and [Router.segments] consume a character or more a round, so their fuel is
    the length of the text.  The dashboard's bounds (100 completed, 200 queued) and
    the bus's buffer (512) are the code's.

    ** Not modelled

    Log output, encoding/json and the transports: gRPC, WebSocket, the parsing of
    HTTP requests and the token bucket of the rate limiter are what their packages
    document, as arguments or as enabling conditions of steps; so are badger, the
    OpenTelemetry SDK, certificates and their verification.  Prometheus, pprof and
    the dashboard's files get their requests from [Router] and are not followed
    further, and CONNECT requests are left out.  The runs of [NodeTrace] take the
    operations of the node one after another; the theorems on them that need
    successful sends or unused ids say so, and [Cluster], [Counters] and [Finish]
    assume both ([nodeOk]); a failed send and two tasks of one id are theorems of
    their own ([send_failure_leaves_entry], [same_instant_submissions_collide]), and
    [Dispatch] and [Net] do without either condition.  In [Durable] a write can
    fail; a task that is written can be read back.  In [Finish] new workers can
    connect and reports get through.  In the load test parsing the flags, the pauses
    and printing are left out, and its request arrives decoded; the percentiles'
    theorem covers up to 10,000 latencies, as many as a batch may ask for. *)

From Stdlib Require Export ZArith Lia.
From stdpp Require Export base tactics option list gmap fin_maps strings.

(** ** Notations of the development *)

Declare Scope mw_scope.
Delimit Scope mw_scope with mw.
Open Scope mw_scope.

(** *** Field update

    [r <| f := v |>] is Go's assignment [r.f = v] on a struct: a copy of [r]
    whose field [f] is [v].  Each struct type of the development supplies its
    eta-expansion; the setter of a field, which takes the struct apart and puts
    it together again, is computed from it.  [simpl_fields] computes the fields
    of updated structs. *)

Class Struct (R : Type) := struct_eta : R -> R.

Class FieldSet {R T : Type} (proj : R -> T) := field_set : (T -> T) -> R -> R.

Arguments field_set {R T} proj {_} _ _.

Ltac derive_field_set R T proj :=
  let inst := constr:(ltac:(typeclasses eauto) : Struct R) in
  let body := eval hnf in inst in
  lazymatch (eval pattern proj in body) with
  | ?k _ =>
      let setter := constr:(ltac:(
        let upd := fresh "upd" in
        let r := fresh "r" in
        let res := fresh "res" in
        intros upd r; pose (k (fun r' => upd (proj r')) r) as res; destruct r;
        let v := eval unfold res in res in
        let v := eval simpl in v in
        exact v) : (T -> T) -> R -> R) in
      let setter := eval cbv beta zeta in setter in
      exact setter
  end.

Notation "r <| f := v |>" := (field_set f (fun _ => v) r)
  (at level 1, f at level 200, v at level 200, left associativity,
   format "r  <| f  :=  v |>") : mw_scope.

#[export] Hint Extern 1 (@FieldSet ?R ?T ?proj) =>
  derive_field_set R T proj : typeclass_instances.

(** ** Go's fixed-width signed integers

    An [intN] is a [Z] in two's-complement range; arithmetic wraps around. *)

Definition wrap (w x : Z) : Z := ((x + 2 ^ (w - 1)) mod 2 ^ w - 2 ^ (w - 1))%Z.

Definition int32 (x : Z) : Z := wrap 32 x.

Definition int64 (x : Z) : Z := wrap 64 x.

Definition in_range (w x : Z) : Prop := (- 2 ^ (w - 1) <= x < 2 ^ (w - 1))%Z.

(** ** Slices: exchanging two elements

    [swap i j l] is Go's [l[i], l[j] = l[j], l[i]].  Go panics when an index is
    out of range; the callers of the development never do that, and the
    definition then leaves the list alone. *)

Definition swap {A} (i j : nat) (l : list A) : list A :=
  match l !! i, l !! j with
  | Some x, Some y => <[j := x]> (<[i := y]> l)
  | _, _ => l
  end.

(** The transposition that [swap i j] applies to indices. *)

Definition transpose (i j k : nat) : nat :=
  if decide (k = i) then j else if decide (k = j) then i else k.

(** Go's [l[len(l)-k:]] for [len(l) > k]: the last [k] elements. *)

Definition last_n {A} (k : nat) (l : list A) : list A := drop (length l - k) l.

(** ** Iteration order of Go maps

    Go ranges over a map in an unspecified order.  An operation that ranges over
    a map takes the order as an argument; [map_order m ord] says that [ord]
    enumerates [m]. *)

Definition map_order {V} (m : gmap string V) (ord : list (string * V)) : Prop :=
  ord ≡ₚ map_to_list m.

#[export] Instance map_order_dec `{EqDecision V} (m : gmap string V) ord : Decision (map_order m ord).
Proof. unfold map_order. apply _. Defined.

(** ** Automation *)

Create HintDb mw.
Create Rewrite HintDb mw.

(** Split the innermost match of a model definition, in goal or hypotheses. *)
Ltac split_match :=
  match goal with
  | |- context [ match ?x with _ => _ end ] =>
      lazymatch x with context [ match _ with _ => _ end ] => fail | _ => destruct x eqn:? end
  | H : context [ match ?x with _ => _ end ] |- _ =>
      lazymatch x with context [ match _ with _ => _ end ] => fail | _ => destruct x eqn:? end
  end.

Ltac split_matches := repeat (split_match; simplify_eq/=).

(** Compute the projections of updated structs, in the goal or a hypothesis. *)
Ltac field_eq p e r u :=
  let H := fresh in
  first
    [ assert (e = u (p r)) as H by (clear; destruct r; reflexivity)
    | assert (e = p r) as H by (clear; destruct r; reflexivity) ];
  revert H.

Ltac simpl_fields_goal :=
  repeat match goal with
  | |- context [ ?p (@field_set ?R ?T ?f ?i ?u ?r) ] =>
      let e := constr:(p (@field_set R T f i u r)) in
      let H := fresh in
      field_eq p e r u; intros H; rewrite !H; clear H; cbv beta
  end.

Ltac simpl_fields_hyps :=
  repeat match goal with
  | G : context [ ?p (@field_set ?R ?T ?f ?i ?u ?r) ] |- _ =>
      let e := constr:(p (@field_set R T f i u r)) in
      let H := fresh in
      field_eq p e r u; intros H; rewrite !H in G; clear H; cbv beta in G
  end.

Ltac simpl_fields := simpl_fields_goal; simpl_fields_hyps.

(** Unfold a boolean test into the proposition it decides. *)
Ltac b2p :=
  repeat match goal with
  | H : andb _ _ = true |- _ => apply andb_prop in H as [? ?]
  | H : orb _ _ = false |- _ => apply orb_false_elim in H as [? ?]
  | H : negb _ = true |- _ => apply negb_true_iff in H
  | H : negb _ = false |- _ => apply negb_false_iff in H
  | H : Z.eqb _ _ = true |- _ => apply Z.eqb_eq in H
  | H : Z.eqb _ _ = false |- _ => apply Z.eqb_neq in H
  | H : Z.leb _ _ = true |- _ => apply Z.leb_le in H
  | H : Z.leb _ _ = false |- _ => apply Z.leb_gt in H
  | H : Z.ltb _ _ = true |- _ => apply Z.ltb_lt in H
  | H : Z.ltb _ _ = false |- _ => apply Z.ltb_ge in H
  | H : Z.gtb _ _ = true |- _ => rewrite Z.gtb_ltb in H
  | H : Z.gtb _ _ = false |- _ => rewrite Z.gtb_ltb in H
  | H : Z.geb _ _ = true |- _ => rewrite Z.geb_leb in H
  | H : Z.geb _ _ = false |- _ => rewrite Z.geb_leb in H
  | H : bool_decide _ = true |- _ => apply bool_decide_eq_true in H
  | H : bool_decide _ = false |- _ => apply bool_decide_eq_false in H
  | H : String.eqb _ _ = true |- _ => apply String.eqb_eq in H
  | H : String.eqb _ _ = false |- _ => apply String.eqb_neq in H
  end.

(** ** Lemmas: machine integers *)

Lemma pow_split (w : Z) : (0 < w)%Z -> (2 ^ w = 2 * 2 ^ (w - 1))%Z.
Proof. intros. rewrite <- Z.pow_succ_r by lia. f_equal. lia. Qed.

Lemma wrap_in_range (w x : Z) : (0 < w)%Z -> in_range w (wrap w x).
Proof.
  intros Hw. unfold wrap, in_range.
  pose proof (Z.pow_pos_nonneg 2 (w - 1) ltac:(lia) ltac:(lia)).
  pose proof (pow_split w Hw).
  pose proof (Z.mod_pos_bound (x + 2 ^ (w - 1)) (2 ^ w) ltac:(lia)). lia.
Qed.

Lemma wrap_id (w x : Z) : (0 < w)%Z -> in_range w x -> wrap w x = x.
Proof.
  intros Hw Hr. unfold wrap, in_range in *. pose proof (pow_split w Hw).
  rewrite Z.mod_small by lia. lia.
Qed.

Lemma wrap_plus (w x y : Z) : wrap w (wrap w x + y) = wrap w (x + y).
Proof.
  unfold wrap. f_equal.
  replace ((x + 2 ^ (w - 1)) mod 2 ^ w - 2 ^ (w - 1) + y + 2 ^ (w - 1))%Z
    with ((x + 2 ^ (w - 1)) mod 2 ^ w + y)%Z by lia.
  rewrite Zplus_mod_idemp_l. f_equal. lia.
Qed.

Lemma int32_id (x : Z) : (- 2147483648 <= x < 2147483648)%Z -> int32 x = x.
Proof. intros. apply wrap_id; [lia | exact H]. Qed.

Lemma int64_id (x : Z) :
  (- 9223372036854775808 <= x < 9223372036854775808)%Z -> int64 x = x.
Proof. intros. apply wrap_id; [lia | exact H]. Qed.

Lemma int64_range (x : Z) :
  (- 9223372036854775808 <= int64 x < 9223372036854775808)%Z.
Proof. exact (wrap_in_range 64 x ltac:(lia)). Qed.

#[export] Hint Rewrite int32_id int64_id using lia : mw.

(** ** Lemmas: [swap] *)

Section swap.
Context {A : Type}.
Implicit Types l : list A.

Lemma swap_length l i j : length (swap i j l) = length l.
Proof. unfold swap. split_matches; by rewrite ?length_insert. Qed.

Lemma swap_lookup l i j k :
  i < length l -> j < length l -> swap i j l !! k = l !! transpose i j k.
Proof.
  intros [x Hx]%lookup_lt_is_Some_2 [y Hy]%lookup_lt_is_Some_2.
  unfold swap, transpose. rewrite Hx, Hy.
  repeat case_decide; subst.
  - destruct (decide (i = j)) as [->|].
    + rewrite list_lookup_insert_eq; [congruence|].
      rewrite length_insert. eauto using lookup_lt_Some.
    + rewrite list_lookup_insert_ne, list_lookup_insert_eq; eauto using lookup_lt_Some.
  - rewrite list_lookup_insert_eq; [done|].
    rewrite length_insert. eauto using lookup_lt_Some.
  - by rewrite !list_lookup_insert_ne.
Qed.

Lemma swap_perm l i j : swap i j l ≡ₚ l.
Proof.
  unfold swap. destruct (l !! i) as [x|] eqn:Hx, (l !! j) as [y|] eqn:Hy; try done.
  destruct (decide (i = j)) as [->|Hne].
  { simplify_eq. rewrite list_insert_insert_eq. by rewrite list_insert_id. }
  apply Permutation_inj. split; [by rewrite !length_insert|].
  exists (transpose i j). split.
  - intros a b. unfold transpose. repeat case_decide; congruence.
  - intros k. pose proof (swap_lookup l i j k) as E. unfold swap in E.
    rewrite Hx, Hy in E. apply E; eauto using lookup_lt_Some.
Qed.

Lemma last_n_length (k : nat) l : length (last_n k l) = min k (length l).
Proof. unfold last_n. rewrite length_drop. lia. Qed.

End swap.

Lemma last_cons_snoc {A} (l : list A) : l <> [] -> exists k x, l = k ++ [x].
Proof. destruct l as [|x k _] using rev_ind; [done|]. by exists k, x. Qed.

Lemma transpose_range (i j k n : nat) : i < n -> j < n -> k < n -> transpose i j k < n.
Proof. unfold transpose. repeat case_decide; lia. Qed.

(** ** Lemmas: filters *)

Lemma list_filter_ext_in {A} (P Q : A -> Prop)
    `{!forall x, Decision (P x), !forall x, Decision (Q x)} (l : list A) :
  (forall x, x ∈ l -> P x <-> Q x) -> filter P l = filter Q l.
Proof.
  induction l as [|x l IH]; intros HPQ; [done|].
  rewrite !filter_cons. rewrite IH by (intros; apply HPQ; by right).
  apply decide_ext. apply HPQ. by left.
Qed.

Lemma list_filter_partition {A} (P : A -> Prop) `{!forall x, Decision (P x)} (l : list A) :
  filter P l ++ filter (fun x => ~ P x) l ≡ₚ l.
Proof.
  induction l as [|x l IH]; [done|]. rewrite !filter_cons.
  destruct (decide (P x)).
  - rewrite (decide_False (P := ~ P x)) by tauto. simpl. by rewrite IH.
  - rewrite (decide_True (P := ~ P x)) by tauto. by rewrite <- Permutation_middle, IH.
Qed.

Lemma sublist_full {A} (l k : list A) : l `sublist_of` k -> length k <= length l -> l = k.
Proof.
  induction 1 as [|x l k _ IH|x l k Hs IH]; simpl; intros Hl; [done| |].
  - f_equal. apply IH. lia.
  - apply sublist_length in Hs. lia.
Qed.

Lemma list_filter_all {A} (P : A -> Prop) `{!forall x, Decision (P x)} (l : list A) :
  (forall x, x ∈ l -> P x) -> filter P l = l.
Proof.
  induction l as [|x l IH]; intros HP; [done|].
  rewrite filter_cons, decide_True by (apply HP; by left).
  by rewrite IH by (intros; apply HP; by right).
Qed.

Lemma list_filter_length_le {A} (P Q : A -> Prop)
    `{!forall x, Decision (P x), !forall x, Decision (Q x)} (l : list A) :
  (forall x, P x -> Q x) -> length (filter P l) <= length (filter Q l).
Proof.
  intros HPQ. induction l as [|x l IH]; [done|]. rewrite !filter_cons.
  repeat case_decide; simpl; try lia. exfalso. auto.
Qed.

Lemma list_fmap_filter {A B} (f : A -> B) (P : B -> Prop) `{!forall y, Decision (P y)} (l : list A) :
  f <$> filter (fun x => P (f x)) l = filter P (f <$> l).
Proof.
  induction l as [|x l IH]; [done|]. rewrite fmap_cons, !filter_cons, <- IH. by case_decide.
Qed.

#[export] Hint Rewrite @swap_length : mw.
#[export] Hint Resolve swap_perm : mw.
