(* ===== verification/GoTime.v ===== *)
(** * Go's time package, as the master uses it

    A [time.Time] is the number of nanoseconds since Go's zero time (January 1,
    year 1 UTC), so the zero value of the type is [0] and [IsZero] tests for it.
    One number stands for both of Go's clock readings: the code only compares
    and subtracts times it took from [time.Now] in the same process.  A
    [time.Duration] is an int64 count of nanoseconds.  [time.Now] itself is an
    argument of every operation that calls it. *)

From S2P Require Import Prelude.

Open Scope Z_scope.

Abbreviation Time := Z (only parsing).
Abbreviation Duration := Z (only parsing).

Definition Second : Duration := 1000000000.
Definition Millisecond : Duration := 1000000.
Definition Minute : Duration := 60 * Second.

Definition maxDuration : Duration := 9223372036854775807.
Definition minDuration : Duration := -9223372036854775808.

Definition zeroTime : Time := 0.

Definition IsZero (t : Time) : bool := t =? zeroTime.
Definition After (t u : Time) : bool := u <? t.
Definition Before (t u : Time) : bool := t <? u.
Definition Add (t : Time) (d : Duration) : Time := t + d.

(** [t.Sub(u)] saturates at the limits of [Duration]. *)

Definition Sub (t u : Time) : Duration :=
  if maxDuration <? t - u then maxDuration
  else if t - u <? minDuration then minDuration
  else t - u.

(** Integer multiplication and addition of durations wrap around. *)

Definition mulDuration (n : Z) (d : Duration) : Duration := int64 (n * d).
Definition addDuration (a b : Duration) : Duration := int64 (a + b).

(** [d.Milliseconds()] truncates towards zero. *)

Definition Milliseconds (d : Duration) : Z := Z.quot d Millisecond.

(** [time.Duration(math.Pow(2, float64(n)))] for an integer [n]: the power is
    exact in float64, the conversion drops a fraction, and a value that does not
    fit an int64 (from 2^63 on, +Inf included) converts to a value that the
    language leaves to the implementation: [oor]. *)

Definition pow2ToDuration (oor : Z) (n : Z) : Duration :=
  if n <? 0 then 0 else if n <=? 62 then 2 ^ n else oor.

(** ** Lemmas *)

Lemma Sub_exact (t u : Time) :
  minDuration <= t - u <= maxDuration -> Sub t u = t - u.
Proof. intros. unfold Sub. repeat case_match; b2p; lia. Qed.

Lemma Sub_neg (t u : Time) : t < u -> Sub t u < 0.
Proof. intros. unfold Sub, minDuration, maxDuration. repeat case_match; b2p; lia. Qed.

Lemma Sub_nonneg (t u : Time) : u <= t -> 0 <= Sub t u.
Proof. intros. unfold Sub, minDuration, maxDuration. repeat case_match; b2p; lia. Qed.

Lemma Sub_gt (t u : Time) (d : Duration) :
  minDuration <= d < maxDuration -> Sub t u > d <-> t - u > d.
Proof. intros. unfold Sub, minDuration, maxDuration in *. repeat case_match; b2p; lia. Qed.

Lemma pow2ToDuration_small (oor n : Z) : 0 <= n <= 62 -> pow2ToDuration oor n = 2 ^ n.
Proof. intros. unfold pow2ToDuration. repeat case_match; b2p; lia. Qed.
