(* ===== verification/Heap.v ===== *)
(** * Binary heaps: Go's container/heap, as [internal/task/scheduler.go] uses it

    The scheduler's priority queue implements [heap.Interface] and is driven by
    the standard library's [heap.Init], [heap.Push] and [heap.Pop].  This file
    models that interface as a type class, the library's sift loops over any
    implementation of it, and proves the heap algorithms correct against the
    interface's laws: every operation keeps the heap order, [Push] and [Pop]
    keep the elements, [Pop] returns a minimum, and draining a heap sorts it.
    The loops are fuelled; the [_unfold] lemmas show that the fuel supplied
    is enough. *)

From S2P Require Import Prelude.

(** ** The interface *)

Class HeapInterface (H A : Type) := {
  Len : H -> nat;
  LessAt : H -> nat -> nat -> bool;
  SwapAt : nat -> nat -> H -> H;
  PushBack : A -> H -> H;
  PopBack : H -> option (A * H)
}.

(** What container/heap relies on: the collection is a sequence, and its
    comparison is a strict weak order on the elements. *)

Class StrictWeakOrder {A} (before : A -> A -> bool) : Prop := {
  before_irrefl : forall x, before x x = false;
  before_asym : forall x y, before x y = true -> before y x = false;
  before_not_trans : forall x y z,
    before y x = false -> before z y = false -> before z x = false
}.

Class HeapLaws (H A : Type) {I : HeapInterface H A} (before : A -> A -> bool) := {
  view : H -> list A;
  before_swo :: StrictWeakOrder before;
  Len_view : forall h, Len h = length (view h);
  LessAt_view : forall h i j x y,
    view h !! i = Some x -> view h !! j = Some y -> LessAt h i j = before x y;
  SwapAt_view : forall h i j, i < Len h -> j < Len h ->
    view (SwapAt i j h) = swap i j (view h);
  PushBack_view : forall h x, view (PushBack x h) = view h ++ [x];
  PopBack_view : forall h l x, view h = l ++ [x] ->
    exists h', PopBack h = Some (x, h') /\ view h' = l
}.

(** ** The algorithms of container/heap *)

Definition parent (i : nat) : nat := (i - 1) / 2.

#[global] Arguments parent : simpl never.

Section algorithms.
Context {H A : Type} {I : HeapInterface H A}.

(** [up(h, j)]: for i := (j-1)/2; i != j && h.Less(j, i); swap and move up. *)

Fixpoint up_loop (fuel : nat) (h : H) (j : nat) : H :=
  match fuel with
  | O => h
  | S fuel =>
      let i := parent j in
      if bool_decide (i = j) || negb (LessAt h j i) then h
      else up_loop fuel (SwapAt i j h) i
  end.

Definition up (h : H) (j : nat) : H := up_loop (S j) h j.

(** The child of [i] that [down] compares with it, within the first [n]. *)

Definition min_child (h : H) (i n : nat) : nat :=
  let j1 := 2 * i + 1 in
  let j2 := j1 + 1 in
  if bool_decide (j2 < n) && LessAt h j2 j1 then j2 else j1.

(** [down(h, i, n)]. *)

Fixpoint down_loop (fuel : nat) (h : H) (i n : nat) : H :=
  match fuel with
  | O => h
  | S fuel =>
      if bool_decide (n <= 2 * i + 1) then h
      else
        let j := min_child h i n in
        if negb (LessAt h j i) then h
        else down_loop fuel (SwapAt i j h) j n
  end.

Definition down (h : H) (i n : nat) : H := down_loop (S n - i) h i n.

(** [Init(h)]: for i := n/2 - 1; i >= 0; i-- { down(h, i, n) }. *)

Fixpoint init_loop (k n : nat) (h : H) : H :=
  match k with
  | O => h
  | S i => init_loop i n (down h i n)
  end.

Definition Init (h : H) : H := let n := Len h in init_loop (n / 2) n h.

Definition Push (x : A) (h : H) : H :=
  let h := PushBack x h in up h (Len h - 1).

(** [Pop] on an empty collection panics in Go (index -1): [None]. *)

Definition Pop (h : H) : option (A * H) :=
  match Len h with
  | O => None
  | S n => PopBack (down (SwapAt 0 n h) 0 n)
  end.

(** Pop until empty: the order in which the elements leave. *)

Fixpoint drain (fuel : nat) (h : H) : list A :=
  match fuel with
  | O => []
  | S fuel =>
      match Pop h with
      | None => []
      | Some (x, h') => x :: drain fuel h'
      end
  end.

End algorithms.

(** ** The heap order *)

Section order.
Context {A : Type} (before : A -> A -> bool).

(** [le_at l i j]: the element at [i] need not come after the one at [j]. *)

Definition le_at (l : list A) (i j : nat) : Prop :=
  forall x y, l !! i = Some x -> l !! j = Some y -> before y x = false.

(** Heap order within the first [n] elements, for the parents from [k] on. *)

Definition heap_from (l : list A) (k n : nat) : Prop :=
  forall i, 0 < i < n -> k <= parent i -> le_at l (parent i) i.

Definition heap_ordered (l : list A) : Prop := heap_from l 0 (length l).

(** The order but for the element at [j], which may be too small for its place. *)

Definition heap_but_up (l : list A) (n j : nat) : Prop :=
  (forall i, 0 < i < n -> i <> j -> le_at l (parent i) i) /\
  (forall c, 0 < j -> 0 < c < n -> parent c = j -> le_at l (parent j) c).

(** The order but for the element at [i0], which may be too big for its place. *)

Definition heap_but_down (l : list A) (k n i0 : nat) : Prop :=
  (forall i, 0 < i < n -> k <= parent i -> parent i <> i0 -> le_at l (parent i) i) /\
  (forall c, 0 < i0 -> k <= parent i0 -> 0 < c < n -> parent c = i0 -> le_at l (parent i0) c).

(** Each element of a list before every later one. *)

Fixpoint sorted_by (l : list A) : Prop :=
  match l with
  | [] => True
  | x :: l => Forall (fun y => before y x = false) l /\ sorted_by l
  end.

End order.

(** ** Index arithmetic *)

Lemma parent_lt (i : nat) : 0 < i -> parent i < i.
Proof. intros. unfold parent. apply Nat.Div0.div_lt_upper_bound. lia. Qed.

Lemma parent_le (i : nat) : parent i <= i.
Proof. unfold parent. apply Nat.Div0.div_le_upper_bound. lia. Qed.

Lemma parent_children (c i : nat) : 0 < c -> parent c = i <-> c = 2 * i + 1 \/ c = 2 * i + 2.
Proof.
  intros Hc. unfold parent.
  pose proof (Nat.div_mod_eq (c - 1) 2). pose proof (Nat.mod_upper_bound (c - 1) 2).
  lia.
Qed.

(** ** Sifting a list *)

Section sift.
Context {A : Type} (before : A -> A -> bool) `{!StrictWeakOrder before}.
Implicit Types l : list A.

Lemma le_at_trans l a b c :
  b < length l -> le_at before l a b -> le_at before l b c -> le_at before l a c.
Proof.
  intros [z Hz]%lookup_lt_is_Some_2 H1 H2 x y Hx Hy.
  eapply before_not_trans; eauto.
Qed.

Lemma le_at_swap l i j a b :
  i < length l -> j < length l ->
  le_at before (swap i j l) a b <-> le_at before l (transpose i j a) (transpose i j b).
Proof. intros. unfold le_at. by rewrite !swap_lookup. Qed.

Lemma le_at_intro l i j x y :
  l !! i = Some x -> l !! j = Some y -> before y x = false -> le_at before l i j.
Proof. intros Hi Hj E x' y'. congruence. Qed.

Lemma up_done l n j :
  heap_but_up before l n j -> j = 0 \/ le_at before l (parent j) j -> heap_from before l 0 n.
Proof.
  intros [H1 _] Hj i Hi _. destruct (decide (i = j)) as [->|]; [|by apply H1].
  destruct Hj; [lia | done].
Qed.

Lemma up_step l n j :
  n <= length l -> 0 < j < n -> le_at before l j (parent j) ->
  heap_but_up before l n j -> heap_but_up before (swap (parent j) j l) n (parent j).
Proof.
  intros Hn Hj Hle [H1 H2]. pose proof (parent_lt j ltac:(lia)) as Hp.
  split.
  - intros i Hi Hne. pose proof (parent_lt i ltac:(lia)).
    rewrite le_at_swap by lia. unfold transpose at 2.
    rewrite (decide_False (P := i = parent j)) by done.
    destruct (decide (i = j)) as [->|Hij].
    { unfold transpose. by rewrite decide_True. }
    unfold transpose. repeat case_decide; try lia.
    + eapply (le_at_trans l _ (parent j)); [lia | done |].
      replace (parent j) with (parent i) by done. by apply H1.
    + apply H2; try lia.
    + by apply H1.
  - intros c Hpos Hc Hpc. pose proof (parent_lt (parent j) ltac:(lia)).
    pose proof (parent_lt c ltac:(lia)).
    rewrite le_at_swap by lia. unfold transpose. repeat case_decide; try lia.
    + apply H1; lia.
    + eapply (le_at_trans l _ (parent j)); [lia | apply H1; lia |].
      rewrite <- Hpc. apply H1; lia.
Qed.

Lemma down_done l k n i :
  heap_but_down before l k n i ->
  (forall c, 0 < c < n -> parent c = i -> le_at before l i c) -> heap_from before l k n.
Proof.
  intros [H1 _] Hi c Hc Hk. destruct (decide (parent c = i)) as [<-|]; [|by apply H1].
  by apply Hi.
Qed.

Lemma down_step l k n i j :
  n <= length l -> j < n -> 0 < j -> parent j = i ->
  le_at before l j i -> (forall c, 0 < c < n -> parent c = i -> le_at before l j c) ->
  heap_but_down before l k n i -> heap_but_down before (swap i j l) k n j.
Proof.
  intros Hn Hj Hpos Hpj Hle Hmin [H1 H2]. pose proof (parent_lt j ltac:(lia)) as Hp.
  split.
  - intros x Hx Hk Hne. pose proof (parent_lt x ltac:(lia)).
    rewrite le_at_swap by lia. unfold transpose. repeat case_decide; try lia; subst;
      first [done | apply Hmin; lia | apply H2; lia | apply H1; lia].
  - intros c _ Hk Hc Hpc. pose proof (parent_lt c ltac:(lia)).
    rewrite le_at_swap by lia. unfold transpose. repeat case_decide; try lia.
    subst. apply H1; lia.
Qed.

Lemma heap_root l n i : heap_from before l 0 n -> n <= length l -> i < n -> le_at before l 0 i.
Proof.
  intros Hh Hn. induction (lt_wf i) as [i _ IH]. intros Hi.
  destruct (decide (i = 0)) as [->|Hne].
  - intros x y ??. simplify_eq. apply before_irrefl.
  - pose proof (parent_lt i ltac:(lia)).
    apply (le_at_trans l 0 (parent i) i); [lia | apply IH; lia | apply Hh; lia].
Qed.

End sift.

(** ** The algorithms keep the elements and establish the order *)

Section correct.
Context {H A : Type} {I : HeapInterface H A} (before : A -> A -> bool) {L : HeapLaws H A before}.
Implicit Types h : H.

#[local] Existing Instance before_swo.

Lemma LessAt_false h i j :
  LessAt h j i = false -> i < Len h -> j < Len h -> le_at before (view h) i j.
Proof.
  rewrite Len_view. intros E [x Hx]%lookup_lt_is_Some_2 [y Hy]%lookup_lt_is_Some_2.
  eapply le_at_intro; [done..|]. by rewrite <- (LessAt_view h j i y x).
Qed.

Lemma LessAt_true h i j :
  LessAt h j i = true -> i < Len h -> j < Len h -> le_at before (view h) j i.
Proof.
  rewrite Len_view. intros E [x Hx]%lookup_lt_is_Some_2 [y Hy]%lookup_lt_is_Some_2.
  eapply le_at_intro; [done..|]. apply before_asym. by rewrite <- (LessAt_view h j i y x).
Qed.

Lemma SwapAt_Len h i j : i < Len h -> j < Len h -> Len (SwapAt i j h) = Len h.
Proof. intros. by rewrite !Len_view, SwapAt_view, swap_length. Qed.

Lemma min_child_spec h i n :
  n <= Len h -> 2 * i + 1 < n ->
  let j := min_child h i n in
  j < n /\ 0 < j /\ parent j = i /\
  (forall c, 0 < c < n -> parent c = i -> le_at before (view h) j c).
Proof.
  intros Hn Hi j. subst j. unfold min_child.
  destruct (bool_decide _ && _) eqn:E; b2p.
  - split_and!; try lia; [by apply parent_children; lia|].
    intros c Hc [->| ->]%parent_children; [| |lia].
    + apply LessAt_true; try lia. done.
    + replace (2 * i + 1 + 1) with (2 * i + 2) by lia.
      intros x y ??. simplify_eq. apply before_irrefl.
  - split_and!; try lia; [by apply parent_children; lia|].
    intros c Hc [->| ->]%parent_children; [| |lia].
    + intros x y ??. simplify_eq. apply before_irrefl.
    + apply andb_false_iff in E as [E|E]; b2p; [lia|].
      replace (2 * i + 2) with (2 * i + 1 + 1) by lia. apply LessAt_false; try lia. done.
Qed.

(** Sifting permutes the view and keeps what lies past the first [n]. *)

Lemma up_loop_perm fuel h j : j < Len h -> view (up_loop fuel h j) ≡ₚ view h.
Proof.
  revert h j. induction fuel as [|fuel IH]; intros h j Hj; simpl; [done|].
  destruct (_ || _); [done|].
  pose proof (parent_le j).
  rewrite IH by (rewrite SwapAt_Len; lia).
  rewrite SwapAt_view by lia. apply swap_perm.
Qed.

Lemma up_loop_heap fuel h j :
  j < fuel -> j < Len h -> heap_but_up before (view h) (Len h) j ->
  heap_from before (view (up_loop fuel h j)) 0 (Len h).
Proof.
  revert h j. induction fuel as [|fuel IH]; intros h j Hf Hj Hh; simpl; [lia|].
  pose proof (parent_le j).
  destruct (bool_decide (parent j = j)) eqn:E; simpl; b2p.
  { apply (up_done before _ _ j); [done|]. left.
    destruct j; [done|]. pose proof (parent_lt (S j) ltac:(lia)). lia. }
  destruct (LessAt h j (parent j)) eqn:E2; simpl.
  - rewrite <- (SwapAt_Len h (parent j) j) by lia.
    apply IH; rewrite ?SwapAt_Len by lia; try lia.
    rewrite SwapAt_view by lia. apply (up_step before); try done; rewrite <- ?Len_view; try lia.
    apply LessAt_true; (done || lia).
  - apply (up_done before _ _ j); [done|]. right. apply LessAt_false; (done || lia).
Qed.

Lemma down_loop_view fuel h i n :
  i < n -> n <= Len h ->
  let h' := down_loop fuel h i n in
  view h' ≡ₚ view h /\ (forall m, n <= m -> view h' !! m = view h !! m).
Proof.
  revert h i. induction fuel as [|fuel IH]; intros h i Hi Hn; simpl; [done|].
  destruct (bool_decide (n <= _)) eqn:E; [done|]. b2p.
  destruct (min_child_spec h i n) as (Hj & Hpos & _ & _); [lia..|].
  destruct (LessAt _ _ _); simpl; [|done].
  destruct (IH (SwapAt i (min_child h i n) h) (min_child h i n)) as [IH1 IH2];
    rewrite ?SwapAt_Len; [lia..|].
  rewrite SwapAt_view in * by lia. split; [rewrite IH1; apply swap_perm|].
  intros m Hm. rewrite IH2 by done. rewrite swap_lookup; rewrite <- ?Len_view; [|lia..].
  unfold transpose. by rewrite !decide_False by lia.
Qed.

Lemma down_loop_heap fuel h k i n :
  n < fuel + i -> n <= Len h -> heap_but_down before (view h) k n i ->
  heap_from before (view (down_loop fuel h i n)) k n.
Proof.
  revert h i. induction fuel as [|fuel IH]; intros h i Hf Hn Hh; simpl.
  { apply (down_done before _ _ _ i); [done|]. intros c Hc Hpc. pose proof (parent_lt c ltac:(lia)). lia. }
  destruct (bool_decide (n <= _)) eqn:E; b2p.
  { apply (down_done before _ _ _ i); [done|].
    intros c Hc Hpc%parent_children; lia. }
  destruct (min_child_spec h i n) as (Hj & Hpos & Hpj & Hmin); [lia..|].
  pose proof (parent_lt _ Hpos).
  destruct (LessAt h (min_child h i n) i) eqn:E2; simpl.
  - apply IH; rewrite ?SwapAt_Len by lia; try lia.
    rewrite SwapAt_view by lia. apply (down_step before); try done; rewrite <- ?Len_view; try lia.
    apply LessAt_true; (done || lia).
  - apply (down_done before _ _ _ i); [done|]. intros c Hc Hpc.
    apply (le_at_trans before _ _ (min_child h i n)); [rewrite <- Len_view; lia | |by apply Hmin].
    apply LessAt_false; (done || lia).
Qed.

Lemma down_view h i n :
  i < n -> n <= Len h ->
  view (down h i n) ≡ₚ view h /\ (forall m, n <= m -> view (down h i n) !! m = view h !! m).
Proof. apply down_loop_view. Qed.

Lemma down_heap h k i n :
  n <= Len h -> heap_but_down before (view h) k n i ->
  heap_from before (view (down h i n)) k n.
Proof. intros. apply down_loop_heap; [lia|done..]. Qed.

Lemma heap_from_prefix l l' k n :
  (forall m, m < n -> l' !! m = l !! m) -> heap_from before l k n -> heap_from before l' k n.
Proof.
  intros E Hh i Hi Hk x y. pose proof (parent_lt i ltac:(lia)).
  rewrite !E by lia. by apply Hh.
Qed.

Lemma up_perm h j : j < Len h -> view (up h j) ≡ₚ view h.
Proof. apply up_loop_perm. Qed.

Lemma Push_perm h x : view (Push x h) ≡ₚ x :: view h.
Proof.
  unfold Push. rewrite up_perm; rewrite ?Len_view, PushBack_view, ?length_app; simpl; [|lia].
  by rewrite Permutation_app_comm.
Qed.

Lemma Push_heap h x : heap_ordered before (view h) -> heap_ordered before (view (Push x h)).
Proof.
  intros Hh. unfold heap_ordered. rewrite (Permutation_length (Push_perm h x)). simpl.
  unfold Push. set (h1 := PushBack x h).
  assert (view h1 = view h ++ [x]) as Hv by apply PushBack_view.
  assert (Len h1 = S (length (view h))) as HL
    by (rewrite Len_view, Hv, length_app; simpl; lia).
  rewrite <- HL. apply up_loop_heap; try lia. rewrite HL, Hv. split.
  - intros i Hi Hne. pose proof (parent_lt i ltac:(lia)).
    intros y z. rewrite !lookup_app_l by lia. apply Hh; lia.
  - intros c Hpos Hc Hpc. pose proof (parent_lt c ltac:(lia)). lia.
Qed.

Lemma heap_root_before h x y :
  heap_ordered before (view h) -> view h !! 0 = Some x -> y ∈ view h -> before y x = false.
Proof.
  intros Hh Hx [i Hy]%list_elem_of_lookup.
  eapply (heap_root before (view h)); eauto using lookup_lt_Some.
Qed.

Lemma Pop_spec h :
  heap_ordered before (view h) -> Len h <> 0 ->
  exists x h', Pop h = Some (x, h') /\ view h ≡ₚ x :: view h' /\
    heap_ordered before (view h') /\ Forall (fun y => before y x = false) (view h').
Proof.
  intros Hh Hne. unfold Pop. destruct (Len h) as [|n] eqn:HL; [done|].
  set (h1 := SwapAt 0 n h). set (h2 := down h1 0 n).
  assert (view h1 = swap 0 n (view h)) as Hv1 by (apply SwapAt_view; lia).
  assert (Len h1 = S n) as HL1 by (subst h1; rewrite SwapAt_Len; lia).
  assert (view h2 ≡ₚ view h1 /\ forall m, n <= m -> view h2 !! m = view h1 !! m) as [Hp Hk].
  { destruct n; [by replace h2 with h1 by done|]. apply down_view; lia. }
  destruct (view h !! 0) as [x|] eqn:Hx;
    [|apply lookup_ge_None in Hx; rewrite <- Len_view in Hx; lia].
  assert (view h2 !! n = Some x) as Hn.
  { rewrite Hk, Hv1, swap_lookup by (rewrite <- ?Len_view; lia).
    unfold transpose. case_decide; subst; [done|]. by rewrite decide_True. }
  assert (length (view h2) = S n) as Hlen
    by (rewrite (Permutation_length Hp), <- Len_view; done).
  assert (view h2 = take n (view h2) ++ [x]) as Hsplit.
  { rewrite <- (take_drop n (view h2)) at 1. f_equal.
    rewrite (drop_S _ x) by done. by rewrite drop_ge by lia. }
  destruct (PopBack_view _ _ _ Hsplit) as (h' & -> & Hv').
  assert (view h ≡ₚ x :: view h') as Hperm.
  { rewrite <- (swap_perm (view h) 0 n), <- Hv1, <- Hp, Hsplit, <- Hv'.
    by rewrite Permutation_app_comm. }
  exists x, h'. split_and!; [done|done| |].
  - unfold heap_ordered. rewrite Hv', length_take, Hlen, Nat.min_l by lia.
    apply (heap_from_prefix (view h2)); [intros; by rewrite lookup_take_lt by lia|].
    apply down_heap; [lia|]. rewrite Hv1. split; [|lia].
    intros i Hi _ Hne'. pose proof (parent_lt i ltac:(lia)).
    rewrite le_at_swap by (rewrite <- Len_view; lia).
    unfold transpose. rewrite !decide_False by lia. apply Hh; rewrite <- ?Len_view; lia.
  - apply Forall_forall. intros y Hy. apply (heap_root_before h); [done..|].
    rewrite Hperm. by constructor.
Qed.

(** [Pop] loses no element, even of a collection that is not in heap order. *)
Lemma Pop_some h :
  Len h <> 0 -> exists x h', Pop h = Some (x, h') /\ view h ≡ₚ x :: view h'.
Proof.
  intros Hne. unfold Pop. destruct (Len h) as [|n] eqn:HL; [done|].
  set (h1 := SwapAt 0 n h). set (h2 := down h1 0 n).
  assert (Len h1 = S n) as HL1 by (subst h1; rewrite SwapAt_Len; lia).
  assert (view h2 ≡ₚ view h) as Hp.
  { rewrite <- (swap_perm (view h) 0 n), <- SwapAt_view by lia. fold h1.
    destruct n; [by replace h2 with h1 by done|]. apply down_view; lia. }
  destruct (last_cons_snoc (view h2)) as (l & x & Hl).
  { intros E. rewrite E in Hp. apply Permutation_nil_l in Hp. by rewrite Len_view, <- Hp in HL. }
  destruct (PopBack_view h2 l x Hl) as (h' & -> & Hv'). exists x, h'. split; [done|].
  by rewrite <- Hp, Hl, Hv', Permutation_app_comm.
Qed.

Lemma Pop_empty h : Len h = 0 -> Pop h = None.
Proof. unfold Pop. by intros ->. Qed.

Lemma Init_heap h : heap_ordered before (view (Init h)) /\ view (Init h) ≡ₚ view h.
Proof.
  unfold Init. set (n := Len h).
  assert (forall k h, Len h = n -> k <= n / 2 -> heap_from before (view h) k n ->
    heap_from before (view (init_loop k n h)) 0 n /\ view (init_loop k n h) ≡ₚ view h) as Hloop.
  { clearbody n. clear h. intros k. induction k as [|k IH]; intros h HL Hk Hh; simpl; [done|].
    pose proof (Nat.Div0.mul_div_le n 2).
    destruct (down_view h k n) as [Hp _]; [lia..|].
    destruct (IH (down h k n)) as [IH1 IH2]; [|lia| |].
    - by rewrite !Len_view, (Permutation_length Hp), <- Len_view in *.
    - apply down_heap; [lia|]. split.
      + intros i Hi Hki Hne. apply Hh; lia.
      + intros c Hpos Hk'. pose proof (parent_lt k ltac:(lia)). lia.
    - split; [done|]. by rewrite IH2. }
  destruct (Hloop (n / 2) h) as [H1 H2]; [done..| |].
  - intros i Hi Hk. exfalso.
    pose proof (Nat.div_mod_eq n 2). pose proof (Nat.mod_upper_bound n 2 ltac:(lia)).
    assert (parent i = parent i) as E%parent_children by done; lia.
  - split; [|done]. unfold heap_ordered. by rewrite (Permutation_length H2), <- Len_view.
Qed.

Lemma drain_sorted fuel h :
  heap_ordered before (view h) -> Len h <= fuel ->
  drain fuel h ≡ₚ view h /\ sorted_by before (drain fuel h).
Proof.
  revert h. induction fuel as [|fuel IH]; intros h Hh Hf; simpl.
  { rewrite Len_view in Hf. by destruct (view h) as [|]; [|simpl in Hf; lia]. }
  destruct (decide (Len h = 0)) as [E|E].
  { rewrite Pop_empty by done. rewrite Len_view in E. by destruct (view h). }
  destruct (Pop_spec h Hh E) as (x & h' & -> & Hp & Hh' & Hmin).
  assert (Len h' <= fuel) by (rewrite Len_view in *; rewrite Hp in Hf; simpl in Hf; lia).
  destruct (IH h') as [IH1 IH2]; [done..|]. simpl. split_and!; [by rewrite Hp, IH1| |done].
  by rewrite IH1.
Qed.

End correct.
