(* ===== verification/Task.v ===== *)
(** * Tasks: the state machine of [internal/task/task.go]

    [Task] is the struct, a method is a function from the receiver's value to
    its new value and the returned [error].  The pointer through which the
    scheduler, the store and the dispatch loops share a task is modelled in
    [Scheduler.v]; this file is about one task. *)

From S2P Require Import Prelude GoTime.

Open Scope string_scope.
Open Scope list_scope.
Open Scope Z_scope.

(** ** Data *)

(** [type State int].  [StateOther n] is a value outside the seven constants,
    which only data read back from disk could hold. *)

Inductive State :=
  | StateQueued | StateAssigned | StateRunning | StateCompleted
  | StateFailed | StateRetrying | StateDead
  | StateOther (n : Z).

#[export] Instance State_eq_dec : EqDecision State.
Proof. solve_decision. Defined.

Definition State_String (s : State) : string :=
  match s with
  | StateQueued => "QUEUED"
  | StateAssigned => "ASSIGNED"
  | StateRunning => "RUNNING"
  | StateCompleted => "COMPLETED"
  | StateFailed => "FAILED"
  | StateRetrying => "RETRYING"
  | StateDead => "DEAD"
  | StateOther _ => "UNKNOWN"
  end.

Definition IsTerminal (s : State) : bool :=
  bool_decide (s = StateCompleted) || bool_decide (s = StateDead).

(** [type Priority int]. *)

Abbreviation Priority := Z (only parsing).

Definition PriorityLow : Priority := 0.
Definition PriorityNormal : Priority := 1.
Definition PriorityHigh : Priority := 2.

(** The map lookup [validTransitions[s]]: nil for a state that is not a key. *)

Definition validTransitions (s : State) : list State :=
  match s with
  | StateQueued => [StateAssigned]
  | StateAssigned => [StateRunning; StateQueued]
  | StateRunning => [StateCompleted; StateFailed]
  | StateFailed => [StateRetrying; StateDead]
  | StateRetrying => [StateQueued]
  | StateCompleted => []
  | StateDead => [StateQueued]
  | StateOther _ => []
  end.

Inductive TaskType :=
  | TaskTypeScriptPath | TaskTypeInline | TaskTypeArchive
  | TaskTypeOther (n : Z).

#[export] Instance TaskType_eq_dec : EqDecision TaskType.
Proof. solve_decision. Defined.

Definition TaskType_String (t : TaskType) : string :=
  match t with
  | TaskTypeScriptPath => "SCRIPT_PATH"
  | TaskTypeInline => "INLINE"
  | TaskTypeArchive => "ARCHIVE"
  | TaskTypeOther _ => "UNKNOWN"
  end.

Record Task := mkTask {
  tID : string;
  tScript : string;
  tState : State;
  tPriority : Priority;
  tAttempt : Z;        (* int32 *)
  tMaxRetries : Z;     (* int32 *)
  tWorkerID : string;
  tOutput : string;
  tError : string;
  tExitCode : Z;       (* int32 *)
  tType : TaskType;
  tContent : string;
  tLanguage : string;
  tEntrypoint : string;
  tCreatedAt : Time;
  tAssignedAt : Time;
  tStartedAt : Time;
  tCompletedAt : Time;
  tNextRetryAt : Time;
  tTimeoutSec : Z      (* int64 *)
}.

#[export] Instance Task_struct : Struct Task := fun t =>
  mkTask (tID t) (tScript t) (tState t) (tPriority t) (tAttempt t) (tMaxRetries t)
    (tWorkerID t) (tOutput t) (tError t) (tExitCode t) (tType t) (tContent t)
    (tLanguage t) (tEntrypoint t) (tCreatedAt t) (tAssignedAt t) (tStartedAt t)
    (tCompletedAt t) (tNextRetryAt t) (tTimeoutSec t).

#[export] Instance Task_eq_dec : EqDecision Task.
Proof. solve_decision. Defined.

(** The zero value of the struct. *)

#[export] Instance Task_inhabited : Inhabited Task :=
  populate (mkTask "" "" StateQueued 0 0 0 "" "" "" 0 TaskTypeScriptPath "" "" ""
    zeroTime zeroTime zeroTime zeroTime zeroTime 0).

(** ** Constructors *)

Definition New (now : Time) (id script : string) : Task :=
  inhabitant <| tID := id |> <| tScript := script |> <| tState := StateQueued |>
    <| tPriority := PriorityNormal |> <| tAttempt := 0 |> <| tMaxRetries := 3 |>
    <| tCreatedAt := now |> <| tTimeoutSec := 300 |>.

Definition NewInline (now : Time) (id content language : string) : Task :=
  (New now id "") <| tType := TaskTypeInline |> <| tContent := content |>
    <| tLanguage := language |>.

Definition NewArchive (now : Time) (id content entrypoint language : string) : Task :=
  (New now id "") <| tType := TaskTypeArchive |> <| tContent := content |>
    <| tEntrypoint := entrypoint |> <| tLanguage := language |>.

(** ** Methods

    A method returns the receiver's new value and the [error] ([None] is nil).
    [t <~ m ;; k] is [if err := m; err != nil { return err }; k]. *)

Abbreviation error := (option string).

Notation "t <~ m ;; k" :=
  (match m with
   | (t, None) => k
   | (t, Some err) => (t, Some err)
   end) (at level 100, m at next level, right associativity) : mw_scope.

Definition invalidTransition (t : Task) (to : State) : string :=
  "invalid transition: " +:+ State_String (tState t) +:+ " → " +:+ State_String to
    +:+ " for task " +:+ tID t.

Definition Transition (to : State) (t : Task) : Task * error :=
  if existsb (fun s => bool_decide (s = to)) (validTransitions (tState t))
  then (t <| tState := to |>, None)
  else (t, Some (invalidTransition t to)).

Definition Assign (now : Time) (workerID : string) (t : Task) : Task * error :=
  t <~ Transition StateAssigned t ;;
  (t <| tWorkerID := workerID |> <| tAssignedAt := now |>
     <| tAttempt := int32 (tAttempt t + 1) |>, None).

Definition Start (now : Time) (t : Task) : Task * error :=
  t <~ Transition StateRunning t ;;
  (t <| tStartedAt := now |>, None).

Definition Complete (now : Time) (output : string) (exitCode : Z) (t : Task) : Task * error :=
  t <~ Transition StateCompleted t ;;
  (t <| tOutput := output |> <| tExitCode := exitCode |> <| tCompletedAt := now |>, None).

Definition Fail (now : Time) (errMsg : string) (exitCode : Z) (t : Task) : Task * error :=
  t <~ Transition StateFailed t ;;
  (t <| tError := errMsg |> <| tExitCode := exitCode |> <| tCompletedAt := now |>, None).

(** What [ScheduleRetry] reads from the outside: the clock, [rand.Int63n(1e9)]
    and the platform's out-of-range float conversion. *)

Record RetryEnv := mkRetryEnv { envNow : Time; envRand : Z; envOor : Z }.

Definition backoff (oor attempt : Z) : Duration :=
  mulDuration (pow2ToDuration oor attempt) Second.

Definition ScheduleRetry (env : RetryEnv) (t : Task) : Task * error :=
  if tMaxRetries t <=? tAttempt t then Transition StateDead t
  else
    t <~ Transition StateRetrying t ;;
    let jitter := envRand env in
    (t <| tNextRetryAt :=
       Add (envNow env) (addDuration (backoff (envOor env) (tAttempt t)) jitter) |>, None).

Definition Requeue (t : Task) : Task * error := Transition StateQueued t.

Definition RetryFromDLQ (t : Task) : Task * error :=
  t <~ Transition StateQueued t ;;
  (t <| tAttempt := 0 |> <| tError := "" |>, None).

Definition TaskDuration (t : Task) : Duration :=
  if IsZero (tStartedAt t) || IsZero (tCompletedAt t) then 0
  else Sub (tCompletedAt t) (tStartedAt t).

#[global] Arguments Transition : simpl never.
#[global] Arguments Assign : simpl never.
#[global] Arguments Start : simpl never.
#[global] Arguments Complete : simpl never.
#[global] Arguments Fail : simpl never.
#[global] Arguments ScheduleRetry : simpl never.
#[global] Arguments Requeue : simpl never.
#[global] Arguments RetryFromDLQ : simpl never.

(** ** The method calls a task can receive *)

Inductive TaskCall :=
  | CallAssign (now : Time) (workerID : string)
  | CallStart (now : Time)
  | CallComplete (now : Time) (output : string) (exitCode : Z)
  | CallFail (now : Time) (errMsg : string) (exitCode : Z)
  | CallScheduleRetry (env : RetryEnv)
  | CallRequeue
  | CallRetryFromDLQ.

Definition call (c : TaskCall) (t : Task) : Task * error :=
  match c with
  | CallAssign now w => Assign now w t
  | CallStart now => Start now t
  | CallComplete now out code => Complete now out code t
  | CallFail now msg code => Fail now msg code t
  | CallScheduleRetry env => ScheduleRetry env t
  | CallRequeue => Requeue t
  | CallRetryFromDLQ => RetryFromDLQ t
  end.

(** A sequence of calls whose errors are ignored, as the scheduler ignores them. *)

Definition calls (cs : list TaskCall) (t : Task) : Task := foldl (fun t c => fst (call c t)) t cs.

(** One execution that fails: assigned, started, failed, and sent to retry. *)

Record RunEnv := mkRunEnv {
  runWorker : string; runAssign : Time; runStart : Time; runFail : Time;
  runMsg : string; runCode : Z; runRetry : RetryEnv
}.

Definition failedRun (e : RunEnv) (t : Task) : Task :=
  calls [CallAssign (runAssign e) (runWorker e); CallStart (runStart e);
         CallFail (runFail e) (runMsg e) (runCode e); CallScheduleRetry (runRetry e)] t.

(** Successive failed executions, requeued in between. *)

Fixpoint failedRuns (es : list RunEnv) (t : Task) : Task :=
  match es with
  | [] => t
  | e :: es => failedRuns es (fst (Requeue (failedRun e t)))
  end.

(** ** Lemmas: [Transition] *)

Lemma Transition_cases (to : State) (t : Task) :
  (to ∈ validTransitions (tState t) /\ Transition to t = (t <| tState := to |>, None)) \/
  ((to ∉ validTransitions (tState t)) /\ Transition to t = (t, Some (invalidTransition t to))).
Proof.
  unfold Transition. destruct (existsb _ _) eqn:E; [left|right]; split; try done.
  - apply existsb_exists in E as (s & Hs & ->%bool_decide_eq_true). by apply list_elem_of_In.
  - intros Hin%list_elem_of_In. apply not_true_iff_false in E. apply E.
    apply existsb_exists. exists to. by rewrite bool_decide_eq_true.
Qed.

Lemma Transition_ok (to : State) (t : Task) :
  to ∈ validTransitions (tState t) -> Transition to t = (t <| tState := to |>, None).
Proof. intros. by destruct (Transition_cases to t) as [[_ E]|[? _]]. Qed.

Lemma Transition_err (to : State) (t : Task) :
  to ∉ validTransitions (tState t) -> Transition to t = (t, Some (invalidTransition t to)).
Proof. intros. by destruct (Transition_cases to t) as [[? _]|[_ E]]. Qed.

(** Case analysis on the validated transition a method starts with. *)
Ltac transition_cases :=
  match goal with
  | |- context [ Transition ?to ?t ] =>
      let Hv := fresh "Hv" in let E := fresh "E" in
      destruct (Transition_cases to t) as [[Hv E]|[Hv E]]; rewrite E; simpl
  end.

Lemma error_unchanged (c : TaskCall) (t t' : Task) (e : string) :
  call c t = (t', Some e) -> t' = t.
Proof.
  destruct c; simpl; unfold Assign, Start, Complete, Fail, ScheduleRetry, Requeue, RetryFromDLQ;
    repeat case_match; intros; simplify_eq/=;
    match goal with H : Transition ?to ?u = _ |- _ =>
      destruct (Transition_cases to u) as [[_ E]|[_ E]]; rewrite E in H; simplify_eq; by simpl_fields end.
Qed.

Lemma success_edge (c : TaskCall) (t t' : Task) :
  call c t = (t', None) -> tState t' ∈ validTransitions (tState t).
Proof.
  destruct c; simpl; unfold Assign, Start, Complete, Fail, ScheduleRetry, Requeue, RetryFromDLQ;
    repeat case_match; intros; simplify_eq/=;
    match goal with H : Transition ?to ?u = _ |- _ =>
      destruct (Transition_cases to u) as [[Hv E]|[_ E]]; rewrite E in H; simplify_eq; by simpl_fields end.
Qed.

Lemma call_cases (c : TaskCall) (t : Task) :
  fst (call c t) = t \/ tState (fst (call c t)) ∈ validTransitions (tState t).
Proof.
  destruct (call c t) as [t' [e|]] eqn:E; simpl.
  - left. by eapply error_unchanged.
  - right. by eapply success_edge.
Qed.

(** ** Lemmas: the methods where the machine lets them through *)

Lemma Assign_queued now w t :
  tState t = StateQueued ->
  Assign now w t = (t <| tState := StateAssigned |> <| tWorkerID := w |>
    <| tAssignedAt := now |> <| tAttempt := int32 (tAttempt t + 1) |>, None).
Proof. intros E. unfold Assign. rewrite Transition_ok by (rewrite E; set_solver). by simpl_fields_goal. Qed.

Lemma Start_assigned now t :
  tState t = StateAssigned ->
  Start now t = (t <| tState := StateRunning |> <| tStartedAt := now |>, None).
Proof. intros E. unfold Start. rewrite Transition_ok by (rewrite E; set_solver). by simpl_fields_goal. Qed.

Lemma Complete_running now out code t :
  tState t = StateRunning ->
  Complete now out code t = (t <| tState := StateCompleted |> <| tOutput := out |>
    <| tExitCode := code |> <| tCompletedAt := now |>, None).
Proof. intros E. unfold Complete. rewrite Transition_ok by (rewrite E; set_solver). by simpl_fields_goal. Qed.

Lemma Fail_running now msg code t :
  tState t = StateRunning ->
  Fail now msg code t = (t <| tState := StateFailed |> <| tError := msg |>
    <| tExitCode := code |> <| tCompletedAt := now |>, None).
Proof. intros E. unfold Fail. rewrite Transition_ok by (rewrite E; set_solver). by simpl_fields_goal. Qed.

Lemma ScheduleRetry_dead env t :
  tState t = StateFailed -> tMaxRetries t <= tAttempt t ->
  ScheduleRetry env t = (t <| tState := StateDead |>, None).
Proof.
  intros E Ha. unfold ScheduleRetry. rewrite (proj2 (Z.leb_le _ _)) by done.
  apply Transition_ok. rewrite E. set_solver.
Qed.

Lemma ScheduleRetry_retry env t :
  tState t = StateFailed -> tAttempt t < tMaxRetries t ->
  ScheduleRetry env t = (t <| tState := StateRetrying |> <| tNextRetryAt :=
    Add (envNow env) (addDuration (backoff (envOor env) (tAttempt t)) (envRand env)) |>, None).
Proof.
  intros E Ha. unfold ScheduleRetry. rewrite (proj2 (Z.leb_gt _ _)) by done.
  rewrite Transition_ok by (rewrite E; set_solver). by simpl_fields_goal.
Qed.

Lemma Requeue_retrying t :
  tState t = StateRetrying -> Requeue t = (t <| tState := StateQueued |>, None).
Proof. intros E. apply Transition_ok. rewrite E. set_solver. Qed.

(** Run the methods whose receiver's state is known. *)
Ltac task_state := simpl_fields_goal; first [done | lia].

Ltac run_task :=
  unfold calls; cbn [foldl call];
  repeat (first
    [ rewrite Assign_queued by task_state | rewrite Start_assigned by task_state
    | rewrite Complete_running by task_state | rewrite Fail_running by task_state
    | rewrite Requeue_retrying by task_state ]; cbn [fst]).

Lemma failedRun_queued e t :
  tState t = StateQueued -> in_range 32 (tAttempt t + 1) ->
  let t' := failedRun e t in
  tAttempt t' = tAttempt t + 1 /\ tMaxRetries t' = tMaxRetries t /\
  tCompletedAt t' = runFail e /\
  tState t' = (if decide (tMaxRetries t <= tAttempt t + 1) then StateDead else StateRetrying).
Proof.
  intros E Hr t'. subst t'. unfold failedRun. run_task.
  assert (int32 (tAttempt t + 1) = tAttempt t + 1) as Hi by (apply wrap_id; [lia|done]).
  case_decide.
  - rewrite ScheduleRetry_dead by task_state. cbn [fst]. by simpl_fields_goal.
  - rewrite ScheduleRetry_retry by task_state. cbn [fst]. by simpl_fields_goal.
Qed.

Lemma failedRuns_queued es t :
  tState t = StateQueued -> 0 <= tAttempt t -> tMaxRetries t < 2 ^ 31 ->
  tAttempt t + Z.of_nat (length es) < tMaxRetries t ->
  let t' := failedRuns es t in
  tState t' = StateQueued /\ tAttempt t' = tAttempt t + Z.of_nat (length es) /\
  tMaxRetries t' = tMaxRetries t.
Proof.
  revert t. induction es as [|e es IH]; intros t E H0 Hm Hlen; simpl.
  { split_and!; [done|lia|done]. }
  simpl in Hlen.
  destruct (failedRun_queued e t) as (Ha & Hmax & _ & Hs); [done|unfold in_range; lia|].
  rewrite decide_False in Hs by lia.
  rewrite Requeue_retrying by done. cbn [fst].
  set (t1 := (failedRun e t) <| tState := StateQueued |>).
  assert (tState t1 = StateQueued /\ tAttempt t1 = tAttempt t + 1 /\
    tMaxRetries t1 = tMaxRetries t) as (Hq1 & Ha1 & Hm1) by (subst t1; by simpl_fields_goal).
  destruct (IH t1) as (IH1 & IH2 & IH3); [done|lia..|].
  split_and!; [done|lia|lia].
Qed.

Lemma backoff_exact oor a : 0 <= a <= 33 -> backoff oor a = 2 ^ a * Second.
Proof.
  intros Ha. unfold backoff, mulDuration, Second. rewrite pow2ToDuration_small by lia.
  apply int64_id. pose proof (Z.pow_le_mono_r 2 a 33 ltac:(lia) ltac:(lia)).
  pose proof (Z.pow_pos_nonneg 2 a). lia.
Qed.

(** ** Properties *)

(** The state machine that the comments of task.go describe, edge by edge. *)

Definition edges : list (State * State) :=
  [(StateQueued, StateAssigned); (StateAssigned, StateRunning); (StateAssigned, StateQueued);
   (StateRunning, StateCompleted); (StateRunning, StateFailed);
   (StateFailed, StateRetrying); (StateFailed, StateDead);
   (StateRetrying, StateQueued); (StateDead, StateQueued)].

(** The state that a call asks for, and the task after it when it is granted. *)

Definition target (c : TaskCall) (t : Task) : State :=
  match c with
  | CallAssign _ _ => StateAssigned
  | CallStart _ => StateRunning
  | CallComplete _ _ _ => StateCompleted
  | CallFail _ _ _ => StateFailed
  | CallScheduleRetry _ => if decide (tMaxRetries t <= tAttempt t) then StateDead else StateRetrying
  | CallRequeue | CallRetryFromDLQ => StateQueued
  end.

Definition granted (c : TaskCall) (t : Task) : Task :=
  let t' := t <| tState := target c t |> in
  match c with
  | CallAssign now w => t' <| tWorkerID := w |> <| tAssignedAt := now |> <| tAttempt := int32 (tAttempt t + 1) |>
  | CallStart now => t' <| tStartedAt := now |>
  | CallComplete now out code => t' <| tOutput := out |> <| tExitCode := code |> <| tCompletedAt := now |>
  | CallFail now msg code => t' <| tError := msg |> <| tExitCode := code |> <| tCompletedAt := now |>
  | CallScheduleRetry env =>
      if decide (tMaxRetries t <= tAttempt t) then t'
      else t' <| tNextRetryAt := Add (envNow env) (addDuration (backoff (envOor env) (tAttempt t)) (envRand env)) |>
  | CallRequeue => t'
  | CallRetryFromDLQ => t' <| tAttempt := 0 |> <| tError := "" |>
  end.

Lemma edges_valid s s' : (s, s') ∈ edges <-> s' ∈ validTransitions s.
Proof. unfold edges. rewrite !elem_of_cons, elem_of_nil. destruct s; cbn; rewrite ?elem_of_cons, ?elem_of_nil; naive_solver. Qed.

(** The calls start with [Transition] to their target. *)
Lemma call_transition c t :
  call c t = match Transition (target c t) t with (_, None) => (granted c t, None) | r => r end.
Proof.
  assert (forall to (f : Task -> Task),
    (match Transition to t with (u, None) => (f u, None) | (u, Some e) => (u, Some e) end) =
    match Transition to t with (_, None) => (f (t <| tState := to |>), None) | r => r end) as Hf.
  { intros to f. by destruct (Transition_cases to t) as [[_ E]|[_ E]]; rewrite E. }
  destruct c; unfold call, target, granted; cbv beta iota zeta.
  - unfold Assign. rewrite (Hf StateAssigned (fun t => t <| tWorkerID := workerID |> <| tAssignedAt := now |>
      <| tAttempt := int32 (tAttempt t + 1) |>)). by simpl_fields_goal.
  - apply (Hf StateRunning (fun t => t <| tStartedAt := now |>)).
  - apply (Hf StateCompleted (fun t => t <| tOutput := output |> <| tExitCode := exitCode |> <| tCompletedAt := now |>)).
  - apply (Hf StateFailed (fun t => t <| tError := errMsg |> <| tExitCode := exitCode |> <| tCompletedAt := now |>)).
  - unfold ScheduleRetry, target. destruct (Z.leb_spec (tMaxRetries t) (tAttempt t)).
    + rewrite !decide_True by done. by destruct (Transition_cases StateDead t) as [[_ E]|[_ E]]; rewrite E.
    + rewrite !decide_False by lia. rewrite (Hf StateRetrying (fun t => t <| tNextRetryAt :=
        Add (envNow env) (addDuration (backoff (envOor env) (tAttempt t)) (envRand env)) |>)). by simpl_fields_goal.
  - unfold Requeue. by destruct (Transition_cases StateQueued t) as [[_ E]|[_ E]]; rewrite E.
  - apply (Hf StateQueued (fun t => t <| tAttempt := 0 |> <| tError := "" |>)).
Qed.

(** Claim C15: a method call on a task is granted exactly when the documented state
    machine has an edge from the task's state to the state that the call asks for;
    then that is its state and exactly the call's own fields change; otherwise the
    call returns an error and leaves every field as it was. So whatever calls a
    task receives, with the errors ignored as the scheduler ignores them, its state
    moves along single edges, and a completed task never changes. *)
Theorem calls_follow_transitions (c : TaskCall) (t : Task) :
  ((tState t, target c t) ∈ edges -> call c t = (granted c t, None)) /\
  ((tState t, target c t) ∉ edges -> call c t = (t, Some (invalidTransition t (target c t)))) /\
  (forall cs, tState (calls (cs ++ [c]) t) = tState (calls cs t) \/
              (tState (calls cs t), tState (calls (cs ++ [c]) t)) ∈ edges) /\
  (forall cs, tState t = StateCompleted -> calls cs t = t).
Proof.
  split_and!.
  - rewrite edges_valid. intros Hv. by rewrite call_transition, Transition_ok.
  - rewrite edges_valid. intros Hv. by rewrite call_transition, Transition_err.
  - intros cs. unfold calls. rewrite foldl_app. cbn [foldl]. rewrite edges_valid.
    destruct (call_cases c (foldl (fun t c => fst (call c t)) t cs)) as [E|E]; [left; by rewrite E|by right].
  - intros cs. revert t. induction cs as [|c' cs IH]; intros t Ht; [done|]. cbn [calls foldl].
    destruct (call_cases c' t) as [E|E]; [rewrite E; by apply IH|]. rewrite Ht in E. set_solver.
Qed.

Lemma calls_follow_transitions_witness :
  call (CallComplete 9 "done" 0) (New 5 "a" "a.sh") =
    (New 5 "a" "a.sh", Some (invalidTransition (New 5 "a" "a.sh") StateCompleted)) /\
  call (CallAssign 9 "w") (New 5 "a" "a.sh") = (granted (CallAssign 9 "w") (New 5 "a" "a.sh"), None).
Proof.
  destruct (calls_follow_transitions (CallComplete 9 "done" 0) (New 5 "a" "a.sh")) as (_ & H & _).
  destruct (calls_follow_transitions (CallAssign 9 "w") (New 5 "a" "a.sh")) as (H' & _).
  split; [apply H|apply H']; apply (bool_decide_unpack _); vm_compute; exact I.
Defined.

(** COMPLETED is final: no sequence of method calls changes anything in
    a completed task. *)
Theorem completed_is_final (cs : list TaskCall) (t : Task) (H : tState t = StateCompleted) :
  calls cs t = t.
Proof.
  revert t H. induction cs as [|c cs IH]; intros t Ht; [done|]. simpl.
  destruct (call_cases c t) as [E|E]; [rewrite E; by apply IH|].
  rewrite Ht in E. set_solver.
Qed.

Lemma completed_is_final_witness :
  let t := (New 5 "a" "a.sh") <| tState := StateCompleted |> in
  calls [CallRequeue; CallFail 9 "late" 1; CallRetryFromDLQ] t = t.
Proof. intros t. apply (completed_is_final _ t). reflexivity. Defined.

(** Claim C34: a queued task whose executions all fail is executed exactly
    [MaxRetries - Attempt] times: every execution before that one puts it back
    in the queue with one more attempt counted, and that one sends it to DEAD
    with [Attempt = MaxRetries]. *)
Theorem retries_are_bounded (es : list RunEnv) (e : RunEnv) (t : Task)
  (Hq : tState t = StateQueued) (H0 : 0 <= tAttempt t) (Hm : tMaxRetries t < 2 ^ 31)
  (Hlen : tAttempt t + Z.of_nat (length es) < tMaxRetries t) :
  tState (failedRuns es t) = StateQueued /\
  tAttempt (failedRuns es t) = tAttempt t + Z.of_nat (length es) /\
  (tState (failedRun e (failedRuns es t)) = StateDead <->
   tAttempt t + Z.of_nat (length es) + 1 = tMaxRetries t) /\
  tAttempt (failedRun e (failedRuns es t)) <= tMaxRetries t.
Proof.
  destruct (failedRuns_queued es t) as (Hs & Ha & Hmax); [done..|].
  destruct (failedRun_queued e (failedRuns es t)) as (Ha' & _ & _ & Hs');
    [done|unfold in_range; lia|].
  split_and!; [done..| |lia]. rewrite Hs'. case_decide; split; (done || lia).
Qed.

Lemma retries_are_bounded_witness :
  let e := mkRunEnv "w" 1 2 3 "boom" 1 (mkRetryEnv 4 0 0) in
  let t := New 0 "a" "a.sh" in
  tState (failedRun e (failedRuns [e; e] t)) = StateDead.
Proof.
  intros e t.
  apply (retries_are_bounded [e; e] e t);
    first [reflexivity | vm_compute; intros; discriminate | vm_compute; reflexivity].
Defined.

(** A failed task that has attempts left is retried no earlier than
    [2^Attempt] seconds after the failure was processed and less than one second
    later than that, for every attempt count up to 33, with no overflow; so the
    delay is never shorter than the exponential term, unlike a full-jitter
    delay. *)
Theorem retry_delay_window (env : RetryEnv) (t : Task)
  (Hs : tState t = StateFailed) (Ha : 0 <= tAttempt t <= 33)
  (Hm : tAttempt t < tMaxRetries t) (Hr : 0 <= envRand env < Second) :
  let t' := fst (ScheduleRetry env t) in
  tState t' = StateRetrying /\
  2 ^ tAttempt t * Second <= tNextRetryAt t' - envNow env < (2 ^ tAttempt t + 1) * Second.
Proof.
  rewrite ScheduleRetry_retry by done. cbn [fst]. simpl_fields_goal. split; [done|].
  unfold Add, addDuration. rewrite backoff_exact by done.
  pose proof (Z.pow_le_mono_r 2 (tAttempt t) 33 ltac:(lia) ltac:(lia)).
  pose proof (Z.pow_pos_nonneg 2 (tAttempt t)).
  unfold Second in *. rewrite int64_id by lia. lia.
Qed.

Lemma retry_delay_window_witness :
  let t := (New 0 "a" "a.sh") <| tState := StateFailed |> <| tAttempt := 2 |> in
  let env := mkRetryEnv 100 999999999 0 in
  tNextRetryAt (fst (ScheduleRetry env t)) - 100 < 5 * Second.
Proof.
  intros t env. apply (retry_delay_window env t); vm_compute; split; intros; (reflexivity || discriminate).
Defined.

(** While a retried task is running, [Duration] pairs the new start time
    with the completion time of the failed execution before it, so it is
    negative. *)
Theorem retried_duration_negative (e : RunEnv) (now1 now2 : Time) (w : string) (t : Task)
  (Hq : tState t = StateQueued) (Ha : 0 <= tAttempt t) (Hm : tAttempt t + 1 < tMaxRetries t)
  (Hi : tMaxRetries t < 2 ^ 31) (Hf : zeroTime < runFail e < now2) :
  let t' := calls [CallRequeue; CallAssign now1 w; CallStart now2] (failedRun e t) in
  tState t' = StateRunning /\ TaskDuration t' < 0.
Proof.
  unfold zeroTime in *.
  destruct (failedRun_queued e t) as (_ & _ & Hc & Hs); [done|unfold in_range; lia|].
  rewrite decide_False in Hs by lia.
  generalize dependent (failedRun e t). intros t1 Hc Hs. run_task.
  unfold TaskDuration, IsZero, zeroTime. simpl_fields_goal. split; [done|].
  rewrite !(proj2 (Z.eqb_neq _ _)) by lia. simpl. apply Sub_neg. lia.
Qed.

Lemma retried_duration_negative_witness :
  let e := mkRunEnv "w" 1 2 3 "boom" 1 (mkRetryEnv 4 0 0) in
  TaskDuration (calls [CallRequeue; CallAssign 8 "w"; CallStart 9] (failedRun e (New 0 "a" "a.sh"))) < 0.
Proof.
  intros e. apply (retried_duration_negative e 8 9 "w" (New 0 "a" "a.sh"));
    vm_compute; try split; intros; (reflexivity || discriminate).
Defined.
