(* ===== verification/Scheduler.v ===== *)
(** * The scheduler: [internal/task/scheduler.go]

    The scheduler holds pointers to tasks that the dispatch loops and the store
    also hold, so a task lives in a shared memory and the scheduler's queues
    hold locations.  [World] is that memory with the scheduler's struct; each
    exported method is one function on it, its critical section under [s.mu].
    Log calls are left out.  The clock, [rand] and the iteration order of
    [inFlight] are arguments.  The slices never leave the scheduler except as
    copies, so they are lists. *)

From S2P Require Import Prelude GoTime Heap Task.

Open Scope string_scope.
Open Scope list_scope.
Open Scope Z_scope.

(** ** Shared memory *)

Abbreviation loc := positive (only parsing).
Abbreviation Mem := (gmap loc Task) (only parsing).

(** A method call through a pointer. *)

Definition onTask (f : Task -> Task) (p : loc) (m : Mem) : Mem := <[p := f (m !!! p)]> m.

(** ** The priority queue: an implementation of heap.Interface *)

Definition taskLess (a b : Task) : bool :=
  if negb (tPriority a =? tPriority b) then tPriority b <? tPriority a
  else Before (tCreatedAt a) (tCreatedAt b).

Definition locLess (m : Mem) (p q : loc) : bool := taskLess (m !!! p) (m !!! q).

Definition pqLen (pq : list loc) : nat := length pq.

(** Out of range, Go panics; container/heap never goes there. *)

Definition pqLess (m : Mem) (pq : list loc) (i j : nat) : bool :=
  match pq !! i, pq !! j with
  | Some p, Some q => locLess m p q
  | _, _ => false
  end.

Definition pqSwap (i j : nat) (pq : list loc) : list loc := swap i j pq.

Definition pqPush (x : loc) (pq : list loc) : list loc := pq ++ [x].

Definition pqPop (pq : list loc) : option (loc * list loc) :=
  let n := length pq in
  match pq !! (n - 1)%nat with
  | Some item => Some (item, take (n - 1) pq)
  | None => None
  end.

Definition priorityQueue (m : Mem) : HeapInterface (list loc) loc := {|
  Len := pqLen; LessAt := pqLess m; SwapAt := pqSwap; PushBack := pqPush; PopBack := pqPop
|}.

Definition heapPush (m : Mem) : loc -> list loc -> list loc := @Push _ _ (priorityQueue m).
Definition heapPop (m : Mem) : list loc -> option (loc * list loc) := @Pop _ _ (priorityQueue m).
Definition heapInit (m : Mem) : list loc -> list loc := @Init _ _ (priorityQueue m).

(** ** State *)

Record Scheduler := mkScheduler {
  queue : list loc;
  retryQueue : list loc;
  deadLetter : list loc;
  inFlight : gmap string loc;
  completed : list loc;
  taskTimeout : Duration;
  totalCompleted : Z;   (* int64 *)
  totalFailed : Z;      (* int64 *)
  notify : bool         (* chan struct{} with a buffer of 1: is the signal there? *)
}.

#[export] Instance Scheduler_struct : Struct Scheduler := fun s =>
  mkScheduler (queue s) (retryQueue s) (deadLetter s) (inFlight s) (completed s)
    (taskTimeout s) (totalCompleted s) (totalFailed s) (notify s).

Record World := mkWorld { mem : Mem; sched : Scheduler }.

#[export] Instance World_struct : Struct World := fun w => mkWorld (mem w) (sched w).

Definition maxCompleted : nat := 100.
Definition maxQueuedInDash : nat := 200.

Definition NewScheduler (timeout : Duration) : Scheduler := {|
  queue := heapInit ∅ []; retryQueue := []; deadLetter := []; inFlight := ∅; completed := [];
  taskTimeout := timeout; totalCompleted := 0; totalFailed := 0; notify := false
|}.

(** Shorthands: assignments to fields of [s], method calls on tasks, and
    [heap.Push(&s.queue, t)]. *)

Definition withSched (f : Scheduler -> Scheduler) (w : World) : World :=
  w <| sched := f (sched w) |>.

Definition withTask (f : Task -> Task) (p : loc) (w : World) : World :=
  w <| mem := onTask f p (mem w) |>.

Definition pushQueue (p : loc) (w : World) : World :=
  withSched (fun s => s <| queue := heapPush (mem w) p (queue s) |>) w.

(** ** Operations *)

(** The non-blocking send on [s.notify]. *)

Definition Notify (w : World) : World := withSched (fun s => s <| notify := true |>) w.

Definition Enqueue (t : loc) (w : World) : World := Notify (pushQueue t w).

Definition Dequeue (w : World) : World * option loc :=
  if bool_decide (pqLen (queue (sched w)) = 0%nat) then (w, None)
  else
    match heapPop (mem w) (queue (sched w)) with
    | None => (w, None)   (* a panic in Go; the guard excludes it *)
    | Some (t, rest) =>
        let w := withSched (fun s => s <| queue := rest |>) w in
        let w := withSched (fun s => s <| inFlight := <[tID (mem w !!! t) := t]> (inFlight s) |>) w in
        (if bool_decide (0 < pqLen (queue (sched w)))%nat then Notify w else w, Some t)
    end.

(** The dispatch loop's receive from [NotifyChan()]; [None] blocks. *)

Definition receiveNotify (w : World) : option World :=
  if notify (sched w) then Some (withSched (fun s => s <| notify := false |>) w) else None.

Definition keepCompleted (t : loc) (s : Scheduler) : Scheduler :=
  let c := completed s ++ [t] in
  s <| completed := if bool_decide (maxCompleted < length c)%nat
                    then last_n maxCompleted c else c |>.

Definition SchedComplete (now : Time) (taskID output : string) (exitCode : Z) (w : World)
    : World * option loc :=
  match inFlight (sched w) !! taskID with
  | None => (w, None)
  | Some t =>
      let w := withSched (fun s => s <| inFlight := delete taskID (inFlight s) |>) w in
      let w := withTask (fun tk => fst (Complete now output exitCode tk)) t w in
      let w := withSched (fun s => s <| totalCompleted := int64 (totalCompleted s + 1) |>) w in
      (withSched (keepCompleted t) w, Some t)
  end.

(** What [t.Fail] and [t.ScheduleRetry] read from the outside. *)

Record FailEnv := mkFailEnv { failNow : Time; failRetry : RetryEnv }.

(** [t.ScheduleRetry()] and then the dead letter queue or the retry queue, the
    ending that [Fail] and [CheckTimeouts] share. *)

Definition retryOrBury (env : RetryEnv) (t : loc) (w : World) : World :=
  let w := withTask (fun tk => fst (ScheduleRetry env tk)) t w in
  if bool_decide (tState (mem w !!! t) = StateDead)
  then withSched (fun s => s <| deadLetter := deadLetter s ++ [t] |>) w
  else withSched (fun s => s <| retryQueue := retryQueue s ++ [t] |>) w.

Definition SchedFail (env : FailEnv) (taskID errMsg : string) (exitCode : Z) (w : World)
    : World * option loc :=
  match inFlight (sched w) !! taskID with
  | None => (w, None)
  | Some t =>
      let w := withSched (fun s => s <| inFlight := delete taskID (inFlight s) |>) w in
      let w := withTask (fun tk => fst (Fail (failNow env) errMsg exitCode tk)) t w in
      let w := withSched (fun s => s <| totalFailed := int64 (totalFailed s + 1) |>) w in
      (retryOrBury (failRetry env) t w, Some t)
  end.

(** [RequeueFromWorker]: the loop ranges over [inFlight] in the order [ord]. *)

Definition release (tk : Task) : Task := tk <| tState := StateQueued |> <| tWorkerID := "" |>.

Definition requeueOne (workerID : string) (acc : World * Z) (entry : string * loc) : World * Z :=
  let '(w, count) := acc in
  let '(id, t) := entry in
  if String.eqb (tWorkerID (mem w !!! t)) workerID then
    let w := withSched (fun s => s <| inFlight := delete id (inFlight s) |>) w in
    let w := withTask release t w in
    (pushQueue t w, count + 1)
  else (w, count).

Definition notifyIf (count : Z) (w : World) : World := if 0 <? count then Notify w else w.

Definition RequeueFromWorker (workerID : string) (ord : list (string * loc)) (w : World)
    : World * Z :=
  let '(w, count) := foldl (requeueOne workerID) (w, 0) ord in
  (notifyIf count w, count).

(** [ProcessRetries]: [remaining] and [count] are the loop's variables. *)

Definition retryOne (now : Time) (acc : World * list loc * Z) (t : loc) : World * list loc * Z :=
  let '(w, remaining, count) := acc in
  if After now (tNextRetryAt (mem w !!! t)) then
    let w := withTask (fun tk => fst (Requeue tk)) t w in
    (pushQueue t w, remaining, count + 1)
  else (w, remaining ++ [t], count).

Definition ProcessRetries (now : Time) (w : World) : World * Z :=
  let '(w, remaining, count) := foldl (retryOne now) (w, [], 0) (retryQueue (sched w)) in
  let w := withSched (fun s => s <| retryQueue := remaining |>) w in
  (notifyIf count w, count).

(** [CheckTimeouts]: which tasks have timed out, then the loop over them; the
    environment of each pass through the second loop is [envs] at its index. *)

Definition timedOut (now : Time) (tk : Task) : bool :=
  bool_decide (tState tk = StateRunning) && (0 <? tTimeoutSec tk) &&
  After now (Add (tStartedAt tk) (mulDuration (tTimeoutSec tk) Second)).

Definition timeoutOne (env : FailEnv) (t : loc) (w : World) : World :=
  let w := withSched (fun s => s <| inFlight := delete (tID (mem w !!! t)) (inFlight s) |>) w in
  let w := withTask (fun tk => fst (Fail (failNow env) "task execution timed out" (-1) tk)) t w in
  retryOrBury (failRetry env) t w.

Fixpoint timeoutLoop (envs : nat -> FailEnv) (i : nat) (ts : list loc) (w : World) : World :=
  match ts with
  | [] => w
  | t :: ts => timeoutLoop envs (S i) ts (timeoutOne (envs i) t w)
  end.

Definition CheckTimeouts (now : Time) (envs : nat -> FailEnv) (ord : list (string * loc))
    (w : World) : World * Z :=
  let ts := filter (fun t => timedOut now (mem w !!! t) = true) ord.*2 in
  (timeoutLoop envs 0 ts w, Z.of_nat (length ts)).

Definition DeadLetterQueue (w : World) : list loc := deadLetter (sched w).

Fixpoint findTask (m : Mem) (taskID : string) (l : list loc) : option nat :=
  match l with
  | [] => None
  | t :: l =>
      if String.eqb (tID (m !!! t)) taskID then Some O else S <$> findTask m taskID l
  end.

Definition SchedRetryFromDLQ (taskID : string) (w : World) : World * bool :=
  let dlq := deadLetter (sched w) in
  match findTask (mem w) taskID dlq with
  | None => (w, false)
  | Some i =>
      match dlq !! i with
      | None => (w, false)
      | Some t =>
          let w := withSched (fun s => s <| deadLetter := take i dlq ++ drop (S i) dlq |>) w in
          let w := withTask (fun tk => fst (RetryFromDLQ tk)) t w in
          (Notify (pushQueue t w), true)
      end
  end.

Record Stats := mkStats {
  QueueDepth : Z; InFlight : Z; RetryPending : Z; DeadLettered : Z;
  TotalCompleted : Z; TotalFailed : Z
}.

Definition SchedStats (w : World) : Stats :=
  let s := sched w in {|
  QueueDepth := Z.of_nat (length (queue s)); InFlight := Z.of_nat (size (inFlight s));
  RetryPending := Z.of_nat (length (retryQueue s));
  DeadLettered := Z.of_nat (length (deadLetter s));
  TotalCompleted := totalCompleted s; TotalFailed := totalFailed s
|}.

Definition InFlightTasks (ord : list (string * loc)) : list loc := ord.*2.

Definition AllTasks (ord : list (string * loc)) (w : World) : list loc :=
  let s := sched w in
  let queueLimit := Nat.min (length (queue s)) maxQueuedInDash in
  let start := if bool_decide (50 < length (completed s))%nat
               then (length (completed s) - 50)%nat else O in
  take queueLimit (queue s) ++ ord.*2 ++ retryQueue s ++ deadLetter s ++ drop start (completed s).
