(* ===== verification/SchedulerFacts.v ===== *)
(** * The scheduler's lemmas

    The priority queue implements the heap interface of [Heap.v]; what each
    operation of [Scheduler.v] does to the memory, the queues and the in-flight
    map; the scheduler's invariant and the conservation of tasks. *)

From S2P Require Import Prelude GoTime Heap Task Scheduler.

Open Scope string_scope.
Open Scope list_scope.
Open Scope Z_scope.

(** ** The invariant *)

(** The pointers the scheduler answers for. *)

Definition flight (s : Scheduler) : list loc := (map_to_list (inFlight s)).*2.

Definition pool (w : World) : list loc :=
  queue (sched w) ++ flight (sched w) ++ retryQueue (sched w) ++ deadLetter (sched w).

Definition idOf (m : Mem) (t : loc) : string := tID (m !!! t).

Record Inv (w : World) : Prop := {
  inv_heap : heap_ordered (locLess (mem w)) (queue (sched w));
  inv_keyed : forall id t, inFlight (sched w) !! id = Some t -> idOf (mem w) t = id;
  inv_ids : NoDup (idOf (mem w) <$> pool w)
}.

(** The part of it that holds after any sequence of calls, a task that is enqueued
    again while it is in flight included: the queue is a heap and every in-flight
    entry is under its task's id. *)

Record Loose (w : World) : Prop := {
  ls_heap : heap_ordered (locLess (mem w)) (queue (sched w));
  ls_keyed : forall id t, inFlight (sched w) !! id = Some t -> idOf (mem w) t = id
}.

Lemma inv_loose w : Inv w -> Loose w.
Proof. by intros []. Qed.

Coercion inv_loose : Inv >-> Loose.

(** What no method changes in any task. *)

Definition payload (t : Task) : TaskType * string * string * string * string * Z * Z :=
  (tType t, tScript t, tContent t, tLanguage t, tEntrypoint t, tMaxRetries t, tTimeoutSec t).

Definition sameKey (a b : Task) : Prop :=
  tID a = tID b /\ tPriority a = tPriority b /\ tCreatedAt a = tCreatedAt b /\ payload a = payload b.

#[export] Instance sameKey_equiv : Equivalence sameKey.
Proof.
  unfold sameKey. split; [by intros a|by intros a b (-> & -> & -> & ->)|].
  intros a b c (?&?&?&?) (?&?&?&?). split_and!; congruence.
Qed.

Definition stable (m m' : Mem) : Prop := forall t, sameKey (m !!! t) (m' !!! t).

(** An operation that keeps the scheduler's invariant and its pool. *)

Definition conserves (w w' : World) : Prop :=
  Inv w -> Inv w' /\ stable (mem w) (mem w') /\ pool w' ≡ₚ pool w.

(** ** The priority queue is a heap *)

Lemma taskLess_spec a b :
  taskLess a b = true <->
  tPriority b < tPriority a \/ tPriority a = tPriority b /\ tCreatedAt a < tCreatedAt b.
Proof.
  unfold taskLess, Before. destruct (Z.eqb_spec (tPriority a) (tPriority b)); simpl;
    rewrite Z.ltb_lt; lia.
Qed.

Lemma taskLess_false a b :
  taskLess a b = false <->
  tPriority a < tPriority b \/ tPriority a = tPriority b /\ tCreatedAt b <= tCreatedAt a.
Proof.
  pose proof (taskLess_spec a b). destruct (taskLess a b); [|split; [intros _|done]].
  - split; [done|]. destruct H as [H _]. specialize (H eq_refl). lia.
  - destruct H as [_ H].
    assert (~ (tPriority b < tPriority a \/ tPriority a = tPriority b /\ tCreatedAt a < tCreatedAt b))
      by (intros Hc; specialize (H Hc); done).
    lia.
Qed.

#[export] Instance locLess_swo (m : Mem) : StrictWeakOrder (locLess m).
Proof.
  unfold locLess. split; intros *; rewrite ?taskLess_spec, ?taskLess_false; try lia.
Qed.

Lemma pqLess_view (m : Mem) (h : list loc) i j x y :
  h !! i = Some x -> h !! j = Some y -> pqLess m h i j = locLess m x y.
Proof. intros Hi Hj. unfold pqLess. by rewrite Hi, Hj. Qed.

Lemma pqPop_view (h l : list loc) x :
  h = l ++ [x] -> exists h', pqPop h = Some (x, h') /\ h' = l.
Proof.
  intros ->. unfold pqPop. rewrite length_app. simpl.
  replace (length l + 1 - 1)%nat with (length l) by lia.
  rewrite lookup_app_r, Nat.sub_diag by lia. simpl. exists l. by rewrite take_app_length.
Qed.

#[export] Instance priorityQueue_laws (m : Mem) :
    @HeapLaws (list loc) loc (priorityQueue m) (locLess m) :=
  @Build_HeapLaws _ _ (priorityQueue m) _ (fun pq => pq) _
    (fun _ => eq_refl) (pqLess_view m) (fun _ _ _ _ _ => eq_refl)
    (fun _ _ => eq_refl) pqPop_view.

Section pq.
Variable m : Mem.
Implicit Types q : list loc.

Lemma heapPush_perm x q : heapPush m x q ≡ₚ x :: q.
Proof. exact (@Push_perm _ _ _ _ (priorityQueue_laws m) q x). Qed.

Lemma heapPush_ordered x q :
  heap_ordered (locLess m) q -> heap_ordered (locLess m) (heapPush m x q).
Proof. exact (@Push_heap _ _ _ _ (priorityQueue_laws m) q x). Qed.

Lemma heapPop_spec q :
  heap_ordered (locLess m) q -> q <> [] ->
  exists x q', heapPop m q = Some (x, q') /\ q ≡ₚ x :: q' /\
    heap_ordered (locLess m) q' /\ Forall (fun y => locLess m y x = false) q'.
Proof.
  intros Hh Hne. apply (@Pop_spec _ _ _ _ (priorityQueue_laws m) q Hh).
  simpl. unfold pqLen. by destruct q.
Qed.

Lemma heapPop_some q :
  q <> [] -> exists x q', heapPop m q = Some (x, q') /\ q ≡ₚ x :: q'.
Proof. intros Hne. apply (@Pop_some _ _ _ _ (priorityQueue_laws m) q). by destruct q. Qed.

Lemma heapPop_drain q :
  heap_ordered (locLess m) q ->
  @drain _ _ (priorityQueue m) (length q) q ≡ₚ q /\
  sorted_by (locLess m) (@drain _ _ (priorityQueue m) (length q) q).
Proof. intros. by apply (@drain_sorted _ _ _ _ (priorityQueue_laws m)). Qed.

End pq.

(** ** Memory *)

Lemma onTask_lookup f p q (m : Mem) :
  onTask f p m !!! q = if decide (q = p) then f (m !!! p) else m !!! q.
Proof.
  unfold onTask. case_decide; subst.
  - by rewrite lookup_total_insert_eq.
  - by rewrite lookup_total_insert_ne.
Qed.

#[export] Instance stable_preorder : PreOrder stable.
Proof.
  split; [by intros m t|]. intros a b c H1 H2 t.
  destruct (H1 t) as (?&?&?&?), (H2 t) as (?&?&?&?). split_and!; congruence.
Qed.

Lemma onTask_stable f p (m : Mem) : (forall t, sameKey t (f t)) -> stable m (onTask f p m).
Proof. intros Hf t. rewrite onTask_lookup. case_decide; subst; [apply Hf|done]. Qed.

Lemma call_sameKey c t : sameKey t (fst (call c t)).
Proof.
  destruct c; unfold call, sameKey, payload, Assign, Start, Complete, Fail, ScheduleRetry, Requeue,
    RetryFromDLQ; try destruct (_ <=? _);
    match goal with |- context [ Transition ?to ?u ] =>
      destruct (Transition_cases to u) as [[_ E]|[_ E]]; rewrite E end; cbn [fst];
    by simpl_fields_goal.
Qed.

Lemma release_sameKey t : sameKey t (release t).
Proof. unfold release, sameKey, payload. by simpl_fields_goal. Qed.

Lemma stable_ids (m m' : Mem) (l : list loc) : stable m m' -> idOf m' <$> l = idOf m <$> l.
Proof. intros Hs. apply list_fmap_ext. intros ? t _. symmetry. apply (Hs t). Qed.

Lemma stable_heap (m m' : Mem) q :
  stable m m' -> heap_ordered (locLess m) q -> heap_ordered (locLess m') q.
Proof.
  intros Hs Hh i Hi Hk x y Hx Hy. specialize (Hh i Hi Hk x y Hx Hy).
  unfold locLess in *. rewrite taskLess_false in *.
  destruct (Hs x) as (_&?&?&_), (Hs y) as (_&?&?&_). lia.
Qed.

#[export] Hint Resolve onTask_stable call_sameKey release_sameKey : mw.

(** ** Projections of the world's updates *)

Section proj.
Variables (f : Scheduler -> Scheduler) (g : Task -> Task) (p : loc) (w : World).

Lemma sched_withSched : sched (withSched f w) = f (sched w).
Proof. by destruct w. Qed.
Lemma mem_withSched : mem (withSched f w) = mem w.
Proof. by destruct w. Qed.
Lemma sched_withTask : sched (withTask g p w) = sched w.
Proof. by destruct w. Qed.
Lemma mem_withTask : mem (withTask g p w) = onTask g p (mem w).
Proof. by destruct w. Qed.
Lemma mem_pushQueue : mem (pushQueue p w) = mem w.
Proof. by destruct w. Qed.
Lemma sched_pushQueue :
  sched (pushQueue p w) = (sched w) <| queue := heapPush (mem w) p (queue (sched w)) |>.
Proof. by destruct w. Qed.
Lemma mem_Notify : mem (Notify w) = mem w.
Proof. by destruct w. Qed.
Lemma sched_Notify : sched (Notify w) = (sched w) <| notify := true |>.
Proof. by destruct w. Qed.
Lemma mem_notifyIf n : mem (notifyIf n w) = mem w.
Proof. unfold notifyIf. case_match; [apply mem_Notify|done]. Qed.
Lemma sched_notifyIf n :
  sched (notifyIf n w) = (sched w) <| notify := (0 <? n) || notify (sched w) |>.
Proof. unfold notifyIf. case_match; [apply sched_Notify|]. by destruct w as [? []]. Qed.

End proj.

#[export] Hint Rewrite sched_withSched mem_withSched sched_withTask mem_withTask mem_pushQueue
  sched_pushQueue mem_Notify sched_Notify mem_notifyIf sched_notifyIf : mw.

(** Compute the memory and the scheduler's fields after a sequence of updates. *)
Ltac world := repeat (progress (autorewrite with mw; simpl_fields_goal)).

(** ** Membership in the pool *)

Lemma flight_insert (s : Scheduler) id t :
  inFlight s !! id = None ->
  (map_to_list (<[id := t]> (inFlight s))).*2 ≡ₚ t :: flight s.
Proof. intros. unfold flight. by rewrite map_to_list_insert. Qed.

Lemma flight_delete (s : Scheduler) id t :
  inFlight s !! id = Some t ->
  flight s ≡ₚ t :: (map_to_list (delete id (inFlight s))).*2.
Proof.
  intros. unfold flight. rewrite <- (insert_delete_id (inFlight s) id t) at 1 by done.
  rewrite map_to_list_insert by apply lookup_delete_eq. done.
Qed.

Lemma flight_elem (s : Scheduler) t : t ∈ flight s <-> exists id, inFlight s !! id = Some t.
Proof.
  unfold flight. rewrite list_elem_of_fmap. split.
  - intros ([id u] & -> & Hin%elem_of_map_to_list). eauto.
  - intros [id Hid]. exists (id, t). by rewrite elem_of_map_to_list.
Qed.

(** A task id occurs once in the pool, so it names one pointer. *)

Lemma inv_unique w t u :
  Inv w -> t ∈ pool w -> u ∈ pool w -> idOf (mem w) t = idOf (mem w) u -> t = u.
Proof.
  intros [_ _ Hn] [i Hi]%list_elem_of_lookup [j Hj]%list_elem_of_lookup E.
  assert (i = j) as ->; [|congruence].
  eapply (NoDup_lookup _ i j (idOf (mem w) t)); [done|..]; rewrite list_lookup_fmap.
  - by rewrite Hi.
  - by rewrite Hj, E.
Qed.

Lemma inv_pool_nodup w : Inv w -> NoDup (pool w).
Proof. intros [_ _ Hn]. by eapply NoDup_fmap_1. Qed.

(** ** Keeping the invariant *)

Lemma conserves_refl w : conserves w w.
Proof. by intros. Qed.

Lemma conserves_trans w1 w2 w3 : conserves w1 w2 -> conserves w2 w3 -> conserves w1 w3.
Proof.
  intros H1 H2 HI. destruct (H1 HI) as (HI2 & Hs & Hp), (H2 HI2) as (HI3 & Hs' & Hp').
  split_and!; [done|by etrans|by rewrite Hp'].
Qed.

Lemma conserves_intro w w' :
  stable (mem w) (mem w') -> pool w' ≡ₚ pool w ->
  (Inv w -> heap_ordered (locLess (mem w')) (queue (sched w'))) ->
  (Inv w -> forall id t, inFlight (sched w') !! id = Some t -> idOf (mem w) t = id) ->
  conserves w w'.
Proof.
  intros Hs Hp Hh Hk HI. split_and!; [|done..]. split.
  - by apply Hh.
  - intros id t Ht. unfold idOf. destruct (Hs t) as (<-&_). by apply Hk.
  - rewrite (stable_ids (mem w)) by done. rewrite Hp. by destruct HI.
Qed.

(** An update of the task memory alone. *)
Lemma withTask_conserves f p w : (forall t, sameKey t (f t)) -> conserves w (withTask f p w).
Proof.
  intros Hf. apply conserves_intro; unfold pool; world; [by apply onTask_stable|done| |].
  - intros [Hh _ _]. eapply stable_heap; [by apply onTask_stable|done].
  - by intros [].
Qed.

Lemma Notify_conserves w : conserves w (Notify w).
Proof. apply conserves_intro; unfold pool, flight; world; [reflexivity|done|by intros []..]. Qed.

Lemma notifyIf_conserves n w : conserves w (notifyIf n w).
Proof. unfold notifyIf. case_match; [apply Notify_conserves|apply conserves_refl]. Qed.

(** Each assignment and each call keeps the loose invariant and the tasks' keys. *)

Definition tidy (w w' : World) : Prop := Loose w -> Loose w' /\ stable (mem w) (mem w').

Lemma tidy_refl w : tidy w w.
Proof. by intros HI. Qed.

Lemma tidy_trans w1 w2 w3 : tidy w1 w2 -> tidy w2 w3 -> tidy w1 w3.
Proof. intros H1 H2 HI. destruct (H1 HI) as [HI2 Hs1], (H2 HI2) as [HI3 Hs2]. split; [done|by etrans]. Qed.

Lemma tidy_intro w w' :
  stable (mem w) (mem w') ->
  (Loose w -> heap_ordered (locLess (mem w)) (queue (sched w'))) ->
  (Loose w -> forall id t, inFlight (sched w') !! id = Some t -> idOf (mem w) t = id) -> tidy w w'.
Proof.
  intros Hs Hh Hk HI. split; [|done]. split; [by eapply stable_heap, Hh|].
  intros id t Ht. unfold idOf. destruct (Hs t) as (<-&_). by apply Hk.
Qed.

Lemma withTask_tidy f p w : (forall t, sameKey t (f t)) -> tidy w (withTask f p w).
Proof. intros Hf. apply tidy_intro; world; [by apply onTask_stable|by intros []..]. Qed.

Lemma pushQueue_tidy p w : tidy w (pushQueue p w).
Proof. apply tidy_intro; world; [done|intros []; by apply heapPush_ordered|by intros []]. Qed.

(** An assignment to a field other than [queue] that takes nothing into [inFlight]. *)
Lemma withSched_tidy f w :
  queue (f (sched w)) = queue (sched w) -> inFlight (f (sched w)) ⊆ inFlight (sched w) ->
  tidy w (withSched f w).
Proof.
  intros Hq Hf. apply tidy_intro; world; [done|rewrite Hq; by intros []|].
  intros [_ Hk] id t Ht. apply Hk. by eapply lookup_weaken.
Qed.

Lemma Notify_tidy w : tidy w (Notify w).
Proof. by apply withSched_tidy; simpl_fields_goal. Qed.

Lemma notifyIf_tidy n w : tidy w (notifyIf n w).
Proof. unfold notifyIf. case_match; [apply Notify_tidy|apply tidy_refl]. Qed.

Lemma foldl_tidy {A B} (f : A -> B -> A) (g : A -> World) (l : list B) a :
  (forall a b, tidy (g a) (g (f a b))) -> tidy (g a) (g (foldl f a l)).
Proof.
  intros Hf. revert a. induction l as [|b l IH]; intros a; [apply tidy_refl|].
  cbn [foldl]. eapply tidy_trans; [apply Hf|apply IH].
Qed.

(** ** What the operations do *)

Lemma Enqueue_inv p w :
  Inv w -> idOf (mem w) p ∉ idOf (mem w) <$> pool w ->
  Inv (Enqueue p w) /\ pool (Enqueue p w) ≡ₚ p :: pool w.
Proof.
  intros [Hh Hk Hn] Hf. unfold Enqueue.
  assert (pool (Notify (pushQueue p w)) ≡ₚ p :: pool w) as Hp.
  { unfold pool, flight. world. by rewrite heapPush_perm. }
  split; [|done]. split; [| |rewrite Hp; world; by constructor]; world.
  - by apply heapPush_ordered.
  - done.
Qed.

Record dequeued (w w' : World) (t : loc) : Prop := {
  deq_mem : mem w' = mem w;
  deq_queue : queue (sched w) ≡ₚ t :: queue (sched w');
  deq_best : Forall (fun u => locLess (mem w) u t = false) (queue (sched w'));
  deq_heap : heap_ordered (locLess (mem w)) (queue (sched w'));
  deq_flight : inFlight (sched w') = <[idOf (mem w) t := t]> (inFlight (sched w));
  deq_fresh : inFlight (sched w) !! idOf (mem w) t = None;
  deq_notify : notify (sched w') = notify (sched w) || bool_decide (queue (sched w') <> []);
  deq_rest : retryQueue (sched w') = retryQueue (sched w) /\
    deadLetter (sched w') = deadLetter (sched w) /\ completed (sched w') = completed (sched w) /\
    totalCompleted (sched w') = totalCompleted (sched w) /\
    totalFailed (sched w') = totalFailed (sched w)
}.

Lemma Dequeue_empty w : queue (sched w) = [] -> Dequeue w = (w, None).
Proof. intros E. unfold Dequeue. by rewrite E. Qed.

Lemma queue_not_in_flight w t id :
  Inv w -> t ∈ queue (sched w) -> inFlight (sched w) !! id = Some t -> False.
Proof.
  intros HI Hq Hf. pose proof (inv_pool_nodup w HI) as Hn. unfold pool in Hn.
  apply NoDup_app in Hn as (_ & Hd & _). apply (Hd t Hq), elem_of_app. left.
  apply flight_elem. eauto.
Qed.

Lemma queue_id_fresh w t :
  Inv w -> t ∈ queue (sched w) -> inFlight (sched w) !! idOf (mem w) t = None.
Proof.
  intros HI Hq. destruct (_ !! _) as [u|] eqn:E; [exfalso|done].
  assert (u = t) as ->.
  { apply (inv_unique w); [done|unfold pool; rewrite !elem_of_app, flight_elem; eauto..|].
    by apply (inv_keyed w HI). }
  by eapply queue_not_in_flight.
Qed.

(** Without the freshness of the id. *)
Record taken (w w' : World) (t : loc) : Prop := {
  tk_mem : mem w' = mem w;
  tk_queue : queue (sched w) ≡ₚ t :: queue (sched w');
  tk_best : Forall (fun u => locLess (mem w) u t = false) (queue (sched w'));
  tk_heap : heap_ordered (locLess (mem w)) (queue (sched w'));
  tk_flight : inFlight (sched w') = <[idOf (mem w) t := t]> (inFlight (sched w));
  tk_notify : notify (sched w') = notify (sched w) || bool_decide (queue (sched w') <> []);
  tk_rest : retryQueue (sched w') = retryQueue (sched w) /\
    deadLetter (sched w') = deadLetter (sched w) /\ completed (sched w') = completed (sched w) /\
    totalCompleted (sched w') = totalCompleted (sched w) /\
    totalFailed (sched w') = totalFailed (sched w)
}.

Lemma Dequeue_takes w :
  Loose w -> queue (sched w) <> [] -> exists w' t, Dequeue w = (w', Some t) /\ taken w w' t.
Proof.
  intros HI Hne. unfold Dequeue. rewrite bool_decide_false by (unfold pqLen; by destruct queue).
  destruct (heapPop_spec (mem w) (queue (sched w))) as (t & rest & -> & Hp & Hh & Hb);
    [by destruct HI|done|].
  eexists _, t. split; [reflexivity|]. world.
  assert (bool_decide (0 < pqLen rest)%nat = bool_decide (rest <> [])) as ->
    by (apply bool_decide_ext; unfold pqLen; destruct rest; simpl; naive_solver lia).
  case_bool_decide as Hr; split; world; try done.
  - rewrite bool_decide_eq_true_2 by done. by destruct (notify (sched w)).
  - rewrite bool_decide_eq_false_2 by (intros Hc; by apply Hc). by destruct (notify (sched w)).
Qed.

Lemma Dequeue_spec w :
  Inv w -> queue (sched w) <> [] -> exists w' t, Dequeue w = (w', Some t) /\ dequeued w w' t.
Proof.
  intros HI Hne. destruct (Dequeue_takes w HI Hne) as (w' & t & E & [Hm Hq Hb Hh Hf Hn Hr]).
  exists w', t. split; [done|]. split; try done.
  apply queue_id_fresh; [done|]. rewrite Hq. by left.
Qed.

Lemma taken_tidy w w' t : taken w w' t -> tidy w w'.
Proof.
  intros [Hm _ _ Hh Hf _ _]. apply tidy_intro; [by rewrite Hm|done|].
  intros [_ Hk] id u. rewrite Hf, lookup_insert_Some. intros [[<- <-]|[_ Hu]]; [done|eauto].
Qed.

Lemma Dequeue_tidy w : tidy w (fst (Dequeue w)).
Proof.
  intros HI. destruct (decide (queue (sched w) = [])) as [E|E]; [by rewrite Dequeue_empty|].
  destruct (Dequeue_takes w HI E) as (w' & t & -> & Ht). by eapply taken_tidy.
Qed.

Lemma dequeued_conserves w w' t : dequeued w w' t -> conserves w w'.
Proof.
  intros [Hm Hq Hb Hh Hf Hfresh _ (Hr & Hd & _)]. apply conserves_intro.
  - by rewrite Hm.
  - unfold pool. rewrite Hr, Hd. unfold flight. rewrite Hf, map_to_list_insert by done.
    rewrite Hq. solve_Permutation.
  - by rewrite Hm.
  - intros [_ Hk _] id u. rewrite Hf, lookup_insert_Some. intros [[<- <-]|[_ Hu]]; [done|eauto].
Qed.

Lemma Dequeue_conserves w : conserves w (fst (Dequeue w)).
Proof.
  intros HI. destruct (decide (queue (sched w) = [])) as [E|E].
  - rewrite Dequeue_empty by done. by apply conserves_refl.
  - destruct (Dequeue_spec w) as (w' & t & -> & Hd); [done..|]. by apply (dequeued_conserves w w' t).
Qed.

(** *** Leaving the in-flight map *)

(** An operation that moves the in-flight task [t] to one of the queues. *)
Lemma conserves_flight_out w w' id t :
  inFlight (sched w) !! id = Some t ->
  inFlight (sched w') = delete id (inFlight (sched w)) ->
  stable (mem w) (mem w') ->
  queue (sched w') ++ retryQueue (sched w') ++ deadLetter (sched w') ≡ₚ
    t :: queue (sched w) ++ retryQueue (sched w) ++ deadLetter (sched w) ->
  (Inv w -> heap_ordered (locLess (mem w')) (queue (sched w'))) ->
  conserves w w'.
Proof.
  intros Ht Hf Hs Hp Hh. apply conserves_intro; [done| |done|].
  - unfold pool. rewrite (flight_delete (sched w) id t) by done.
    trans (flight (sched w') ++ (queue (sched w') ++ retryQueue (sched w') ++ deadLetter (sched w')));
      [solve_Permutation|].
    rewrite Hp. unfold flight. rewrite Hf. solve_Permutation.
  - intros [_ Hk _] id' u. rewrite Hf, lookup_delete_Some. intros [_ Hu]. eauto.
Qed.

Lemma SchedComplete_unknown now id out code w :
  inFlight (sched w) !! id = None -> SchedComplete now id out code w = (w, None).
Proof. unfold SchedComplete. by intros ->. Qed.

Lemma SchedComplete_known now id out code w t :
  inFlight (sched w) !! id = Some t ->
  exists w', SchedComplete now id out code w = (w', Some t) /\
    mem w' = onTask (fun tk => fst (Complete now out code tk)) t (mem w) /\
    sched w' = keepCompleted t ((sched w) <| inFlight := delete id (inFlight (sched w)) |>
      <| totalCompleted := int64 (totalCompleted (sched w) + 1) |>).
Proof.
  intros Ht. unfold SchedComplete. rewrite Ht. eexists. split; [reflexivity|]. by world.
Qed.

Lemma SchedComplete_inv now id out code w t :
  Inv w -> inFlight (sched w) !! id = Some t ->
  Inv (fst (SchedComplete now id out code w)) /\
  stable (mem w) (mem (fst (SchedComplete now id out code w))) /\
  pool w ≡ₚ t :: pool (fst (SchedComplete now id out code w)).
Proof.
  intros [Hh Hk Hn] Ht. destruct (SchedComplete_known now id out code w t Ht) as (w' & -> & Hm & Hs).
  cbn [fst].
  assert (stable (mem w) (mem w')) as Hst.
  { rewrite Hm. apply onTask_stable. intros. apply (call_sameKey (CallComplete _ _ _)). }
  assert (pool w ≡ₚ t :: pool w') as Hp.
  { unfold pool. rewrite (flight_delete (sched w) id t) by done.
    rewrite Hs. unfold flight, keepCompleted. simpl_fields_goal. solve_Permutation. }
  split_and!; [|done..]. split.
  - eapply stable_heap; [done|]. rewrite Hs. unfold keepCompleted. by simpl_fields_goal.
  - intros id' u. rewrite Hs. unfold keepCompleted. simpl_fields_goal.
    rewrite lookup_delete_Some. intros [_ Hu]. unfold idOf. destruct (Hst u) as (<-&_). by apply Hk.
  - rewrite (stable_ids (mem w)) by done. rewrite Hp in Hn. by apply NoDup_cons in Hn as [_ ?].
Qed.

Lemma retryOrBury_fields env t w :
  let w' := retryOrBury env t w in
  let tk := fst (ScheduleRetry env (mem w !!! t)) in
  mem w' = onTask (fun tk => fst (ScheduleRetry env tk)) t (mem w) /\
  sched w' = if decide (tState tk = StateDead)
    then (sched w) <| deadLetter := deadLetter (sched w) ++ [t] |>
    else (sched w) <| retryQueue := retryQueue (sched w) ++ [t] |>.
Proof.
  intros w' tk. subst w' tk. unfold retryOrBury. world. rewrite onTask_lookup, decide_True by done.
  cbv beta. case_bool_decide; case_decide; try done; by world.
Qed.

Lemma retryOrBury_same env t w :
  let w' := retryOrBury env t w in
  stable (mem w) (mem w') /\ queue (sched w') = queue (sched w) /\
  inFlight (sched w') = inFlight (sched w) /\ completed (sched w') = completed (sched w) /\
  totalCompleted (sched w') = totalCompleted (sched w) /\
  totalFailed (sched w') = totalFailed (sched w) /\ notify (sched w') = notify (sched w) /\
  retryQueue (sched w') ++ deadLetter (sched w') ≡ₚ t :: retryQueue (sched w) ++ deadLetter (sched w).
Proof.
  intros w'. subst w'. destruct (retryOrBury_fields env t w) as [-> ->].
  split; [apply onTask_stable; intros; apply (call_sameKey (CallScheduleRetry _))|].
  case_decide; simpl_fields_goal; split_and!; try done; solve_Permutation.
Qed.

Lemma SchedFail_unknown env id msg code w :
  inFlight (sched w) !! id = None -> SchedFail env id msg code w = (w, None).
Proof. unfold SchedFail. by intros ->. Qed.

(** The world just before [retryOrBury], in [Fail] ([n] is 1) and in a timeout (0). *)
Definition failing (env : FailEnv) (id msg : string) (code n : Z) (t : loc) (w : World) : World :=
  mkWorld (onTask (fun tk => fst (Fail (failNow env) msg code tk)) t (mem w))
    ((sched w) <| inFlight := delete id (inFlight (sched w)) |>
               <| totalFailed := if n =? 0 then totalFailed (sched w)
                                 else int64 (totalFailed (sched w) + 1) |>).

Lemma SchedFail_known env id msg code w t :
  inFlight (sched w) !! id = Some t ->
  SchedFail env id msg code w = (retryOrBury (failRetry env) t (failing env id msg code 1 t w), Some t).
Proof. intros Ht. unfold SchedFail. rewrite Ht. by destruct w as [m []]. Qed.

Lemma timeoutOne_failing env t w :
  timeoutOne env t w = retryOrBury (failRetry env) t
    (failing env (idOf (mem w) t) "task execution timed out" (-1) 0 t w).
Proof. by destruct w as [m []]. Qed.

Lemma failing_conserves env id msg code n t w :
  inFlight (sched w) !! id = Some t ->
  conserves w (retryOrBury (failRetry env) t (failing env id msg code n t w)).
Proof.
  intros Ht.
  destruct (retryOrBury_same (failRetry env) t (failing env id msg code n t w))
    as (Hs & Hq & Hf & _ & _ & _ & _ & Hp).
  assert (stable (mem w) (mem (failing env id msg code n t w))) as Hs'.
  { apply onTask_stable. intros. apply (call_sameKey (CallFail _ _ _)). }
  apply (conserves_flight_out w _ id t); [done|..].
  - rewrite Hf. unfold failing. cbn [sched]. by simpl_fields_goal.
  - by etrans.
  - rewrite Hq, Hp. unfold failing. cbn [sched]. simpl_fields_goal. solve_Permutation.
  - intros [Hh _ _]. eapply stable_heap; [by etrans|]. rewrite Hq.
    unfold failing. cbn [sched]. by simpl_fields_goal.
Qed.

Lemma SchedFail_conserves env id msg code w : conserves w (fst (SchedFail env id msg code w)).
Proof.
  destruct (inFlight (sched w) !! id) as [t|] eqn:Ht.
  - rewrite (SchedFail_known _ _ _ _ _ t) by done. by apply failing_conserves.
  - rewrite SchedFail_unknown by done. apply conserves_refl.
Qed.

(** *** The loops *)

Lemma map_order_spec {V} (m : gmap string V) ord :
  map_order m ord -> NoDup ord.*1 /\ (forall id t, (id, t) ∈ ord <-> m !! id = Some t).
Proof.
  unfold map_order. intros Ho. split.
  - rewrite Ho. apply NoDup_fst_map_to_list.
  - intros id t. by rewrite Ho, elem_of_map_to_list.
Qed.

(** No two in-flight entries share a task. *)
Lemma order_nodup w ord :
  Loose w -> map_order (inFlight (sched w)) ord ->
  NoDup ord.*1 /\ NoDup ord.*2 /\ (forall id t, (id, t) ∈ ord -> inFlight (sched w) !! id = Some t).
Proof.
  intros HI Ho. destruct (map_order_spec _ _ Ho) as [Hn Hin]. split_and!; [done| |by intros; apply Hin].
  apply NoDup_fmap_2_strong; [|by eapply NoDup_fmap_1].
  intros [i t] [j u] Hi Hj E. cbn in E. subst u.
  apply Hin in Hi, Hj. apply (ls_keyed w HI) in Hi, Hj. congruence.
Qed.

(** What a loop may leave behind besides the queue and the in-flight map. *)
Definition sameRest (s s' : Scheduler) : Prop :=
  retryQueue s' = retryQueue s /\ deadLetter s' = deadLetter s /\ completed s' = completed s /\
  taskTimeout s' = taskTimeout s /\ totalCompleted s' = totalCompleted s /\
  totalFailed s' = totalFailed s /\ notify s' = notify s.

#[export] Instance sameRest_preorder : PreOrder sameRest.
Proof.
  split; [by intros s; repeat split|].
  intros a b c (?&?&?&?&?&?&?) (?&?&?&?&?&?&?). repeat split; congruence.
Qed.

(** The entries of [ord] that belong to [workerID]. *)
Definition ownedBy (m : Mem) (workerID : string) (ord : list (string * loc)) :
    list (string * loc) :=
  filter (fun e => tWorkerID (m !!! e.2) = workerID) ord.

Lemma ownedBy_agree (m m' : Mem) wid (ord : list (string * loc)) :
  (forall t, t ∈ ord.*2 -> m' !!! t = m !!! t) -> ownedBy m' wid ord = ownedBy m wid ord.
Proof.
  intros Hm. apply list_filter_ext_in. intros e He.
  rewrite Hm; [done|]. by apply list_elem_of_fmap_2.
Qed.

Definition requeueStep (workerID id : string) (t : loc) (w : World) : World :=
  pushQueue t (withTask release t (withSched (fun s => s <| inFlight := delete id (inFlight s) |>) w)).

Lemma requeueStep_fields wid id t w :
  let w' := requeueStep wid id t w in
  mem w' = onTask release t (mem w) /\
  queue (sched w') ≡ₚ t :: queue (sched w) /\
  inFlight (sched w') = delete id (inFlight (sched w)) /\ sameRest (sched w) (sched w') /\
  (heap_ordered (locLess (mem w)) (queue (sched w)) ->
   heap_ordered (locLess (mem w')) (queue (sched w'))).
Proof.
  intros w'. subst w'. unfold requeueStep. unfold sameRest. world.
  split_and!; try done; [by rewrite heapPush_perm|].
  intros Hh. apply heapPush_ordered. eapply stable_heap; [|done].
  apply onTask_stable. apply release_sameKey.
Qed.

Lemma requeueStep_conserves wid id t w :
  inFlight (sched w) !! id = Some t -> conserves w (requeueStep wid id t w).
Proof.
  intros Ht. destruct (requeueStep_fields wid id t w) as (Hm & Hq & Hf & (Hr & Hd & _) & Hh).
  apply (conserves_flight_out w _ id t); [done..| | |].
  - rewrite Hm. apply onTask_stable, release_sameKey.
  - by rewrite Hq, Hr, Hd.
  - intros [Hheap _ _]. by apply Hh.
Qed.

Record requeued (wid : string) (ord : list (string * loc)) (w w' : World) : Prop := {
  rq_mem : forall t, mem w' !!! t =
    if decide (t ∈ (ownedBy (mem w) wid ord).*2) then release (mem w !!! t) else mem w !!! t;
  rq_queue : queue (sched w') ≡ₚ (ownedBy (mem w) wid ord).*2 ++ queue (sched w);
  rq_flight : forall id, inFlight (sched w') !! id =
    if decide (id ∈ (ownedBy (mem w) wid ord).*1) then None else inFlight (sched w) !! id;
  rq_rest : sameRest (sched w) (sched w');
  rq_conserves : conserves w w'
}.

Lemma requeue_loop wid ord w c :
  NoDup ord.*1 -> NoDup ord.*2 -> (forall id t, (id, t) ∈ ord -> inFlight (sched w) !! id = Some t) ->
  exists w', foldl (requeueOne wid) (w, c) ord = (w', c + Z.of_nat (length (ownedBy (mem w) wid ord))) /\
    requeued wid ord w w'.
Proof.
  revert w c. induction ord as [|[id t] ord IH]; intros w c Hn1 Hn2 Hin.
  { exists w. simpl. rewrite Z.add_0_r. split; [done|].
    split; simpl; try done; try apply conserves_refl; reflexivity. }
  rewrite (fmap_cons fst) in Hn1. rewrite (fmap_cons snd) in Hn2.
  apply NoDup_cons in Hn1 as [Hid Hn1]. apply NoDup_cons in Hn2 as [Ht Hn2].
  cbn [fst snd] in Hid, Ht.
  cbn [foldl]. unfold requeueOne at 2. unfold ownedBy. rewrite filter_cons. cbn [snd].
  destruct (String.eqb_spec (tWorkerID (mem w !!! t)) wid) as [E|E].
  - rewrite decide_True by done. fold (requeueStep wid id t w).
    destruct (requeueStep_fields wid id t w) as (Hm & Hq & Hf & Hr & _).
    assert (ownedBy (mem (requeueStep wid id t w)) wid ord = ownedBy (mem w) wid ord) as Ho.
    { apply ownedBy_agree. intros u Hu.
      rewrite Hm, onTask_lookup, decide_False; [done|by intros ->]. }
    destruct (IH (requeueStep wid id t w) (c + 1)) as (w' & -> & [Hm' Hq' Hf' Hr' Hc']); [done..| |].
    { intros id' u Hu. rewrite Hf, lookup_delete_ne; [apply Hin; by right|].
      intros ->. apply Hid. by apply (list_elem_of_fmap_2 fst _ (id', u)). }
    rewrite Ho in *. exists w'. split.
    { f_equal. simpl. fold (ownedBy (mem w) wid ord). lia. }
    assert (t ∉ (ownedBy (mem w) wid ord).*2) as Hto.
    { intros ([? ?] & -> & [_ He]%list_elem_of_filter)%list_elem_of_fmap.
      apply Ht. by apply (list_elem_of_fmap_2 snd _ (_, _)). }
    split; unfold ownedBy; rewrite ?filter_cons; cbn [snd]; rewrite ?(decide_True _ _ E);
      fold (ownedBy (mem w) wid ord); rewrite ?fmap_cons; cbn [fst snd].
    + intros u. rewrite Hm', Hm, onTask_lookup.
      destruct (decide (u = t)) as [->|Hne].
      * rewrite decide_False by done. rewrite decide_True; [done|by left].
      * apply decide_ext. rewrite elem_of_cons. tauto.
    + rewrite Hq', Hq. solve_Permutation.
    + intros id'. rewrite Hf', Hf. destruct (decide (id' = id)) as [->|Hne].
      * rewrite lookup_delete_eq. rewrite (decide_True (P := id ∈ id :: _)) by (by left). by case_decide.
      * rewrite lookup_delete_ne by done. apply decide_ext. rewrite elem_of_cons. tauto.
    + by etrans.
    + eapply conserves_trans; [|done]. apply requeueStep_conserves, Hin. by left.
  - rewrite decide_False by done.
    destruct (IH w c) as (w' & -> & [Hm' Hq' Hf' Hr' Hc']); [done..|by intros; apply Hin; right|].
    exists w'. split; [done|].
    by split; unfold ownedBy; rewrite ?filter_cons; cbn [snd]; rewrite ?(decide_False _ _ E).
Qed.

Lemma RequeueFromWorker_spec wid ord w :
  Loose w -> map_order (inFlight (sched w)) ord ->
  exists w', RequeueFromWorker wid ord w =
      (notifyIf (Z.of_nat (length (ownedBy (mem w) wid ord))) w',
       Z.of_nat (length (ownedBy (mem w) wid ord))) /\
    requeued wid ord w w'.
Proof.
  intros HI Ho. destruct (order_nodup w ord HI Ho) as (Hn1 & Hn2 & Hin).
  unfold RequeueFromWorker. destruct (requeue_loop wid ord w 0) as (w' & -> & Hr); [done..|].
  exists w'. by rewrite Z.add_0_l.
Qed.

Lemma RequeueFromWorker_conserves wid ord w :
  map_order (inFlight (sched w)) ord -> conserves w (fst (RequeueFromWorker wid ord w)).
Proof.
  intros Ho HI. destruct (RequeueFromWorker_spec wid ord w HI Ho) as (w' & -> & Hr).
  cbn [fst]. eapply conserves_trans; [apply (rq_conserves _ _ _ _ Hr)|apply notifyIf_conserves|done].
Qed.

(** *** [ProcessRetries] *)

Definition due (now : Time) (m : Mem) (l : list loc) : list loc :=
  filter (fun t => After now (tNextRetryAt (m !!! t)) = true) l.

Definition notDue (now : Time) (m : Mem) (l : list loc) : list loc :=
  filter (fun t => ~ After now (tNextRetryAt (m !!! t)) = true) l.

Lemma due_notDue now (m : Mem) l : due now m l ++ notDue now m l ≡ₚ l.
Proof. apply list_filter_partition. Qed.

Lemma Requeue_sameKey t : sameKey t (fst (Requeue t)).
Proof. apply (call_sameKey CallRequeue). Qed.

Definition retryStep (t : loc) (w : World) : World :=
  pushQueue t (withTask (fun tk => fst (Requeue tk)) t w).

Record retried (now : Time) (l : list loc) (w w' : World) : Prop := {
  rt_mem : forall t, mem w' !!! t =
    if decide (t ∈ due now (mem w) l) then fst (Requeue (mem w !!! t)) else mem w !!! t;
  rt_queue : queue (sched w') ≡ₚ due now (mem w) l ++ queue (sched w);
  rt_sched : sched w' = (sched w) <| queue := queue (sched w') |>;
  rt_stable : stable (mem w) (mem w');
  rt_heap : heap_ordered (locLess (mem w)) (queue (sched w)) ->
    heap_ordered (locLess (mem w')) (queue (sched w'))
}.

Lemma retryStep_fields t w :
  let w' := retryStep t w in
  mem w' = onTask (fun tk => fst (Requeue tk)) t (mem w) /\
  queue (sched w') ≡ₚ t :: queue (sched w) /\
  sched w' = (sched w) <| queue := queue (sched w') |> /\ stable (mem w) (mem w') /\
  (heap_ordered (locLess (mem w)) (queue (sched w)) ->
   heap_ordered (locLess (mem w')) (queue (sched w'))).
Proof.
  intros w'. subst w'. unfold retryStep. world.
  assert (stable (mem w) (onTask (fun tk => fst (Requeue tk)) t (mem w)))
    by (apply onTask_stable, Requeue_sameKey).
  split_and!; try done; [by rewrite heapPush_perm|].
  intros Hh. apply heapPush_ordered. by eapply stable_heap.
Qed.

(** A second [Requeue] has no effect: the task is QUEUED or was refused. *)
Lemma Requeue_idempotent t : fst (Requeue (fst (Requeue t))) = fst (Requeue t).
Proof.
  unfold Requeue. destruct (Transition_cases StateQueued t) as [[_ E]|[_ E]]; rewrite E; cbn [fst]; [|by rewrite E].
  rewrite Transition_err by (simpl_fields_goal; set_solver). done.
Qed.

Lemma Requeue_NextRetryAt t : tNextRetryAt (fst (Requeue t)) = tNextRetryAt t.
Proof.
  unfold Requeue. destruct (Transition_cases StateQueued t) as [[_ E]|[_ E]]; rewrite E; cbn [fst];
    [by simpl_fields_goal|done].
Qed.

Lemma due_requeued now (m m' : Mem) t l :
  m' = onTask (fun tk => fst (Requeue tk)) t m -> due now m' l = due now m l /\ notDue now m' l = notDue now m l.
Proof.
  intros ->. split; apply list_filter_ext_in; intros u _; rewrite onTask_lookup; case_decide; subst;
    by rewrite ?Requeue_NextRetryAt.
Qed.

(** The tasks may repeat: one that failed twice while it was queued as well. *)
Lemma retry_loop now l w rem c :
  exists w', foldl (retryOne now) (w, rem, c) l =
      (w', rem ++ notDue now (mem w) l, c + Z.of_nat (length (due now (mem w) l))) /\
    retried now l w w'.
Proof.
  revert w rem c. induction l as [|t l IH]; intros w rem c.
  { exists w. cbn. rewrite app_nil_r, Z.add_0_r. split; [done|].
    split; cbn; try done. by destruct w as [? []]. }
  cbn [foldl]. unfold retryOne at 2. unfold due, notDue. rewrite !filter_cons.
  destruct (After now (tNextRetryAt (mem w !!! t))) eqn:E.
  - fold (retryStep t w). destruct (retryStep_fields t w) as (Hm & Hq & Hs & Hst & Hh).
    destruct (due_requeued now (mem w) (mem (retryStep t w)) t l Hm) as [Hd Hd'].
    destruct (IH (retryStep t w) rem (c + 1)) as (w' & -> & [Hm' Hq' Hs' Hst' Hh']).
    rewrite Hd in Hm', Hq'. rewrite Hd, Hd'. exists w'.
    rewrite decide_False by (intros Hx; by apply Hx). rewrite decide_True by done.
    fold (due now (mem w) l) (notDue now (mem w) l). split; [f_equal; cbn [length]; lia|].
    split; unfold due; rewrite ?filter_cons, ?(decide_True _ _ E); fold (due now (mem w) l).
    + intros u. rewrite Hm', Hm, onTask_lookup. destruct (decide (u = t)) as [->|Hne].
      * rewrite Requeue_idempotent. rewrite (decide_True (P := t ∈ t :: _)) by (by left). by case_decide.
      * apply decide_ext. rewrite elem_of_cons. tauto.
    + rewrite Hq', Hq. solve_Permutation.
    + rewrite Hs', Hs. by simpl_fields_goal; destruct (sched w).
    + by etrans.
    + auto.
  - destruct (IH w (rem ++ [t]) c) as (w' & -> & [Hm' Hq' Hs' Hst' Hh']).
    exists w'. rewrite decide_True by done. rewrite decide_False by done.
    fold (due now (mem w) l) (notDue now (mem w) l). rewrite <- app_assoc. split; [done|].
    assert (~ After now (tNextRetryAt (mem w !!! t)) = true) as E' by (by rewrite E).
    by split; unfold due; rewrite ?filter_cons, ?(decide_False _ _ E').
Qed.

Lemma ProcessRetries_spec now w :
  exists w',
    ProcessRetries now w =
      (notifyIf (Z.of_nat (length (due now (mem w) (retryQueue (sched w)))))
         (withSched (fun s => s <| retryQueue := notDue now (mem w) (retryQueue (sched w)) |>) w'),
       Z.of_nat (length (due now (mem w) (retryQueue (sched w))))) /\
    retried now (retryQueue (sched w)) w w'.
Proof.
  unfold ProcessRetries. destruct (retry_loop now (retryQueue (sched w)) w [] 0) as (w' & -> & Hr).
  exists w'. by rewrite Z.add_0_l.
Qed.

Lemma ProcessRetries_conserves now w : conserves w (fst (ProcessRetries now w)).
Proof.
  intros HI. destruct (ProcessRetries_spec now w) as (w' & -> & [_ Hq Hs Hst Hh]). cbn [fst].
  set (w2 := withSched _ w').
  enough (conserves w w2) as Hc by (by apply (conserves_trans _ _ _ Hc (notifyIf_conserves _ w2))).
  apply conserves_intro; subst w2; world; [done| |by intros [? _ _]; auto|].
  - unfold pool, flight. world. rewrite Hs. simpl_fields_goal. rewrite Hq.
    rewrite <- (due_notDue now (mem w) (retryQueue (sched w))) at 3. solve_Permutation.
  - rewrite Hs. simpl_fields_goal. by intros [].
Qed.

(** *** [CheckTimeouts] *)

Lemma timeoutOne_conserves env t w :
  inFlight (sched w) !! idOf (mem w) t = Some t -> conserves w (timeoutOne env t w).
Proof. rewrite timeoutOne_failing. apply failing_conserves. Qed.

(** A task that fails and goes to the retry queue or the dead letter queue. *)
Definition failedTask (env : FailEnv) (msg : string) (code : Z) (tk : Task) : Task :=
  fst (ScheduleRetry (failRetry env) (fst (Fail (failNow env) msg code tk))).

Lemma failing_fields env id msg code n t w :
  let w' := retryOrBury (failRetry env) t (failing env id msg code n t w) in
  let tk := failedTask env msg code (mem w !!! t) in
  (forall u, mem w' !!! u = if decide (u = t) then tk else mem w !!! u) /\
  queue (sched w') = queue (sched w) /\ inFlight (sched w') = delete id (inFlight (sched w)) /\
  retryQueue (sched w') = retryQueue (sched w) ++ (if decide (tState tk = StateDead) then [] else [t]) /\
  deadLetter (sched w') = deadLetter (sched w) ++ (if decide (tState tk = StateDead) then [t] else []) /\
  completed (sched w') = completed (sched w) /\ notify (sched w') = notify (sched w) /\
  totalCompleted (sched w') = totalCompleted (sched w) /\
  totalFailed (sched w') = if n =? 0 then totalFailed (sched w) else int64 (totalFailed (sched w) + 1).
Proof.
  intros w' tk. subst w'.
  destruct (retryOrBury_fields (failRetry env) t (failing env id msg code n t w)) as [Hm Hs].
  rewrite Hm, Hs.
  assert (fst (ScheduleRetry (failRetry env) (mem (failing env id msg code n t w) !!! t)) = tk) as ->.
  { unfold failing. cbn [mem]. by rewrite onTask_lookup, decide_True. }
  split.
  - intros u. rewrite onTask_lookup. unfold failing. cbn [mem].
    rewrite !onTask_lookup, (decide_True (P := t = t)) by done.
    by destruct (decide (u = t)) as [->|].
  - clearbody tk. unfold failing. cbn [sched].
    destruct (decide (tState tk = StateDead)); simpl_fields_goal; rewrite ?app_nil_r; split_and!; done.
Qed.

Record timedOutAll (envs : nat -> FailEnv) (i : nat) (ts : list loc) (w w' : World) : Prop := {
  to_mem : forall t, t ∉ ts -> mem w' !!! t = mem w !!! t;
  to_task : forall k t, ts !! k = Some t ->
    mem w' !!! t = failedTask (envs (i + k)%nat) "task execution timed out" (-1) (mem w !!! t);
  to_queue : queue (sched w') = queue (sched w);
  to_retry : retryQueue (sched w') =
    retryQueue (sched w) ++ filter (fun t => tState (mem w' !!! t) <> StateDead) ts;
  to_dead : deadLetter (sched w') =
    deadLetter (sched w) ++ filter (fun t => tState (mem w' !!! t) = StateDead) ts;
  to_flight : forall id, inFlight (sched w') !! id =
    if decide (id ∈ idOf (mem w) <$> ts) then None else inFlight (sched w) !! id;
  to_rest : notify (sched w') = notify (sched w) /\ completed (sched w') = completed (sched w) /\
    totalCompleted (sched w') = totalCompleted (sched w) /\
    totalFailed (sched w') = totalFailed (sched w);
  to_conserves : conserves w w'
}.

Lemma timeout_loop envs i ts w :
  NoDup (idOf (mem w) <$> ts) ->
  (forall t, t ∈ ts -> inFlight (sched w) !! idOf (mem w) t = Some t) ->
  timedOutAll envs i ts w (timeoutLoop envs i ts w).
Proof.
  revert w i. induction ts as [|t ts IH]; intros w i Hn Hin.
  { cbn. split; cbn; rewrite ?app_nil_r; try done; apply conserves_refl. }
  rewrite fmap_cons in Hn. apply NoDup_cons in Hn as [Ht Hn]. cbn [timeoutLoop].
  assert (inFlight (sched w) !! idOf (mem w) t = Some t) as Hft by (apply Hin; by left).
  assert (t ∉ ts) as Hts by (intros ?; apply Ht; by apply list_elem_of_fmap_2).
  pose proof (timeoutOne_conserves (envs i) t w Hft) as Hc.
  rewrite timeoutOne_failing in *.
  destruct (failing_fields (envs i) (idOf (mem w) t) "task execution timed out" (-1) 0 t w)
    as (Hm & Hq & Hf & Hr & Hd & Hcm & Hno & Htc & Htf).
  set (w1 := retryOrBury _ _ _) in *.
  assert (forall u, u ∈ ts -> mem w1 !!! u = mem w !!! u) as Hm1
    by (intros u Hu; rewrite Hm, decide_False; [done|by intros ->]).
  assert (idOf (mem w1) <$> ts = idOf (mem w) <$> ts) as Hids.
  { apply list_fmap_ext. intros ? u Hu%list_elem_of_lookup_2. unfold idOf. by rewrite Hm1. }
  destruct (IH w1 (S i)) as [Im It Iq Ir Id If [In Irest] Ic].
  { by rewrite Hids. }
  { intros u Hu. unfold idOf. rewrite Hm1, Hf by done. fold (idOf (mem w) u).
    rewrite lookup_delete_ne; [apply Hin; by right|].
    intros E. apply Ht. rewrite E. by apply list_elem_of_fmap_2. }
  set (w' := timeoutLoop envs (S i) ts w1) in *.
  assert (mem w' !!! t = failedTask (envs i) "task execution timed out" (-1) (mem w !!! t)) as Hmt
    by (by rewrite Im, Hm, decide_True).
  split.
  - intros u [Hne Hu]%not_elem_of_cons. by rewrite Im, Hm, decide_False.
  - intros [|k] u Hu; [injection Hu as <-; by rewrite Nat.add_0_r|]. change (ts !! k = Some u) in Hu.
    rewrite (It k u Hu), Hm1 by (by eapply list_elem_of_lookup_2). do 2 f_equal. lia.
  - congruence.
  - rewrite Ir, Hr, filter_cons, Hmt, <- app_assoc. f_equal. by repeat case_decide.
  - rewrite Id, Hd, filter_cons, Hmt, <- app_assoc. f_equal. by repeat case_decide.
  - intros id. rewrite If, Hids, Hf, fmap_cons.
    destruct (decide (id = idOf (mem w) t)) as [->|Hne].
    + rewrite lookup_delete_eq. rewrite (decide_True (P := _ ∈ _ :: _)) by (by left).
      destruct (decide (idOf (mem w) t ∈ idOf (mem w) <$> ts)); reflexivity.
    + rewrite lookup_delete_ne by done. apply decide_ext. rewrite elem_of_cons. tauto.
  - rewrite Z.eqb_refl in Htf. destruct Irest as (? & ? & ?). split_and!; congruence.
  - by eapply conserves_trans.
Qed.

(** The in-flight tasks that [CheckTimeouts] fails, in the loop's order. *)
Definition overdue (now : Time) (m : Mem) (ord : list (string * loc)) : list loc :=
  filter (fun t => timedOut now (m !!! t) = true) ord.*2.

Lemma CheckTimeouts_spec now envs ord w :
  Loose w -> map_order (inFlight (sched w)) ord ->
  exists w', CheckTimeouts now envs ord w =
      (w', Z.of_nat (length (overdue now (mem w) ord))) /\
    timedOutAll envs 0 (overdue now (mem w) ord) w w'.
Proof.
  intros HI Ho. destruct (order_nodup w ord HI Ho) as (Hn1 & Hn2 & Hin).
  eexists. split; [reflexivity|].
  assert (forall t, t ∈ overdue now (mem w) ord -> inFlight (sched w) !! idOf (mem w) t = Some t) as Hf.
  { intros t [_ ([id u] & -> & He)%list_elem_of_fmap]%list_elem_of_filter. cbn.
    pose proof (Hin id u He). by rewrite (ls_keyed w HI id u). }
  apply timeout_loop; [|done].
  assert (NoDup (overdue now (mem w) ord)) as Hn by (by apply NoDup_filter).
  apply NoDup_fmap_2_strong; [|done]. intros t u Ht Hu E.
  apply Hf in Ht, Hu. rewrite E in Ht. congruence.
Qed.

Lemma CheckTimeouts_conserves now envs ord w :
  map_order (inFlight (sched w)) ord -> conserves w (fst (CheckTimeouts now envs ord w)).
Proof.
  intros Ho HI. destruct (CheckTimeouts_spec now envs ord w HI Ho) as (w' & -> & Hr).
  by apply (to_conserves _ _ _ _ _ Hr).
Qed.

(** *** [RetryFromDLQ] *)

Lemma findTask_Some (m : Mem) id l i :
  findTask m id l = Some i ->
  exists t, l !! i = Some t /\ idOf m t = id /\ l ≡ₚ t :: take i l ++ drop (S i) l.
Proof.
  revert i. induction l as [|u l IH]; intros i; [done|]. cbn [findTask].
  destruct (String.eqb_spec (tID (m !!! u)) id) as [E|E].
  - intros [= <-]. by exists u.
  - destruct (findTask m id l) as [j|] eqn:Ej; intros [= <-].
    destruct (IH j eq_refl) as (t & Ht & Hid & Hp). exists t. split_and!; try done.
    cbn [take drop]. rewrite Hp at 1. solve_Permutation.
Qed.

Lemma findTask_None (m : Mem) id l : findTask m id l = None <-> forall t, t ∈ l -> idOf m t <> id.
Proof.
  induction l as [|u l IH]; cbn [findTask].
  { split; [|done]. by intros _ t ?%elem_of_nil. }
  destruct (String.eqb_spec (tID (m !!! u)) id) as [E|E].
  - split; [done|]. intros H. exfalso. apply (H u); [by left|done].
  - rewrite fmap_None, IH. split.
    + intros H t [->|Ht]%elem_of_cons; [done|by apply H].
    + intros H t Ht. apply H. by right.
Qed.

Lemma SchedRetryFromDLQ_found id w i t :
  findTask (mem w) id (deadLetter (sched w)) = Some i -> deadLetter (sched w) !! i = Some t ->
  exists w', SchedRetryFromDLQ id w = (w', true) /\
    mem w' = onTask (fun tk => fst (RetryFromDLQ tk)) t (mem w) /\
    queue (sched w') = heapPush (mem w') t (queue (sched w)) /\
    deadLetter (sched w') =
      take i (deadLetter (sched w)) ++ drop (S i) (deadLetter (sched w)) /\
    inFlight (sched w') = inFlight (sched w) /\ retryQueue (sched w') = retryQueue (sched w) /\
    completed (sched w') = completed (sched w) /\ notify (sched w') = true.
Proof.
  intros Hi Ht. unfold SchedRetryFromDLQ. rewrite Hi, Ht. eexists. split; [reflexivity|].
  by world.
Qed.

Lemma SchedRetryFromDLQ_conserves id w : conserves w (fst (SchedRetryFromDLQ id w)).
Proof.
  destruct (findTask (mem w) id (deadLetter (sched w))) as [i|] eqn:Hi.
  - destruct (findTask_Some _ _ _ _ Hi) as (t & Ht & _ & Hp).
    destruct (SchedRetryFromDLQ_found id w i t Hi Ht)
      as (w' & -> & Hm & Hq & Hd & Hf & Hr & _). cbn [fst].
    assert (stable (mem w) (mem w')).
    { rewrite Hm. apply onTask_stable. intros. apply (call_sameKey CallRetryFromDLQ). }
    apply conserves_intro; [done| | |by rewrite Hf; intros []].
    + unfold pool, flight. rewrite Hq, Hd, Hf, Hr, heapPush_perm.
      generalize (deadLetter (sched w)) as dl, Hp. intros dl Hp'. rewrite Hp' at 3. solve_Permutation.
    + intros [Hh _ _]. rewrite Hq. apply heapPush_ordered. by eapply stable_heap.
  - unfold SchedRetryFromDLQ. rewrite Hi. apply conserves_refl.
Qed.
