(* ===== verification/SchedulerProps.v ===== *)
(** * The scheduler's properties

    Traces of scheduler operations, the four places of a task in the scheduler,
    and the theorems on each operation.  The theorems on whole traces are in
    [SchedulerSpec]. *)

From Stdlib Require Import Sorting.Sorted.
From stdpp Require Import sorting.
From S2P Require Import Prelude GoTime Heap Task Scheduler SchedulerFacts.

Open Scope string_scope.
Open Scope list_scope.
Open Scope Z_scope.

(** ** Sequences of operations *)

(** What the program's goroutines do to the scheduler and its tasks, one critical
    section each: a call of one of the scheduler's methods; and what a dispatch loop
    does without the lock, a task's method ([Assign], [Start]), the two assignments
    after a failed send, and raising and receiving the signal. *)

Inductive Op :=
| OpEnqueue (t : loc)
| OpDequeue
| OpTask (c : TaskCall) (t : loc)
| OpComplete (now : Time) (id out : string) (code : Z)
| OpFail (env : FailEnv) (id msg : string) (code : Z)
| OpRequeueFromWorker (wid : string) (ord : list (string * loc))
| OpProcessRetries (now : Time)
| OpCheckTimeouts (now : Time) (envs : nat -> FailEnv) (ord : list (string * loc))
| OpRetryFromDLQ (id : string)
| OpRelease (t : loc)
| OpNotify
| OpReceive.

(** A loop over [inFlight] visits each entry once.  Nothing else is asked of a
    call: a task may be enqueued while it is in flight, as after a failed send. *)

Definition opOk (o : Op) (w : World) : Prop :=
  match o with
  | OpRequeueFromWorker _ ord | OpCheckTimeouts _ _ ord => map_order (inFlight (sched w)) ord
  | _ => True
  end.

Definition opStep (o : Op) (w : World) : World :=
  match o with
  | OpEnqueue t => Enqueue t w
  | OpDequeue => fst (Dequeue w)
  | OpTask c t => withTask (fun tk => fst (call c tk)) t w
  | OpComplete now id out code => fst (SchedComplete now id out code w)
  | OpFail env id msg code => fst (SchedFail env id msg code w)
  | OpRequeueFromWorker wid ord => fst (RequeueFromWorker wid ord w)
  | OpProcessRetries now => fst (ProcessRetries now w)
  | OpCheckTimeouts now envs ord => fst (CheckTimeouts now envs ord w)
  | OpRetryFromDLQ id => fst (SchedRetryFromDLQ id w)
  | OpRelease t => withTask release t w
  | OpNotify => Notify w
  | OpReceive => default w (receiveNotify w)
  end.

(** A task that is enqueued has an id that no held task has: every call but the
    [Enqueue] of a task after a failed send. *)

Definition entersFresh (o : Op) (w : World) : Prop :=
  match o with OpEnqueue t => idOf (mem w) t ∉ idOf (mem w) <$> pool w | _ => True end.

#[export] Instance entersFresh_dec o w : Decision (entersFresh o w).
Proof. destruct o; simpl; apply _. Defined.

Fixpoint entriesFresh (os : list Op) (w : World) : Prop :=
  match os with [] => True | o :: os => entersFresh o w /\ entriesFresh os (opStep o w) end.

(** The tasks that enter and leave the scheduler by a call. *)

Definition opIn (o : Op) : list loc := match o with OpEnqueue t => [t] | _ => [] end.

Definition opOut (o : Op) (w : World) : list loc :=
  match o with
  | OpComplete _ id _ _ => option_list (inFlight (sched w) !! id)
  | _ => []
  end.

(** [trace os w ins outs w']: the calls [os] take [w] to [w']; [ins] and [outs]
    are the tasks that entered and left on the way, in order. *)

Inductive trace : list Op -> World -> list loc -> list loc -> World -> Prop :=
| trace_nil w : trace [] w [] [] w
| trace_cons o os w ins outs w' :
    opOk o w -> trace os (opStep o w) ins outs w' ->
    trace (o :: os) w (opIn o ++ ins) (opOut o w ++ outs) w'.

#[export] Instance opOk_dec o w : Decision (opOk o w).
Proof. destruct o; simpl; apply _. Defined.

(** The trace that a sequence of calls makes, if each call may be made. *)

Fixpoint runOps (os : list Op) (w : World) : option (list loc * list loc * World) :=
  match os with
  | [] => Some ([], [], w)
  | o :: os =>
      if decide (opOk o w) then
        '(ins, outs, w') ← runOps os (opStep o w);
        Some (opIn o ++ ins, opOut o w ++ outs, w')
      else None
  end.

Lemma runOps_trace os w ins outs w' : runOps os w = Some (ins, outs, w') -> trace os w ins outs w'.
Proof.
  revert w ins outs. induction os as [|o os IH]; intros w ins outs; simpl.
  { intros [= <- <- <-]. constructor. }
  case_decide; [|done]. intros ([[ins0 outs0] w0] & E & [= <- <- <-])%bind_Some.
  constructor; [done|]. by apply IH.
Qed.

Lemma receive_conserves w : conserves w (default w (receiveNotify w)).
Proof.
  unfold receiveNotify. destruct (notify (sched w)); [|apply conserves_refl]. cbn [default from_option id].
  apply conserves_intro; unfold pool, flight; world; [reflexivity|done|by intros []..].
Qed.

(** Every call but [Enqueue] and [Complete] keeps the pool. *)

Lemma opStep_conserves o w :
  opOk o w -> match o with OpEnqueue _ | OpComplete _ _ _ _ => True | _ => conserves w (opStep o w) end.
Proof.
  destruct o; simpl; intros Ho; try exact I.
  - apply Dequeue_conserves.
  - apply withTask_conserves. intros. apply call_sameKey.
  - apply SchedFail_conserves.
  - by apply RequeueFromWorker_conserves.
  - apply ProcessRetries_conserves.
  - by apply CheckTimeouts_conserves.
  - apply SchedRetryFromDLQ_conserves.
  - apply withTask_conserves, release_sameKey.
  - apply Notify_conserves.
  - apply receive_conserves.
Qed.

Lemma opStep_inv o w :
  opOk o w -> entersFresh o w -> Inv w ->
  Inv (opStep o w) /\ opIn o ++ pool w ≡ₚ opOut o w ++ pool (opStep o w).
Proof.
  intros Ho Hfresh HI. pose proof (opStep_conserves o w Ho) as Hc.
  destruct o; try (destruct (Hc HI) as (? & _ & Hp); split; [done|by rewrite Hp]); simpl.
  - destruct (Enqueue_inv t w HI Hfresh) as [? Hp]. split; [done|by rewrite Hp].
  - destruct (inFlight (sched w) !! id) as [t|] eqn:E; simpl.
    + destruct (SchedComplete_inv now id out code w t) as (? & _ & Hp); [done..|]. done.
    + by rewrite SchedComplete_unknown.
Qed.

Lemma trace_inv os w ins outs w' :
  trace os w ins outs w' -> entriesFresh os w -> Inv w -> Inv w' /\ ins ++ pool w ≡ₚ outs ++ pool w'.
Proof.
  induction 1 as [w|o os w ins outs w' Ho _ IH]; intros Hf HI; [done|]. destruct Hf as [Hf1 Hf2].
  destruct (opStep_inv o w Ho Hf1 HI) as [HI1 Hp1], (IH Hf2 HI1) as [HI2 Hp2]. split; [done|].
  rewrite <- !app_assoc, (Permutation_app_comm ins), app_assoc, Hp1, <- !app_assoc.
  f_equiv. by rewrite <- Hp2, Permutation_app_comm.
Qed.

Lemma NewScheduler_inv m timeout : Inv (mkWorld m (NewScheduler timeout)).
Proof.
  split; [|by intros ? ?; cbn; rewrite lookup_empty|by apply NoDup_nil].
  intros i Hi Hk x y. cbn. by rewrite lookup_nil.
Qed.

(** ** The places of a task *)

Inductive Stage := Queued | Flying | Waiting | Buried.

#[export] Instance Stage_eq_dec : EqDecision Stage.
Proof. solve_decision. Defined.

Definition part (st : Stage) (s : Scheduler) : list loc :=
  match st with
  | Queued => queue s
  | Flying => flight s
  | Waiting => retryQueue s
  | Buried => deadLetter s
  end.

Lemma part_pool st w t : t ∈ part st (sched w) -> t ∈ pool w.
Proof. unfold pool. rewrite !elem_of_app. destruct st; simpl; tauto. Qed.

Lemma pool_part w t : t ∈ pool w -> exists st, t ∈ part st (sched w).
Proof.
  unfold pool. rewrite !elem_of_app.
  intros [H|[H|[H|H]]]; [by exists Queued|by exists Flying|by exists Waiting|by exists Buried].
Qed.

(** A task is in one part only. *)
Lemma part_unique w t st st' :
  Inv w -> t ∈ part st (sched w) -> t ∈ part st' (sched w) -> st = st'.
Proof.
  intros HI%inv_pool_nodup H H'. unfold pool in HI. rewrite !NoDup_app in HI.
  destruct HI as (_ & Hq & _ & Hf & _ & Hr & _). specialize (Hq t). specialize (Hf t). specialize (Hr t).
  rewrite !elem_of_app in *. destruct st, st'; cbn [part] in *; tauto.
Qed.

Lemma flying_elem w id t : inFlight (sched w) !! id = Some t -> t ∈ part Flying (sched w).
Proof. intros. cbn. apply flight_elem. eauto. Qed.

(** ** What the loops select *)

Lemma ownedBy_flight (m : Mem) (s : Scheduler) wid ord :
  map_order (inFlight s) ord ->
  (ownedBy m wid ord).*2 ≡ₚ filter (fun t => tWorkerID (m !!! t) = wid) (flight s).
Proof.
  intros Ho. trans (filter (fun t => tWorkerID (m !!! t) = wid) ord.*2).
  - by rewrite <- (list_fmap_filter snd).
  - unfold flight. by rewrite Ho.
Qed.

(** [requeued] without the iteration order. *)
Lemma requeued_exact wid ord w w' :
  Loose w -> map_order (inFlight (sched w)) ord -> requeued wid ord w w' ->
  let n := Z.of_nat (length (ownedBy (mem w) wid ord)) in
  n = Z.of_nat (length (filter (fun t => tWorkerID (mem w !!! t) = wid) (flight (sched w)))) /\
  (forall t, mem (notifyIf n w') !!! t =
    if decide (t ∈ flight (sched w) /\ tWorkerID (mem w !!! t) = wid)
    then release (mem w !!! t) else mem w !!! t) /\
  (forall id, inFlight (sched (notifyIf n w')) !! id =
    (t ← inFlight (sched w) !! id; if decide (tWorkerID (mem w !!! t) = wid) then None else Some t)) /\
  queue (sched (notifyIf n w')) ≡ₚ
    filter (fun t => tWorkerID (mem w !!! t) = wid) (flight (sched w)) ++ queue (sched w) /\
  notify (sched (notifyIf n w')) = (0 <? n) || notify (sched w).
Proof.
  intros HI Ho [Hm Hq Hf (_ & _ & _ & _ & _ & _ & Hn) _] n.
  pose proof (ownedBy_flight (mem w) (sched w) wid ord Ho) as Hp.
  destruct (map_order_spec _ _ Ho) as [_ Hin].
  split_and!; world.
  - subst n. by rewrite <- Hp, length_fmap.
  - intros t. rewrite Hm. apply decide_ext. rewrite Hp, list_elem_of_filter. tauto.
  - intros id. rewrite Hf. destruct (inFlight (sched w) !! id) as [t|] eqn:E; [|by case_decide].
    cbn. apply decide_ext. unfold ownedBy. split.
    + intros ([i u] & -> & [Hu Hiu]%list_elem_of_filter)%list_elem_of_fmap.
      apply Hin in Hiu. cbn in *. congruence.
    + intros Hw. apply (list_elem_of_fmap_2 fst _ (id, t)), list_elem_of_filter. by rewrite Hin.
  - by rewrite Hq, Hp.
  - by rewrite Hn.
Qed.

Lemma overdue_elem now (m : Mem) (s : Scheduler) ord :
  map_order (inFlight s) ord ->
  forall t, t ∈ overdue now m ord <-> t ∈ flight s /\ timedOut now (m !!! t) = true.
Proof. intros Ho t. unfold overdue, flight. rewrite list_elem_of_filter, Ho. tauto. Qed.

Lemma timedOut_running now tk : timedOut now tk = true -> tState tk = StateRunning.
Proof. unfold timedOut. by intros [[H _]%andb_prop _]%andb_prop; b2p. Qed.

(** A running task whose failure was recorded and whose retry was scheduled. *)
Lemma failedTask_running env msg code tk :
  tState tk = StateRunning ->
  let tk' := failedTask env msg code tk in
  tState tk' = (if bool_decide (tMaxRetries tk <= tAttempt tk) then StateDead else StateRetrying) /\
  tError tk' = msg /\ tExitCode tk' = code /\ tCompletedAt tk' = failNow env /\
  tAttempt tk' = tAttempt tk /\ tWorkerID tk' = tWorkerID tk.
Proof.
  intros Hrun tk'. subst tk'. unfold failedTask. rewrite Fail_running by done. cbn [fst]. case_bool_decide.
  - rewrite ScheduleRetry_dead by (simpl_fields_goal; done || lia). cbn [fst]. by simpl_fields_goal.
  - rewrite ScheduleRetry_retry by (simpl_fields_goal; done || lia). cbn [fst]. by simpl_fields_goal.
Qed.

(** What a timeout makes of a running task. *)
Lemma failedTask_timedOut now env msg code tk :
  timedOut now tk = true ->
  let tk' := failedTask env msg code tk in
  tState tk' = (if decide (tMaxRetries tk <= tAttempt tk) then StateDead else StateRetrying) /\
  tError tk' = msg /\ tExitCode tk' = code.
Proof.
  intros H%timedOut_running tk'. destruct (failedTask_running env msg code tk H) as (Hs & He & Hx & _).
  subst tk'. rewrite Hs, He, Hx. split; [|done]. unfold bool_decide. by case_decide.
Qed.

Lemma timed_out_flight now envs ord w w' t :
  Inv w -> map_order (inFlight (sched w)) ord ->
  timedOutAll envs 0 (overdue now (mem w) ord) w w' ->
  t ∈ flight (sched w') <-> t ∈ flight (sched w) /\ t ∉ overdue now (mem w) ord.
Proof.
  intros HI Ho [_ _ _ _ _ Hf _ _]. rewrite !flight_elem. split.
  - intros [id Hid]. rewrite Hf in Hid. case_decide as Hout; [done|]. split; [eauto|].
    intros Hin. apply Hout. rewrite <- (inv_keyed w HI id t Hid). by apply list_elem_of_fmap_2.
  - intros [[id Hid] Hn]. exists id. rewrite Hf, decide_False; [done|].
    intros (u & Hu & Hin)%list_elem_of_fmap. apply Hn.
    assert (u ∈ flight (sched w)) as Huf by (by apply (overdue_elem now (mem w) (sched w) ord Ho)).
    rewrite (inv_unique w t u HI); [done|..].
    + apply (part_pool Flying). by eapply flying_elem.
    + by apply (part_pool Flying).
    + by rewrite (inv_keyed w HI id t Hid).
Qed.

(** ** A world to evaluate on *)

Section demo.

Definition demoTask (now prio : Z) (id : string) : Task :=
  (New now id "run.sh") <| tPriority := prio |>.

Definition demoMem : Mem := list_to_map
  [(1%positive, demoTask 10 PriorityLow "a"); (2%positive, demoTask 11 PriorityHigh "b");
   (3%positive, demoTask 12 PriorityNormal "c"); (4%positive, demoTask 9 PriorityHigh "d")].

(** The four tasks queued. *)
Definition demoQueued : World :=
  foldl (fun w t => Enqueue t w) (mkWorld demoMem (NewScheduler (300 * Second)))
    [1%positive; 2%positive; 3%positive; 4%positive].

(** The two most urgent ones dequeued, assigned to [w1] and [w2] and started. *)
Definition demoFlying : World :=
  foldl (fun w o => opStep o w) demoQueued
    [OpDequeue; OpDequeue; OpTask (CallAssign 20 "w1") 4; OpTask (CallAssign 21 "w2") 2;
     OpTask (CallStart 22) 4; OpTask (CallStart 23) 2].

Lemma demoQueued_inv : Inv demoQueued.
Proof.
  unfold demoQueued. cbn [foldl].
  repeat (apply Enqueue_inv; [|by apply (bool_decide_unpack _); vm_compute]).
  apply NewScheduler_inv.
Qed.

Lemma demoFlying_inv : Inv demoFlying.
Proof.
  unfold demoFlying. cbn [foldl]. repeat (apply opStep_inv; [exact I|exact I|]). apply demoQueued_inv.
Qed.

End demo.

#[local] Opaque demoQueued demoFlying.

(** ** Properties *)

(** Claim C10: [Dequeue] returns a task that no queued task precedes (higher
    priority first, then older creation), takes exactly it out of the queue and
    puts it in flight under its id, and re-arms the notification when tasks
    remain; on an empty queue it changes nothing. *)
Theorem Dequeue_most_urgent (w : World) (HI : Inv w) :
  match Dequeue w with
  | (w', None) => queue (sched w) = [] /\ w' = w
  | (w', Some t) =>
      queue (sched w) ≡ₚ t :: queue (sched w') /\
      (forall u, u ∈ queue (sched w) ->
        tPriority (mem w !!! u) < tPriority (mem w !!! t) \/
        tPriority (mem w !!! u) = tPriority (mem w !!! t) /\
        tCreatedAt (mem w !!! t) <= tCreatedAt (mem w !!! u)) /\
      inFlight (sched w') = <[tID (mem w !!! t) := t]> (inFlight (sched w)) /\
      inFlight (sched w) !! tID (mem w !!! t) = None /\
      (queue (sched w') <> [] -> notify (sched w') = true) /\ mem w' = mem w
  end.
Proof.
  destruct (decide (queue (sched w) = [])) as [E|E]; [by rewrite Dequeue_empty|].
  destruct (Dequeue_spec w HI E) as (w' & t & -> & [Hm Hq Hb _ Hf Hfr Hn _]).
  split_and!; try done.
  - intros u. rewrite Hq, elem_of_cons. intros [->|Hu]; [lia|].
    rewrite Forall_forall in Hb. by apply taskLess_false, Hb.
  - intros Hne. rewrite Hn, bool_decide_eq_true_2 by done. apply orb_true_r.
Qed.

Lemma Dequeue_most_urgent_witness :
  exists w', Dequeue demoQueued = (w', Some 4%positive) /\
    queue (sched demoQueued) ≡ₚ 4%positive :: queue (sched w') /\ notify (sched w') = true.
Proof.
  pose proof (Dequeue_most_urgent demoQueued demoQueued_inv) as H.
  destruct (Dequeue demoQueued) as [w' o] eqn:E. assert (o = Some 4%positive) as ->.
  { change o with (snd (w', o)). rewrite <- E. vm_compute. reflexivity. }
  destruct H as (Hp & _ & _ & _ & Hn & _). exists w'. split; [reflexivity|]. split; [exact Hp|].
  apply Hn. change w' with (fst (w', Some 4%positive)). rewrite <- E. vm_compute. discriminate.
Defined.

(** Dequeue until the queue is empty; [n] bounds the number of tasks. *)

Fixpoint dequeueAll (n : nat) (w : World) : World * list loc :=
  match n with
  | O => (w, [])
  | S n =>
      match Dequeue w with
      | (w, None) => (w, [])
      | (w, Some t) => let '(w, l) := dequeueAll n w in (w, t :: l)
      end
  end.

Lemma dequeueAll_spec (n : nat) (w : World) : Inv w -> length (queue (sched w)) = n ->
  let '(w', l) := dequeueAll n w in
  queue (sched w') = [] /\ l ≡ₚ queue (sched w) /\
  sorted_by (locLess (mem w)) l /\ flight (sched w') ≡ₚ flight (sched w) ++ queue (sched w).
Proof.
  revert w. induction n as [|n IH]; intros w HI Hn; simpl.
  { apply nil_length_inv in Hn. rewrite Hn, app_nil_r. by repeat split. }
  destruct (Dequeue_spec w HI) as (w1 & t & E & Hd); [by intros E; rewrite E in Hn|]. rewrite E.
  destruct (dequeued_conserves w w1 t Hd HI) as (HI1 & _ & _).
  destruct Hd as [Hm Hq Hb _ Hf Hfr _ _].
  assert (length (queue (sched w1)) = n) as Hn1 by (rewrite Hq in Hn; simpl in Hn; lia).
  specialize (IH w1 HI1 Hn1). destruct (dequeueAll n w1) as [w' l]. destruct IH as (H1 & H2 & H3 & H4).
  split_and!; [done|by rewrite Hq, H2| |].
  - rewrite Hm in H3. split; [by rewrite H2|done].
  - rewrite H4, Hq. unfold flight at 1. rewrite Hf, flight_insert by done. solve_Permutation.
Qed.

(** The reference order: priority, then age, then (a tie-breaker) the pointer. *)

Definition moreUrgent (m : Mem) (x y : loc) : Prop :=
  let px := tPriority (m !!! x) in let py := tPriority (m !!! y) in
  let cx := tCreatedAt (m !!! x) in let cy := tCreatedAt (m !!! y) in
  py < px \/ px = py /\ (cx < cy \/ cx = cy /\ Zpos x <= Zpos y).

#[export] Instance moreUrgent_dec m : RelDecision (moreUrgent m).
Proof. intros x y. unfold moreUrgent. apply _. Defined.

#[export] Instance moreUrgent_trans m : Transitive (moreUrgent m).
Proof. intros x y z. unfold moreUrgent. lia. Qed.

#[export] Instance moreUrgent_antisymm m : AntiSymm (=) (moreUrgent m).
Proof. intros x y. unfold moreUrgent. lia. Qed.

#[export] Instance moreUrgent_total m : Total (moreUrgent m).
Proof. intros x y. unfold moreUrgent. lia. Qed.

Lemma sorted_by_urgent (m : Mem) l :
  NoDup ((fun t => (tPriority (m !!! t), tCreatedAt (m !!! t))) <$> l) ->
  sorted_by (locLess m) l -> StronglySorted (moreUrgent m) l.
Proof.
  induction l as [|x l IH]; [constructor|]. rewrite fmap_cons.
  intros [Hx Hn]%NoDup_cons [Hb Hs]. constructor; [by apply IH|].
  rewrite Forall_forall in Hb |- *. intros y Hy. specialize (Hb y Hy).
  unfold locLess in Hb. rewrite taskLess_false in Hb. unfold moreUrgent.
  assert (tPriority (m !!! x) <> tPriority (m !!! y) \/ tCreatedAt (m !!! x) <> tCreatedAt (m !!! y)); [|lia].
  destruct (decide (tPriority (m !!! x) = tPriority (m !!! y))) as [E1|]; [|by left]. right. intros E2.
  apply Hx. rewrite E1, E2. by apply (list_elem_of_fmap_2 (fun t => (tPriority (m !!! t), tCreatedAt (m !!! t)))).
Qed.

(** Claim C31: the heap hands tasks out as sorting would: as many calls of
    [Dequeue] as there are queued tasks empty the queue into flight, every task
    once, each at least as urgent (priority, then age) as every later one; and
    when no two tasks have the same priority and creation time, the sequence is
    the queue sorted by priority and age. *)
Theorem Dequeue_drains_in_order (n : nat) (w : World) (HI : Inv w)
  (Hn : length (queue (sched w)) = n) :
  let '(w', l) := dequeueAll n w in
  queue (sched w') = [] /\ l ≡ₚ queue (sched w) /\ sorted_by (locLess (mem w)) l /\
  flight (sched w') ≡ₚ flight (sched w) ++ queue (sched w) /\
  (NoDup ((fun t => (tPriority (mem w !!! t), tCreatedAt (mem w !!! t))) <$> queue (sched w)) ->
   l = merge_sort (moreUrgent (mem w)) (queue (sched w))).
Proof.
  pose proof (dequeueAll_spec n w HI Hn) as H. destruct (dequeueAll n w) as [w' l].
  destruct H as (H1 & H2 & H3 & H4). split_and!; try done. intros Hk.
  apply (StronglySorted_unique (moreUrgent (mem w))).
  - apply sorted_by_urgent; [by rewrite H2|done].
  - apply (StronglySorted_merge_sort _).
  - by rewrite merge_sort_Permutation.
Qed.

Lemma Dequeue_drains_in_order_witness :
  queue (sched (fst (dequeueAll 4 demoQueued))) = [] /\
  sorted_by (locLess demoMem) (snd (dequeueAll 4 demoQueued)).
Proof.
  pose proof (Dequeue_drains_in_order 4 demoQueued demoQueued_inv eq_refl) as H.
  destruct (dequeueAll 4 demoQueued) as [w' l]. destruct H as (Hq & _ & Hs & _).
  split; [exact Hq | exact Hs].
Defined.

(** A report for a task id that is not in flight changes nothing: so
    of two reports for one execution, whatever their kinds, only the first
    counts. *)
Theorem duplicate_report_ignored (w : World) (now : Time) (env : FailEnv)
  (id out msg : string) (code : Z) (HI : Inv w) :
  let w1 := fst (SchedComplete now id out code w) in
  let w2 := fst (SchedFail env id msg code w) in
  (forall now' out' code', SchedComplete now' id out' code' w1 = (w1, None) /\
                           SchedComplete now' id out' code' w2 = (w2, None)) /\
  (forall env' msg' code', SchedFail env' id msg' code' w1 = (w1, None) /\
                           SchedFail env' id msg' code' w2 = (w2, None)).
Proof.
  intros w1 w2.
  assert (inFlight (sched w1) !! id = None /\ inFlight (sched w2) !! id = None) as [H1 H2].
  { subst w1 w2. destruct (inFlight (sched w) !! id) as [t|] eqn:E.
    - destruct (SchedComplete_known now id out code w t E) as (w' & -> & _ & Hs).
      rewrite (SchedFail_known env id msg code w t E). cbn [fst].
      destruct (failing_fields env id msg code 1 t w) as (_ & _ & -> & _).
      rewrite Hs. unfold keepCompleted. simpl_fields_goal. by rewrite lookup_delete_eq.
    - by rewrite SchedComplete_unknown, SchedFail_unknown. }
  clearbody w1 w2.
  split; intros; split; by (apply SchedComplete_unknown || apply SchedFail_unknown).
Qed.

Lemma duplicate_report_ignored_witness :
  let w1 := fst (SchedComplete 40 "b" "ok" 0 demoFlying) in
  SchedFail (mkFailEnv 50 (mkRetryEnv 50 7 0)) "b" "late" 1 w1 = (w1, None).
Proof.
  intros w1.
  destruct (duplicate_report_ignored demoFlying 40 (mkFailEnv 50 (mkRetryEnv 50 7 0)) "b" "ok" "late" 0
    demoFlying_inv) as [_ H].
  destruct (H (mkFailEnv 50 (mkRetryEnv 50 7 0)) "late" 1) as [E _]. exact E.
Defined.

(** Claim C16: a failure report for a running task takes it out of flight,
    records the error, the exit code and the failure time, counts it, and puts it
    at the end of the dead letter queue when its attempts are used up and at the
    end of the retry queue, with a retry time, otherwise. *)
Theorem Fail_retries_or_buries (w : World) (env : FailEnv) (id msg : string) (code : Z) (t : loc)
  (Ht : inFlight (sched w) !! id = Some t) (Hrun : tState (mem w !!! t) = StateRunning) :
  let '(w', r) := SchedFail env id msg code w in
  let dead := bool_decide (tMaxRetries (mem w !!! t) <= tAttempt (mem w !!! t)) in
  r = Some t /\ inFlight (sched w') = delete id (inFlight (sched w)) /\
  tState (mem w' !!! t) = (if dead then StateDead else StateRetrying) /\
  tError (mem w' !!! t) = msg /\ tExitCode (mem w' !!! t) = code /\
  tCompletedAt (mem w' !!! t) = failNow env /\ tAttempt (mem w' !!! t) = tAttempt (mem w !!! t) /\
  deadLetter (sched w') = deadLetter (sched w) ++ (if dead then [t] else []) /\
  retryQueue (sched w') = retryQueue (sched w) ++ (if dead then [] else [t]) /\
  queue (sched w') = queue (sched w) /\
  totalFailed (sched w') = int64 (totalFailed (sched w) + 1) /\
  (forall u, u <> t -> mem w' !!! u = mem w !!! u).
Proof.
  rewrite (SchedFail_known env id msg code w t Ht). cbv zeta.
  destruct (failing_fields env id msg code 1 t w) as (Hm & Hq & Hf & Hr & Hd & _ & _ & _ & Htf).
  set (w' := retryOrBury _ _ _) in *. set (tk := failedTask env msg code (mem w !!! t)) in *.
  assert (mem w' !!! t = tk) as Ht' by (by rewrite Hm, decide_True).
  destruct (failedTask_running env msg code (mem w !!! t) Hrun) as (Hs & He & Hx & Hc & Ha & _). fold tk in Hs, He, Hx, Hc, Ha.
  rewrite Ht', Hd, Hr. rewrite Hs. split_and!; try done.
  - by case_bool_decide.
  - by case_bool_decide.
  - intros u Hu. by rewrite Hm, decide_False.
Qed.

Lemma Fail_retries_or_buries_witness :
  let w' := fst (SchedFail (mkFailEnv 50 (mkRetryEnv 50 7 0)) "b" "boom" 1 demoFlying) in
  retryQueue (sched w') = [2%positive] /\ tState (mem w' !!! 2%positive) = StateRetrying.
Proof.
  assert (inFlight (sched demoFlying) !! "b" = Some 2%positive) as Hf by (vm_compute; reflexivity).
  assert (tState (mem demoFlying !!! 2%positive) = StateRunning) as Hs by (vm_compute; reflexivity).
  pose proof (Fail_retries_or_buries demoFlying (mkFailEnv 50 (mkRetryEnv 50 7 0)) "b" "boom" 1 2
    Hf Hs) as H. clear Hf Hs.
  destruct (SchedFail _ "b" "boom" 1 demoFlying) as [w' r].
  destruct H as (_ & _ & Hs & _ & _ & _ & _ & _ & Hr & _).
  split; [exact Hr | exact Hs].
Defined.

(** Claim C18: [RequeueFromWorker] puts exactly the in-flight tasks of the given
    worker back in the queue, as QUEUED and without a worker, returns their
    number, leaves every other task alone and signals when it moved one; and
    whatever order Go ranges over the in-flight map in, the tasks, the in-flight
    map and the count are the same and the queue holds the same tasks. *)
Theorem RequeueFromWorker_exact (w : World) (wid : string) (ord1 ord2 : list (string * loc))
  (HI : Inv w) (H1 : map_order (inFlight (sched w)) ord1) (H2 : map_order (inFlight (sched w)) ord2) :
  let '(w1, n1) := RequeueFromWorker wid ord1 w in
  let '(w2, n2) := RequeueFromWorker wid ord2 w in
  n1 = Z.of_nat (length (filter (fun t => tWorkerID (mem w !!! t) = wid) (flight (sched w)))) /\
  (forall t, mem w1 !!! t =
    if decide (t ∈ flight (sched w) /\ tWorkerID (mem w !!! t) = wid)
    then (mem w !!! t) <| tState := StateQueued |> <| tWorkerID := "" |> else mem w !!! t) /\
  (forall id, inFlight (sched w1) !! id =
    (t ← inFlight (sched w) !! id; if decide (tWorkerID (mem w !!! t) = wid) then None else Some t)) /\
  queue (sched w1) ≡ₚ filter (fun t => tWorkerID (mem w !!! t) = wid) (flight (sched w)) ++ queue (sched w) /\
  notify (sched w1) = (0 <? n1) || notify (sched w) /\
  n1 = n2 /\ (forall t, mem w1 !!! t = mem w2 !!! t) /\ inFlight (sched w1) = inFlight (sched w2) /\
  queue (sched w1) ≡ₚ queue (sched w2).
Proof.
  assert (forall ord, map_order (inFlight (sched w)) ord -> let '(w', n) := RequeueFromWorker wid ord w in
    n = Z.of_nat (length (filter (fun t => tWorkerID (mem w !!! t) = wid) (flight (sched w)))) /\
    (forall t, mem w' !!! t =
      if decide (t ∈ flight (sched w) /\ tWorkerID (mem w !!! t) = wid)
      then release (mem w !!! t) else mem w !!! t) /\
    (forall id, inFlight (sched w') !! id =
      (t ← inFlight (sched w) !! id; if decide (tWorkerID (mem w !!! t) = wid) then None else Some t)) /\
    queue (sched w') ≡ₚ
      filter (fun t => tWorkerID (mem w !!! t) = wid) (flight (sched w)) ++ queue (sched w) /\
    notify (sched w') = (0 <? n) || notify (sched w)) as Hone.
  { intros ord Ho. destruct (RequeueFromWorker_spec wid ord w HI Ho) as (w' & -> & Hr).
    exact (requeued_exact _ _ _ _ HI Ho Hr). }
  pose proof (Hone ord1 H1) as A. pose proof (Hone ord2 H2) as B.
  destruct (RequeueFromWorker wid ord1 w) as [w1 n1], (RequeueFromWorker wid ord2 w) as [w2 n2].
  destruct A as (An & Am & Af & Aq & Ao), B as (Bn & Bm & Bf & Bq & Bo).
  split_and!; try done; [congruence| | |by rewrite Aq, Bq].
  - intros t. by rewrite Am, Bm.
  - apply map_eq. intros id. by rewrite Af, Bf.
Qed.

Lemma RequeueFromWorker_exact_witness :
  let '(w', n) := RequeueFromWorker "w1" (map_to_list (inFlight (sched demoFlying))) demoFlying in
  inFlight (sched w') !! "d" = None /\ inFlight (sched w') !! "b" = Some 2%positive.
Proof.
  pose proof (RequeueFromWorker_exact demoFlying "w1" (map_to_list (inFlight (sched demoFlying)))
    (rev (map_to_list (inFlight (sched demoFlying)))) demoFlying_inv (Permutation_refl _)
    (Permutation_sym (Permutation_rev _))) as H.
  destruct (RequeueFromWorker "w1" (map_to_list _) demoFlying) as [w1 n1].
  destruct (RequeueFromWorker "w1" (rev _) demoFlying) as [w2 n2].
  destruct H as (_ & _ & Hf & _). rewrite !Hf. split; vm_compute; reflexivity.
Defined.

(** Claim C27: [ProcessRetries] re-queues exactly the waiting tasks whose retry
    time has passed, as QUEUED, keeps the others waiting in their order, counts
    the first kind and signals when there is one. *)
Theorem ProcessRetries_exact (w : World) (now : Time) (HI : Inv w)
  (Hst : forall t, t ∈ retryQueue (sched w) -> tState (mem w !!! t) = StateRetrying) :
  let '(w', n) := ProcessRetries now w in
  let ready := filter (fun t => tNextRetryAt (mem w !!! t) < now) (retryQueue (sched w)) in
  n = Z.of_nat (length ready) /\
  queue (sched w') ≡ₚ ready ++ queue (sched w) /\
  retryQueue (sched w') = filter (fun t => now <= tNextRetryAt (mem w !!! t)) (retryQueue (sched w)) /\
  (forall t, mem w' !!! t = if decide (t ∈ ready)
    then (mem w !!! t) <| tState := StateQueued |> else mem w !!! t) /\
  notify (sched w') = (0 <? n) || notify (sched w) /\
  inFlight (sched w') = inFlight (sched w) /\ deadLetter (sched w') = deadLetter (sched w).
Proof.
  destruct (ProcessRetries_spec now w) as (w' & -> & [Hm Hq Hs _ _]). cbv zeta.
  assert (due now (mem w) (retryQueue (sched w)) =
    filter (fun t => tNextRetryAt (mem w !!! t) < now) (retryQueue (sched w))) as Hd.
  { apply list_filter_ext_in. intros t _. unfold After. by rewrite Z.ltb_lt. }
  rewrite Hd in *. split_and!; world.
  - done.
  - done.
  - apply list_filter_ext_in. intros t _. unfold After. rewrite Z.ltb_lt. lia.
  - intros t. rewrite Hm. case_decide as Ht; [|done]. apply list_elem_of_filter in Ht as [_ Ht].
    by rewrite Requeue_retrying by auto.
  - rewrite Hs. by simpl_fields_goal.
  - rewrite Hs. by simpl_fields_goal.
  - rewrite Hs. by simpl_fields_goal.
Qed.

Definition demoFailed : World :=
  opStep (OpFail (mkFailEnv 50 (mkRetryEnv 50 7 0)) "b" "boom" 1) demoFlying.

Lemma demoFailed_inv : Inv demoFailed.
Proof. apply opStep_inv; [exact I | exact I | exact demoFlying_inv]. Qed.

#[local] Opaque demoFailed.

Lemma ProcessRetries_exact_witness :
  let '(w', n) := ProcessRetries (50 + 3 * Second) demoFailed in
  n = 1 /\ tState (mem w' !!! 2%positive) = StateQueued /\ retryQueue (sched w') = [].
Proof.
  assert (retryQueue (sched demoFailed) = [2%positive]) as Hr by (vm_compute; reflexivity).
  assert (tNextRetryAt (mem demoFailed !!! 2%positive) = 50 + 2 * Second + 7) as Hn
    by (vm_compute; reflexivity).
  pose proof (ProcessRetries_exact demoFailed (50 + 3 * Second) demoFailed_inv) as H.
  destruct (ProcessRetries (50 + 3 * Second) demoFailed) as [w' n].
  rewrite Hr in H. cbn [filter list_filter] in H. rewrite Hn in H.
  destruct H as (H1 & _ & H2 & H3 & _).
  { intros t ->%list_elem_of_singleton. vm_compute. reflexivity. }
  split; [exact H1|]. split; [|exact H2]. rewrite H3.
  rewrite decide_True by (apply list_elem_of_singleton; reflexivity). vm_compute. reflexivity.
Defined.

(** Claim C17: [CheckTimeouts] fails exactly the in-flight tasks that are RUNNING
    with a positive time limit that has passed, whatever their order in the map:
    each leaves the in-flight map for the dead letter queue or the retry queue
    according to its attempts, with exit code -1 and the timeout as its error;
    no other task and no counter changes. *)
Theorem CheckTimeouts_exact (w : World) (now : Time) (envs : nat -> FailEnv)
  (ord : list (string * loc)) (HI : Inv w) (Ho : map_order (inFlight (sched w)) ord) :
  let late t := t ∈ flight (sched w) /\ timedOut now (mem w !!! t) = true in
  let dead t := tMaxRetries (mem w !!! t) <= tAttempt (mem w !!! t) in
  let '(w', n) := CheckTimeouts now envs ord w in
  n = Z.of_nat (length (filter (fun t => timedOut now (mem w !!! t) = true) (flight (sched w)))) /\
  (forall t, ~ late t -> mem w' !!! t = mem w !!! t) /\
  (forall t, late t ->
    tState (mem w' !!! t) = (if decide (dead t) then StateDead else StateRetrying) /\
    tError (mem w' !!! t) = "task execution timed out" /\ tExitCode (mem w' !!! t) = -1) /\
  (forall t, t ∈ flight (sched w') <-> t ∈ flight (sched w) /\ ~ late t) /\
  (forall t, t ∈ retryQueue (sched w') <-> t ∈ retryQueue (sched w) \/ (late t /\ ~ dead t)) /\
  (forall t, t ∈ deadLetter (sched w') <-> t ∈ deadLetter (sched w) \/ (late t /\ dead t)) /\
  queue (sched w') = queue (sched w) /\ totalFailed (sched w') = totalFailed (sched w).
Proof.
  intros late dead.
  destruct (CheckTimeouts_spec now envs ord w HI Ho)
    as (w' & -> & Hall).
  pose proof (fun t => timed_out_flight now envs ord w w' t HI Ho Hall) as Hfl.
  destruct Hall as [Hm Ht Hq Hr Hd _ (_ & _ & _ & Htf) _].
  pose proof (overdue_elem now (mem w) (sched w) ord Ho) as Hl.
  assert (forall t, late t -> tState (mem w' !!! t) = (if decide (dead t) then StateDead else StateRetrying) /\
    tError (mem w' !!! t) = "task execution timed out" /\ tExitCode (mem w' !!! t) = -1) as Hlate.
  { intros t Hlt. pose proof (proj2 (Hl t) Hlt) as [k Hk]%list_elem_of_lookup.
    rewrite (Ht k t Hk). exact (failedTask_timedOut now _ _ _ _ (proj2 Hlt)). }
  assert (forall t, late t -> (tState (mem w' !!! t) = StateDead <-> dead t)) as Hdead.
  { intros t Hlt. destruct (Hlate t Hlt) as [-> _]. by case_decide. }
  split_and!; try done.
  - f_equal. apply Permutation_length. unfold overdue, flight. by rewrite Ho.
  - intros t Hn. apply Hm. by rewrite Hl.
  - intros t. by rewrite Hfl, Hl.
  - intros t. rewrite Hr, elem_of_app, list_elem_of_filter, Hl. fold (late t).
    specialize (Hdead t). clear Hlate. clearbody late dead. tauto.
  - intros t. rewrite Hd, elem_of_app, list_elem_of_filter, Hl. fold (late t).
    specialize (Hdead t). clear Hlate. clearbody late dead. tauto.
Qed.

Lemma CheckTimeouts_exact_witness :
  let now := 23 + 301 * Second in
  let ord := map_to_list (inFlight (sched demoFlying)) in
  let envs (i : nat) := mkFailEnv now (mkRetryEnv now 7 0) in
  let '(w', n) := CheckTimeouts now envs ord demoFlying in
  tState (mem w' !!! 2%positive) = StateRetrying /\ 2%positive ∉ flight (sched w').
Proof.
  intros now ord envs.
  assert (2%positive ∈ flight (sched demoFlying) /\ timedOut now (mem demoFlying !!! 2%positive) = true) as Hl.
  { split; [by apply (bool_decide_unpack _); vm_compute | vm_compute; reflexivity]. }
  assert (tMaxRetries (mem demoFlying !!! 2%positive) = 3 /\
    tAttempt (mem demoFlying !!! 2%positive) = 1) as [Hmax Ha] by (vm_compute; split; reflexivity).
  pose proof (CheckTimeouts_exact demoFlying now envs ord demoFlying_inv (Permutation_refl _)) as H.
  destruct (CheckTimeouts now envs ord demoFlying) as [w' n].
  destruct H as (_ & _ & Hs & Hf & _). split.
  - destruct (Hs 2%positive Hl) as [-> _]. rewrite Hmax, Ha. reflexivity.
  - intros Hin. apply Hf in Hin as [_ Hin]. exact (Hin Hl).
Defined.

(** The completed tasks that a sequence of calls leaves behind. *)

Lemma foldl_fst {A B C} (f : A * C -> B -> A * C) (P : A -> Prop) l a c :
  (forall a c b, P a -> P (fst (f (a, c) b))) -> P a -> P (fst (foldl f (a, c) l)).
Proof.
  intros Hf. revert a c. induction l as [|b l IH]; intros a c Ha; [done|]. cbn [foldl].
  specialize (Hf a c b Ha). destruct (f (a, c) b) as [a' c']. by apply IH.
Qed.

Section completed.
Variable l : list loc.
Abbreviation P w := (completed (sched w) = l).

Lemma requeue_completed wid ord w : P w -> P (fst (RequeueFromWorker wid ord w)).
Proof.
  intros Hw. unfold RequeueFromWorker.
  pose proof (foldl_fst (requeueOne wid) (fun w => P w) ord w 0) as H.
  destruct (foldl _ _ _) as [w' c]. cbn [fst] in *. world. apply H; [|done].
  intros a n [id t] Ha. unfold requeueOne. case_match; cbn [fst]; by world.
Qed.

Lemma retries_completed now w : P w -> P (fst (ProcessRetries now w)).
Proof.
  intros Hw. unfold ProcessRetries.
  assert (forall ts rem c w, P w -> P (fst (fst (foldl (retryOne now) (w, rem, c) ts)))) as H.
  { induction ts as [|t ts IH]; intros rem c v Hv; [done|]. cbn [foldl]. unfold retryOne at 2.
    case_match; apply IH; [|done]. by world. }
  specialize (H (retryQueue (sched w)) [] 0 w Hw).
  destruct (foldl _ _ _) as [[w' rem] c]. cbn [fst] in *. by world.
Qed.

Lemma timeouts_completed now envs ord w : P w -> P (fst (CheckTimeouts now envs ord w)).
Proof.
  unfold CheckTimeouts. cbn [fst]. generalize 0%nat as i. generalize (filter (fun t => timedOut now (mem w !!! t) = true) ord.*2) as ts.
  intros ts. revert w. induction ts as [|t ts IH]; intros w i Hw; [done|]. cbn [timeoutLoop].
  apply IH. rewrite timeoutOne_failing. rewrite <- Hw.
  by destruct (failing_fields (envs i) (idOf (mem w) t) "task execution timed out" (-1) 0 t w)
    as (_ & _ & _ & _ & _ & -> & _).
Qed.

End completed.

Lemma opStep_completed o w :
  (length (completed (sched w)) <= maxCompleted)%nat ->
  (length (completed (sched (opStep o w))) <= maxCompleted)%nat.
Proof.
  intros Hl. destruct o as [ | | |now id out code|env id msg code|wid ord| now|now envs ord|id| | |]; cbn [opStep].
  - unfold Enqueue. by world.
  - unfold Dequeue. repeat case_match; cbn [fst]; by world.
  - by world.
  - destruct (inFlight (sched w) !! id) as [t|] eqn:E; [|by rewrite SchedComplete_unknown].
    destruct (SchedComplete_known now id out code w t E) as (w' & -> & _ & Hs).
    cbn [fst]. rewrite Hs. unfold keepCompleted. simpl_fields_goal. case_bool_decide; [|lia].
    rewrite last_n_length. unfold maxCompleted in *. lia.
  - destruct (inFlight (sched w) !! id) as [t|] eqn:E; [|by rewrite SchedFail_unknown].
    rewrite (SchedFail_known env id msg code w t E). cbn [fst].
    by destruct (failing_fields env id msg code 1 t w) as (_ & _ & _ & _ & _ & -> & _).
  - by rewrite (requeue_completed (completed (sched w))).
  - by rewrite (retries_completed (completed (sched w))).
  - by rewrite (timeouts_completed (completed (sched w))).
  - unfold SchedRetryFromDLQ. repeat case_match; cbn [fst]; try done. by world.
  - by world.
  - by world.
  - unfold receiveNotify. case_match; cbn [default from_option id]; [by world|done].
Qed.

(** The scheduler never keeps more than 100 completed tasks, and the
    dashboard's list is bounded by what is pending plus 250: at most 200 queued
    tasks and the last 50 completed ones. *)
Theorem dashboard_bounded (os : list Op) (m : Mem) (timeout : Duration) (ins outs : list loc)
  (w : World) (ord : list (string * loc))
  (H : trace os (mkWorld m (NewScheduler timeout)) ins outs w)
  (Ho : map_order (inFlight (sched w)) ord) :
  (length (completed (sched w)) <= 100)%nat /\
  (length (AllTasks ord w) <= 250 + size (inFlight (sched w)) + length (retryQueue (sched w)) +
    length (deadLetter (sched w)))%nat /\
  (forall t, t ∈ flight (sched w) ++ retryQueue (sched w) ++ deadLetter (sched w) -> t ∈ AllTasks ord w).
Proof.
  assert (length (completed (sched w)) <= maxCompleted)%nat as Hc.
  { assert (length (completed (sched (mkWorld m (NewScheduler timeout)))) <= maxCompleted)%nat as H0
      by (cbn; lia).
    revert H0. clear Ho. induction H; [done|]. intros. by apply IHtrace, opStep_completed. }
  split; [done|]. unfold AllTasks. split.
  - rewrite !length_app, length_take, length_drop, length_fmap.
    assert (length ord = size (inFlight (sched w))) as ->
      by (rewrite Ho, length_map_to_list; done).
    unfold maxQueuedInDash. case_bool_decide; lia.
  - intros t. unfold flight. rewrite <- Ho, !elem_of_app. tauto.
Qed.

Lemma dashboard_bounded_witness :
  exists w, 1%positive ∈ AllTasks [("a", 1%positive)] w.
Proof.
  assert (runOps [OpEnqueue 1; OpDequeue] (mkWorld demoMem (NewScheduler 0)) =
    Some ([1%positive], [], opStep OpDequeue (opStep (OpEnqueue 1) (mkWorld demoMem (NewScheduler 0)))))
    as Hr by (vm_compute; reflexivity).
  apply runOps_trace in Hr.
  exists (opStep OpDequeue (opStep (OpEnqueue 1) (mkWorld demoMem (NewScheduler 0)))).
  apply (dashboard_bounded _ _ _ _ _ _ [("a", 1%positive)] Hr);
    apply (bool_decide_unpack _); vm_compute; exact I.
Defined.

(** [RetryFromDLQ] revives a dead task: the first task of the dead
    letter queue with the given id goes back to the queue as QUEUED, with no
    attempt counted and no error, and the signal is raised; without such a task
    it returns false and changes nothing. *)
Theorem RetryFromDLQ_revives (w : World) (id : string)
  (Hdead : forall t, t ∈ deadLetter (sched w) -> tState (mem w !!! t) = StateDead) :
  let '(w', ok) := SchedRetryFromDLQ id w in
  if ok then
    exists t, t ∈ deadLetter (sched w) /\ tID (mem w !!! t) = id /\
      deadLetter (sched w) ≡ₚ t :: deadLetter (sched w') /\
      queue (sched w') ≡ₚ t :: queue (sched w) /\
      mem w' !!! t = (mem w !!! t) <| tState := StateQueued |> <| tAttempt := 0 |> <| tError := "" |> /\
      (forall u, u <> t -> mem w' !!! u = mem w !!! u) /\ notify (sched w') = true
  else w' = w /\ forall t, t ∈ deadLetter (sched w) -> tID (mem w !!! t) <> id.
Proof.
  destruct (findTask (mem w) id (deadLetter (sched w))) as [i|] eqn:Hi.
  - destruct (findTask_Some _ _ _ _ Hi) as (t & Ht & Hid & Hp).
    destruct (SchedRetryFromDLQ_found id w i t Hi Ht) as (w' & -> & Hm & Hq & Hd & _ & _ & _ & Hn).
    exists t. assert (t ∈ deadLetter (sched w)) as Hin by (by eapply list_elem_of_lookup_2).
    split_and!; try done.
    + by rewrite Hd.
    + by rewrite Hq, heapPush_perm.
    + rewrite Hm, onTask_lookup, decide_True by done. unfold RetryFromDLQ.
      rewrite Transition_ok by (rewrite Hdead by done; set_solver). done.
    + intros u Hu. by rewrite Hm, onTask_lookup, decide_False.
  - unfold SchedRetryFromDLQ. rewrite Hi. split; [done|]. by apply findTask_None.
Qed.

Definition demoBuried : World := {|
  mem := <[2%positive := (demoTask 11 PriorityHigh "b") <| tState := StateDead |> <| tAttempt := 3 |>]> demoMem;
  sched := (NewScheduler (300 * Second)) <| deadLetter := [2%positive] |>
|}.

Lemma RetryFromDLQ_revives_witness :
  tState (mem demoBuried !!! 2%positive) = StateDead /\
  queue (sched (fst (SchedRetryFromDLQ "b" demoBuried))) ≡ₚ [2%positive].
Proof.
  split; [vm_compute; reflexivity|].
  assert (snd (SchedRetryFromDLQ "b" demoBuried) = true) as Hok by (vm_compute; reflexivity).
  pose proof (RetryFromDLQ_revives demoBuried "b") as H.
  destruct (SchedRetryFromDLQ "b" demoBuried) as [w' ok]. cbn [snd] in Hok. rewrite Hok in H.
  destruct H as (t & Ht & _ & _ & Hq & _).
  { intros t ->%list_elem_of_singleton. vm_compute. reflexivity. }
  apply list_elem_of_singleton in Ht. rewrite Ht in Hq. exact Hq.
Defined.

(** ** The dashboard's first 200 queued tasks *)

(** 201 submissions: the [i]-th is urgent exactly when the heap slot [i] is not
    below slot 1. *)

Definition slotPriority (i : nat) : Z :=
  let fix under (fuel i : nat) : bool :=
    match fuel with
    | O => false
    | S fuel => match i with O => false | 1%nat => true | _ => under fuel (parent i) end
    end
  in if under 201%nat i then PriorityLow else PriorityHigh.

Definition manyMem : Mem := list_to_map
  ((fun i => (Pos.of_succ_nat i,
      (New (Z.of_nat i) (String.concat "" (replicate i "i")) "run.sh") <| tPriority := slotPriority i |>))
    <$> seq 0 201).

Definition manyOps : list Op := (fun i => OpEnqueue (Pos.of_succ_nat i)) <$> seq 0 201.

Definition manyWorld : World := foldl (fun w o => opStep o w) (mkWorld manyMem (NewScheduler 0)) manyOps.

(** The dashboard's 200 queued tasks are not the most urgent ones: a
    sequence of submissions leads to a queue in which a high-priority task is
    left out of [AllTasks] while a low-priority one is in it. *)
Theorem AllTasks_overlooks_urgent :
  exists os m ins w t u, trace os (mkWorld m (NewScheduler 0)) ins [] w /\
    (inFlight (sched w) = ∅) /\ t ∈ queue (sched w) /\ ~ (t ∈ AllTasks [] w) /\
    u ∈ queue (sched w) /\ u ∈ AllTasks [] w /\
    tPriority (mem w !!! t) = PriorityHigh /\ tPriority (mem w !!! u) = PriorityLow.
Proof.
  exists manyOps, manyMem, ((fun i => Pos.of_succ_nat i) <$> seq 0 201), manyWorld, 201%positive, 2%positive.
  split; [apply runOps_trace; vm_compute; reflexivity|].
  split; [vm_compute; reflexivity|].
  split; [by apply (bool_decide_unpack _); vm_compute|].
  split; [by apply (bool_decide_unpack _); vm_compute|].
  split; [by apply (bool_decide_unpack _); vm_compute|].
  split; [by apply (bool_decide_unpack _); vm_compute|].
  split; vm_compute; reflexivity.
Qed.
