(* ===== verification/SchedulerSpec.v ===== *)
(** * What the scheduler promises

    An abstract scheduler: the tasks' values, an unordered queue, the in-flight map,
    the waiting and the dead tasks in their order, the counters and the signal, with
    one step per call, tied to the call's arguments.  The operations of
    [Scheduler.v], with their heap, their loops over a map in an unspecified order
    and their slices, refine it over every sequence of calls; and over every such
    sequence no task is lost or made up. *)

From stdpp Require Import gmultiset.
From S2P Require Import Prelude GoTime Heap Task Scheduler SchedulerFacts SchedulerProps.

Open Scope string_scope.
Open Scope list_scope.
Open Scope Z_scope.

(** ** The abstract scheduler *)

Record Abs := mkAbs {
  aTask : loc -> Task;
  aQueued : gmultiset loc;
  aFlight : gmap string loc;
  aWaiting : list loc;
  aBuried : list loc;
  aRecent : list loc;
  aCompleted : Z;
  aFailed : Z;
  aSignal : bool
}.

#[export] Instance Abs_struct : Struct Abs := fun A =>
  mkAbs (aTask A) (aQueued A) (aFlight A) (aWaiting A) (aBuried A) (aRecent A) (aCompleted A)
    (aFailed A) (aSignal A).

(** Two states are the same when they give every task the same value. *)

#[export] Instance Abs_equiv : Equiv Abs := fun A B =>
  (forall t, aTask A t = aTask B t) /\ aQueued A = aQueued B /\ aFlight A = aFlight B /\
  aWaiting A = aWaiting B /\ aBuried A = aBuried B /\ aRecent A = aRecent B /\
  aCompleted A = aCompleted B /\ aFailed A = aFailed B /\ aSignal A = aSignal B.

#[export] Instance Abs_equivalence : Equivalence (≡@{Abs}).
Proof.
  split; [by intros A|intros A B H; unfold equiv, Abs_equiv in *|intros A B C H1 H2; unfold equiv, Abs_equiv in *].
  - destruct H as (Ht & ?&?&?&?&?&?&?&?). split; [intros t; by rewrite Ht|by split_and!].
  - destruct H1 as (Ht1 & ?&?&?&?&?&?&?&?), H2 as (Ht2 & ?&?&?&?&?&?&?&?).
    split; [intros t; by rewrite Ht1|split_and!; congruence].
Qed.

Definition tasksIn (m : gmap string loc) : list loc := (map_to_list m).*2.

(** Change the tasks of a list. *)
Definition change (f : Task -> Task) (l : list loc) (A : Abs) : Abs :=
  A <| aTask := fun t => if decide (t ∈ l) then f (aTask A t) else aTask A t |>.

(** Into the queue, raising the signal. *)
Definition submit (l : list loc) (A : Abs) : Abs :=
  A <| aQueued := list_to_set_disj l ⊎ aQueued A |> <| aSignal := bool_decide (l <> []) || aSignal A |>.

(** A failed task's next place. *)
Definition settle (t : loc) (A : Abs) : Abs :=
  if decide (tState (aTask A t) = StateDead) then A <| aBuried := aBuried A ++ [t] |>
  else A <| aWaiting := aWaiting A ++ [t] |>.

Definition mostUrgent (A : Abs) (t : loc) : Prop :=
  t ∈ aQueued A /\ forall u, u ∈ aQueued A ->
    tPriority (aTask A u) < tPriority (aTask A t) \/
    tPriority (aTask A u) = tPriority (aTask A t) /\ tCreatedAt (aTask A t) <= tCreatedAt (aTask A u).

Definition overdueAt (now : Time) (tk : Task) : Prop :=
  tState tk = StateRunning /\ 0 < tTimeoutSec tk /\
  Add (tStartedAt tk) (mulDuration (tTimeoutSec tk) Second) < now.

#[export] Instance overdueAt_dec now tk : Decision (overdueAt now tk).
Proof. unfold overdueAt. apply _. Defined.

(** One step of the specification per call. *)

Definition specStep (o : Op) (A A' : Abs) : Prop :=
  match o with
  | OpEnqueue t => A' ≡ submit [t] A
  | OpDequeue =>
      (aQueued A = ∅ /\ A' ≡ A) \/
      exists t, mostUrgent A t /\
        A' ≡ A <| aQueued := aQueued A ∖ {[+ t +]} |>
               <| aFlight := <[tID (aTask A t) := t]> (aFlight A) |>
               <| aSignal := aSignal A || bool_decide (aQueued A ∖ {[+ t +]} <> ∅) |>
  | OpTask c t => A' ≡ change (fun tk => fst (call c tk)) [t] A
  | OpComplete now id out code =>
      match aFlight A !! id with
      | None => A' ≡ A
      | Some t => A' ≡ (change (fun tk => fst (Complete now out code tk)) [t] A)
            <| aFlight := delete id (aFlight A) |> <| aRecent := last_n 100 (aRecent A ++ [t]) |>
            <| aCompleted := int64 (aCompleted A + 1) |>
      end
  | OpFail env id msg code =>
      match aFlight A !! id with
      | None => A' ≡ A
      | Some t => A' ≡ settle t ((change (failedTask env msg code) [t] A)
            <| aFlight := delete id (aFlight A) |> <| aFailed := int64 (aFailed A + 1) |>)
      end
  | OpRequeueFromWorker wid _ =>
      let mine := filter (fun e => tWorkerID (aTask A e.2) = wid) (aFlight A) in
      exists l, l ≡ₚ tasksIn mine /\
        A' ≡ submit l ((change (fun tk => tk <| tState := StateQueued |> <| tWorkerID := "" |>) l A)
               <| aFlight := aFlight A ∖ mine |>)
  | OpProcessRetries now =>
      let ready := filter (fun t => tNextRetryAt (aTask A t) < now) (aWaiting A) in
      A' ≡ submit ready ((change (fun tk => fst (Requeue tk)) ready A)
             <| aWaiting := filter (fun t => now <= tNextRetryAt (aTask A t)) (aWaiting A) |>)
  | OpCheckTimeouts now envs _ =>
      let late := filter (fun e => overdueAt now (aTask A e.2)) (aFlight A) in
      exists l, l ≡ₚ tasksIn late /\
        A' ≡ A <| aTask := aTask A' |> <| aFlight := aFlight A ∖ late |>
               <| aWaiting := aWaiting A ++ filter (fun t => tState (aTask A' t) <> StateDead) l |>
               <| aBuried := aBuried A ++ filter (fun t => tState (aTask A' t) = StateDead) l |> /\
        (forall t, t ∉ l -> aTask A' t = aTask A t) /\
        (forall k t, l !! k = Some t ->
           aTask A' t = failedTask (envs k) "task execution timed out" (-1) (aTask A t))
  | OpRetryFromDLQ id =>
      match list_find (fun t => tID (aTask A t) = id) (aBuried A) with
      | None => A' ≡ A
      | Some (i, t) => A' ≡ submit [t] ((change (fun tk => fst (RetryFromDLQ tk)) [t] A)
            <| aBuried := delete i (aBuried A) |>)
      end
  | OpRelease t => A' ≡ change (fun tk => tk <| tState := StateQueued |> <| tWorkerID := "" |>) [t] A
  | OpNotify => A' ≡ A <| aSignal := true |>
  | OpReceive => A' ≡ A <| aSignal := false |>
  end.

Inductive specTrace : list Op -> Abs -> Abs -> Prop :=
| spec_nil A A' : A' ≡ A -> specTrace [] A A'
| spec_cons o os A B C : specStep o A B -> specTrace os B C -> specTrace (o :: os) A C.

(** ** The abstraction *)

Definition abs (w : World) : Abs := {|
  aTask := fun t => mem w !!! t;
  aQueued := list_to_set_disj (queue (sched w));
  aFlight := inFlight (sched w);
  aWaiting := retryQueue (sched w);
  aBuried := deadLetter (sched w);
  aRecent := completed (sched w);
  aCompleted := totalCompleted (sched w);
  aFailed := totalFailed (sched w);
  aSignal := notify (sched w)
|}.

(** *** Each operation is a step of the specification *)

Lemma queued_elem w t : t ∈ aQueued (abs w) <-> t ∈ queue (sched w).
Proof. cbn. by rewrite elem_of_list_to_set_disj. Qed.

Lemma abs_equiv_intro A B :
  (forall t, aTask A t = aTask B t) -> aQueued A = aQueued B -> aFlight A = aFlight B ->
  aWaiting A = aWaiting B -> aBuried A = aBuried B -> aRecent A = aRecent B ->
  aCompleted A = aCompleted B -> aFailed A = aFailed B -> aSignal A = aSignal B -> A ≡ B.
Proof. intros. by split_and!. Qed.

(** Compare two abstract states field by field. *)
Ltac fields_eq :=
  apply abs_equiv_intro; unfold submit, change; simpl_fields_goal; cbn [abs aTask aQueued aFlight
    aWaiting aBuried aRecent aCompleted aFailed aSignal]; simpl_fields_goal;
  cbn [abs aTask aQueued aFlight aWaiting aBuried aRecent aCompleted aFailed aSignal].

Lemma queued_perm l l' r :
  l ≡ₚ l' ++ r ->
  list_to_set_disj l =@{gmultiset loc} list_to_set_disj l' ⊎ list_to_set_disj r.
Proof. intros ->. by rewrite list_to_set_disj_app. Qed.

Lemma onTask_change f t (m : Mem) u :
  onTask f t m !!! u = if decide (u ∈ [t]) then f (m !!! u) else m !!! u.
Proof.
  rewrite onTask_lookup. destruct (decide (u = t)) as [->|Hne].
  - by rewrite decide_True by (by left).
  - rewrite decide_False; [done|]. by intros ?%list_elem_of_singleton.
Qed.

Lemma Enqueue_refines t w : specStep (OpEnqueue t) (abs w) (abs (Enqueue t w)).
Proof.
  cbn [specStep]. unfold Enqueue. fields_eq; world; try done.
  apply (queued_perm _ [t]). by rewrite heapPush_perm.
Qed.

Lemma Dequeue_refines w : Loose w -> specStep OpDequeue (abs w) (abs (fst (Dequeue w))).
Proof.
  intros HI. destruct (decide (queue (sched w) = [])) as [E|E].
  { rewrite Dequeue_empty by done. left. split; [|reflexivity]. cbn. by rewrite E. }
  destruct (Dequeue_takes w HI E) as (w' & t & -> & [Hm Hq Hb _ Hf Hn (Hr & Hd & Hc & Htc & Htf)]).
  right. exists t. cbn [fst]. split.
  { split; [apply queued_elem; rewrite Hq; by left|]. intros u. rewrite queued_elem, Hq, elem_of_cons.
    cbn. intros [->|Hu]; [lia|]. rewrite Forall_forall in Hb. by apply taskLess_false, Hb. }
  assert (list_to_set_disj (queue (sched w)) ∖ {[+ t +]} =@{gmultiset loc} list_to_set_disj (queue (sched w'))) as Hx.
  { rewrite (queued_perm _ [t] _ Hq). cbn [list_to_set_disj foldr fmap list_fmap]. multiset_solver. }
  fields_eq; try done; [by rewrite Hm|].
  rewrite Hn. f_equal. rewrite Hx. apply bool_decide_ext.
  destruct (queue (sched w')) as [|u l]; [done|]. split; [|done]. intros _ H0.
  assert (u ∈ list_to_set_disj (C := gmultiset loc) (u :: l)) as Hu by (apply elem_of_list_to_set_disj; by left).
  rewrite H0 in Hu. multiset_solver.
Qed.

Lemma withTask_refines f f' t w :
  (forall tk, f tk = f' tk) -> abs (withTask f t w) ≡ change f' [t] (abs w).
Proof. intros Hf. fields_eq; world; try done. intros u. rewrite onTask_change. by case_decide; rewrite ?Hf. Qed.

Lemma Complete_refines now id out code w :
  specStep (OpComplete now id out code) (abs w) (abs (fst (SchedComplete now id out code w))).
Proof.
  cbn [specStep abs aFlight]. destruct (inFlight (sched w) !! id) as [t|] eqn:E; [|by rewrite SchedComplete_unknown].
  destruct (SchedComplete_known now id out code w t E) as (w' & -> & Hm & Hs). cbn [fst].
  fields_eq; rewrite ?Hs, ?Hm; unfold keepCompleted; simpl_fields_goal; try done.
  - intros u. apply onTask_change.
  - case_bool_decide as Hl; [done|]. unfold maxCompleted in Hl. unfold last_n.
    by replace (length (completed (sched w) ++ [t]) - 100)%nat with O by lia.
Qed.

Lemma Fail_refines env id msg code w :
  specStep (OpFail env id msg code) (abs w) (abs (fst (SchedFail env id msg code w))).
Proof.
  cbn [specStep abs aFlight]. destruct (inFlight (sched w) !! id) as [t|] eqn:E; [|by rewrite SchedFail_unknown].
  rewrite (SchedFail_known env id msg code w t E). cbn [fst].
  destruct (failing_fields env id msg code 1 t w) as (Hm & Hq & Hf & Hr & Hd & Hc & Hn & Htc & Htf).
  set (w' := retryOrBury _ _ _) in *. unfold settle, change. simpl_fields_goal.
  rewrite (decide_True (P := t ∈ [t])) by (by left). cbn [abs aTask].
  destruct (decide (tState (failedTask env msg code (mem w !!! t)) = StateDead)) as [Hs|Hs];
    fields_eq; rewrite ?app_nil_r in *; try done; try (by rewrite Hq);
    intros u; rewrite Hm; destruct (decide (u = t)) as [->|];
    rewrite ?(decide_True (P := t ∈ [t])) by (by left); try done;
    by rewrite decide_False by (by intros ?%list_elem_of_singleton).
Qed.

(** The entries that a loop selects are those of the filtered map. *)
Lemma selected_entries (P : string * loc -> Prop) `{!forall e, Decision (P e)} (m : gmap string loc) ord :
  map_order m ord -> filter P ord ≡ₚ map_to_list (filter P m).
Proof.
  intros Ho. apply NoDup_Permutation.
  - apply NoDup_filter. rewrite Ho. apply NoDup_map_to_list.
  - apply NoDup_map_to_list.
  - intros [id t]. rewrite list_elem_of_filter, Ho, !elem_of_map_to_list, map_lookup_filter_Some. tauto.
Qed.

Lemma difference_filter (P : string * loc -> Prop) `{!forall e, Decision (P e)} (m m' : gmap string loc) (ids : list string) :
  (forall id, m' !! id = if decide (id ∈ ids) then None else m !! id) ->
  (forall id, id ∈ ids <-> exists t, m !! id = Some t /\ P (id, t)) ->
  m' = m ∖ filter P m.
Proof.
  intros Hm Hids. apply map_eq. intros id. rewrite Hm, lookup_difference.
  destruct (decide (id ∈ ids)) as [Hin|Hout].
  - apply Hids in Hin as (t & Ht & HP). by rewrite (proj2 (map_lookup_filter_Some P m id t)).
  - destruct (filter P m !! id) as [t|] eqn:E; [|done]. exfalso. apply Hout, Hids. exists t.
    by apply map_lookup_filter_Some in E.
Qed.

Lemma RequeueFromWorker_refines wid ord w :
  Loose w -> map_order (inFlight (sched w)) ord ->
  specStep (OpRequeueFromWorker wid ord) (abs w) (abs (fst (RequeueFromWorker wid ord w))).
Proof.
  intros HI Ho.
  destruct (RequeueFromWorker_spec wid ord w HI Ho) as (w' & -> & [Hm Hq Hf (Hr & Hd & Hc & _ & Htc & Htf & Hn) _]).
  destruct (map_order_spec _ _ Ho) as [_ Hin].
  set (P (e : string * loc) := tWorkerID (mem w !!! e.2) = wid).
  assert (ownedBy (mem w) wid ord = filter P ord) as Hown by done. rewrite Hown in *.
  cbn [specStep abs aFlight aTask fst]. fold P. exists (filter P ord).*2. split.
  { unfold tasksIn. by rewrite (selected_entries P _ ord Ho). }
  fields_eq; world; rewrite ?Hr, ?Hd, ?Hc, ?Htc, ?Htf, ?Hn; try done.
  - by apply queued_perm.
  - apply (difference_filter P _ _ (filter P ord).*1); [done|]. intros id. rewrite list_elem_of_fmap. split.
    + intros ([i t] & -> & [HP Hi]%list_elem_of_filter). exists t. cbn. by rewrite <- Hin.
    + intros (t & Ht & HP). exists (id, t). by rewrite list_elem_of_filter, Hin.
  - f_equal. destruct (filter P ord); cbn; [done|]. apply Z.ltb_lt. lia.
Qed.

Lemma ProcessRetries_refines now w :
  specStep (OpProcessRetries now) (abs w) (abs (fst (ProcessRetries now w))).
Proof.
  destruct (ProcessRetries_spec now w) as (w' & -> & [Hm Hq Hs _ _]). cbn [specStep abs aWaiting aTask fst].
  assert (due now (mem w) (retryQueue (sched w)) =
    filter (fun t => tNextRetryAt (mem w !!! t) < now) (retryQueue (sched w))) as Hd.
  { apply list_filter_ext_in. intros t _. unfold After. by rewrite Z.ltb_lt. }
  rewrite Hd in *. fields_eq; world; try done; try (rewrite Hs; by simpl_fields_goal).
  - by apply queued_perm.
  - apply list_filter_ext_in. intros t _. unfold After. rewrite Z.ltb_lt. lia.
  - rewrite Hs. simpl_fields_goal. f_equal. destruct (filter _ _); cbn; [done|].
    apply Z.ltb_lt. lia.
Qed.

Lemma timedOut_overdue now tk : timedOut now tk = true <-> overdueAt now tk.
Proof.
  unfold timedOut, overdueAt, After. rewrite !andb_true_iff, bool_decide_eq_true, !Z.ltb_lt. tauto.
Qed.

Lemma CheckTimeouts_refines now envs ord w :
  Loose w -> map_order (inFlight (sched w)) ord ->
  specStep (OpCheckTimeouts now envs ord) (abs w) (abs (fst (CheckTimeouts now envs ord w))).
Proof.
  intros HI Ho. destruct (CheckTimeouts_spec now envs ord w HI Ho)
    as (w' & -> & [Hm Ht Hq Hr Hd Hf (Hn & Hc & Htc & Htf) _]).
  destruct (map_order_spec _ _ Ho) as [_ Hin].
  set (P (e : string * loc) := overdueAt now (mem w !!! e.2)).
  assert (overdue now (mem w) ord = (filter P ord).*2) as Hover.
  { pose proof (list_fmap_filter (snd (A := string)) (fun t => overdueAt now (mem w !!! t)) ord) as E.
    etrans; [|symmetry; exact E]. apply list_filter_ext_in. intros t _. apply timedOut_overdue. }
  rewrite Hover in *. cbn [specStep abs aFlight aTask fst]. fold P. exists (filter P ord).*2. split_and!.
  { unfold tasksIn. by rewrite (selected_entries P _ ord Ho). }
  - fields_eq; rewrite ?Hr, ?Hd, ?Hc, ?Htc, ?Htf, ?Hn; try done; [by rewrite Hq|].
    apply (difference_filter P _ _ (idOf (mem w) <$> (filter P ord).*2)); [done|]. intros id.
    rewrite list_elem_of_fmap. split.
    + intros (t & -> & ([i u] & E & [HP Hi]%list_elem_of_filter)%list_elem_of_fmap). cbn in E. subst u.
      apply Hin in Hi. rewrite (ls_keyed w HI i t Hi). eauto.
    + intros (t & Ht' & HP). exists t. rewrite (ls_keyed w HI id t Ht'). split; [done|].
      apply (list_elem_of_fmap_2 snd _ (id, t)), list_elem_of_filter. by rewrite Hin.
  - done.
  - intros k t Hk. by rewrite (Ht k t Hk).
Qed.

Lemma findTask_find (m : Mem) id l :
  list_find (fun t => tID (m !!! t) = id) l = (i ← findTask m id l; t ← l !! i; Some (i, t)).
Proof.
  induction l as [|u l IH]; [done|]. cbn [list_find findTask].
  destruct (String.eqb_spec (tID (m !!! u)) id) as [E|E].
  - by rewrite decide_True.
  - rewrite decide_False by done. rewrite IH. destruct (findTask m id l) as [i|]; [|done].
    cbn. by destruct (l !! i).
Qed.

Lemma delete_take_drop {A} i (l : list A) : delete i l = take i l ++ drop (S i) l.
Proof. revert i. induction l as [|x l IH]; intros [|i]; cbn; try done. by rewrite IH. Qed.

Lemma RetryFromDLQ_refines id w :
  specStep (OpRetryFromDLQ id) (abs w) (abs (fst (SchedRetryFromDLQ id w))).
Proof.
  cbn [specStep abs aBuried aTask]. rewrite findTask_find.
  destruct (findTask (mem w) id (deadLetter (sched w))) as [i|] eqn:Hi; cbn [mbind option_bind].
  2:{ unfold SchedRetryFromDLQ. by rewrite Hi. }
  destruct (findTask_Some _ _ _ _ Hi) as (t & Ht & _ & _). rewrite Ht. cbn [mbind option_bind].
  unfold SchedRetryFromDLQ. rewrite Hi, Ht. cbn [fst]. fields_eq; world; try done.
  - intros u. apply onTask_change.
  - apply (queued_perm _ [t]). by rewrite heapPush_perm.
  - by rewrite delete_take_drop.
Qed.

(** *** Every call keeps the loose invariant *)

Lemma requeueOne_tidy wid acc e : tidy (fst acc) (fst (requeueOne wid acc e)).
Proof.
  destruct acc as [w c], e as [id t]. unfold requeueOne. destruct (String.eqb _ _); cbn [fst]; [|apply tidy_refl].
  eapply tidy_trans; [|apply pushQueue_tidy].
  eapply tidy_trans; [|apply withTask_tidy, release_sameKey].
  apply withSched_tidy; cbv beta; simpl_fields_goal; [done|apply delete_subseteq].
Qed.

Lemma retryOne_tidy now acc t : tidy (fst (fst acc)) (fst (fst (retryOne now acc t))).
Proof.
  destruct acc as [[w l] c]. unfold retryOne. destruct (After _ _); cbn [fst]; [|apply tidy_refl].
  eapply tidy_trans; [apply withTask_tidy, Requeue_sameKey|apply pushQueue_tidy].
Qed.

Lemma failing_tidy env id msg code n t w :
  tidy w (retryOrBury (failRetry env) t (failing env id msg code n t w)).
Proof.
  destruct (retryOrBury_same (failRetry env) t (failing env id msg code n t w))
    as (Hs & Hq & Hf & _).
  destruct (failing_fields env id msg code n t w) as (_ & Hq' & Hf' & _).
  apply tidy_intro.
  - etrans; [|exact Hs]. apply onTask_stable. intros. apply (call_sameKey (CallFail _ _ _)).
  - rewrite Hq'. by intros [].
  - intros [_ Hk] i u. rewrite Hf', lookup_delete_Some. intros [_ Hu]. by apply Hk.
Qed.

Lemma timeoutLoop_tidy envs i ts w : tidy w (timeoutLoop envs i ts w).
Proof.
  revert i w. induction ts as [|t ts IH]; intros i w; [apply tidy_refl|]. cbn [timeoutLoop].
  eapply tidy_trans; [|apply IH]. rewrite timeoutOne_failing. apply failing_tidy.
Qed.

Lemma opStep_tidy o w : tidy w (opStep o w).
Proof.
  destruct o as [t| |c t|now id out code|env id msg code|wid ord|now|now envs ord|id|t| |]; cbn [opStep].
  - eapply tidy_trans; [apply pushQueue_tidy|apply Notify_tidy].
  - apply Dequeue_tidy.
  - apply withTask_tidy, call_sameKey.
  - destruct (inFlight (sched w) !! id) as [t|] eqn:E; [|rewrite SchedComplete_unknown by done; apply tidy_refl].
    destruct (SchedComplete_known now id out code w t E) as (w' & -> & Hm & Hs). cbn [fst].
    apply tidy_intro; rewrite ?Hs, ?Hm; unfold keepCompleted; simpl_fields_goal; [|by intros []|].
    + apply onTask_stable. intros. apply (call_sameKey (CallComplete _ _ _)).
    + intros [_ Hk] i u [_ Hu]%lookup_delete_Some. by apply Hk.
  - destruct (inFlight (sched w) !! id) as [t|] eqn:E; [|rewrite SchedFail_unknown by done; apply tidy_refl].
    rewrite (SchedFail_known env id msg code w t E). apply failing_tidy.
  - unfold RequeueFromWorker. pose proof (foldl_tidy (requeueOne wid) fst ord (w, 0) (requeueOne_tidy wid)) as Hx.
    destruct (foldl _ _ _) as [w' c]. eapply tidy_trans; [exact Hx|apply notifyIf_tidy].
  - unfold ProcessRetries.
    pose proof (foldl_tidy (retryOne now) (fun a => fst (fst a)) (retryQueue (sched w)) (w, [], 0) (retryOne_tidy now)) as Hx.
    destruct (foldl _ _ _) as [[w' r] c]. cbn [fst] in *. eapply tidy_trans; [exact Hx|].
    eapply tidy_trans; [|apply notifyIf_tidy]. by apply withSched_tidy; cbv beta; simpl_fields_goal.
  - apply timeoutLoop_tidy.
  - unfold SchedRetryFromDLQ. destruct (findTask _ _ _) as [i|]; [|apply tidy_refl].
    destruct (deadLetter (sched w) !! i) as [t|]; [|apply tidy_refl]. cbn [fst].
    eapply tidy_trans; [|apply Notify_tidy]. eapply tidy_trans; [|apply pushQueue_tidy].
    eapply tidy_trans; [|apply withTask_tidy; intros; apply (call_sameKey CallRetryFromDLQ)].
    by apply withSched_tidy; cbv beta; simpl_fields_goal.
  - apply withTask_tidy, release_sameKey.
  - apply Notify_tidy.
  - unfold receiveNotify. destruct (notify (sched w)); [|apply tidy_refl]. cbn [default from_option id].
    by apply withSched_tidy; cbv beta; simpl_fields_goal.
Qed.

Lemma opStep_refines o w :
  Loose w -> opOk o w -> specStep o (abs w) (abs (opStep o w)).
Proof.
  intros HI Ho. destruct o as [t| |c t|now id out code|env id msg code|wid ord|now|now envs ord|id|t| |]; cbn [opStep].
  - apply Enqueue_refines.
  - by apply Dequeue_refines.
  - by apply withTask_refines.
  - apply Complete_refines.
  - apply Fail_refines.
  - by apply RequeueFromWorker_refines.
  - apply ProcessRetries_refines.
  - by apply CheckTimeouts_refines.
  - apply RetryFromDLQ_refines.
  - by apply withTask_refines.
  - cbn [specStep]. fields_eq; by world.
  - cbn [specStep]. unfold receiveNotify. destruct (notify (sched w)) eqn:E; cbn [default from_option id];
      fields_eq; by world.
Qed.

Lemma trace_refines os w ins outs w' :
  trace os w ins outs w' -> Loose w -> specTrace os (abs w) (abs w').
Proof.
  induction 1 as [w|o os w ins outs w' Ho _ IH]; intros HI; [by constructor|].
  econstructor; [by apply opStep_refines|]. by apply IH, (opStep_tidy o w).
Qed.

(** ** What the specification holds *)

Definition held (A : Abs) (t : loc) : Prop :=
  t ∈ aQueued A \/ t ∈ tasksIn (aFlight A) \/ t ∈ aWaiting A \/ t ∈ aBuried A.

Lemma held_pool w t : held (abs w) t <-> t ∈ pool w.
Proof.
  unfold held, pool. rewrite queued_elem, !elem_of_app. done.
Qed.

#[export] Instance held_proper : Proper ((≡) ==> (=) ==> iff) held.
Proof. intros A B (_ & Hq & Hf & Hw & Hb & _) t ? <-. unfold held. by rewrite Hq, Hf, Hw, Hb. Qed.

Lemma tasksIn_elem (m : gmap string loc) t : t ∈ tasksIn m <-> exists id, m !! id = Some t.
Proof.
  unfold tasksIn. rewrite list_elem_of_fmap. split.
  - intros ([id u] & -> & Hin%elem_of_map_to_list). eauto.
  - intros [id Hid]. exists (id, t). by rewrite elem_of_map_to_list.
Qed.

Lemma tasksIn_delete (m : gmap string loc) id t u :
  m !! id = Some t -> u ∈ tasksIn m <-> u = t \/ u ∈ tasksIn (delete id m).
Proof.
  intros Ht. rewrite !tasksIn_elem. setoid_rewrite lookup_delete_Some. split.
  - intros [i Hi]. destruct (decide (id = i)) as [->|]; [left; congruence|eauto].
  - intros [->|(i & _ & Hi)]; eauto.
Qed.

Lemma tasksIn_difference (P : string * loc -> Prop) `{!forall e, Decision (P e)} (m : gmap string loc) u :
  u ∈ tasksIn m <-> u ∈ tasksIn (filter P m) \/ u ∈ tasksIn (m ∖ filter P m).
Proof.
  rewrite !tasksIn_elem. setoid_rewrite lookup_difference_Some. setoid_rewrite map_lookup_filter_Some.
  setoid_rewrite map_lookup_filter_None. split.
  - intros [i Hi]. destruct (decide (P (i, u))); [eauto|]. right. exists i. split; [done|]. right. naive_solver.
  - intros [(i & Hi & _)|(i & Hi & _)]; eauto.
Qed.

Lemma held_change f l A t : held (change f l A) t <-> held A t.
Proof. unfold held, change. by simpl_fields_goal. Qed.

Lemma held_submit l A t : held (submit l A) t <-> t ∈ l \/ held A t.
Proof.
  unfold held, submit. simpl_fields_goal. rewrite gmultiset_elem_of_disj_union, elem_of_list_to_set_disj. tauto.
Qed.

Lemma held_settle t A u : held (settle t A) u <-> u = t \/ held A u.
Proof.
  unfold held, settle. case_decide; simpl_fields_goal; rewrite elem_of_app, list_elem_of_singleton; tauto.
Qed.

(** The tasks that leave the scheduler by a call. *)
Definition specOut (o : Op) (A : Abs) : list loc :=
  match o with OpComplete _ id _ _ => option_list (aFlight A !! id) | _ => [] end.

(** No step of the specification loses a task or makes one up, when no two held
    tasks have the same id. *)
Lemma specStep_held o A A' :
  specStep o A A' ->
  (forall id t, aFlight A !! id = Some t -> tID (aTask A t) = id) ->
  (forall p q, held A p -> held A q -> tID (aTask A p) = tID (aTask A q) -> p = q) ->
  forall u, held A u \/ u ∈ opIn o <-> held A' u \/ u ∈ specOut o A.
Proof.
  intros Hs Hk Hids u.
  destruct o as [t| |c t|now id out code|env id msg code|wid ord|now|now envs ord|id|t| |];
    cbn [specStep opIn specOut] in *; rewrite ?elem_of_nil.
  - rewrite Hs, held_submit, list_elem_of_singleton. tauto.
  - destruct Hs as [[_ Hs]|(t & [Ht _] & Hs)]; rewrite Hs; [done|]. unfold held. simpl_fields_goal.
    assert (u ∈ tasksIn (<[tID (aTask A t):=t]> (aFlight A)) <-> u = t \/ u ∈ tasksIn (aFlight A)) as ->.
    { rewrite (tasksIn_delete _ (tID (aTask A t)) t), delete_insert_eq by apply lookup_insert_eq.
      destruct (aFlight A !! tID (aTask A t)) as [v|] eqn:E.
      - rewrite (tasksIn_delete (aFlight A) _ v) by done.
        rewrite (Hids v t); [tauto|right; left; apply tasksIn_elem; eauto|by left|by apply Hk].
      - by rewrite delete_id. }
    assert (u ∈ aQueued A <-> u = t \/ u ∈ aQueued A ∖ {[+ t +]}) as -> by multiset_solver. tauto.
  - rewrite Hs, held_change. tauto.
  - destruct (aFlight A !! id) as [t|] eqn:E; rewrite Hs; [|by rewrite elem_of_nil].
    change (option_list (Some t)) with [t]. rewrite list_elem_of_singleton. unfold held at 2, change. simpl_fields_goal.
    unfold held. rewrite (tasksIn_delete _ id t u E). tauto.
  - destruct (aFlight A !! id) as [t|] eqn:E; rewrite Hs; [|done]. rewrite held_settle.
    unfold held at 2, change. simpl_fields_goal. unfold held. rewrite (tasksIn_delete _ id t u E). tauto.
  - destruct Hs as (l & Hl & Hs). rewrite Hs, held_submit. unfold held at 2, change. simpl_fields_goal. unfold held.
    rewrite Hl, (tasksIn_difference (fun e => tWorkerID (aTask A e.2) = wid) (aFlight A) u). tauto.
  - rewrite Hs, held_submit. unfold held at 2, change. simpl_fields_goal. unfold held.
    rewrite !list_elem_of_filter. destruct (Z.lt_ge_cases (tNextRetryAt (aTask A u)) now); tauto.
  - destruct Hs as (l & Hl & Hs & _). rewrite Hs. unfold held. simpl_fields_goal.
    rewrite (tasksIn_difference (fun e => overdueAt now (aTask A e.2)) (aFlight A) u).
    rewrite <- Hl, !elem_of_app, !list_elem_of_filter. destruct (decide (tState (aTask A' u) = StateDead)); tauto.
  - destruct (list_find _ _) as [[i t]|] eqn:E; rewrite Hs; [|done]. apply list_find_Some in E as (E & _ & _).
    rewrite held_submit, list_elem_of_singleton. unfold held at 2, change. simpl_fields_goal. unfold held.
    rewrite (delete_Permutation (aBuried A) i t E) at 1. rewrite elem_of_cons. tauto.
  - rewrite Hs, held_change. tauto.
  - rewrite Hs. unfold held. simpl_fields_goal. tauto.
  - rewrite Hs. unfold held. simpl_fields_goal. tauto.
Qed.

Lemma trace_held os w ins outs w' :
  trace os w ins outs w' -> Loose w ->
  (forall p q, p ∈ pool w ++ ins -> q ∈ pool w ++ ins -> idOf (mem w) p = idOf (mem w) q -> p = q) ->
  forall u, u ∈ pool w \/ u ∈ ins <-> u ∈ pool w' \/ u ∈ outs.
Proof.
  induction 1 as [w|o os w ins outs w' Ho _ IH]; intros HI Hids u; [done|].
  destruct (opStep_tidy o w HI) as [HI1 Hst]. setoid_rewrite elem_of_app in Hids.
  assert (forall v, v ∈ pool w \/ v ∈ opIn o <-> v ∈ pool (opStep o w) \/ v ∈ opOut o w) as Hstep.
  { intros v. rewrite <- !held_pool.
    refine (specStep_held o (abs w) _ (opStep_refines o w HI Ho) (ls_keyed w HI) _ v).
    intros p q. rewrite !held_pool. auto. }
  assert (forall p, p ∈ pool (opStep o w) ++ ins -> p ∈ pool w \/ p ∈ opIn o ++ ins) as Hin.
  { intros p. specialize (Hstep p). rewrite !elem_of_app. tauto. }
  assert (forall p q, p ∈ pool (opStep o w) ++ ins -> q ∈ pool (opStep o w) ++ ins ->
    idOf (mem (opStep o w)) p = idOf (mem (opStep o w)) q -> p = q) as Hids1.
  { intros p q Hp Hq E. unfold idOf in E. rewrite <- !(proj1 (Hst _)) in E. apply Hids; [by apply Hin..|exact E]. }
  specialize (IH HI1 Hids1 u). specialize (Hstep u). rewrite !elem_of_app. tauto.
Qed.

(** ** Properties *)

(** Claim C1: no task is lost and none is made up. Over any sequence of scheduler and
    task calls from a new scheduler, in any interleaving, a task enqueued again
    while it is in flight included (as after a failed send): when different tasks
    that were enqueued have different ids, the tasks that entered are exactly those
    that were reported complete and those in the queue, in flight, waiting for a
    retry or in the dead letter queue. And when no task was enqueued while a task
    with its id was held, each is there exactly once. *)
Theorem no_task_lost (os : list Op) (m : Mem) (timeout : Duration) (ins outs : list loc) (w : World)
  (H : trace os (mkWorld m (NewScheduler timeout)) ins outs w) :
  ((forall p q, p ∈ ins -> q ∈ ins -> idOf m p = idOf m q -> p = q) ->
   forall t, t ∈ ins <-> t ∈ outs \/ t ∈ queue (sched w) ++ flight (sched w) ++ retryQueue (sched w) ++ deadLetter (sched w)) /\
  (entriesFresh os (mkWorld m (NewScheduler timeout)) ->
   ins ≡ₚ outs ++ queue (sched w) ++ flight (sched w) ++ retryQueue (sched w) ++ deadLetter (sched w) /\
   NoDup (idOf (mem w) <$> pool w)).
Proof.
  pose proof (NewScheduler_inv m timeout) as HI. split.
  - intros Hids t. pose proof (trace_held _ _ _ _ _ H HI Hids t) as Ht. fold (pool w).
    assert (t ∉ pool (mkWorld m (NewScheduler timeout))) by (cbn; apply not_elem_of_nil). tauto.
  - intros Hf. destruct (trace_inv _ _ _ _ _ H Hf HI) as [HI' Hp].
    split; [|by destruct HI']. rewrite <- Hp. unfold pool. cbn. by rewrite app_nil_r.
Qed.

(** Task 2 is sent and completed; the send of task 1 fails, so that it is queued and in
    flight when the worker's stream is cleaned up. *)
Definition demoOps : list Op :=
  [OpEnqueue 1; OpEnqueue 2; OpReceive; OpDequeue; OpTask (CallAssign 20 "w1") 2; OpTask (CallStart 21) 2;
   OpComplete 30 "b" "done" 0; OpReceive; OpDequeue; OpTask (CallAssign 40 "w1") 1; OpTask (CallStart 41) 1;
   OpRelease 1; OpEnqueue 1; OpRequeueFromWorker "w1" [("a", 1%positive)]].

Lemma no_task_lost_witness :
  exists w, 1%positive ∈ queue (sched w) /\ 1%positive ∈ flight (sched w) /\
    (forall t, t ∈ [1%positive; 2%positive; 1%positive] <-> t ∈ [2%positive] \/ t ∈ queue (sched w) ++ flight (sched w)
      ++ retryQueue (sched w) ++ deadLetter (sched w)).
Proof.
  destruct (runOps demoOps (mkWorld demoMem (NewScheduler 0))) as [[[ins outs] w]|] eqn:E;
    [|vm_compute in E; discriminate].
  pose proof (runOps_trace _ _ _ _ _ E) as Ht. destruct (no_task_lost _ _ _ _ _ _ Ht) as [H _]. clear Ht.
  vm_compute in E. injection E as <- <- <-. eexists. split; [|split; [|apply H]].
  - apply (bool_decide_unpack _). vm_compute. exact I.
  - apply (bool_decide_unpack _). vm_compute. exact I.
  - intros p q Hp Hq. rewrite !elem_of_cons, elem_of_nil in Hp, Hq.
    destruct Hp as [->|[->|[->|[]]]], Hq as [->|[->|[->|[]]]]; vm_compute; congruence.
Defined.

(** Claim C2: the scheduler implements its specification. Over any sequence of calls
    from a new scheduler, in any interleaving, each call takes the tasks, the
    queue as a multiset, the in-flight map, the waiting and the dead tasks, the
    counters and the signal along the specification's step for that call: the most
    urgent task leaves the queue; exactly the tasks in flight on the given worker
    are released; exactly the waiting tasks that are due are queued; exactly the
    running tasks past their limit fail; a report concerns the task under its id. *)
Theorem scheduler_refines_spec (os : list Op) (m : Mem) (timeout : Duration)
  (ins outs : list loc) (w : World) (H : trace os (mkWorld m (NewScheduler timeout)) ins outs w) :
  specTrace os (mkAbs (fun t => m !!! t) ∅ ∅ [] [] [] 0 0 false) (abs w).
Proof. exact (trace_refines _ _ _ _ _ H (NewScheduler_inv m timeout)). Qed.

Lemma scheduler_refines_spec_witness :
  specTrace [OpEnqueue 1; OpDequeue] (mkAbs (fun t => demoMem !!! t) ∅ ∅ [] [] [] 0 0 false)
    (abs (opStep OpDequeue (opStep (OpEnqueue 1) (mkWorld demoMem (NewScheduler 0))))).
Proof.
  apply (scheduler_refines_spec [OpEnqueue 1; OpDequeue] demoMem 0 [1%positive] []).
  apply runOps_trace. vm_compute. reflexivity.
Defined.
