(* ===== verification/CircuitBreaker.v ===== *)
(** * The circuit breakers: [internal/circuitbreaker/circuit_breaker.go]

    [CircuitBreaker] is the struct (without its mutex and logger); a method is a
    function on it, the clock an argument.  The registry hands out pointers,
    which the dispatch loops and the report handler keep while they use them, so
    [Registry] is a map from worker ids to locations with the memory they point
    into, and [Get] is the two critical sections the code has. *)

From stdpp Require Import pretty.
From S2P Require Import Prelude GoTime.

Open Scope string_scope.
Open Scope list_scope.
Open Scope Z_scope.

(** ** One breaker *)

(** [type State int]; [StateUnknown n] is a value outside the constants. *)

Inductive CBState := StateClosed | StateOpen | StateHalfOpen | StateUnknown (n : Z).

#[export] Instance CBState_eq_dec : EqDecision CBState.
Proof. solve_decision. Defined.

Definition CBState_String (s : CBState) : string :=
  match s with
  | StateClosed => "CLOSED"
  | StateOpen => "OPEN"
  | StateHalfOpen => "HALF_OPEN"
  | StateUnknown _ => "UNKNOWN"
  end.

Record CircuitBreaker := mkCB {
  cbState : CBState;
  failureCount : Z;       (* int *)
  successCount : Z;       (* int *)
  failureThreshold : Z;   (* int *)
  successThreshold : Z;   (* int *)
  cbTimeout : Duration;
  lastFailure : Time;
  cbWorkerID : string
}.

#[export] Instance CircuitBreaker_struct : Struct CircuitBreaker := fun c =>
  mkCB (cbState c) (failureCount c) (successCount c) (failureThreshold c) (successThreshold c)
    (cbTimeout c) (lastFailure c) (cbWorkerID c).

#[export] Instance CBCircuitBreaker_eq_dec : EqDecision CircuitBreaker.
Proof. solve_decision. Defined.

#[export] Instance CircuitBreaker_inhabited : Inhabited CircuitBreaker :=
  populate (mkCB StateClosed 0 0 0 0 0 zeroTime "").

Definition NewCircuitBreaker (workerID : string) (failThr succThr : Z) (timeout : Duration)
    : CircuitBreaker :=
  inhabitant <| cbState := StateClosed |> <| failureThreshold := failThr |>
    <| successThreshold := succThr |> <| cbTimeout := timeout |> <| cbWorkerID := workerID |>.

Definition Allow (now : Time) (cb : CircuitBreaker) : CircuitBreaker * bool :=
  match cbState cb with
  | StateClosed => (cb, true)
  | StateOpen =>
      if cbTimeout cb <? Sub now (lastFailure cb)
      then (cb <| cbState := StateHalfOpen |> <| successCount := 0 |>, true)
      else (cb, false)
  | StateHalfOpen => (cb, true)
  | StateUnknown _ => (cb, false)
  end.

Definition RecordSuccess (cb : CircuitBreaker) : CircuitBreaker :=
  match cbState cb with
  | StateHalfOpen =>
      let cb := cb <| successCount := int64 (successCount cb + 1) |> in
      if successThreshold cb <=? successCount cb
      then cb <| cbState := StateClosed |> <| failureCount := 0 |> <| successCount := 0 |>
      else cb
  | StateClosed => cb <| failureCount := 0 |>
  | _ => cb
  end.

Definition RecordFailure (now : Time) (cb : CircuitBreaker) : CircuitBreaker :=
  let cb := cb <| failureCount := int64 (failureCount cb + 1) |> <| lastFailure := now |> in
  match cbState cb with
  | StateClosed =>
      if failureThreshold cb <=? failureCount cb then cb <| cbState := StateOpen |> else cb
  | StateHalfOpen => cb <| cbState := StateOpen |>
  | _ => cb
  end.

Definition GetState (cb : CircuitBreaker) : CBState := cbState cb.

(** The snapshot for the API; the RFC 3339 text of a time is [format]'s. *)

Record Info := mkInfo {
  iState : string; iFailureCount : Z; iFailureThreshold : Z; iSuccessCount : Z;
  iSuccessThreshold : Z; iLastFailure : string
}.

Definition GetInfo (format : Time -> string) (cb : CircuitBreaker) : Info := {|
  iState := CBState_String (cbState cb);
  iFailureCount := failureCount cb; iFailureThreshold := failureThreshold cb;
  iSuccessCount := successCount cb; iSuccessThreshold := successThreshold cb;
  iLastFailure := if negb (IsZero (lastFailure cb)) then format (lastFailure cb) else ""
|}.

Definition Trip (now : Time) (cb : CircuitBreaker) : CircuitBreaker :=
  cb <| cbState := StateOpen |> <| lastFailure := now |>.

Definition ResetCB (cb : CircuitBreaker) : CircuitBreaker :=
  cb <| cbState := StateClosed |> <| failureCount := 0 |> <| successCount := 0 |>.

Definition CBString (cb : CircuitBreaker) : string :=
  "CB[" +:+ cbWorkerID cb +:+ " state=" +:+ CBState_String (cbState cb) +:+ " failures="
    +:+ pretty (failureCount cb) +:+ "]".

(** ** The registry *)

Record Registry := mkRegistry {
  breakers : gmap string positive;
  cbMem : gmap positive CircuitBreaker;
  cbNext : positive;
  rFailureThreshold : Z;
  rSuccessThreshold : Z;
  rTimeout : Duration
}.

#[export] Instance Registry_struct : Struct Registry := fun r =>
  mkRegistry (breakers r) (cbMem r) (cbNext r) (rFailureThreshold r) (rSuccessThreshold r) (rTimeout r).

Definition NewRegistry (failThr succThr : Z) (timeout : Duration) : Registry :=
  mkRegistry ∅ ∅ 1 failThr succThr timeout.

(** [Get]: the look under the read lock, and the one under the write lock for a
    caller that found nothing; other calls may come between the two. *)

Definition getFast (workerID : string) (r : Registry) : option positive := breakers r !! workerID.

Definition getSlow (workerID : string) (r : Registry) : Registry * positive :=
  match breakers r !! workerID with
  | Some cb => (r, cb)
  | None =>
      let cb := cbNext r in
      (r <| cbMem := <[cb := NewCircuitBreaker workerID (rFailureThreshold r)
                               (rSuccessThreshold r) (rTimeout r)]> (cbMem r) |>
         <| cbNext := Pos.succ cb |> <| breakers := <[workerID := cb]> (breakers r) |>, cb)
  end.

Definition Get (workerID : string) (r : Registry) : Registry * positive :=
  match getFast workerID r with
  | Some cb => (r, cb)
  | None => getSlow workerID r
  end.

(** A method call through a pointer into the registry's memory. *)

Definition onBreaker (f : CircuitBreaker -> CircuitBreaker) (p : positive) (r : Registry) : Registry :=
  r <| cbMem := <[p := f (cbMem r !!! p)]> (cbMem r) |>.

Definition Remove (workerID : string) (r : Registry) : Registry :=
  r <| breakers := delete workerID (breakers r) |>.

Definition GetAll (format : Time -> string) (r : Registry) : gmap string Info :=
  (fun p => GetInfo format (cbMem r !!! p)) <$> breakers r.

(** ** The calls a breaker and a registry can receive *)

Inductive CBCall :=
| CallAllow (now : Time)
| CallSuccess
| CallFailure (now : Time)
| CallTrip (now : Time)
| CallReset.

Definition cbCall (c : CBCall) (cb : CircuitBreaker) : CircuitBreaker :=
  match c with
  | CallAllow now => fst (Allow now cb)
  | CallSuccess => RecordSuccess cb
  | CallFailure now => RecordFailure now cb
  | CallTrip now => Trip now cb
  | CallReset => ResetCB cb
  end.

(** Reports of executions: [true] for a success, with the time they come in. *)

Definition record (r : bool * Time) (cb : CircuitBreaker) : CircuitBreaker :=
  if fst r then RecordSuccess cb else RecordFailure (snd r) cb.

Definition records (rs : list (bool * Time)) (cb : CircuitBreaker) : CircuitBreaker :=
  foldl (fun cb r => record r cb) cb rs.

(** A registry's client gets a worker's breaker and calls it; [RegSlow] is the
    second half of a [Get] whose first half found nothing some time ago. *)

Inductive RegOp :=
| RegCall (workerID : string) (c : CBCall)
| RegSlow (workerID : string)
| RegRemove (workerID : string).

Definition regStep (o : RegOp) (r : Registry) : Registry :=
  match o with
  | RegCall id c => let '(r, p) := Get id r in onBreaker (cbCall c) p r
  | RegSlow id => fst (getSlow id r)
  | RegRemove id => Remove id r
  end.

Definition regRun (os : list RegOp) (r : Registry) : Registry := foldl (fun r o => regStep o r) r os.

(** The breaker a worker has, if it has one. *)
Definition breakerOf (workerID : string) (r : Registry) : option CircuitBreaker :=
  (fun p => cbMem r !!! p) <$> breakers r !! workerID.

(** ** Lemmas: runs of failures *)

(** [l] has [n] failures in a row. *)

Definition hasRun (n : nat) (l : list bool) : Prop :=
  exists i, forall j, (j < n)%nat -> l !! (i + j)%nat = Some false.

#[export] Instance hasRun_dec n l : Decision (hasRun n l).
Proof.
  destruct (decide (Exists (fun i => Forall (fun j => l !! (i + j)%nat = Some false) (seq 0 n))
    (seq 0 (S (length l))))) as [H|H]; [left|right].
  - apply Exists_exists in H as (i & _ & Hi). exists i. intros j Hj.
    rewrite Forall_forall in Hi. apply Hi, elem_of_seq. lia.
  - intros [i Hi]. apply H, Exists_exists. destruct n as [|n].
    + exists O. split; [apply elem_of_seq; lia|]. by constructor.
    + exists i. pose proof (lookup_lt_Some _ _ _ (Hi O ltac:(lia))). split; [apply elem_of_seq; lia|].
      apply Forall_forall. intros j [_ Hj]%elem_of_seq. apply Hi. lia.
Defined.

Lemma hasRun_short n c : (c < n)%nat -> ~ hasRun n (replicate c false).
Proof.
  intros Hc [i H]. destruct n as [|n]; [lia|].
  pose proof (lookup_lt_Some _ _ _ (H n ltac:(lia))) as Hl. rewrite length_replicate in Hl. lia.
Qed.

Lemma hasRun_start n l : hasRun n (replicate n false ++ l).
Proof.
  exists O. intros j Hj. rewrite lookup_app_l by (rewrite length_replicate; lia).
  by apply lookup_replicate_2; lia.
Qed.

(** A success separates runs. *)
Lemma hasRun_success n c l :
  (c < n)%nat -> hasRun n (replicate c false ++ true :: l) <-> hasRun n l.
Proof.
  intros Hc.
  assert (forall k, (replicate c false ++ true :: l) !! (S c + k)%nat = l !! k) as Hshift.
  { intros k. rewrite lookup_app_r by (rewrite length_replicate; lia).
    rewrite length_replicate. by replace (S c + k - c)%nat with (S k) by lia. }
  split.
  - intros [i H]. destruct (decide (i <= c)%nat) as [Hi|Hi].
    + exfalso. specialize (H (c - i)%nat ltac:(lia)). replace (i + (c - i))%nat with c in H by lia.
      rewrite lookup_app_r in H by (rewrite length_replicate; lia).
      by rewrite length_replicate, Nat.sub_diag in H.
    + exists (i - S c)%nat. intros j Hj. rewrite <- Hshift, <- (H j Hj). f_equal. lia.
  - intros [i H]. exists (S c + i)%nat. intros j Hj. rewrite <- Nat.add_assoc, Hshift. by apply H.
Qed.

Lemma hasRun_failure n c l :
  hasRun n (replicate c false ++ false :: l) <-> hasRun n (replicate (S c) false ++ l).
Proof. by rewrite replicate_S_end, <- app_assoc. Qed.

Lemma record_open r cb : cbState cb = StateOpen -> cbState (record r cb) = StateOpen.
Proof.
  intros E. unfold record, RecordSuccess, RecordFailure. destruct (fst r); [by rewrite E|].
  simpl_fields_goal. rewrite E. by simpl_fields_goal.
Qed.

Lemma records_open rs cb : cbState cb = StateOpen -> cbState (records rs cb) = StateOpen.
Proof. revert cb. induction rs as [|r rs IH]; intros cb E; [done|]. by apply IH, record_open. Qed.

Lemma records_closed rs cb c n :
  cbState cb = StateClosed -> failureCount cb = Z.of_nat c -> failureThreshold cb = Z.of_nat n ->
  (c < n)%nat -> Z.of_nat (c + length rs) < 2 ^ 63 ->
  (hasRun n (replicate c false ++ rs.*1) -> cbState (records rs cb) = StateOpen) /\
  (~ hasRun n (replicate c false ++ rs.*1) -> cbState (records rs cb) = StateClosed).
Proof.
  revert cb c. induction rs as [|[ok now] rs IH]; intros cb c Hs Hf Ht Hc Hlen.
  { rewrite app_nil_r. pose proof (hasRun_short n c Hc). done. }
  rewrite fmap_cons. cbn [fst]. unfold records. cbn [foldl]. fold (records rs (record (ok, now) cb)).
  cbn [length] in Hlen. destruct ok.
  - rewrite hasRun_success by done. apply (IH _ 0%nat); unfold record, RecordSuccess; cbn [fst];
      rewrite ?Hs; simpl_fields_goal; (done || lia).
  - rewrite hasRun_failure. unfold record, RecordFailure. cbn [fst snd]. simpl_fields_goal.
    rewrite Hs, Hf, Ht, int64_id by lia. case_match; b2p.
    + assert (S c = n) as -> by lia. rewrite records_open by (by simpl_fields_goal).
      split; [done|]. intros Hno. exfalso. apply Hno, hasRun_start.
    + apply IH; simpl_fields_goal; (done || lia).
Qed.

(** ** Lemmas: the registry *)

(** Every pointer the registry handed out is allocated and belongs to one worker. *)

Record regOk (r : Registry) : Prop := {
  ro_fresh : forall id p, breakers r !! id = Some p -> (p < cbNext r)%positive;
  ro_inj : forall id id' p, breakers r !! id = Some p -> breakers r !! id' = Some p -> id = id';
  ro_worker : forall id p, breakers r !! id = Some p -> cbWorkerID (cbMem r !!! p) = id
}.

Lemma cbCall_worker c cb : cbWorkerID (cbCall c cb) = cbWorkerID cb.
Proof.
  destruct c; cbn [cbCall]; unfold Allow, RecordSuccess, RecordFailure, Trip, ResetCB;
    repeat (case_match; cbn [fst]); by simpl_fields_goal.
Qed.

Lemma Get_slow id r : Get id r = getSlow id r.
Proof. unfold Get, getSlow, getFast. by destruct (breakers r !! id). Qed.

Lemma getSlow_ok id r :
  regOk r -> let '(r', p) := getSlow id r in
    regOk r' /\ breakers r' !! id = Some p /\
    (forall id' q, breakers r !! id' = Some q -> breakers r' !! id' = Some q /\ cbMem r' !!! q = cbMem r !!! q) /\
    (forall id', id' <> id -> breakers r' !! id' = breakers r !! id') /\
    (breakers r !! id = None -> cbMem r' !!! p =
      NewCircuitBreaker id (rFailureThreshold r) (rSuccessThreshold r) (rTimeout r)).
Proof.
  intros [Hf Hi Hw]. unfold getSlow. destruct (breakers r !! id) as [p|] eqn:E.
  { by split_and!. }
  assert (forall id' q, breakers r !! id' = Some q -> q <> cbNext r) as Hne
    by (intros id' q Hq ->; specialize (Hf _ _ Hq); lia).
  simpl_fields_goal. split_and!.
  - split; simpl_fields_goal.
    + intros id' q. rewrite lookup_insert_Some. intros [[_ <-]|[_ Hq]]; [|specialize (Hf _ _ Hq)]; lia.
    + intros i1 i2 q. rewrite !lookup_insert_Some.
      intros [[<- <-]|[_ H1]] [[<- H2]|[_ H2]]; [done| | |by eapply Hi].
      * by destruct (Hne _ _ H2).
      * subst q. by destruct (Hne _ _ H1).
    + intros id' q. rewrite lookup_insert_Some. intros [[<- <-]|[_ Hq]].
      * rewrite lookup_total_insert_eq. unfold NewCircuitBreaker. by simpl_fields_goal.
      * rewrite lookup_total_insert_ne by (by apply not_eq_sym, (Hne id')). by apply Hw.
  - apply lookup_insert_eq.
  - intros id' q Hq. rewrite lookup_insert_ne by congruence. split; [done|].
    by rewrite lookup_total_insert_ne by (by apply not_eq_sym, (Hne id')).
  - intros id' Hid. by rewrite lookup_insert_ne.
  - intros _. by rewrite lookup_total_insert_eq.
Qed.

Lemma onBreaker_ok f p id r :
  (forall cb, cbWorkerID (f cb) = cbWorkerID cb) ->
  regOk r -> breakers r !! id = Some p -> regOk (onBreaker f p r).
Proof.
  intros Hf [H1 H2 H3] Hp. unfold onBreaker. split; simpl_fields_goal; [done..|].
  intros id' q Hq. destruct (decide (q = p)) as [->|Hne].
  - rewrite lookup_total_insert_eq, Hf. by apply H3.
  - rewrite lookup_total_insert_ne by done. by apply H3.
Qed.

(** What one registry step does to a worker's breaker. *)
Lemma regStep_breaker o r id :
  regOk r ->
  regOk (regStep o r) /\
  (match o with RegCall id' _ | RegSlow id' | RegRemove id' => id' <> id end ->
    breakers (regStep o r) !! id = breakers r !! id /\
    breakerOf id (regStep o r) = breakerOf id r) /\
  (match o with RegRemove id' => id' <> id | _ => True end ->
    forall p, breakers r !! id = Some p -> breakers (regStep o r) !! id = Some p).
Proof.
  intros Hr. destruct o as [w c|w|w]; cbn [regStep].
  - rewrite Get_slow. pose proof (getSlow_ok w r Hr) as Hs. destruct (getSlow w r) as [r' p].
    destruct Hs as (Hr' & Hp & Hold & Hoth & _).
    split_and!.
    + apply (onBreaker_ok _ p w); [intros; apply cbCall_worker|done..].
    + intros Hne. assert (breakers r' !! id = breakers r !! id) as E by (by apply Hoth, not_eq_sym).
      unfold breakerOf, onBreaker. simpl_fields_goal. rewrite E. split; [done|].
      destruct (breakers r !! id) as [q|] eqn:Eq; [|done]. cbn. f_equal.
      rewrite lookup_total_insert_ne; [by apply (Hold id)|].
      intros ->. apply Hne. by apply (ro_inj r' Hr' w id q).
    + intros _ q Hq. unfold onBreaker. simpl_fields_goal. by apply Hold.
  - pose proof (getSlow_ok w r Hr) as Hs. destruct (getSlow w r) as [r' p]. cbn [fst].
    destruct Hs as (Hr' & Hp & Hold & Hoth & _). split_and!; [done| |intros _ q Hq; by apply Hold].
    intros Hne. assert (breakers r' !! id = breakers r !! id) as E by (by apply Hoth, not_eq_sym).
    unfold breakerOf. rewrite E. split; [done|].
    destruct (breakers r !! id) as [q|] eqn:Eq; [|done]. cbn. f_equal. by apply (Hold id).
  - unfold Remove. split_and!.
    + destruct Hr as [H1 H2 H3]. split; simpl_fields_goal; intros *; rewrite ?lookup_delete_Some;
        [intros [_ ?]; eauto|intros [_ ?] [_ ?]; eauto|intros [_ ?]; eauto].
    + intros Hne. unfold breakerOf. simpl_fields_goal. by rewrite lookup_delete_ne.
    + intros Hne p Hp. simpl_fields_goal. by rewrite lookup_delete_ne.
Qed.

Lemma NewRegistry_ok ft st timeout : regOk (NewRegistry ft st timeout).
Proof. split; cbn; intros *; by rewrite lookup_empty. Qed.

Lemma regRun_ok os r : regOk r -> regOk (regRun os r).
Proof. revert r. induction os as [|o os IH]; intros r Hr; [done|]. by apply IH, (regStep_breaker o r ""). Qed.

Lemma regRun_keeps os r id p :
  regOk r -> RegRemove id ∉ os -> breakers r !! id = Some p -> breakers (regRun os r) !! id = Some p.
Proof.
  revert r. induction os as [|o os IH]; intros r Hr Hn Hp; [done|].
  apply not_elem_of_cons in Hn as [Ho Hn].
  destruct (regStep_breaker o r id Hr) as (Hr' & _ & Hk). apply IH; [done..|].
  apply Hk; [|done]. destruct o; try done. congruence.
Qed.

(** ** Properties *)

(** Claim C28: a closed breaker with no failure counted opens, under a sequence
    of reports, exactly when the sequence has [failureThreshold] failures in a
    row; otherwise it stays closed. *)
Theorem opens_on_run_of_failures (cb : CircuitBreaker) (rs : list (bool * Time)) (n : nat)
  (Hs : cbState cb = StateClosed) (Hf : failureCount cb = 0)
  (Ht : failureThreshold cb = Z.of_nat n) (Hn : (0 < n)%nat) (Hl : Z.of_nat (length rs) < 2 ^ 63) :
  (cbState (records rs cb) = StateOpen <-> hasRun n rs.*1) /\
  (cbState (records rs cb) = StateClosed <-> ~ hasRun n rs.*1).
Proof.
  destruct (records_closed rs cb 0 n) as [H1 H2]; [done..|]. cbn [replicate app] in *.
  split; split.
  - intros E. destruct (decide (hasRun n rs.*1)) as [Hr|Hr]; [done|]. apply H2 in Hr. congruence.
  - done.
  - intros E Hr. apply H1 in Hr. congruence.
  - done.
Qed.

Lemma opens_on_run_of_failures_witness :
  let cb := NewCircuitBreaker "w" 3 2 (30 * Second) in
  cbState (records [(false, 1); (false, 2); (true, 3); (false, 4); (false, 5)] cb) = StateClosed.
Proof.
  intros cb.
  apply (opens_on_run_of_failures cb [(false, 1); (false, 2); (true, 3); (false, 4); (false, 5)] 3);
    [reflexivity | reflexivity | reflexivity | lia | vm_compute; reflexivity |].
  apply (bool_decide_unpack _). vm_compute. exact I.
Defined.

(** The failure that opens a breaker closes the gate for the timeout:
    until more than [timeout] has passed since it, [Allow] refuses and changes
    nothing; from then on [Allow] lets the request through and the breaker
    probes (half-open, no success counted). *)
Theorem open_gate_times_out (cb : CircuitBreaker) (failed now : Time)
  (Hs : cbState (RecordFailure failed cb) = StateOpen) (Ht : 0 <= cbTimeout cb < maxDuration) :
  let cb1 := RecordFailure failed cb in
  let '(cb2, ok) := Allow now cb1 in
  (ok = true <-> cbTimeout cb < now - failed) /\
  (ok = false -> cb2 = cb1) /\
  (ok = true -> cb2 = cb1 <| cbState := StateHalfOpen |> <| successCount := 0 |>).
Proof.
  intros cb1.
  assert (cbTimeout cb1 = cbTimeout cb /\ lastFailure cb1 = failed) as [E1 E2].
  { subst cb1. unfold RecordFailure. repeat case_match; by simpl_fields_goal. }
  fold cb1 in Hs. clearbody cb1. unfold Allow. rewrite Hs, E1, E2.
  assert (Sub now failed > cbTimeout cb <-> now - failed > cbTimeout cb) as HS
    by (apply Sub_gt; unfold minDuration, maxDuration in *; lia).
  destruct (Z.ltb_spec (cbTimeout cb) (Sub now failed)); split_and!; try done; split; intros; try done; lia.
Qed.

Lemma open_gate_times_out_witness :
  let cb := NewCircuitBreaker "w" 1 2 (30 * Second) in
  snd (Allow (40 * Second) (RecordFailure (10 * Second) cb)) = false /\
  snd (Allow (40 * Second + 1) (RecordFailure (10 * Second) cb)) = true.
Proof.
  intros cb.
  pose proof (open_gate_times_out cb (10 * Second) (40 * Second) eq_refl ltac:(vm_compute; split; congruence)) as H1.
  pose proof (open_gate_times_out cb (10 * Second) (40 * Second + 1) eq_refl ltac:(vm_compute; split; congruence)) as H2.
  cbv zeta in H1, H2. destruct (Allow (40 * Second) _) as [c1 b1]. destruct (Allow (40 * Second + 1) _) as [c2 b2].
  cbn [snd]. split.
  - destruct b1; [|reflexivity]. exfalso. destruct H1 as [[H1 _] _]. specialize (H1 eq_refl).
    vm_compute in H1. discriminate.
  - apply H2. vm_compute. reflexivity.
Defined.

(** Claim C29: while a breaker is half-open, [Allow] admits every request (not one
    probe only) and changes nothing; the reports decide: [successThreshold]
    successes with no failure close it with its counters cleared, fewer leave it
    half-open, and a failure after fewer opens it again from that moment. *)
Theorem half_open_resolution (cb : CircuitBreaker) (k : nat) (now : Time)
  (Hs : cbState cb = StateHalfOpen) (H0 : successCount cb = 0)
  (Hk : Z.of_nat k <= successThreshold cb) (Hp : 0 < successThreshold cb < 2 ^ 63) :
  Allow now cb = (cb, true) /\
  (if decide (Z.of_nat k = successThreshold cb)
   then cbState (Nat.iter k RecordSuccess cb) = StateClosed /\
        failureCount (Nat.iter k RecordSuccess cb) = 0 /\ successCount (Nat.iter k RecordSuccess cb) = 0
   else cbState (Nat.iter k RecordSuccess cb) = StateHalfOpen /\
        successCount (Nat.iter k RecordSuccess cb) = Z.of_nat k /\
        cbState (RecordFailure now (Nat.iter k RecordSuccess cb)) = StateOpen /\
        lastFailure (RecordFailure now (Nat.iter k RecordSuccess cb)) = now).
Proof.
  split; [unfold Allow; by rewrite Hs|].
  assert (forall j, Z.of_nat j < successThreshold cb ->
    Nat.iter j RecordSuccess cb = cb <| successCount := Z.of_nat j |>) as Hlow.
  { induction j as [|j IH]; intros Hj; [change (Z.of_nat 0) with 0; rewrite <- H0; by destruct cb|].
    rewrite Nat.iter_succ, IH by lia. unfold RecordSuccess. simpl_fields_goal. rewrite Hs.
    rewrite int64_id by lia. case_match; b2p; [lia|].
    replace (Z.of_nat (S j)) with (Z.of_nat j + 1) by lia. by destruct cb. }
  case_decide as Hd.
  - destruct k as [|k]; [lia|]. rewrite !Nat.iter_succ, Hlow by lia.
    unfold RecordSuccess. simpl_fields_goal. rewrite Hs, int64_id by lia.
    case_match; b2p; [by simpl_fields_goal|lia].
  - rewrite Hlow by lia. unfold RecordFailure. simpl_fields_goal. rewrite Hs. by simpl_fields_goal.
Qed.

Lemma half_open_resolution_witness :
  let cb := (NewCircuitBreaker "w" 5 2 (30 * Second)) <| cbState := StateHalfOpen |> in
  Allow 77 cb = (cb, true) /\ cbState (Nat.iter 2 RecordSuccess cb) = StateClosed.
Proof.
  intros cb.
  destruct (half_open_resolution cb 2 77 eq_refl eq_refl ltac:(vm_compute; congruence)
    ltac:(vm_compute; split; congruence)) as [Ha Hr].
  split; [exact Ha|]. rewrite decide_True in Hr by reflexivity. exact (proj1 Hr).
Defined.

(** The transitions that the package documents, without the manual overrides. *)

Inductive cbEdge : CBState -> CBState -> Prop :=
| edge_trip : cbEdge StateClosed StateOpen
| edge_probe : cbEdge StateOpen StateHalfOpen
| edge_close : cbEdge StateHalfOpen StateClosed
| edge_reopen : cbEdge StateHalfOpen StateOpen.

(** Each call of [Allow], [RecordSuccess] and [RecordFailure] leaves
    the state of a breaker or takes it along one of the documented transitions;
    only [Trip] and [Reset] go elsewhere, to OPEN and to CLOSED. *)
Theorem breaker_transitions (c : CBCall) (cb : CircuitBreaker) :
  match c with
  | CallTrip _ => cbState (cbCall c cb) = StateOpen
  | CallReset => cbState (cbCall c cb) = StateClosed /\ failureCount (cbCall c cb) = 0
  | _ => cbState (cbCall c cb) = cbState cb \/ cbEdge (cbState cb) (cbState (cbCall c cb))
  end.
Proof.
  destruct c; cbn [cbCall]; unfold Allow, RecordSuccess, RecordFailure, Trip, ResetCB;
    try (by simpl_fields_goal); destruct (cbState cb) eqn:E; simpl_fields_goal; rewrite ?E;
    repeat (case_match; cbn [fst]); simpl_fields_goal; rewrite ?E; auto using cbEdge.
Qed.

(** Claim C30: workers are isolated from each other: whatever calls go through the
    registry for other workers, their registrations and removals included, a
    worker's breaker does not change; and the first call for a worker finds a
    fresh closed breaker with the registry's configuration. *)
Theorem breakers_isolated (ft st : Z) (timeout : Duration) (before after : list RegOp) (id : string)
  (H : Forall (fun o => match o with RegCall id' _ | RegSlow id' | RegRemove id' => id' <> id end) after) :
  let r := regRun before (NewRegistry ft st timeout) in
  breakerOf id (regRun after r) = breakerOf id r /\
  (breakers r !! id = None -> forall c,
    breakerOf id (regStep (RegCall id c) r) =
      Some (cbCall c (NewCircuitBreaker id (rFailureThreshold r) (rSuccessThreshold r) (rTimeout r)))).
Proof.
  intros r. assert (regOk r) as Hr by (apply regRun_ok, NewRegistry_ok). clearbody r. split.
  - revert r Hr. induction H as [|o os Ho _ IH]; intros r Hr; [done|].
    destruct (regStep_breaker o r id Hr) as (Hr' & Hb & _). destruct (Hb Ho) as [_ <-]. by apply IH.
  - intros Hn c. cbn [regStep]. rewrite Get_slow.
    pose proof (getSlow_ok id r Hr) as Hs. destruct (getSlow id r) as [r' p].
    destruct Hs as (_ & Hp & _ & _ & Hm). rewrite <- (Hm Hn).
    unfold breakerOf, onBreaker. simpl_fields_goal. rewrite Hp. cbn.
    by rewrite lookup_total_insert_eq.
Qed.

Lemma breakers_isolated_witness :
  let r := regRun [RegCall "w1" (CallFailure 5); RegCall "w2" CallSuccess] (NewRegistry 5 2 30) in
  breakerOf "w1" (regRun [RegCall "w2" (CallTrip 9); RegSlow "w3"; RegRemove "w2"] r) = breakerOf "w1" r.
Proof.
  destruct (breakers_isolated 5 2 30 [RegCall "w1" (CallFailure 5); RegCall "w2" CallSuccess]
    [RegCall "w2" (CallTrip 9); RegSlow "w3"; RegRemove "w2"] "w1") as [E _];
    [repeat constructor; discriminate | exact E].
Defined.

(** The two critical sections of [Get] never give a worker two
    breakers: if some callers have found no breaker and take the write lock
    later, each after any registry calls that do not remove the worker, all of
    them and every later [Get] return the pointer the first one registered. *)
Theorem Get_agrees (ft st : Z) (timeout : Duration) (before between : list RegOp) (id : string)
  (Hn : RegRemove id ∉ between) :
  let r := regRun before (NewRegistry ft st timeout) in
  let '(r1, p) := Get id r in
  let r2 := regRun between r1 in
  getSlow id r2 = (r2, p) /\ Get id r2 = (r2, p) /\ getFast id r2 = Some p.
Proof.
  intros r. assert (regOk r) as Hr by (apply regRun_ok, NewRegistry_ok). clearbody r.
  rewrite Get_slow. pose proof (getSlow_ok id r Hr) as Hs. destruct (getSlow id r) as [r1 p].
  destruct Hs as (Hr1 & Hp & _). intros r2.
  assert (breakers r2 !! id = Some p) as E by (by apply regRun_keeps).
  unfold getSlow, Get, getFast. by rewrite E.
Qed.

Lemma Get_agrees_witness :
  let '(r1, p) := Get "w" (NewRegistry 5 2 30) in
  snd (getSlow "w" (regRun [RegCall "v" CallSuccess; RegSlow "w"; RegRemove "v"] r1)) = p.
Proof.
  pose proof (Get_agrees 5 2 30 [] [RegCall "v" CallSuccess; RegSlow "w"; RegRemove "v"] "w") as H.
  cbn [regRun foldl] in H. destruct (Get "w" (NewRegistry 5 2 30)) as [r1 p].
  destruct H as [H _]; [|apply (f_equal snd) in H; exact H].
  intros Hin. repeat (apply elem_of_cons in Hin as [Hin|Hin]; [discriminate|]). by apply elem_of_nil in Hin.
Defined.
