(* ===== verification/Config.v ===== *)
(** * Configuration from the environment: [internal/config/config.go]

    [os.Getenv] is the argument [env], which gives the empty string for an unset
    variable.  [strconv.Atoi] and [time.ParseDuration] of Go's standard library
    are written out; the product with a fraction that ParseDuration computes in
    float64 is the argument [frac]. *)

From Stdlib Require Import Ascii.
From stdpp Require Import pretty.
From S2P Require Import Prelude GoTime.

Open Scope string_scope.
Open Scope list_scope.
Open Scope Z_scope.

(** ** Data *)

Record Config := mkConfig {
  Role : string;
  GRPCPort : string;
  HTTPPort : string;
  MasterAddr : string;
  LogLevel : string;
  LogFormat : string;
  TaskQueueSize : Z;                    (* int *)
  HeartbeatInterval : Duration;
  HeartbeatTimeout : Duration;
  WorkerDeadTimeout : Duration;
  GracefulShutdownTimeout : Duration;
  MaxConcurrentTasks : Z                (* int *)
}.

#[export] Instance Config_struct : Struct Config := fun c =>
  mkConfig (Role c) (GRPCPort c) (HTTPPort c) (MasterAddr c) (LogLevel c) (LogFormat c)
    (TaskQueueSize c) (HeartbeatInterval c) (HeartbeatTimeout c) (WorkerDeadTimeout c)
    (GracefulShutdownTimeout c) (MaxConcurrentTasks c).

(** ** Go's parsers *)

Definition digit (c : ascii) : option Z :=
  let n := Z.of_nat (nat_of_ascii c) in
  if (48 <=? n) && (n <=? 57) then Some (n - 48) else None.

#[global] Arguments digit : simpl never.

(** The digits of a whole string, most significant first. *)

Fixpoint digits (acc : Z) (s : string) : option Z :=
  match s with
  | EmptyString => Some acc
  | String c s => match digit c with Some d => digits (10 * acc + d) s | None => None end
  end.

(** An optional sign and the rest. *)

Definition signOf (s : string) : bool * string :=
  match s with
  | String "-"%char s => (true, s)
  | String "+"%char s => (false, s)
  | _ => (false, s)
  end.

(** [strconv.Atoi]: an optional sign, at least one digit, in the range of int. *)

Definition Atoi (s : string) : option Z :=
  let '(neg, body) := signOf s in
  if String.eqb body "" then None
  else
    match digits 0 body with
    | None => None
    | Some n =>
        let v := if neg then - n else n in
        if (- 2 ^ 63 <=? v) && (v <? 2 ^ 63) then Some v else None
    end.

(** The leading digits of [s], their value, and the rest. *)

Fixpoint leadingInt (acc : Z) (s : string) : Z * string :=
  match s with
  | EmptyString => (acc, s)
  | String c s' => match digit c with Some d => leadingInt (10 * acc + d) s' | None => (acc, s) end
  end.

(** The unit: everything up to the next digit or dot. *)

Fixpoint leadingUnit (s : string) : string * string :=
  match s with
  | EmptyString => ("", s)
  | String c s' =>
      if bool_decide (is_Some (digit c)) || Ascii.eqb c "."%char then ("", s)
      else let '(u, rest) := leadingUnit s' in (String c u, rest)
  end.

Definition micro (c : nat) : string := String (ascii_of_nat 194) (String (ascii_of_nat c) "s").

Definition unitOf (u : string) : option Duration :=
  if String.eqb u "ns" then Some 1
  else if String.eqb u "us" || String.eqb u (micro 181)
       || String.eqb u (String (ascii_of_nat 206) (String (ascii_of_nat 188) "s")) then Some 1000
  else if String.eqb u "ms" then Some Millisecond
  else if String.eqb u "s" then Some Second
  else if String.eqb u "m" then Some Minute
  else if String.eqb u "h" then Some (60 * Minute)
  else None.

#[global] Arguments unitOf : simpl never.

Section parse.

(** [frac f k unit] is the float64 product of [0.f] ([k] digits) and [unit]. *)
Variable frac : Z -> nat -> Duration -> Z.

(** The loop of [time.ParseDuration]; each round consumes a character, so the
    length of the string is enough fuel. *)

Fixpoint durations (fuel : nat) (acc : Z) (s : string) : option Z :=
  match fuel with
  | O => if String.eqb s "" then Some acc else None
  | S fuel =>
      if String.eqb s "" then Some acc
      else
        let '(v, s1) := leadingInt 0 s in
        let pre := negb (Nat.eqb (String.length s) (String.length s1)) in
        let '(f, k, s2, post) :=
          match s1 with
          | String "."%char s' =>
              let '(f, s2) := leadingInt 0 s' in
              let k := (String.length s' - String.length s2)%nat in
              (f, k, s2, negb (Nat.eqb k 0))
          | _ => (0, O, s1, false)
          end in
        if negb (pre || post) then None
        else
          let '(u, rest) := leadingUnit s2 in
          match unitOf u with
          | None => None
          | Some unit =>
              let n := v * unit + (if 0 <? f then frac f k unit else 0) in
              if (2 ^ 63 <? v * unit) || (2 ^ 63 <? n) || (2 ^ 63 <? acc + n) then None
              else durations fuel (acc + n) rest
          end
  end.

Definition ParseDuration (s : string) : option Duration :=
  let '(neg, body) := signOf s in
  if String.eqb body "0" then Some 0
  else if String.eqb body "" then None
  else
    match durations (String.length body) 0 body with
    | None => None
    | Some d =>
        if neg then Some (- d)
        else if d <? 2 ^ 63 then Some d else None
    end.

(** ** The environment *)

Variable env : string -> string.

Definition envOrDefault (key fallback : string) : string :=
  let v := env key in if negb (String.eqb v "") then v else fallback.

Definition envOrDefaultInt (key : string) (fallback : Z) : Z :=
  let v := env key in
  if negb (String.eqb v "")
  then match Atoi v with Some n => n | None => fallback end
  else fallback.

Definition envOrDefaultDuration (key : string) (fallback : Duration) : Duration :=
  let v := env key in
  if negb (String.eqb v "")
  then match ParseDuration v with Some d => d | None => fallback end
  else fallback.

Definition Load : Config := {|
  Role := "";
  GRPCPort := envOrDefault "GRPC_PORT" ":50051";
  HTTPPort := envOrDefault "HTTP_PORT" ":9092";
  MasterAddr := envOrDefault "MASTER_ADDR" "localhost:50051";
  LogLevel := envOrDefault "LOG_LEVEL" "info";
  LogFormat := envOrDefault "LOG_FORMAT" "text";
  TaskQueueSize := envOrDefaultInt "TASK_QUEUE_SIZE" 100;
  HeartbeatInterval := envOrDefaultDuration "HEARTBEAT_INTERVAL" (mulDuration 10 Second);
  HeartbeatTimeout := envOrDefaultDuration "HEARTBEAT_TIMEOUT" (mulDuration 30 Second);
  WorkerDeadTimeout := envOrDefaultDuration "WORKER_DEAD_TIMEOUT" (mulDuration 60 Second);
  GracefulShutdownTimeout := envOrDefaultDuration "GRACEFUL_SHUTDOWN_TIMEOUT" (mulDuration 30 Second);
  MaxConcurrentTasks := envOrDefaultInt "MAX_CONCURRENT_TASKS" 16
|}.

End parse.

Example parse_minutes : ParseDuration (fun _ _ _ => 0) "1m30s" = Some (90 * Second).
Proof. reflexivity. Qed.

Example parse_millis : ParseDuration (fun _ _ _ => 0) "-250ms" = Some (- 250 * Millisecond).
Proof. reflexivity. Qed.

Example parse_no_unit : ParseDuration (fun _ _ _ => 0) "30" = None.
Proof. reflexivity. Qed.

(** ** Lemmas: decimal numbers *)

Lemma digit_pretty x : (x < 10)%N -> digit (pretty_N_char x) = Some (Z.of_N x).
Proof.
  intros Hx. destruct x as [|p]; [done|].
  do 4 (destruct p as [p|p|]; try reflexivity; try lia).
Qed.

Lemma digits_go x s : digits 0 (pretty_N_go x s) = digits (Z.of_N x) s.
Proof.
  revert s. induction (N.lt_wf_0 x) as [x _ IH]. intros s.
  destruct (decide (x = 0)%N) as [->|Hx]; [by rewrite pretty_N_go_0|].
  rewrite pretty_N_go_step by lia. rewrite IH by (apply N.div_lt; lia). cbn.
  rewrite digit_pretty by (apply N.mod_lt; lia). f_equal.
  pose proof (N.div_mod x 10 ltac:(lia)). lia.
Qed.

Lemma leadingInt_go x s : leadingInt 0 (pretty_N_go x s) = leadingInt (Z.of_N x) s.
Proof.
  revert s. induction (N.lt_wf_0 x) as [x _ IH]. intros s.
  destruct (decide (x = 0)%N) as [->|Hx]; [by rewrite pretty_N_go_0|].
  rewrite pretty_N_go_step by lia. rewrite IH by (apply N.div_lt; lia). cbn.
  rewrite digit_pretty by (apply N.mod_lt; lia). f_equal.
  pose proof (N.div_mod x 10 ltac:(lia)). lia.
Qed.

Lemma signOf_digit c s d : digit c = Some d -> signOf (String c s) = (false, String c s).
Proof. destruct c as [[] [] [] [] [] [] [] []]; first [discriminate | reflexivity]. Qed.

Lemma digits_head s v : digits 0 s = Some v -> s <> "" -> signOf s = (false, s).
Proof.
  destruct s as [|c s]; [done|]. cbn. destruct (digit c) as [d|] eqn:E; [|done].
  intros _ _. by apply (signOf_digit c s d).
Qed.

Lemma digits_pretty (n : N) : digits 0 (pretty n) = Some (Z.of_N n) /\ pretty n <> "".
Proof.
  assert (digits 0 (pretty n) = Some (Z.of_N n)) as E.
  { unfold pretty, pretty_N. case_decide; [by subst|]. by rewrite digits_go. }
  split; [done|]. unfold pretty, pretty_N. case_decide; [done|].
  rewrite pretty_N_go_step by lia. intros H0.
  assert (forall x s, s <> "" -> pretty_N_go x s <> "") as Hne.
  { clear. intros x. induction (N.lt_wf_0 x) as [x _ IH]. intros s Hs.
    destruct (decide (x = 0)%N) as [->|Hx]; [by rewrite pretty_N_go_0|].
    rewrite pretty_N_go_step by lia. apply IH; [apply N.div_lt; lia|done]. }
  by eapply Hne in H0.
Qed.

Lemma Atoi_pretty (z : Z) : - 2 ^ 63 <= z < 2 ^ 63 -> Atoi (pretty z) = Some z.
Proof.
  intros Hz. unfold Atoi. destruct z as [|p|p].
  - reflexivity.
  - destruct (digits_pretty (Npos p)) as [E Hne]. change (pretty (Z.pos p)) with (pretty (Npos p)).
    rewrite (digits_head _ _ E Hne), (proj2 (String.eqb_neq _ _) Hne), E.
    rewrite (proj2 (andb_true_iff _ _)) by (split; [apply Z.leb_le|apply Z.ltb_lt]; lia). done.
  - destruct (digits_pretty (Npos p)) as [E Hne].
    change (pretty (Z.neg p)) with (String "-"%char (pretty (Npos p))). cbn [signOf].
    rewrite (proj2 (String.eqb_neq _ _) Hne), E.
    rewrite (proj2 (andb_true_iff _ _)) by (split; [apply Z.leb_le|apply Z.ltb_lt]; lia).
    done.
Qed.

Lemma leadingInt_pretty (n : N) s :
  digit (match s with String c _ => c | _ => "s"%char end) = None -> s <> "" ->
  leadingInt 0 (pretty n +:+ s) = (Z.of_N n, s).
Proof.
  intros Hs Hne.
  assert (forall x t, pretty_N_go x t +:+ s = pretty_N_go x (t +:+ s)) as Happ.
  { intros x. induction (N.lt_wf_0 x) as [x _ IH]. intros t.
    destruct (decide (x = 0)%N) as [->|Hx]; [by rewrite !pretty_N_go_0|].
    rewrite !(pretty_N_go_step x) by lia. by rewrite IH by (apply N.div_lt; lia). }
  unfold pretty, pretty_N. case_decide.
  - subst. destruct s as [|c s]; [done|]. change ("0" +:+ String c s) with (String "0" (String c s)).
    cbn [leadingInt]. change (digit "0") with (Some 0). cbn [leadingInt]. by rewrite Hs.
  - rewrite Happ, leadingInt_go. destruct s as [|c s]; [done|].
    change ("" +:+ String c s) with (String c s). cbn [leadingInt]. by rewrite Hs.
Qed.

Definition units : list string := ["ns"; "us"; "ms"; "s"; "m"; "h"].

Lemma durations_end frac fuel acc : durations frac fuel acc "" = Some acc.
Proof. by destruct fuel. Qed.

Lemma str_length_app (s t : string) : String.length (s +:+ t) = (String.length s + String.length t)%nat.
Proof. induction s as [|c s IH]; [done|]. exact (f_equal S IH). Qed.

Lemma ParseDuration_pretty frac (n : N) u unit :
  u ∈ units -> unitOf u = Some unit -> Z.of_N n * unit < 2 ^ 63 ->
  ParseDuration frac (pretty n +:+ u) = Some (Z.of_N n * unit).
Proof.
  intros Hu Hunit Hn. destruct (digits_pretty n) as [Ed Hne].
  assert (signOf (pretty n +:+ u) = (false, pretty n +:+ u)) as Hsign.
  { destruct (pretty n) as [|c s] eqn:E; [done|]. cbn in Ed.
    destruct (digit c) as [d|] eqn:Ec; [|done]. by apply (signOf_digit c (s +:+ u) d). }
  assert (1 <= String.length (pretty n))%nat as Hlen by (destruct (pretty n); [done|cbn; lia]).
  assert (1 <= String.length u)%nat as Hlu.
  { clear -Hu. unfold units in Hu. rewrite !elem_of_cons, elem_of_nil in Hu.
    destruct Hu as [->|[->|[->|[->|[->|[->|[]]]]]]]; cbn; lia. }
  assert (pretty n +:+ u <> "0" /\ pretty n +:+ u <> "") as [H0 H1].
  { split; intros E; apply (f_equal String.length) in E; rewrite str_length_app in E; cbn in E; lia. }
  unfold ParseDuration. rewrite Hsign.
  rewrite (proj2 (String.eqb_neq _ _) H0), (proj2 (String.eqb_neq _ _) H1).
  assert (durations frac (String.length (pretty n +:+ u)) 0 (pretty n +:+ u) = Some (Z.of_N n * unit)) as ->.
  2:{ by rewrite (proj2 (Z.ltb_lt _ _)). }
  destruct (String.length (pretty n +:+ u)) as [|fuel] eqn:Hfuel; [rewrite str_length_app in Hfuel; lia|].
  cbn [durations]. rewrite (proj2 (String.eqb_neq _ _) H1), Hfuel.
  clear -Hu Hunit Hn Hfuel Hlen. rewrite str_length_app in Hfuel.
  unfold units in Hu. rewrite !elem_of_cons, elem_of_nil in Hu.
  destruct Hu as [->|[->|[->|[->|[->|[->|[]]]]]]];
    rewrite leadingInt_pretty by done; rewrite (proj2 (Nat.eqb_neq _ _)) by (cbn in *; lia);
    match goal with |- context [ leadingUnit ?x ] =>
      let r := eval vm_compute in (leadingUnit x) in change (leadingUnit x) with r end;
    cbn -[Z.mul Z.pow Z.ltb Z.add durations]; rewrite Hunit;
    change (0 <? 0) with false; cbv iota; rewrite !Z.add_0_r, !Z.add_0_l;
    rewrite !(proj2 (Z.ltb_ge _ _)) by lia; cbn [orb]; apply durations_end.
Qed.

(** ** Properties *)


