(* ===== verification/Store.v ===== *)
(** * Task stores: [internal/store/]

    [TaskStore] is the Go interface as a class of operations, with the laws that
    its clients rely on.  [MemoryStore] keeps pointers into the shared memory of
    [Scheduler.v]; [BadgerStore] keeps encoded values in a key-value database.
    The database (package badger) and the encoding of tasks (encoding/json) are
    parameters, with what the store relies on as laws.  Log calls are left out. *)

From Stdlib Require Import Ascii.
From S2P Require Import Prelude GoTime Task Scheduler.

Open Scope string_scope.
Open Scope list_scope.
Open Scope Z_scope.

(** Results of Go functions that return [(T, error)]: [inl err] or [inr value]. *)

Abbreviation result T := (string + T)%type.

(** ** The interface *)

(** A task is passed and returned by pointer; [Get] and [List] give the value
    behind the pointer they return. *)

Class TaskStore (S : Type) := {
  Save : Mem -> loc -> S -> S * error;
  storeGet : Mem -> string -> S -> result (option Task);
  storeDelete : string -> S -> S * error
}.

(** What a store promises: a successful [Save] or [Delete] decides what [Get]
    returns for that id and for no other; a failed one changes nothing.
    [storable] are the tasks the store can hold, [healthy] the stores that work. *)

Class TaskStoreLaws (S : Type) `{TaskStore S} := {
  storable : Task -> Prop;
  healthy : S -> Prop;
  save_healthy : forall m p s, healthy s -> healthy (fst (Save m p s));
  delete_healthy : forall id s, healthy s -> healthy (fst (storeDelete id s));
  get_saved : forall m p s s', healthy s -> storable (m !!! p) -> Save m p s = (s', None) ->
    storeGet m (tID (m !!! p)) s' = inr (Some (m !!! p));
  get_other : forall m p s s' id, healthy s -> id <> tID (m !!! p) -> Save m p s = (s', None) ->
    storeGet m id s' = storeGet m id s;
  get_failed : forall m p s s' id e, healthy s -> Save m p s = (s', Some e) -> storeGet m id s' = storeGet m id s;
  get_deleted : forall m id s s', healthy s -> storeDelete id s = (s', None) -> storeGet m id s' = inr None;
  get_undeleted : forall m id id' s s', healthy s -> id' <> id -> storeDelete id s = (s', None) ->
    storeGet m id' s' = storeGet m id' s
}.

(** ** MemoryStore *)

Record MemoryStore := mkMemoryStore { tasks : gmap string loc }.

#[export] Instance MemoryStore_struct : Struct MemoryStore := fun s => mkMemoryStore (tasks s).

Definition NewMemoryStore : MemoryStore := {| tasks := ∅ |}.

Definition MemSave (m : Mem) (t : loc) (s : MemoryStore) : MemoryStore * error :=
  (s <| tasks := <[tID (m !!! t) := t]> (tasks s) |>, None).

Definition MemGet (id : string) (s : MemoryStore) : result (option loc) :=
  match tasks s !! id with
  | None => inr None
  | Some t => inr (Some t)
  end.

(** [List] and [GetByState] range over the map in the order [ord]. *)

Definition MemList (ord : list (string * loc)) (s : MemoryStore) : result (list loc) := inr ord.*2.

Definition MemDelete (id : string) (s : MemoryStore) : MemoryStore * error :=
  (s <| tasks := delete id (tasks s) |>, None).

Definition MemGetByState (m : Mem) (st : State) (ord : list (string * loc)) (s : MemoryStore)
    : result (list loc) :=
  inr (filter (fun t => tState (m !!! t) = st) ord.*2).

Definition MemClose (s : MemoryStore) : error := None.

#[export] Instance MemoryStore_TaskStore : TaskStore MemoryStore := {
  Save := MemSave;
  storeGet m id s := match MemGet id s with inl e => inl e | inr o => inr ((fun t => m !!! t) <$> o) end;
  storeDelete := MemDelete
}.

(** ** The key-value database and the encoding *)

(** Transactions of badger: [kvSet] and [kvDelete] commit or fail as a whole;
    [kvGet] finds a value, finds none ([ErrKeyNotFound]) or fails; [kvScan] is
    an iteration over the keys with a prefix, in which each
    value may fail to be read. *)

Class KV (DB : Type) := {
  kvSet : string -> string -> DB -> DB * error;
  kvDelete : string -> DB -> DB * error;
  kvGet : string -> DB -> result (option string);
  kvScan : string -> DB -> result (list (result string))
}.

(** [kvView db] is the committed content.  A database that is [kvUp] reads it
    without error; writes may fail, and a failed write changes nothing. *)

Class KVLaws (DB : Type) `{KV DB} := {
  kvView : DB -> gmap string string;
  kvUp : DB -> Prop;
  kv_set_up : forall k v db, kvUp db -> kvUp (fst (kvSet k v db));
  kv_delete_up : forall k db, kvUp db -> kvUp (fst (kvDelete k db));
  kv_set : forall k v db db', kvSet k v db = (db', None) -> kvView db' = <[k := v]> (kvView db);
  kv_set_failed : forall k v db db' e, kvSet k v db = (db', Some e) -> kvView db' = kvView db;
  kv_delete : forall k db db', kvDelete k db = (db', None) -> kvView db' = delete k (kvView db);
  kv_delete_failed : forall k db db' e, kvDelete k db = (db', Some e) -> kvView db' = kvView db;
  kv_get : forall k db, kvUp db -> kvGet k db = inr (kvView db !! k);
  kv_scan : forall p db, kvUp db -> exists l, kvScan p db = inr (inr <$> l) /\
    l ≡ₚ (filter (fun kv => String.prefix p kv.1 = true) (map_to_list (kvView db))).*2
}.

(** [json.Marshal] of a task and [json.Unmarshal] into a zero task. *)

Class Codec := {
  marshal : Task -> result string;
  unmarshal : string -> result Task
}.

Definition decodable `{Codec} (t : Task) : Prop :=
  exists data, marshal t = inr data /\ unmarshal data = inr t.

(** ** BadgerStore *)

Section badger.
Context {DB : Type} `{KV DB, Codec}.
Implicit Types db : DB.

Definition taskKey (id : string) : string := "task:" +:+ id.

Definition BadgerSave (t : Task) (db : DB) : DB * error :=
  match marshal t with
  | inl err => (db, Some ("marshal task " +:+ tID t +:+ ": " +:+ err))
  | inr data => kvSet (taskKey (tID t)) data db
  end.

Definition BadgerGet (id : string) (db : DB) : result (option Task) :=
  match kvGet (taskKey id) db with
  | inl err => inl err
  | inr None => inr None   (* the task is still zero, so its ID is empty *)
  | inr (Some val) =>
      match unmarshal val with
      | inl err => inl err
      | inr t => if String.eqb (tID t) "" then inr None else inr (Some t)
      end
  end.

(** The loop of [List]: the tasks decoded before an error are kept. *)

Fixpoint decodeAll (items : list (result string)) (ts : list Task) : list Task * error :=
  match items with
  | [] => (ts, None)
  | inl err :: _ => (ts, Some err)
  | inr val :: items =>
      match unmarshal val with
      | inl err => (ts, Some err)
      | inr t => decodeAll items (ts ++ [t])
      end
  end.

Definition BadgerList (db : DB) : list Task * error :=
  match kvScan "task:" db with
  | inl err => ([], Some err)
  | inr items => decodeAll items []
  end.

Definition BadgerDelete (id : string) (db : DB) : DB * error := kvDelete (taskKey id) db.

Definition BadgerGetByState (st : State) (db : DB) : list Task * error :=
  match BadgerList db with
  | (_, Some err) => ([], Some err)
  | (all, None) => (filter (fun t => tState t = st) all, None)
  end.

Definition recoverTask (t : Task) : Task := t <| tState := StateQueued |> <| tWorkerID := "" |>.

Definition RecoverTasks (db : DB) : list Task * error :=
  match BadgerList db with
  | (_, Some err) => ([], Some err)
  | (all, None) => (recoverTask <$> filter (fun t => IsTerminal (tState t) = false) all, None)
  end.

#[export] Instance BadgerStore_TaskStore : TaskStore DB := {
  Save m t db := BadgerSave (m !!! t) db;
  storeGet _ id db := BadgerGet id db;
  storeDelete := BadgerDelete
}.

End badger.

(** ** Both stores keep the interface's promises *)

#[export] Program Instance MemoryStore_laws : TaskStoreLaws MemoryStore := {
  storable _ := True;
  healthy _ := True
}.
Next Obligation. done. Qed.
Next Obligation. done. Qed.
Next Obligation.
  intros m p s s' _ _ [= <-]. cbn. unfold MemGet. simpl_fields_goal. by rewrite lookup_insert_eq.
Qed.
Next Obligation.
  intros m p s s' id _ Hne [= <-]. cbn. unfold MemGet. simpl_fields_goal. by rewrite lookup_insert_ne.
Qed.
Next Obligation. done. Qed.
Next Obligation.
  intros m id s s' _ [= <-]. cbn. unfold MemGet. simpl_fields_goal. by rewrite lookup_delete_eq.
Qed.
Next Obligation.
  intros m id id' s s' _ Hne [= <-]. cbn. unfold MemGet. simpl_fields_goal. by rewrite lookup_delete_ne.
Qed.

Section badger_laws.
Context {DB : Type} `{!KV DB, !KVLaws DB, !Codec}.
Implicit Types db : DB.

#[export] Instance taskKey_inj : Inj (=) (=) taskKey.
Proof. intros a b E. unfold taskKey in E. by simplify_eq. Qed.

Lemma BadgerGet_view id db :
  kvUp db -> BadgerGet id db = match kvView db !! taskKey id with
    | None => inr None
    | Some val => match unmarshal val with
        | inl err => inl err
        | inr t => if String.eqb (tID t) "" then inr None else inr (Some t)
        end
    end.
Proof. intros Hup. unfold BadgerGet. by rewrite kv_get. Qed.

Lemma BadgerSave_up t db : kvUp db -> kvUp (fst (BadgerSave t db)).
Proof. intros. unfold BadgerSave. case_match; [done|]. by apply kv_set_up. Qed.

Lemma BadgerSave_view t db db' err :
  BadgerSave t db = (db', err) ->
  match err with
  | None => exists data, marshal t = inr data /\ kvView db' = <[taskKey (tID t) := data]> (kvView db)
  | Some _ => kvView db' = kvView db
  end.
Proof.
  unfold BadgerSave. destruct (marshal t) as [e|data]; [by intros [= <- <-]|]. intros E.
  destruct err; [by eapply kv_set_failed|]. exists data. split; [done|]. by eapply kv_set.
Qed.

Lemma BadgerDelete_view id db db' err :
  BadgerDelete id db = (db', err) ->
  kvView db' = match err with None => delete (taskKey id) (kvView db) | Some _ => kvView db end.
Proof. intros E. destruct err; [by eapply kv_delete_failed|by eapply kv_delete]. Qed.

#[export] Program Instance BadgerStore_laws : TaskStoreLaws DB := {
  storable t := decodable t /\ tID t <> "";
  healthy := kvUp
}.
Next Obligation. intros m p db Hup. cbn. by apply BadgerSave_up. Qed.
Next Obligation. intros id db Hup. cbn. by apply kv_delete_up. Qed.
Next Obligation.
  intros m p db db' Hup [(data & Hm & Hu) Hid] E. cbn in *.
  pose proof (BadgerSave_up (m !!! p) db Hup) as Hup'. rewrite E in Hup'. cbn in Hup'.
  apply BadgerSave_view in E as (data' & Hm' & Hv). rewrite Hm in Hm'. injection Hm' as <-.
  rewrite BadgerGet_view by done. rewrite Hv, lookup_insert_eq, Hu.
  by destruct (String.eqb_spec (tID (m !!! p)) "").
Qed.
Next Obligation.
  intros m p db db' id Hup Hne E. cbn in *.
  pose proof (BadgerSave_up (m !!! p) db Hup) as Hup'. rewrite E in Hup'. cbn in Hup'.
  apply BadgerSave_view in E as (data' & _ & Hv).
  rewrite !BadgerGet_view by done. rewrite Hv, lookup_insert_ne; [done|].
  intros ?%(inj taskKey). congruence.
Qed.
Next Obligation.
  intros m p db db' id err Hup E. cbn in *.
  pose proof (BadgerSave_up (m !!! p) db Hup) as Hup'. rewrite E in Hup'. cbn in Hup'.
  apply BadgerSave_view in E. rewrite !BadgerGet_view by done. by rewrite E.
Qed.
Next Obligation.
  intros m id db db' Hup E. cbn in *.
  pose proof (kv_delete_up (taskKey id) db Hup) as Hup'. unfold BadgerDelete in E. rewrite E in Hup'.
  apply BadgerDelete_view in E. rewrite BadgerGet_view by done. by rewrite E, lookup_delete_eq.
Qed.
Next Obligation.
  intros m id id' db db' Hup Hne E. cbn in *.
  pose proof (kv_delete_up (taskKey id) db Hup) as Hup'. unfold BadgerDelete in E. rewrite E in Hup'.
  apply BadgerDelete_view in E. rewrite !BadgerGet_view by done. rewrite E, lookup_delete_ne; [done|].
  intros ?%(inj taskKey). congruence.
Qed.

(** *** What a database of saved tasks holds *)

Record holds (ts : gmap string Task) (db : DB) : Prop := {
  hd_up : kvUp db;
  hd_ids : map_Forall (fun id t => tID t = id) ts;
  hd_view : exists data : gmap string string, kvView db = kmap taskKey data /\
    unmarshal <$> data = (inr : Task -> result Task) <$> ts
}.

Lemma BadgerSave_decoded t u data ts db db' :
  holds ts db -> marshal t = inr data -> unmarshal data = inr u -> tID u = tID t ->
  BadgerSave t db = (db', None) -> holds (<[tID t := u]> ts) db'.
Proof.
  intros [Hup Hids (vals & Hv & Hd)] Hm Hu Hid E.
  pose proof (BadgerSave_up t db Hup) as Hup'. rewrite E in Hup'.
  apply BadgerSave_view in E as (val' & Hm' & Hv'). rewrite Hm in Hm'. injection Hm' as <-.
  split; [done|by apply map_Forall_insert_2|]. exists (<[tID t := data]> vals). split.
  - by rewrite Hv', Hv, (kmap_insert taskKey).
  - by rewrite !fmap_insert, Hd, Hu.
Qed.

Lemma BadgerSave_holds t ts db db' :
  holds ts db -> decodable t -> BadgerSave t db = (db', None) -> holds (<[tID t := t]> ts) db'.
Proof. intros Hh (data & Hm & Hu) E. by apply (BadgerSave_decoded t t data ts db). Qed.

Lemma decodeAll_ok vs us ts :
  unmarshal <$> vs = (inr : Task -> result Task) <$> us -> decodeAll (inr <$> vs) ts = (ts ++ us, None).
Proof.
  revert us ts. induction vs as [|v vs IH]; intros [|u us] ts E; try done; cbn; [by rewrite app_nil_r|].
  rewrite !fmap_cons in E. injection E as Ev E. rewrite Ev, (IH us) by done. by rewrite <- app_assoc.
Qed.

Lemma taskKey_prefix id : String.prefix "task:" (taskKey id) = true.
Proof. cbn. by destruct id. Qed.

Lemma BadgerList_holds ts db :
  holds ts db -> exists l, BadgerList db = (l, None) /\ l ≡ₚ (map_to_list ts).*2.
Proof.
  intros [Hup _ (data & Hv & Hd)]. unfold BadgerList.
  destruct (kv_scan "task:" db Hup) as (vs & -> & Hvs).
  assert (vs ≡ₚ (map_to_list data).*2) as Hp.
  { rewrite Hvs, Hv. rewrite map_to_list_kmap, list_filter_all.
    - by rewrite <- list_fmap_compose.
    - intros kv ([k v] & -> & _)%list_elem_of_fmap. apply taskKey_prefix.
    - apply _. }
  assert (unmarshal <$> (map_to_list data).*2 = (inr : Task -> result Task) <$> (map_to_list ts).*2) as E.
  { pose proof (f_equal (fun m => (map_to_list m).*2) Hd) as E. cbn in E.
    rewrite !map_to_list_fmap, <- !list_fmap_compose in E. rewrite <- !list_fmap_compose. exact E. }
  assert (unmarshal <$> vs ≡ₚ map inr (map_to_list ts).*2) as Hperm by (by rewrite Hp, E).
  apply Permutation_map_inv in Hperm as (us & Eu & Hus).
  exists us. rewrite (decodeAll_ok vs us) by done. by rewrite Hus.
Qed.

End badger_laws.

(** ** A database and an encoding to evaluate on *)

#[export] Instance demoKV : KV (gmap string string) := {
  kvSet k v db := (<[k := v]> db, None);
  kvDelete k db := (delete k db, None);
  kvGet k db := inr (db !! k);
  kvScan p db := inr (inr <$> (filter (fun kv => String.prefix p kv.1 = true) (map_to_list db)).*2)
}.

#[export] Program Instance demoKV_laws : KVLaws (gmap string string) := {
  kvView db := db;
  kvUp _ := True
}.
Next Obligation. done. Qed.
Next Obligation. done. Qed.
Next Obligation. by intros k v db db' [= <-]. Qed.
Next Obligation. done. Qed.
Next Obligation. by intros k db db' [= <-]. Qed.
Next Obligation. done. Qed.
Next Obligation. done. Qed.
Next Obligation. intros p db _. by eexists. Qed.

#[export] Instance demoCodec : Codec := {
  marshal t := inr ((match tState t with
    | StateQueued => "Q" | StateRunning => "R" | StateCompleted => "C" | StateDead => "D"
    | StateRetrying => "Y" | _ => "?" end)
    +:+ tID t);
  unmarshal s :=
    match s with
    | String "Q"%char id => inr (New 0 id "run.sh")
    | String "R"%char id => inr ((New 0 id "run.sh") <| tState := StateRunning |>)
    | String "C"%char id => inr ((New 0 id "run.sh") <| tState := StateCompleted |>)
    | String "Y"%char id => inr ((New 0 id "run.sh") <| tState := StateRetrying |>)
    | String "D"%char id => inr ((New 0 id "run.sh") <| tState := StateDead |>)
    | _ => inl "invalid character"
    end
}.

Lemma demo_up : kvUp (∅ : gmap string string).
Proof. exact I. Qed.

Lemma demo_empty : kvView (∅ : gmap string string) = ∅.
Proof. reflexivity. Qed.

Definition demoTasks : list Task :=
  [(New 0 "a" "run.sh") <| tState := StateRunning |>; (New 0 "b" "run.sh") <| tState := StateCompleted |>;
   (New 0 "c" "run.sh") <| tState := StateRunning |>; (New 0 "c" "run.sh") <| tState := StateDead |>].

(** The successive contents of a store that saves tasks, and of the map it stands for. *)

Section saves.
Context {DB : Type} `{!KV DB, !Codec}.

(** [None] when a save fails. *)
Fixpoint saveAll (ts : list Task) (db : DB) : option DB :=
  match ts with
  | [] => Some db
  | t :: ts => match BadgerSave t db with (db, None) => saveAll ts db | (_, Some _) => None end
  end.

End saves.

Definition latest (ts : list Task) : gmap string Task :=
  foldl (fun m t => <[tID t := t]> m) ∅ ts.

Section recover.
Context {DB : Type} `{!KV DB, !KVLaws DB, !Codec}.

Lemma saveAll_holds_from ts m db db' :
  holds m db -> Forall decodable ts -> saveAll ts db = Some db' ->
  holds (foldl (fun m t => <[tID t := t]> m) m ts) db'.
Proof.
  intros Hh Ht. revert m db Hh. induction Ht as [|t ts Hd _ IH]; intros m db Hh; [by intros [= <-]|].
  cbn [foldl saveAll]. destruct (BadgerSave t db) as [db1 [err|]] eqn:E; [done|].
  apply IH. by apply (BadgerSave_holds t m db).
Qed.

Lemma holds_empty db : kvUp db -> kvView db = ∅ -> holds ∅ db.
Proof.
  intros Hup Hv. split; [done|by apply map_Forall_empty|].
  exists ∅. by rewrite kmap_empty, !fmap_empty.
Qed.

Lemma RecoverTasks_holds ts db : holds ts db -> exists l, RecoverTasks db = (l, None) /\
  l ≡ₚ recoverTask <$> filter (fun t => IsTerminal (tState t) = false) (map_to_list ts).*2.
Proof.
  intros Hh. destruct (BadgerList_holds _ _ Hh) as (all & Hl & Hp). unfold RecoverTasks. rewrite Hl.
  eexists. split; [reflexivity|]. by rewrite Hp.
Qed.

(** ** Properties *)

(** Claim C37: what a master that crashed recovers from the disk: after any
    sequence of successful saves into an empty database, [RecoverTasks] returns the last
    saved version of exactly the tasks that were not COMPLETED or DEAD then, each
    once, as QUEUED and without a worker; and [GetByState] returns those in the
    given state. *)
Theorem RecoverTasks_exact (ts : list Task) (db db' : DB)
  (Hup : kvUp db) (He : kvView db = ∅) (Hts : Forall decodable ts) (Hok : saveAll ts db = Some db') :
  let saved := (map_to_list (latest ts)).*2 in
  (exists l, RecoverTasks db' = (l, None) /\
    l ≡ₚ (fun t => t <| tState := StateQueued |> <| tWorkerID := "" |>) <$>
         filter (fun t => tState t <> StateCompleted /\ tState t <> StateDead) saved) /\
  (forall st, exists l, BadgerGetByState st db' = (l, None) /\
    l ≡ₚ filter (fun t => tState t = st) saved).
Proof.
  intros saved.
  pose proof (saveAll_holds_from ts ∅ db db' (holds_empty db Hup He) Hts Hok) as Hh.
  destruct (BadgerList_holds _ _ Hh) as (all & Hl & Hp). fold (latest ts) in Hp.
  change (holds (latest ts) db') in Hh. split.
  - destruct (RecoverTasks_holds _ _ Hh) as (l & El & Hr). exists l. split; [done|]. subst saved. rewrite Hr.
    assert (filter (fun t => IsTerminal (tState t) = false) (map_to_list (latest ts)).*2 =
      filter (fun t => tState t <> StateCompleted /\ tState t <> StateDead) (map_to_list (latest ts)).*2) as ->; [|done].
    apply list_filter_ext_in. intros t _.
    unfold IsTerminal. by rewrite orb_false_iff, !bool_decide_eq_false.
  - intros st. eexists. unfold BadgerGetByState. rewrite Hl. split; [reflexivity|]. by rewrite Hp.
Qed.

(** A task saved in the database is read back unchanged until it is
    saved again or deleted, even when the pointer it was saved through changes;
    other tasks are not affected. The in-memory store keeps the pointer instead,
    so it shows every later change of the task without a save. *)
Theorem stores_copy_or_alias (m m' : Mem) (p : loc) (db db' : DB) (s : MemoryStore)
  (Hup : kvUp db) (Hd : decodable (m !!! p)) (Hid : tID (m !!! p) <> "")
  (Hs : Save m p db = (db', None)) :
  storeGet m' (tID (m !!! p)) db' = inr (Some (m !!! p)) /\
  (forall id, id <> tID (m !!! p) -> storeGet m' id db' = storeGet m' id db) /\
  storeGet m' (tID (m !!! p)) (fst (Save m p s)) = inr (Some (m' !!! p)) /\
  (forall id, id <> tID (m !!! p) -> storeGet m' id (fst (Save m p s)) = storeGet m' id s).
Proof.
  split_and!.
  - exact (get_saved m p db db' Hup (conj Hd Hid) Hs).
  - intros id Hne. exact (get_other m p db db' id Hup Hne Hs).
  - cbn. unfold MemGet. simpl_fields_goal. by rewrite lookup_insert_eq.
  - intros id Hne. cbn. unfold MemGet. simpl_fields_goal. by rewrite lookup_insert_ne.
Qed.

End recover.

Lemma RecoverTasks_exact_witness :
  exists db' l, saveAll demoTasks (∅ : gmap string string) = Some db' /\
    RecoverTasks db' = (l, None) /\ l ≡ₚ [New 0 "a" "run.sh"].
Proof.
  assert (Forall decodable demoTasks) as Hd
    by (repeat constructor; eexists; split; vm_compute; reflexivity).
  destruct (saveAll demoTasks (∅ : gmap string string)) as [db'|] eqn:Hs; [|vm_compute in Hs; discriminate].
  destruct (RecoverTasks_exact demoTasks (∅ : gmap string string) db'
    demo_up demo_empty Hd Hs) as [(l & E & Hp) _].
  exists db', l. split; [reflexivity|]. split; [exact E|]. rewrite Hp.
  apply (bool_decide_unpack _). vm_compute. exact I.
Defined.

Lemma stores_copy_or_alias_witness :
  let t := New 0 "a" "run.sh" in
  let m : Mem := {[1%positive := t]} in
  let m' : Mem := {[1%positive := t <| tState := StateRunning |>]} in
  storeGet m' "a" (fst (Save m 1%positive (∅ : gmap string string))) = inr (Some t) /\
  storeGet m' "a" (fst (Save m 1%positive NewMemoryStore)) = inr (Some (t <| tState := StateRunning |>)).
Proof.
  intros t m m'.
  destruct (stores_copy_or_alias m m' 1%positive ∅ (<["task:a" := "Qa"]> ∅ : gmap string string) NewMemoryStore)
    as (H1 & _ & H2 & _).
  - exact demo_up.
  - eexists. split; vm_compute; reflexivity.
  - vm_compute. discriminate.
  - vm_compute. reflexivity.
  - split; [exact H1 | exact H2].
Defined.
