(* ===== verification/Events.v ===== *)
(** * The event bus: [internal/events/event_bus.go]

    A channel is a location in the bus's memory of channels: its buffer and
    whether it is closed.  Sending on a closed channel and closing one twice
    panic in Go: the operations then return [None].  [Unsubscribe] releases the
    lock before it closes the channel, so it is two steps here.  The iteration
    order of the subscriber map and the clock are arguments.  [Event.JSON] is
    not modelled (a call of encoding/json). *)

From S2P Require Import Prelude GoTime.

Open Scope string_scope.
Open Scope list_scope.
Open Scope Z_scope.

(** ** Data *)

Abbreviation EventType := string (only parsing).

Definition EventTaskQueued : EventType := "task_queued".
Definition EventTaskAssigned : EventType := "task_assigned".
Definition EventTaskCompleted : EventType := "task_completed".
Definition EventTaskFailed : EventType := "task_failed".
Definition EventTaskRetrying : EventType := "task_retrying".
Definition EventTaskDead : EventType := "task_dead".
Definition EventWorkerConnected : EventType := "worker_connected".
Definition EventWorkerDisconnected : EventType := "worker_disconnected".
Definition EventWorkerSuspect : EventType := "worker_suspect".
Definition EventWorkerDead : EventType := "worker_dead".
Definition EventChaosWorkerKilled : EventType := "chaos_worker_killed".
Definition EventChaosCBTripped : EventType := "chaos_cb_tripped".
Definition EventChaosCBReset : EventType := "chaos_cb_reset".
Definition EventBatchSubmitted : EventType := "batch_submitted".

(** The maps that the code puts in [Data]: strings and integers under string keys. *)

Inductive Value := VString (s : string) | VInt (n : Z).

Record Event := mkEvent { evType : EventType; evTimestamp : Time; evData : list (string * Value) }.

#[export] Instance Event_struct : Struct Event := fun e => mkEvent (evType e) (evTimestamp e) (evData e).

#[export] Instance Value_eq_dec : EqDecision Value.
Proof. solve_decision. Defined.
#[export] Instance Event_eq_dec : EqDecision Event.
Proof. solve_decision. Defined.

Record Chan := mkChan { buf : list Event; closed : bool }.

#[export] Instance Chan_struct : Struct Chan := fun c => mkChan (buf c) (closed c).

#[export] Instance Chan_inhabited : Inhabited Chan := populate (mkChan [] false).

Record Bus := mkBus {
  subscribers : gset positive;
  chans : gmap positive Chan;
  chNext : positive
}.

#[export] Instance Bus_struct : Struct Bus := fun b => mkBus (subscribers b) (chans b) (chNext b).

(** ** Operations *)

Definition chanSize : nat := 512.

Definition NewBus : Bus := mkBus ∅ ∅ 1.

Definition Subscribe (b : Bus) : Bus * positive :=
  let ch := chNext b in
  (b <| chans := <[ch := mkChan [] false]> (chans b) |> <| chNext := Pos.succ ch |>
     <| subscribers := {[ch]} ∪ subscribers b |>, ch).

(** [Unsubscribe]: the critical section, and [close(ch)] after it. *)

Definition unsubscribeDelete (ch : positive) (b : Bus) : Bus :=
  b <| subscribers := subscribers b ∖ {[ch]} |>.

Definition closeChan (ch : positive) (b : Bus) : option Bus :=
  if closed (chans b !!! ch) then None
  else Some (b <| chans := <[ch := (chans b !!! ch) <| closed := true |>]> (chans b) |>).

Definition Unsubscribe (ch : positive) (b : Bus) : option Bus :=
  closeChan ch (unsubscribeDelete ch b).

(** The [select] with a default: a send that never blocks. *)

Definition trySend (e : Event) (ch : positive) (b : Bus) : option Bus :=
  let c := chans b !!! ch in
  if closed c then None
  else if bool_decide (length (buf c) < chanSize)%nat
  then Some (b <| chans := <[ch := c <| buf := buf c ++ [e] |>]> (chans b) |>)
  else Some b.

Fixpoint sendAll (e : Event) (ord : list positive) (b : Bus) : option Bus :=
  match ord with
  | [] => Some b
  | ch :: ord => b ← trySend e ch b; sendAll e ord b
  end.

(** [ord] lists the subscribers. *)

Definition Publish (now : Time) (ord : list positive) (event : Event) (b : Bus) : option Bus :=
  sendAll (event <| evTimestamp := now |>) ord b.

Definition SubscriberCount (b : Bus) : Z := Z.of_nat (size (subscribers b)).

(** A receive by the subscriber's loop; [None] when it would block or the
    channel is closed and drained. *)

Definition receive (ch : positive) (b : Bus) : Bus * option Event :=
  match buf (chans b !!! ch) with
  | [] => (b, None)
  | e :: rest => (b <| chans := <[ch := (chans b !!! ch) <| buf := rest |>]> (chans b) |>, Some e)
  end.

(** ** Interleavings *)

(** A step of some client; [closing] are the channels that an [Unsubscribe] has
    taken out of the map and not closed yet. *)

Inductive BusOp :=
| BSubscribe
| BDelete (ch : positive)
| BClose (ch : positive)
| BPublish (now : Time) (ord : list positive) (e : Event)
| BReceive (ch : positive).

Record Clients := mkClients { bus : Bus; closing : gset positive }.

(** What the clients keep to: a channel is unsubscribed once, by its subscriber,
    and closed by that call; a publisher visits each subscriber once. *)

Definition busOk (o : BusOp) (s : Clients) : Prop :=
  match o with
  | BDelete ch => ch ∈ subscribers (bus s)
  | BClose ch => ch ∈ closing s
  | BPublish _ ord _ => ord ≡ₚ elements (subscribers (bus s))
  | _ => True
  end.

#[export] Instance busOk_dec o s : Decision (busOk o s).
Proof. destruct o; simpl; apply _. Defined.

Definition busStep (o : BusOp) (s : Clients) : option Clients :=
  match o with
  | BSubscribe => Some (mkClients (fst (Subscribe (bus s))) (closing s))
  | BDelete ch => Some (mkClients (unsubscribeDelete ch (bus s)) ({[ch]} ∪ closing s))
  | BClose ch => b ← closeChan ch (bus s); Some (mkClients b (closing s ∖ {[ch]}))
  | BPublish now ord e => b ← Publish now ord e (bus s); Some (mkClients b (closing s))
  | BReceive ch => Some (mkClients (fst (receive ch (bus s))) (closing s))
  end.

(** Runs of permitted steps; a panic ends in [None]. *)

Inductive busRun : list BusOp -> Clients -> option Clients -> Prop :=
| run_nil s : busRun [] s (Some s)
| run_step o os s s' r : busOk o s -> busStep o s = Some s' -> busRun os s' r -> busRun (o :: os) s r
| run_panic o os s : busOk o s -> busStep o s = None -> busRun (o :: os) s None.

(** ** Lemmas *)

Record BusInv (s : Clients) : Prop := {
  bi_open : forall ch, ch ∈ subscribers (bus s) \/ ch ∈ closing s -> closed (chans (bus s) !!! ch) = false;
  bi_sep : subscribers (bus s) ## closing s;
  bi_fresh : forall ch, ch ∈ subscribers (bus s) \/ ch ∈ closing s -> (ch < chNext (bus s))%positive;
  bi_size : forall ch, (length (buf (chans (bus s) !!! ch)) <= chanSize)%nat
}.

(** What a send does to each channel. *)
Definition pushed (e : Event) (c : Chan) : Chan :=
  if bool_decide (length (buf c) < chanSize)%nat then c <| buf := buf c ++ [e] |> else c.

Lemma trySend_spec e ch b :
  closed (chans b !!! ch) = false ->
  exists b', trySend e ch b = Some b' /\ subscribers b' = subscribers b /\ chNext b' = chNext b /\
    forall ch', chans b' !!! ch' = if decide (ch' = ch) then pushed e (chans b !!! ch) else chans b !!! ch'.
Proof.
  intros E. unfold trySend, pushed. rewrite E. case_bool_decide.
  - eexists. split; [reflexivity|]. simpl_fields_goal. split_and!; [done..|]. intros ch'.
    case_decide; subst; [by rewrite lookup_total_insert_eq|by rewrite lookup_total_insert_ne].
  - exists b. split_and!; [done..|]. intros ch'. case_decide; by subst.
Qed.

Lemma pushed_closed e c : closed (pushed e c) = closed c.
Proof. unfold pushed. case_bool_decide; by simpl_fields_goal. Qed.

Lemma pushed_size e c : (length (buf c) <= chanSize -> length (buf (pushed e c)) <= chanSize)%nat.
Proof.
  unfold pushed. case_bool_decide; simpl_fields_goal; [|done]. rewrite length_app. simpl. lia.
Qed.

Lemma sendAll_spec e ord b :
  NoDup ord -> (forall ch, ch ∈ ord -> closed (chans b !!! ch) = false) ->
  exists b', sendAll e ord b = Some b' /\ subscribers b' = subscribers b /\ chNext b' = chNext b /\
    forall ch, chans b' !!! ch = if decide (ch ∈ ord) then pushed e (chans b !!! ch) else chans b !!! ch.
Proof.
  revert b. induction ord as [|ch ord IH]; intros b Hn Hc.
  { exists b. split_and!; try done. }
  apply NoDup_cons in Hn as [Hch Hn].
  destruct (trySend_spec e ch b) as (b1 & E1 & Hs1 & Hx1 & H1); [apply Hc; by left|].
  destruct (IH b1 Hn) as (b2 & E2 & Hs2 & Hx2 & H2).
  { intros ch' Hin. rewrite H1. case_decide; [|apply Hc; by right].
    subst. rewrite pushed_closed. apply Hc. by left. }
  exists b2. cbn. rewrite E1. cbn. split_and!; [done|congruence..|].
  intros ch'. rewrite H2, H1. destruct (decide (ch' = ch)) as [->|Hne].
  - rewrite decide_False by done. rewrite decide_True; [done|by left].
  - apply decide_ext. rewrite elem_of_cons. tauto.
Qed.

Lemma Publish_spec now ord e s :
  BusInv s -> ord ≡ₚ elements (subscribers (bus s)) ->
  exists b', Publish now ord e (bus s) = Some b' /\ subscribers b' = subscribers (bus s) /\
    chNext b' = chNext (bus s) /\
    forall ch, chans b' !!! ch =
      if decide (ch ∈ subscribers (bus s)) then pushed (e <| evTimestamp := now |>) (chans (bus s) !!! ch)
      else chans (bus s) !!! ch.
Proof.
  intros [Ho _ _ _] Hp.
  assert (forall ch, ch ∈ ord <-> ch ∈ subscribers (bus s)) as Hin
    by (intros ch; by rewrite Hp, elem_of_elements).
  destruct (sendAll_spec (e <| evTimestamp := now |>) ord (bus s)) as (b' & E & Hs & Hx & Hc).
  - rewrite Hp. apply NoDup_elements.
  - intros ch Hch. apply Ho. left. by apply Hin.
  - exists b'. split_and!; [done..|]. intros ch. rewrite Hc. by apply decide_ext.
Qed.

Lemma receive_chans ch b ch' :
  chans (fst (receive ch b)) !!! ch' =
    if decide (ch' = ch) then (chans b !!! ch) <| buf := tail (buf (chans b !!! ch)) |>
    else chans b !!! ch'.
Proof.
  unfold receive. destruct (buf (chans b !!! ch)) as [|e rest] eqn:E; cbn [fst tail]; case_decide; subst.
  - by destruct (chans b !!! ch) eqn:E'; cbn in *; subst.
  - done.
  - simpl_fields_goal. by rewrite lookup_total_insert_eq.
  - simpl_fields_goal. by rewrite lookup_total_insert_ne.
Qed.

Lemma receive_rest ch b :
  subscribers (fst (receive ch b)) = subscribers b /\ chNext (fst (receive ch b)) = chNext b.
Proof. unfold receive. case_match; cbn [fst]; by simpl_fields_goal. Qed.

(** A permitted step never panics and keeps the invariant. *)
Lemma busStep_inv o s :
  BusInv s -> busOk o s -> exists s', busStep o s = Some s' /\ BusInv s'.
Proof.
  intros HI Ho. destruct o as [|ch|ch|now ord e|ch]; cbn [busStep busOk] in *.
  - eexists. split; [reflexivity|]. destruct HI as [H1 H2 H3 H4].
    unfold Subscribe. cbn [fst]. split; cbn [bus closing]; simpl_fields_goal.
    + intros ch Hch. destruct (decide (ch = chNext (bus s))) as [->|Hne].
      * by rewrite lookup_total_insert_eq.
      * rewrite lookup_total_insert_ne by done. apply H1. set_solver.
    + apply disjoint_union_l. split; [|done]. apply disjoint_singleton_l.
      intros Hc. specialize (H3 _ (or_intror Hc)). lia.
    + intros ch Hch. destruct (decide (ch = chNext (bus s))) as [->|Hne]; [lia|].
      enough (ch < chNext (bus s))%positive by lia. apply H3. set_solver.
    + intros ch. destruct (decide (ch = chNext (bus s))) as [->|Hne].
      * rewrite lookup_total_insert_eq. cbn. lia.
      * by rewrite lookup_total_insert_ne.
  - eexists. split; [reflexivity|]. destruct HI as [H1 H2 H3 H4].
    unfold unsubscribeDelete. split; cbn [bus closing]; simpl_fields_goal; [| | |done].
    + intros ch' Hch. apply H1. set_solver.
    + set_solver.
    + intros ch' Hch. apply H3. set_solver.
  - unfold closeChan. rewrite (bi_open s HI) by (by right). eexists. split; [reflexivity|].
    destruct HI as [H1 H2 H3 H4]. split; cbn [bus closing]; simpl_fields_goal.
    + intros ch' Hch. rewrite lookup_total_insert_ne by set_solver. apply H1. set_solver.
    + set_solver.
    + intros ch' Hch. apply H3. set_solver.
    + intros ch'. destruct (decide (ch' = ch)) as [->|Hne].
      * rewrite lookup_total_insert_eq. simpl_fields_goal. apply H4.
      * by rewrite lookup_total_insert_ne.
  - destruct (Publish_spec now ord e s HI Ho) as (b' & -> & Hs & Hx & Hc).
    eexists. split; [reflexivity|]. destruct HI as [H1 H2 H3 H4].
    split; cbn [bus closing]; rewrite ?Hs, ?Hx; [|done|done|].
    + intros ch Hch. rewrite Hc. case_decide; rewrite ?pushed_closed; by apply H1.
    + intros ch. rewrite Hc. case_decide; [apply pushed_size|]; apply H4.
  - eexists. split; [reflexivity|]. destruct HI as [H1 H2 H3 H4].
    destruct (receive_rest ch (bus s)) as [Hs Hx].
    split; cbn [bus closing]; rewrite ?Hs, ?Hx; [|done|done|].
    + intros ch' Hch. rewrite receive_chans. case_decide; simpl_fields_goal; [subst|]; by apply H1.
    + intros ch'. rewrite receive_chans. case_decide; simpl_fields_goal; [|apply H4].
      specialize (H4 ch). destruct (buf (chans (bus s) !!! ch)); simpl in *; lia.
Qed.

Lemma NewBus_inv : BusInv (mkClients NewBus ∅).
Proof. split; cbn; [set_solver..|]. intros ch. rewrite lookup_total_empty. cbn. lia. Qed.

Lemma busRun_inv os c r : busRun os c r -> BusInv c -> exists s, r = Some s /\ BusInv s.
Proof.
  induction 1 as [s|o os s s' r Ho E _ IH|o os s Ho E]; intros HI; [by exists s| |].
  - apply IH. destruct (busStep_inv o s HI Ho) as (s1 & E1 & HI1). congruence.
  - destruct (busStep_inv o s HI Ho) as (s1 & E1 & _). congruence.
Qed.

(** ** What one subscriber sees *)

(** The events it receives in a run, those dropped for it, and those published. *)

Fixpoint received (ch : positive) (os : list BusOp) (s : Clients) : list Event :=
  match os with
  | [] => []
  | o :: os =>
      (match o with
       | BReceive ch' => if decide (ch' = ch) then option_list (snd (receive ch (bus s))) else []
       | _ => [] end) ++
      match busStep o s with Some s' => received ch os s' | None => [] end
  end.

Fixpoint dropped (ch : positive) (os : list BusOp) (s : Clients) : list Event :=
  match os with
  | [] => []
  | o :: os =>
      (match o with
       | BPublish now _ e =>
           if decide (chanSize <= length (buf (chans (bus s) !!! ch)))%nat
           then [e <| evTimestamp := now |>] else []
       | _ => [] end) ++
      match busStep o s with Some s' => dropped ch os s' | None => [] end
  end.

Fixpoint published (os : list BusOp) : list Event :=
  match os with
  | [] => []
  | BPublish now _ e :: os => e <| evTimestamp := now |> :: published os
  | _ :: os => published os
  end.

Lemma busStep_subscriber ch o s s' :
  BusInv s -> busOk o s -> busStep o s = Some s' -> ch ∈ subscribers (bus s) -> o <> BDelete ch ->
  ch ∈ subscribers (bus s') /\
  buf (chans (bus s') !!! ch) =
    match o with
    | BPublish now _ e => buf (pushed (e <| evTimestamp := now |>) (chans (bus s) !!! ch))
    | BReceive ch' => if decide (ch' = ch) then tail (buf (chans (bus s) !!! ch)) else buf (chans (bus s) !!! ch)
    | _ => buf (chans (bus s) !!! ch)
    end.
Proof.
  intros HI Ho E Hch Hne. destruct o as [|c|c|now ord e|c]; cbn [busStep busOk] in *.
  - injection E as <-. unfold Subscribe. cbn [bus fst]. simpl_fields_goal. split; [set_solver|].
    rewrite lookup_total_insert_ne; [done|]. intros Heq.
    pose proof (bi_fresh s HI ch (or_introl Hch)). lia.
  - injection E as <-. unfold unsubscribeDelete. cbn [bus]. simpl_fields_goal. split; [set_solver|done].
  - unfold closeChan in E. case_match; [done|]. injection E as <-. cbn [bus]. simpl_fields_goal.
    split; [done|]. rewrite lookup_total_insert_ne; [done|]. intros ->. pose proof (bi_sep s HI). set_solver.
  - destruct (Publish_spec now ord e s HI Ho) as (b' & E' & Hs & _ & Hc). rewrite E' in E.
    injection E as <-. cbn [bus]. rewrite Hs. split; [done|]. by rewrite Hc, decide_True.
  - injection E as <-. cbn [bus]. destruct (receive_rest c (bus s)) as [-> _]. split; [done|].
    rewrite receive_chans. destruct (decide (ch = c)) as [->|Hcc].
    + rewrite decide_True by done. by simpl_fields_goal.
    + by rewrite decide_False.
Qed.

Lemma pushed_buf e c :
  buf (pushed e c) = if decide (chanSize <= length (buf c))%nat then buf c else buf c ++ [e].
Proof. unfold pushed. case_bool_decide; case_decide; simpl_fields_goal; (done || lia). Qed.

Lemma run_delivery os s s' ch :
  busRun os s (Some s') -> BusInv s -> ch ∈ subscribers (bus s) -> BDelete ch ∉ os ->
  let waiting := buf (chans (bus s) !!! ch) in
  let out := received ch os s ++ buf (chans (bus s') !!! ch) in
  out `sublist_of` waiting ++ published os /\
  (length out + length (dropped ch os s) = length waiting + length (published os))%nat /\
  (length waiting + length (published os) <= chanSize -> dropped ch os s = [])%nat.
Proof.
  cbv zeta. intros Hrun. remember (Some s') as r eqn:Er. revert s' Er.
  induction Hrun as [s|o os s s1 r Ho E _ IH|]; intros s' Er HI Hch Hn; [| |done].
  { injection Er as <-. cbn. rewrite app_nil_r. split; [done|]. split; [lia|done]. }
  apply not_elem_of_cons in Hn as [Hne Hn].
  destruct (busStep_subscriber ch o s s1) as [Hch1 Hb1]; [done..|congruence|].
  destruct (busStep_inv o s HI Ho) as (s1' & E' & HI1). rewrite E in E'. injection E' as <-.
  destruct (IH s' Er HI1 Hch1 Hn) as (IH1 & IH2 & IH3). clear IH.
  cbn [received dropped]. rewrite E. rewrite Hb1 in IH1, IH2, IH3. clear Hb1 E.
  destruct o as [|c|c|now ord e|c]; cbn [published app] in *; try (split_and!; done).
  - rewrite pushed_buf in IH1, IH2, IH3.
    generalize dependent (buf (chans (bus s) !!! ch)). intros b IH1 IH2 IH3. case_decide.
    + cbn [app length]. split_and!; [|lia|lia].
      etrans; [exact IH1|]. apply sublist_app; [done|]. by apply sublist_cons.
    + rewrite !length_app in *. cbn [app length] in *. split_and!; [|lia|intros; apply IH3; lia].
      by rewrite <- app_assoc in IH1.
  - case_decide as Hc; [subst c|by split_and!]. unfold receive.
    generalize dependent (buf (chans (bus s) !!! ch)). intros b IH1 IH2 IH3.
    destruct b as [|e b]; simpl in *; [by split_and!|].
    split_and!; [by apply sublist_skip|lia|intros; apply IH3; lia].
Qed.

(** ** Properties *)

(** However the clients' steps interleave, a publish never sends on a
    closed channel and no channel is closed twice, so the bus never panics: an
    [Unsubscribe] takes the channel out of the map before it closes it, and a
    publish sends to channels of the map only. No subscriber's buffer exceeds 512
    events. *)
Theorem bus_never_panics (os : list BusOp) (r : option Clients)
  (H : busRun os (mkClients NewBus ∅) r) :
  exists s, r = Some s /\
    (forall ch, ch ∈ subscribers (bus s) -> closed (chans (bus s) !!! ch) = false) /\
    (forall ch, (length (buf (chans (bus s) !!! ch)) <= 512)%nat).
Proof.
  destruct (busRun_inv _ _ _ H NewBus_inv) as (s & -> & HI). exists s. destruct HI. eauto.
Qed.

Definition demoEvent : Event := mkEvent EventTaskQueued 0 [("task_id", VString "a")].

Definition demoRun : option Clients :=
  s1 ← busStep BSubscribe (mkClients NewBus ∅);
  s2 ← busStep (BPublish 5 [1%positive] demoEvent) s1;
  s3 ← busStep (BDelete 1) s2; busStep (BClose 1) s3.

Ltac run_bus :=
  repeat first
    [ apply run_nil
    | eapply run_step; [apply (bool_decide_unpack _); vm_compute; exact I | reflexivity |] ].

Lemma bus_never_panics_witness :
  exists s, demoRun = Some s /\ (forall ch, (length (buf (chans (bus s) !!! ch)) <= 512)%nat).
Proof.
  destruct (bus_never_panics [BSubscribe; BPublish 5 [1%positive] demoEvent; BDelete 1; BClose 1] demoRun)
    as (s & Hs & _ & Hb); [unfold demoRun; run_bus|].
  exists s. split; [exact Hs | exact Hb].
Defined.


