(* ===== verification/NodeServer.v ===== *)
(** * The node service: [internal/server/node_server.go]

    [Node] is the state that the handlers share: the scheduler and the task
    memory, the store, the breakers, the event bus, the worker registry and the
    cancel functions of the open streams.  A unary handler is one function on it.
    [AssignTask] is its opening, one function per round of its dispatch loop, and
    its deferred cleanup.  Calls of prometheus and of gRPC, and iteration orders,
    come in as arguments or are recorded: a metric as an entry of a log, a sent
    assignment as a result.  Log calls are left out. *)

From stdpp Require Import pretty.
From S2P Require Import Prelude GoTime Task Scheduler CircuitBreaker Config Store Events.

Open Scope string_scope.
Open Scope list_scope.
Open Scope Z_scope.

(** ** Messages and worker states ([api/node.proto]) *)

Inductive WorkerState :=
| WORKER_UNKNOWN | WORKER_ACTIVE | WORKER_SUSPECT | WORKER_DEAD | WORKER_DRAINING.

#[export] Instance WorkerState_eq_dec : EqDecision WorkerState.
Proof. solve_decision. Defined.

Inductive ApiTaskState :=
| TASK_UNKNOWN | TASK_QUEUED | TASK_ASSIGNED | TASK_RUNNING | TASK_COMPLETED | TASK_FAILED
| TASK_RETRYING | TASK_DEAD.

#[export] Instance ApiTaskState_eq_dec : EqDecision ApiTaskState.
Proof. solve_decision. Defined.

Record WorkerRegistration := mkReg { regWorkerId : string; regHostname : string; regStartTime : Time }.

Record Heartbeat := mkHeartbeat { hbWorkerId : string; hbActiveTasks : Z }.

Record TaskReport := mkReport {
  rpTaskId : string; rpWorkerId : string; rpState : ApiTaskState; rpOutput : string;
  rpErrorMessage : string; rpStartedAt : option Time; rpCompletedAt : option Time; rpExitCode : Z
}.

Record TaskAssignment := mkAssignment {
  asTaskId : string; asScript : string; asAssignedAt : Time; asAttempt : Z; asTimeoutSeconds : Z;
  asTaskType : TaskType; asContent : string; asLanguage : string; asEntrypoint : string
}.

(** ** State *)

Record WorkerInfo := mkWorker {
  wkID : string;
  wkHostname : string;
  wkState : WorkerState;
  wkStartTime : Time;
  wkLastHeartbeat : Time;
  wkActiveTasks : Z                (* int32 *)
}.

#[export] Instance WorkerInfo_struct : Struct WorkerInfo := fun w =>
  mkWorker (wkID w) (wkHostname w) (wkState w) (wkStartTime w) (wkLastHeartbeat w) (wkActiveTasks w).

#[export] Instance WorkerInfo_eq_dec : EqDecision WorkerInfo.
Proof. solve_decision. Defined.

(** Updates of the collectors of [internal/metrics/metrics.go]. *)

Inductive Metric :=
| IncTasksQueued | SetTaskQueueDepth (n : Z) | IncHeartbeatsReceived
| SetWorkerTasksActive (worker : string) (n : Z) | IncTasksCompleted (status : string)
| IncTasksRetried | ObserveTaskDuration (d : Duration) | IncWorkersConnected | DecWorkersConnected
| IncTasksAssigned.

(** A stream's context, known by its cancel function; the streams a cancel
    function was called for are [cancelled]. *)

Abbreviation streamId := positive (only parsing).

Record Node (S : Type) := mkNode {
  nWorld : World;
  nStore : option S;
  nBreakers : Registry;
  nBus : option Bus;
  nWorkers : gmap string WorkerInfo;
  nStreams : gmap string streamId;
  nCancelled : gset streamId;
  nCfg : Config;
  nMetrics : list Metric
}.

Arguments mkNode {S}.
Arguments nWorld {S}. Arguments nStore {S}. Arguments nBreakers {S}. Arguments nBus {S}.
Arguments nWorkers {S}. Arguments nStreams {S}. Arguments nCancelled {S}. Arguments nCfg {S}.
Arguments nMetrics {S}.

#[export] Instance Node_struct S : Struct (Node S) := fun n =>
  mkNode (nWorld n) (nStore n) (nBreakers n) (nBus n) (nWorkers n) (nStreams n) (nCancelled n)
    (nCfg n) (nMetrics n).

Section handlers.
Context {S : Type} `{TaskStore S}.
Implicit Types n : Node S.

Definition NewNodeServer (cfg : Config) (taskStore : option S) (eventBus : option Bus) : Node S := {|
  nWorld := mkWorld ∅ (NewScheduler (mulDuration 5 Minute));
  nStore := taskStore;
  nBreakers := NewRegistry 5 2 (mulDuration 30 Second);
  nBus := eventBus;
  nWorkers := ∅; nStreams := ∅; nCancelled := ∅; nCfg := cfg; nMetrics := []
|}.

(** ** Shorthands *)

Definition emit (x : Metric) n : Node S := n <| nMetrics := nMetrics n ++ [x] |>.

Definition withWorld (f : World -> World) n : Node S := n <| nWorld := f (nWorld n) |>.

(** [if s.Store != nil { s.Store.Save(t) }]: the error is ignored. *)

Definition saveTask (t : loc) n : Node S :=
  match nStore n with
  | None => n
  | Some s => n <| nStore := Some (fst (Save (mem (nWorld n)) t s)) |>
  end.

(** A call of a method of the breaker that [CircuitBreakers.Get] returned. *)

Definition withBreaker (f : CircuitBreaker -> CircuitBreaker) (workerID : string) n : Node S :=
  let '(r, cb) := Get workerID (nBreakers n) in n <| nBreakers := onBreaker f cb r |>.

(** The outside of an event: the time it is published and the order in which
    the bus visits its subscribers. *)

Record PubEnv := mkPubEnv { pubNow : Time; pubOrd : list positive }.

(** A panic of the bus would end the process; [Events.bus_never_panics] excludes it. *)

Definition publishEvent (env : PubEnv) (eventType : EventType) (data : list (string * Value)) n : Node S :=
  match nBus n with
  | None => n
  | Some b =>
      match Publish (pubNow env) (pubOrd env) (mkEvent eventType zeroTime data) b with
      | Some b => n <| nBus := Some b |>
      | None => n
      end
  end.

(** ** Submission *)

(** The allocation of a new task at the fresh location [p]. *)

Definition allocTask (p : loc) (t : Task) n : Node S :=
  withWorld (fun w => w <| mem := <[p := t]> (mem w) |>) n.

Definition enqueue (t : loc) n : Node S :=
  let n := saveTask t n in
  let n := withWorld (Enqueue t) n in
  let n := emit IncTasksQueued n in
  emit (SetTaskQueueDepth (QueueDepth (SchedStats (nWorld n)))) n.

Definition EnqueueTask (now : Time) (p : loc) (id script : string) n : Node S :=
  enqueue p (allocTask p (New now id script) n).

Definition EnqueueInlineTask (now : Time) (p : loc) (id content language : string) n : Node S :=
  enqueue p (allocTask p (NewInline now id content language) n).

Definition EnqueueArchiveTask (now : Time) (p : loc) (id content entrypoint language : string) n
    : Node S :=
  enqueue p (allocTask p (NewArchive now id content entrypoint language) n).

Definition EnqueueInlineTaskDirect (t : loc) n : Node S := enqueue t n.

(** ** Heartbeats *)

Definition SendHeartbeat (now : Time) (hb : Heartbeat) n : Node S :=
  let n := emit IncHeartbeatsReceived n in
  match nWorkers n !! hbWorkerId hb with
  | None => n
  | Some w =>
      let w := w <| wkLastHeartbeat := now |> <| wkActiveTasks := hbActiveTasks hb |> in
      let n := emit (SetWorkerTasksActive (hbWorkerId hb) (hbActiveTasks hb)) n in
      let w := if decide (wkState w = WORKER_SUSPECT) then w <| wkState := WORKER_ACTIVE |> else w in
      n <| nWorkers := <[hbWorkerId hb := w]> (nWorkers n) |>
  end.

(** ** Reports *)

Record ReportEnv := mkReportEnv {
  reNow : Time;          (* in t.Complete *)
  reFail : FailEnv;      (* in t.Fail and t.ScheduleRetry *)
  reBreaker : Time;      (* in cb.RecordFailure *)
  rePub : PubEnv
}.

(** The state of the task that [Complete] or [Fail] returned, if it is not nil. *)

Definition returnedState (t : option loc) n : option State :=
  (fun p => tState (mem (nWorld n) !!! p)) <$> t.

Definition saveReturned (t : option loc) n : Node S :=
  match t with Some t => saveTask t n | None => n end.

Definition reportCompleted (env : ReportEnv) (r : TaskReport) (cb : positive) n : Node S :=
  let '(w, t) := SchedComplete (reNow env) (rpTaskId r) (rpOutput r) (rpExitCode r) (nWorld n) in
  let n := n <| nWorld := w |> in
  let n := saveReturned t n in
  let n := n <| nBreakers := onBreaker RecordSuccess cb (nBreakers n) |> in
  let n := emit (IncTasksCompleted "completed") n in
  publishEvent (rePub env) EventTaskCompleted
    [("task_id", VString (rpTaskId r)); ("worker_id", VString (rpWorkerId r));
     ("exit_code", VInt (rpExitCode r))] n.

Definition failureEvent (st : option State) : EventType :=
  if decide (st = Some StateRetrying) then EventTaskRetrying
  else if decide (st = Some StateDead) then EventTaskDead
  else EventTaskFailed.

Definition reportFailed (env : ReportEnv) (r : TaskReport) (cb : positive) n : Node S :=
  let '(w, t) := SchedFail (reFail env) (rpTaskId r) (rpErrorMessage r) (rpExitCode r) (nWorld n) in
  let n := n <| nWorld := w |> in
  let n := saveReturned t n in
  let n := n <| nBreakers := onBreaker (RecordFailure (reBreaker env)) cb (nBreakers n) |> in
  let n := emit (IncTasksCompleted "failed") n in
  let n := if decide (returnedState t n = Some StateRetrying) then emit IncTasksRetried n else n in
  publishEvent (rePub env) (failureEvent (returnedState t n))
    [("task_id", VString (rpTaskId r)); ("worker_id", VString (rpWorkerId r));
     ("error", VString (rpErrorMessage r)); ("exit_code", VInt (rpExitCode r))] n.

Definition ReportTaskStatus (env : ReportEnv) (r : TaskReport) n : Node S :=
  let '(regs, cb) := Get (rpWorkerId r) (nBreakers n) in
  let n := n <| nBreakers := regs |> in
  let n := if decide (rpState r = TASK_COMPLETED) then reportCompleted env r cb n
           else reportFailed env r cb n in
  match rpStartedAt r, rpCompletedAt r with
  | Some started, Some completed => emit (ObserveTaskDuration (Sub completed started)) n
  | _, _ => n
  end.

(** ** The assignment stream *)

(** Up to the dispatch loop: [sid] is the new stream. *)

Definition openStream (now : Time) (env : PubEnv) (reg : WorkerRegistration) (sid : streamId) n
    : Node S :=
  let n := n <| nStreams := <[regWorkerId reg := sid]> (nStreams n) |> in
  let n := n <| nWorkers := <[regWorkerId reg := mkWorker (regWorkerId reg) (regHostname reg)
                   WORKER_ACTIVE (regStartTime reg) now 0]> (nWorkers n) |> in
  let n := emit IncWorkersConnected n in
  publishEvent env EventWorkerConnected
    [("worker_id", VString (regWorkerId reg)); ("hostname", VString (regHostname reg))] n.

(** A round of the loop, from the moment the notification has been received;
    [dsSend] is the error of [stream.Send]. *)

Record DispatchEnv := mkDispatchEnv {
  dsAllow : Time; dsAssign : Time; dsStart : Time; dsSentAt : Time; dsSend : error; dsPub : PubEnv
}.

Inductive Round := RoundContinue | RoundSent (a : TaskAssignment) | RoundFailed (err : string).

Definition assignment (now : Time) (t : Task) : TaskAssignment := {|
  asTaskId := tID t; asScript := tScript t; asAssignedAt := now; asAttempt := tAttempt t;
  asTimeoutSeconds := tTimeoutSec t; asTaskType := tType t; asContent := tContent t;
  asLanguage := tLanguage t; asEntrypoint := tEntrypoint t
|}.

(** After a failed send: two assignments and [Enqueue]; the task stays in the
    in-flight map. *)

Definition sendFailed (t : loc) n : Node S := withWorld (fun w => Enqueue t (withTask release t w)) n.

Definition dispatchTask (env : DispatchEnv) (workerID : string) (t : loc) n : Node S * Round :=
  let n := withWorld (withTask (fun tk => fst (Assign (dsAssign env) workerID tk)) t) n in
  let n := withWorld (withTask (fun tk => fst (Start (dsStart env) tk)) t) n in
  let n := saveTask t n in
  let n := emit IncTasksAssigned n in
  let n := emit (SetTaskQueueDepth (QueueDepth (SchedStats (nWorld n)))) n in
  let a := assignment (dsSentAt env) (mem (nWorld n) !!! t) in
  match dsSend env with
  | Some err => (sendFailed t n, RoundFailed err)
  | None =>
      let tk := mem (nWorld n) !!! t in
      (publishEvent (dsPub env) EventTaskAssigned
         [("task_id", VString (tID tk)); ("worker_id", VString workerID);
          ("attempt", VString (pretty (tAttempt tk)))] n, RoundSent a)
  end.

Definition dispatchRound (env : DispatchEnv) (workerID : string) n : Node S * Round :=
  let '(regs, cb) := Get workerID (nBreakers n) in
  let '(c, ok) := Allow (dsAllow env) (cbMem regs !!! cb) in
  let n := n <| nBreakers := onBreaker (fun _ => c) cb regs |> in
  if negb ok then (withWorld Notify n, RoundContinue)
  else
    let '(w, o) := Dequeue (nWorld n) in
    let n := n <| nWorld := w |> in
    match o with
    | None => (n, RoundContinue)
    | Some t => dispatchTask env workerID t n
    end.

(** The deferred functions, last one first. *)

Definition closeStream (env : PubEnv) (ord : list (string * loc)) (workerID : string) (sid : streamId) n
    : Node S :=
  let n := n <| nStreams := delete workerID (nStreams n) |> in
  let n := emit DecWorkersConnected n in
  let n := withWorld (fun w => fst (RequeueFromWorker workerID ord w)) n in
  let n := n <| nWorkers := alter (fun w => w <| wkState := WORKER_DEAD |>) workerID (nWorkers n) |> in
  let n := publishEvent env EventWorkerDisconnected [("worker_id", VString workerID)] n in
  n <| nCancelled := {[sid]} ∪ nCancelled n |>.

(** ** Health checks *)

Section health.

(** The text of a duration, for the event. *)
Variable durationString : Duration -> string.

(** One worker in the loop of [checkWorkerHealth]. *)

Definition checkWorker (now : Time) (env : PubEnv) (id : string) n : Node S :=
  match nWorkers n !! id with
  | None => n
  | Some w =>
      if decide (wkState w = WORKER_DEAD \/ wkState w = WORKER_DRAINING) then n
      else
        let sinceLastHB := Sub now (wkLastHeartbeat w) in
        let data := [("worker_id", VString id); ("silent_for", VString (durationString sinceLastHB))] in
        if (WorkerDeadTimeout (nCfg n) <? sinceLastHB) && bool_decide (wkState w = WORKER_SUSPECT) then
          publishEvent env EventWorkerDead data
            (n <| nWorkers := <[id := w <| wkState := WORKER_DEAD |>]> (nWorkers n) |>)
        else if (HeartbeatTimeout (nCfg n) <? sinceLastHB) && bool_decide (wkState w = WORKER_ACTIVE) then
          publishEvent env EventWorkerSuspect data
            (n <| nWorkers := <[id := w <| wkState := WORKER_SUSPECT |>]> (nWorkers n) |>)
        else n
  end.

Definition checkWorkerHealth (now : Time) (env : PubEnv) (ord : list string) n : Node S :=
  foldl (fun n id => checkWorker now env id n) n ord.

(** A tick of one of the three tickers of [StartHealthChecker]. *)

Inductive Tick :=
| HealthTick (now : Time) (env : PubEnv) (ord : list string)
| RetryTick (now : Time)
| TimeoutTick (now : Time) (envs : nat -> FailEnv) (ord : list (string * loc)).

Definition onTick (t : Tick) n : Node S :=
  match t with
  | HealthTick now env ord => checkWorkerHealth now env ord n
  | RetryTick now => withWorld (fun w => fst (ProcessRetries now w)) n
  | TimeoutTick now envs ord => withWorld (fun w => fst (CheckTimeouts now envs ord w)) n
  end.

End health.

Definition GetWorkers (ord : list string) n : list WorkerInfo :=
  omap (fun id => nWorkers n !! id) ord.

Definition DisconnectWorker (workerID : string) n : Node S * bool :=
  match nStreams n !! workerID with
  | None => (n, false)
  | Some sid => (n <| nCancelled := {[sid]} ∪ nCancelled n |>, true)
  end.

End handlers.
