(* ===== verification/NodeFacts.v ===== *)
(** * The node service's lemmas and the properties of its handlers *)

From stdpp Require Import pretty.
From S2P Require Import Prelude GoTime Task Scheduler SchedulerFacts SchedulerProps.
From S2P Require Import CircuitBreaker Config Store Events NodeServer.

Open Scope string_scope.
Open Scope list_scope.
Open Scope Z_scope.

(** ** What the helpers leave alone *)

Section proj.
Context {S : Type} `{TaskStore S}.
Implicit Types n : Node S.

(** Equal but for the metrics and the event bus. *)

Definition sameCore n n' : Prop :=
  nWorld n' = nWorld n /\ nStore n' = nStore n /\ nBreakers n' = nBreakers n /\
  nWorkers n' = nWorkers n /\ nStreams n' = nStreams n /\ nCancelled n' = nCancelled n /\
  nCfg n' = nCfg n.

Lemma publishEvent_core env ty data n :
  sameCore n (publishEvent env ty data n) /\ nMetrics (publishEvent env ty data n) = nMetrics n.
Proof.
  unfold publishEvent, sameCore. destruct (nBus n) as [b|]; [|done].
  destruct (Publish _ _ _ b); [|done]. by simpl_fields_goal.
Qed.

Lemma emit_core x n : sameCore n (emit x n) /\ nMetrics (emit x n) = nMetrics n ++ [x].
Proof. unfold emit, sameCore. by simpl_fields_goal. Qed.

Lemma saveTask_fields t n :
  nWorld (saveTask t n) = nWorld n /\
  nStore (saveTask t n) = (fun s => fst (Save (mem (nWorld n)) t s)) <$> nStore n /\
  nBreakers (saveTask t n) = nBreakers n /\ nWorkers (saveTask t n) = nWorkers n /\
  nStreams (saveTask t n) = nStreams n /\ nCancelled (saveTask t n) = nCancelled n /\
  nCfg (saveTask t n) = nCfg n /\ nMetrics (saveTask t n) = nMetrics n /\ nBus (saveTask t n) = nBus n.
Proof. unfold saveTask. destruct (nStore n) eqn:E; simpl_fields_goal; by rewrite ?E. Qed.

Lemma withWorld_fields f n :
  nWorld (withWorld f n) = f (nWorld n) /\ nStore (withWorld f n) = nStore n /\
  nBreakers (withWorld f n) = nBreakers n /\ nWorkers (withWorld f n) = nWorkers n /\
  nStreams (withWorld f n) = nStreams n /\ nCancelled (withWorld f n) = nCancelled n /\
  nCfg (withWorld f n) = nCfg n /\ nMetrics (withWorld f n) = nMetrics n /\ nBus (withWorld f n) = nBus n.
Proof. unfold withWorld. by simpl_fields_goal. Qed.

(** The projections as rewriting rules. *)

Lemma nWorld_publish env ty d n : nWorld (publishEvent env ty d n) = nWorld n.
Proof. apply publishEvent_core. Qed.
Lemma nStore_publish env ty d n : nStore (publishEvent env ty d n) = nStore n.
Proof. apply publishEvent_core. Qed.
Lemma nBreakers_publish env ty d n : nBreakers (publishEvent env ty d n) = nBreakers n.
Proof. apply publishEvent_core. Qed.
Lemma nWorkers_publish env ty d n : nWorkers (publishEvent env ty d n) = nWorkers n.
Proof. apply publishEvent_core. Qed.
Lemma nStreams_publish env ty d n : nStreams (publishEvent env ty d n) = nStreams n.
Proof. apply publishEvent_core. Qed.
Lemma nCancelled_publish env ty d n : nCancelled (publishEvent env ty d n) = nCancelled n.
Proof. apply publishEvent_core. Qed.
Lemma nCfg_publish env ty d n : nCfg (publishEvent env ty d n) = nCfg n.
Proof. apply publishEvent_core. Qed.
Lemma nMetrics_publish env ty d n : nMetrics (publishEvent env ty d n) = nMetrics n.
Proof. apply publishEvent_core. Qed.

Lemma nWorld_emit x n : nWorld (emit x n) = nWorld n.
Proof. apply emit_core. Qed.
Lemma nStore_emit x n : nStore (emit x n) = nStore n.
Proof. apply emit_core. Qed.
Lemma nBreakers_emit x n : nBreakers (emit x n) = nBreakers n.
Proof. apply emit_core. Qed.
Lemma nWorkers_emit x n : nWorkers (emit x n) = nWorkers n.
Proof. apply emit_core. Qed.
Lemma nStreams_emit x n : nStreams (emit x n) = nStreams n.
Proof. apply emit_core. Qed.
Lemma nCancelled_emit x n : nCancelled (emit x n) = nCancelled n.
Proof. apply emit_core. Qed.
Lemma nCfg_emit x n : nCfg (emit x n) = nCfg n.
Proof. apply emit_core. Qed.
Lemma nMetrics_emit x n : nMetrics (emit x n) = nMetrics n ++ [x].
Proof. apply emit_core. Qed.

Lemma nWorld_save t n : nWorld (saveTask t n) = nWorld n.
Proof. apply saveTask_fields. Qed.
Lemma nStore_save t n : nStore (saveTask t n) = (fun s => fst (Save (mem (nWorld n)) t s)) <$> nStore n.
Proof. apply saveTask_fields. Qed.
Lemma nBreakers_save t n : nBreakers (saveTask t n) = nBreakers n.
Proof. apply saveTask_fields. Qed.
Lemma nWorkers_save t n : nWorkers (saveTask t n) = nWorkers n.
Proof. apply saveTask_fields. Qed.
Lemma nStreams_save t n : nStreams (saveTask t n) = nStreams n.
Proof. apply saveTask_fields. Qed.
Lemma nMetrics_save t n : nMetrics (saveTask t n) = nMetrics n.
Proof. apply saveTask_fields. Qed.

Lemma nWorld_world f n : nWorld (withWorld f n) = f (nWorld n).
Proof. apply withWorld_fields. Qed.
Lemma nStore_world f n : nStore (withWorld f n) = nStore n.
Proof. apply withWorld_fields. Qed.
Lemma nBreakers_world f n : nBreakers (withWorld f n) = nBreakers n.
Proof. apply withWorld_fields. Qed.
Lemma nWorkers_world f n : nWorkers (withWorld f n) = nWorkers n.
Proof. apply withWorld_fields. Qed.
Lemma nStreams_world f n : nStreams (withWorld f n) = nStreams n.
Proof. apply withWorld_fields. Qed.
Lemma nCancelled_world f n : nCancelled (withWorld f n) = nCancelled n.
Proof. apply withWorld_fields. Qed.
Lemma nMetrics_world f n : nMetrics (withWorld f n) = nMetrics n.
Proof. apply withWorld_fields. Qed.

Lemma nBus_emit x n : nBus (emit x n) = nBus n.
Proof. unfold emit. by simpl_fields_goal. Qed.
Lemma nBus_save t n : nBus (saveTask t n) = nBus n.
Proof. apply saveTask_fields. Qed.
Lemma nBus_world f n : nBus (withWorld f n) = nBus n.
Proof. apply withWorld_fields. Qed.

(** What the subscribers get; without a bus, nothing. *)
Definition announced (env : PubEnv) (ty : EventType) (data : list (string * Value)) (b : option Bus)
    : option Bus :=
  (fun b => default b (Publish (pubNow env) (pubOrd env) (mkEvent ty zeroTime data) b)) <$> b.

Lemma nBus_publish env ty d n : nBus (publishEvent env ty d n) = announced env ty d (nBus n).
Proof.
  unfold publishEvent, announced. destruct (nBus n) as [b|] eqn:E; [|done]. cbn.
  destruct (Publish _ _ _ b); [by simpl_fields_goal|done].
Qed.

End proj.

Create Rewrite HintDb node.

#[export] Hint Rewrite @nWorld_publish @nStore_publish @nBreakers_publish @nWorkers_publish
  @nStreams_publish @nCancelled_publish @nCfg_publish @nMetrics_publish @nWorld_emit @nStore_emit
  @nBreakers_emit @nWorkers_emit @nStreams_emit @nCancelled_emit @nCfg_emit @nMetrics_emit
  @nWorld_save @nStore_save @nBreakers_save @nWorkers_save @nStreams_save @nMetrics_save
  @nWorld_world @nStore_world @nBreakers_world @nWorkers_world @nStreams_world @nCancelled_world
  @nMetrics_world @nBus_emit @nBus_save @nBus_world @nBus_publish : node.

(** Compute the components of a node after the handlers' steps. *)
Ltac node := repeat (progress (autorewrite with node; simpl_fields_goal)).

(** A call through the pointer that [Get] returned. *)
Lemma breaker_call f id r :
  let '(r', p) := Get id r in
  cbMem r' !!! p = default (NewCircuitBreaker id (rFailureThreshold r) (rSuccessThreshold r) (rTimeout r))
    (breakerOf id r) /\
  breakerOf id (onBreaker f p r') = Some (f (cbMem r' !!! p)).
Proof.
  unfold Get, getFast, getSlow, breakerOf, onBreaker. destruct (breakers r !! id) as [p|] eqn:E.
  - split; [done|]. simpl_fields_goal. rewrite E. cbn. by rewrite lookup_total_insert_eq.
  - simpl_fields_goal. split; [by rewrite lookup_total_insert_eq|].
    rewrite lookup_insert_eq. cbn. by rewrite !lookup_total_insert_eq.
Qed.

(** ** The worker registry *)

Section workers.
Context {S : Type} `{TaskStore S}.
Implicit Types n : Node S.

Lemma SendHeartbeat_workers now hb n id :
  nWorkers (SendHeartbeat now hb n) !! id =
    (fun w => if decide (id = hbWorkerId hb) then
      let w := w <| wkLastHeartbeat := now |> <| wkActiveTasks := hbActiveTasks hb |> in
      if decide (wkState w = WORKER_SUSPECT) then w <| wkState := WORKER_ACTIVE |> else w
    else w) <$> nWorkers n !! id.
Proof.
  unfold SendHeartbeat. node. destruct (nWorkers n !! hbWorkerId hb) as [w|] eqn:E; node.
  - destruct (decide (id = hbWorkerId hb)) as [->|Hne].
    + rewrite lookup_insert_eq, E. cbn. by simpl_fields_goal.
    + rewrite lookup_insert_ne by done. by destruct (nWorkers n !! id).
  - destruct (decide (id = hbWorkerId hb)) as [->|Hne]; [by rewrite E|].
    by destruct (nWorkers n !! id).
Qed.

Lemma heartbeat_dead now hb n id :
  wkState <$> nWorkers n !! id = Some WORKER_DEAD ->
  wkState <$> nWorkers (SendHeartbeat now hb n) !! id = Some WORKER_DEAD.
Proof.
  rewrite SendHeartbeat_workers. destruct (nWorkers n !! id) as [w|]; cbn; [|done].
  intros [= E]. case_decide; [|by rewrite E]. simpl_fields_goal. rewrite E.
  rewrite decide_False by done. simpl_fields_goal. by rewrite E.
Qed.

(** The state of a worker that has been silent for [silence] after a health check. *)

Definition nextHealth (cfg : Config) (silence : Duration) (st : WorkerState) : WorkerState :=
  match st with
  | WORKER_SUSPECT => if WorkerDeadTimeout cfg <? silence then WORKER_DEAD else WORKER_SUSPECT
  | WORKER_ACTIVE => if HeartbeatTimeout cfg <? silence then WORKER_SUSPECT else WORKER_ACTIVE
  | _ => st
  end.

Definition checkedWorker (cfg : Config) (now : Time) (w : WorkerInfo) : WorkerInfo :=
  w <| wkState := nextHealth cfg (Sub now (wkLastHeartbeat w)) (wkState w) |>.

Lemma checkWorker_fields ds now env id n :
  let n' := checkWorker ds now env id n in
  nWorkers n' = alter (checkedWorker (nCfg n) now) id (nWorkers n) /\ nWorld n' = nWorld n /\
  nStore n' = nStore n /\ nStreams n' = nStreams n /\ nCfg n' = nCfg n.
Proof.
  intros n'. subst n'. unfold checkWorker. destruct (nWorkers n !! id) as [w|] eqn:E.
  2:{ rewrite alter_id; [done|]. intros x Hx. congruence. }
  assert (forall w', checkedWorker (nCfg n) now w = w' ->
    <[id := w']> (nWorkers n) = alter (checkedWorker (nCfg n) now) id (nWorkers n)) as Halter.
  { intros w' <-. apply map_eq. intros i. destruct (decide (i = id)) as [->|Hne].
    - by rewrite lookup_insert_eq, lookup_alter_eq, E.
    - by rewrite lookup_insert_ne, lookup_alter_ne. }
  assert (checkedWorker (nCfg n) now w = w -> nWorkers n = alter (checkedWorker (nCfg n) now) id (nWorkers n))
    as Hsame by (intros Hc; rewrite <- (Halter w Hc); by rewrite insert_id).
  unfold checkedWorker at 1, nextHealth in Halter. unfold checkedWorker at 1, nextHealth in Hsame.
  cbv zeta.
  destruct (WorkerDeadTimeout (nCfg n) <? Sub now (wkLastHeartbeat w)),
    (HeartbeatTimeout (nCfg n) <? Sub now (wkLastHeartbeat w)), (wkState w) eqn:Est;
    cbn [andb]; case_decide as Hd;
    try (destruct Hd; discriminate); try (exfalso; apply Hd; by (left + right)); clear Hd;
    repeat case_bool_decide; try congruence; node; (split; [|done]);
    first [apply Halter; reflexivity | apply Hsame; destruct w; cbn in *; by subst].
Qed.

Lemma checkWorkerHealth_fields ds now env ord n :
  NoDup ord ->
  let n' := checkWorkerHealth ds now env ord n in
  (forall id, nWorkers n' !! id =
    if decide (id ∈ ord) then checkedWorker (nCfg n) now <$> nWorkers n !! id else nWorkers n !! id) /\
  nWorld n' = nWorld n /\ nStore n' = nStore n /\ nStreams n' = nStreams n /\ nCfg n' = nCfg n.
Proof.
  unfold checkWorkerHealth. revert n. induction ord as [|i ord IH]; intros n Hn; [done|].
  apply NoDup_cons in Hn as [Hi Hn]. cbn [foldl].
  destruct (checkWorker_fields ds now env i n) as (Hw & Hwd & Hs & Hst & Hc).
  destruct (IH (checkWorker ds now env i n) Hn) as (IHw & IHwd & IHs & IHst & IHc).
  split_and!; [|congruence..]. intros id. rewrite IHw, Hw, Hc.
  destruct (decide (id = i)) as [->|Hne].
  - rewrite decide_False by done. rewrite decide_True by (by left). by rewrite lookup_alter_eq.
  - rewrite lookup_alter_ne by done. apply decide_ext. rewrite elem_of_cons. tauto.
Qed.

End workers.

(** ** Properties *)

Section handlers.
Context {S : Type} `{TaskStore S}.
Implicit Types n : Node S.

(** The breaker that a call for the worker finds or creates. *)
Definition workerBreaker (id : string) (r : Registry) : CircuitBreaker :=
  default (NewCircuitBreaker id (rFailureThreshold r) (rSuccessThreshold r) (rTimeout r)) (breakerOf id r).

(** Claim C13: the report of a completed execution takes the running task out of
    flight, completes it with the reported output and exit code, counts it, saves
    its final state, counts a success for the worker's breaker and announces it. *)
Theorem ReportTaskStatus_completed (env : ReportEnv) (r : TaskReport) n (t : loc)
  (Hs : rpState r = TASK_COMPLETED) (Ht : inFlight (sched (nWorld n)) !! rpTaskId r = Some t)
  (Hrun : tState (mem (nWorld n) !!! t) = StateRunning) :
  let n' := ReportTaskStatus env r n in
  let s := sched (nWorld n) in let s' := sched (nWorld n') in
  mem (nWorld n') !!! t = (mem (nWorld n) !!! t) <| tState := StateCompleted |>
    <| tOutput := rpOutput r |> <| tExitCode := rpExitCode r |> <| tCompletedAt := reNow env |> /\
  inFlight s' = delete (rpTaskId r) (inFlight s) /\
  totalCompleted s' = int64 (totalCompleted s + 1) /\ last (completed s') = Some t /\
  queue s' = queue s /\ retryQueue s' = retryQueue s /\ deadLetter s' = deadLetter s /\
  nStore n' = (fun st => fst (Save (mem (nWorld n')) t st)) <$> nStore n /\
  breakerOf (rpWorkerId r) (nBreakers n') =
    Some (RecordSuccess (workerBreaker (rpWorkerId r) (nBreakers n))) /\
  nBus n' = announced (rePub env) EventTaskCompleted
    [("task_id", VString (rpTaskId r)); ("worker_id", VString (rpWorkerId r));
     ("exit_code", VInt (rpExitCode r))] (nBus n).
Proof.
  intros n' s s'.
  pose proof (breaker_call RecordSuccess (rpWorkerId r) (nBreakers n)) as Hb.
  subst n' s s'. unfold ReportTaskStatus.
  destruct (Get (rpWorkerId r) (nBreakers n)) as [regs cb]. destruct Hb as [Hb1 Hb2].
  rewrite decide_True by done. unfold reportCompleted. simpl_fields_goal.
  destruct (SchedComplete_known (reNow env) (rpTaskId r) (rpOutput r) (rpExitCode r) (nWorld n) t Ht)
    as (w' & -> & Hm & Hsch).
  unfold saveReturned.
  assert (mem w' !!! t = (mem (nWorld n) !!! t) <| tState := StateCompleted |>
    <| tOutput := rpOutput r |> <| tExitCode := rpExitCode r |> <| tCompletedAt := reNow env |>) as Htk.
  { rewrite Hm, onTask_lookup, decide_True by done. by rewrite Complete_running. }
  assert (last (completed (sched w')) = Some t) as Hlast.
  { rewrite Hsch. unfold keepCompleted. simpl_fields_goal. case_bool_decide; [|by rewrite last_snoc].
    unfold last_n. rewrite drop_app_le by (rewrite length_app; unfold maxCompleted; cbn; lia). by rewrite last_snoc. }
  split_and!; repeat case_match; node; try done;
    rewrite ?Hsch; unfold keepCompleted; simpl_fields_goal; try done;
    unfold workerBreaker; rewrite <- Hb1; done.
Qed.

(** A report for a task that is not in flight (a duplicate, or one from
    a worker whose task was taken away) changes no task, no queue and nothing
    stored, yet it still counts for the reporting worker's breaker. *)
Theorem late_report_counts_for_breaker (env : ReportEnv) (r : TaskReport) n
  (Ht : inFlight (sched (nWorld n)) !! rpTaskId r = None) :
  let n' := ReportTaskStatus env r n in
  nWorld n' = nWorld n /\ nStore n' = nStore n /\
  breakerOf (rpWorkerId r) (nBreakers n') =
    Some ((if decide (rpState r = TASK_COMPLETED) then RecordSuccess else RecordFailure (reBreaker env))
      (workerBreaker (rpWorkerId r) (nBreakers n))).
Proof.
  intros n'. subst n'. unfold ReportTaskStatus.
  pose proof (breaker_call RecordSuccess (rpWorkerId r) (nBreakers n)) as Hb.
  pose proof (breaker_call (RecordFailure (reBreaker env)) (rpWorkerId r) (nBreakers n)) as Hc.
  destruct (Get (rpWorkerId r) (nBreakers n)) as [regs cb]. destruct Hb as [Hb1 Hb2], Hc as [_ Hc2].
  unfold reportCompleted, reportFailed. simpl_fields_goal.
  rewrite SchedComplete_unknown, SchedFail_unknown by done. unfold saveReturned.
  unfold workerBreaker. rewrite <- Hb1.
  split_and!; repeat case_match; node; done.
Qed.

(** The task that a round hands out, before the send. *)
Definition running (env : DispatchEnv) (workerID : string) (tk : Task) : Task :=
  tk <| tState := StateRunning |> <| tWorkerID := workerID |> <| tAssignedAt := dsAssign env |>
     <| tAttempt := int32 (tAttempt tk + 1) |> <| tStartedAt := dsStart env |>.

Lemma Assign_Start env workerID tk :
  tState tk = StateQueued ->
  fst (Start (dsStart env) (fst (Assign (dsAssign env) workerID tk))) = running env workerID tk.
Proof.
  intros E. rewrite Assign_queued by done. cbn [fst].
  rewrite Start_assigned by (by simpl_fields_goal). by destruct tk.
Qed.

Lemma mem_Assign_Start env workerID t (m : Mem) u :
  tState (m !!! t) = StateQueued ->
  onTask (fun tk => fst (Start (dsStart env) tk)) t
    (onTask (fun tk => fst (Assign (dsAssign env) workerID tk)) t m) !!! u =
  if decide (u = t) then running env workerID (m !!! t) else m !!! u.
Proof.
  intros E. rewrite !onTask_lookup. case_decide; [|done]. subst.
  rewrite decide_True by done. by apply Assign_Start.
Qed.

(** A round whose breaker lets it through, up to the dequeued task. *)
Lemma dispatchRound_allowed env workerID n :
  Inv (nWorld n) -> queue (sched (nWorld n)) <> [] ->
  snd (Allow (dsAllow env) (workerBreaker workerID (nBreakers n))) = true ->
  exists w t regs, Dequeue (nWorld n) = (w, Some t) /\ dequeued (nWorld n) w t /\ dispatchRound env workerID n =
    dispatchTask env workerID t (n <| nBreakers := regs |> <| nWorld := w |>).
Proof.
  intros HI Hne Ha. unfold dispatchRound.
  pose proof (breaker_call (fun c => c) workerID (nBreakers n)) as Hb.
  destruct (Get workerID (nBreakers n)) as [regs cb]. destruct Hb as [Hb _].
  fold (workerBreaker workerID (nBreakers n)) in Hb. rewrite Hb.
  destruct (Allow (dsAllow env) (workerBreaker workerID (nBreakers n))) as [c ok]. cbn in Ha. subst ok.
  cbn [negb]. simpl_fields_goal.
  destruct (Dequeue_spec (nWorld n) HI Hne) as (w & t & -> & Hd).
  exists w, t, (onBreaker (fun _ => c) cb regs). done.
Qed.

(** Claim C12: a round of the dispatch loop that the breaker lets through, on a
    non-empty queue, sends the most urgent task: it is in flight, RUNNING, under
    the worker, with one more attempt and its times set; it is saved in that
    state; the message carries its id, attempt, time limit and content; and the
    other loops are signalled when tasks remain. *)
Theorem dispatchRound_sends (env : DispatchEnv) (workerID : string) n
  (HI : Inv (nWorld n)) (Hne : queue (sched (nWorld n)) <> [])
  (Hq : forall t, t ∈ queue (sched (nWorld n)) -> tState (mem (nWorld n) !!! t) = StateQueued)
  (Ha : snd (Allow (dsAllow env) (workerBreaker workerID (nBreakers n))) = true)
  (Hs : dsSend env = None) :
  let '(n', round) := dispatchRound env workerID n in
  exists t, let tk := mem (nWorld n) !!! t in
    queue (sched (nWorld n)) ≡ₚ t :: queue (sched (nWorld n')) /\
    (forall u, u ∈ queue (sched (nWorld n)) -> taskLess (mem (nWorld n) !!! u) tk = false) /\
    mem (nWorld n') !!! t = tk <| tState := StateRunning |> <| tWorkerID := workerID |>
      <| tAssignedAt := dsAssign env |> <| tAttempt := int32 (tAttempt tk + 1) |>
      <| tStartedAt := dsStart env |> /\
    (forall u, u <> t -> mem (nWorld n') !!! u = mem (nWorld n) !!! u) /\
    inFlight (sched (nWorld n')) = <[tID tk := t]> (inFlight (sched (nWorld n))) /\
    nStore n' = (fun st => fst (Save (mem (nWorld n')) t st)) <$> nStore n /\
    round = RoundSent (mkAssignment (tID tk) (tScript tk) (dsSentAt env) (int32 (tAttempt tk + 1))
      (tTimeoutSec tk) (tType tk) (tContent tk) (tLanguage tk) (tEntrypoint tk)) /\
    (queue (sched (nWorld n')) <> [] -> notify (sched (nWorld n')) = true).
Proof.
  destruct (dispatchRound_allowed env workerID n HI Hne Ha)
    as (w & t & regs & _ & [Hm Hqw Hb _ Hf _ Hn _] & ->).
  unfold dispatchTask. rewrite Hs. exists t. cbv zeta.
  assert (tState (mem w !!! t) = StateQueued) as Hst by (rewrite Hm; apply Hq; rewrite Hqw; by left).
  node. world. rewrite !(mem_Assign_Start env workerID t (mem w)) by done.
  rewrite decide_True by done. rewrite Hm. split_and!; try done.
  - intros u. rewrite Hqw, elem_of_cons. intros [->|Hu].
    + apply taskLess_false. lia.
    + rewrite Forall_forall in Hb. by apply Hb.
  - intros u Hu. rewrite Hm in Hst. rewrite mem_Assign_Start by done. by rewrite decide_False.
  - f_equal. unfold assignment, running. simpl_fields_goal. done.
  - intros Hne'. rewrite Hn, bool_decide_eq_true_2 by done. apply orb_true_r.
Qed.

(** When the breaker refuses, or the queue turns out to be empty, the
    round assigns nothing: no task, queue or stored data changes; a refusal
    passes the notification on. *)
Theorem dispatchRound_idle (env : DispatchEnv) (workerID : string) n
  (Ha : snd (Allow (dsAllow env) (workerBreaker workerID (nBreakers n))) = false \/
        queue (sched (nWorld n)) = []) :
  let '(n', round) := dispatchRound env workerID n in
  round = RoundContinue /\ nStore n' = nStore n /\ nMetrics n' = nMetrics n /\
  nWorld n' = (if snd (Allow (dsAllow env) (workerBreaker workerID (nBreakers n)))
               then nWorld n else Notify (nWorld n)).
Proof.
  unfold dispatchRound.
  pose proof (breaker_call (fun c => c) workerID (nBreakers n)) as Hb.
  destruct (Get workerID (nBreakers n)) as [regs cb]. destruct Hb as [Hb _].
  fold (workerBreaker workerID (nBreakers n)) in Hb. rewrite Hb.
  destruct (Allow (dsAllow env) (workerBreaker workerID (nBreakers n))) as [c ok]. cbn [snd] in *.
  destruct ok; cbn [negb]; [|node; done].
  destruct Ha as [Ha|Ha]; [done|]. simpl_fields_goal. rewrite Dequeue_empty by done. node. done.
Qed.

(** When the send fails, the task goes back to the queue as QUEUED and
    without a worker but keeps its in-flight entry and the attempt it was charged:
    it is in two places, the scheduler's invariant is broken, and the cleanup of
    the worker's stream does not release the entry. *)
Theorem send_failure_leaves_entry (env : DispatchEnv) (workerID err : string) n
  (HI : Inv (nWorld n)) (Hne : queue (sched (nWorld n)) <> [])
  (Hq : forall t, t ∈ queue (sched (nWorld n)) -> tState (mem (nWorld n) !!! t) = StateQueued)
  (Ha : snd (Allow (dsAllow env) (workerBreaker workerID (nBreakers n))) = true)
  (Hs : dsSend env = Some err) :
  let '(n', round) := dispatchRound env workerID n in
  round = RoundFailed err /\
  exists t, t ∈ queue (sched (nWorld n)) /\ let tk := mem (nWorld n) !!! t in
    t ∈ queue (sched (nWorld n')) /\ inFlight (sched (nWorld n')) !! tID tk = Some t /\
    tState (mem (nWorld n') !!! t) = StateQueued /\ tWorkerID (mem (nWorld n') !!! t) = "" /\
    tAttempt (mem (nWorld n') !!! t) = int32 (tAttempt tk + 1) /\ ~ Inv (nWorld n').
Proof.
  destruct (dispatchRound_allowed env workerID n HI Hne Ha)
    as (w & t & regs & _ & [Hm Hqw Hb _ Hf _ Hn _] & ->).
  unfold dispatchTask, sendFailed. rewrite Hs. split; [done|]. exists t.
  assert (tState (mem w !!! t) = StateQueued) as Hst by (rewrite Hm; apply Hq; rewrite Hqw; by left).
  split; [rewrite Hqw; by left|]. cbv zeta.
  set (n' := withWorld _ _).
  assert (t ∈ queue (sched (nWorld n'))) as Hin.
  { subst n'. unfold Enqueue. node. world. rewrite heapPush_perm. by left. }
  assert (inFlight (sched (nWorld n')) !! tID (mem (nWorld n) !!! t) = Some t) as Hfl.
  { subst n'. unfold Enqueue. node. world. rewrite Hf. apply lookup_insert_eq. }
  assert (mem (nWorld n') !!! t = release (running env workerID (mem (nWorld n) !!! t))) as Hmt.
  { subst n'. unfold Enqueue. node. world. rewrite onTask_lookup, decide_True by done.
    rewrite (mem_Assign_Start env workerID t (mem w)) by done.
    by rewrite decide_True, Hm. }
  rewrite Hmt. unfold release, running. simpl_fields_goal. split_and!; try done.
  intros HI'. by eapply queue_not_in_flight.
Qed.

(** Claim C14: the cleanup of a worker's stream recovers the worker's tasks: none
    of them stays in flight, each is queued again as QUEUED and without a worker,
    every other task keeps its place and its value, and none is lost; the worker
    is marked DEAD and its stream forgotten. *)
Theorem closeStream_recovers (env : PubEnv) (ord : list (string * loc)) (workerID : string)
  (sid : streamId) n (HI : Inv (nWorld n)) (Ho : map_order (inFlight (sched (nWorld n))) ord) :
  let n' := closeStream env ord workerID sid n in
  let mine t := t ∈ flight (sched (nWorld n)) /\ tWorkerID (mem (nWorld n) !!! t) = workerID in
  Inv (nWorld n') /\ pool (nWorld n') ≡ₚ pool (nWorld n) /\
  (forall t, t ∈ flight (sched (nWorld n')) <-> t ∈ flight (sched (nWorld n)) /\ ~ mine t) /\
  (forall t, mine t -> t ∈ queue (sched (nWorld n')) /\
    mem (nWorld n') !!! t = (mem (nWorld n) !!! t) <| tState := StateQueued |> <| tWorkerID := "" |>) /\
  (forall t, ~ mine t -> mem (nWorld n') !!! t = mem (nWorld n) !!! t) /\
  nWorkers n' !! workerID = (fun w => w <| wkState := WORKER_DEAD |>) <$> nWorkers n !! workerID /\
  (forall id, id <> workerID -> nWorkers n' !! id = nWorkers n !! id) /\
  nStreams n' !! workerID = None /\ sid ∈ nCancelled n' /\
  nMetrics n' = nMetrics n ++ [DecWorkersConnected].
Proof.
  intros n' mine.
  assert (nWorld n' = fst (RequeueFromWorker workerID ord (nWorld n))) as Hw
    by (subst n'; unfold closeStream; by node).
  destruct (RequeueFromWorker_conserves workerID ord (nWorld n) Ho HI) as (HI' & _ & Hp).
  destruct (RequeueFromWorker_spec workerID ord (nWorld n) HI Ho) as (w' & E & Hr).
  pose proof (requeued_exact _ _ _ _ HI Ho Hr) as (_ & Hm & Hf & Hq & _).
  rewrite E in Hw, HI', Hp. cbn [fst] in Hw, HI', Hp. rewrite <- Hw in *. clear E Hr.
  split_and!; try done.
  - intros t. rewrite !flight_elem. split.
    + intros [id Hid]. rewrite Hf in Hid. apply bind_Some in Hid as (u & Hu & Hid).
      case_decide; [done|]. injection Hid as ->. split; [eauto|]. intros [_ ?]. done.
    + intros [[id Hid] Hn]. exists id. rewrite Hf, Hid. cbn. rewrite decide_False; [done|].
      intros Hwid. apply Hn. split; [|done]. apply flight_elem. eauto.
  - intros t Ht. split.
    + rewrite Hq, elem_of_app, list_elem_of_filter. left. by destruct Ht.
    + by rewrite Hm, decide_True.
  - intros t Ht. by rewrite Hm, decide_False.
  - subst n'. unfold closeStream. node. apply lookup_alter_eq.
  - intros id Hid. subst n'. unfold closeStream. node. by rewrite lookup_alter_ne.
  - subst n'. unfold closeStream. node. apply lookup_delete_eq.
  - subst n'. unfold closeStream. node. set_solver.
  - subst n'. unfold closeStream. by node.
Qed.

(** A worker that reconnects before the cleanup of its old stream has
    run loses the new one: the old stream's cleanup forgets the new stream, so it
    cannot be disconnected any more, and marks the connected worker DEAD; no
    heartbeat changes that. *)
Theorem reconnect_loses_stream (now1 now2 : Time) (env1 env2 env3 : PubEnv) (reg : WorkerRegistration)
  (sid1 sid2 : streamId) (ord : list (string * loc)) (beats : list (Time * Heartbeat)) n :
  let n1 := openStream now1 env1 reg sid1 n in
  let n2 := openStream now2 env2 reg sid2 n1 in
  let n3 := closeStream env3 ord (regWorkerId reg) sid1 n2 in
  let n4 := foldl (fun n b => SendHeartbeat (fst b) (snd b) n) n3 beats in
  snd (DisconnectWorker (regWorkerId reg) n2) = true /\
  snd (DisconnectWorker (regWorkerId reg) n3) = false /\
  wkState <$> nWorkers n2 !! regWorkerId reg = Some WORKER_ACTIVE /\
  wkState <$> nWorkers n4 !! regWorkerId reg = Some WORKER_DEAD.
Proof.
  intros n1 n2 n3 n4.
  assert (nWorkers n2 !! regWorkerId reg =
    Some (mkWorker (regWorkerId reg) (regHostname reg) WORKER_ACTIVE (regStartTime reg) now2 0)) as H2.
  { subst n2. unfold openStream. node. apply lookup_insert_eq. }
  assert (nStreams n2 !! regWorkerId reg = Some sid2) as Hs2.
  { subst n2. unfold openStream. node. apply lookup_insert_eq. }
  assert (nStreams n3 !! regWorkerId reg = None) as Hs3.
  { subst n3. unfold closeStream. node. apply lookup_delete_eq. }
  assert (wkState <$> nWorkers n3 !! regWorkerId reg = Some WORKER_DEAD) as H3.
  { subst n3. unfold closeStream. node. by rewrite lookup_alter_eq, H2. }
  unfold DisconnectWorker. rewrite Hs2, Hs3, H2. split_and!; [done..|].
  subst n4. clearbody n3. clear -H3. revert n3 H3.
  induction beats as [|[now hb] beats IH]; intros m Hm; [done|]. cbn [foldl fst snd]. apply IH.
  by apply heartbeat_dead.
Qed.

(** Claim C38: a health check treats every worker alike, whatever the order of the
    map: an ACTIVE worker silent for more than the heartbeat timeout becomes
    SUSPECT, a SUSPECT one silent for more than the dead timeout becomes DEAD, and
    nothing else changes: in particular the tasks of a worker declared DEAD stay
    in flight. *)
Theorem checkWorkerHealth_exact (ds : Duration -> string) (now : Time) (env : PubEnv)
  (ord : list string) n (Ho : ord ≡ₚ (map_to_list (nWorkers n)).*1) :
  let n' := checkWorkerHealth ds now env ord n in
  (forall id, nWorkers n' !! id = (fun w =>
    let silence := Sub now (wkLastHeartbeat w) in
    w <| wkState := match wkState w with
      | WORKER_SUSPECT => if WorkerDeadTimeout (nCfg n) <? silence then WORKER_DEAD else WORKER_SUSPECT
      | WORKER_ACTIVE => if HeartbeatTimeout (nCfg n) <? silence then WORKER_SUSPECT else WORKER_ACTIVE
      | st => st end |>) <$> nWorkers n !! id) /\
  nWorld n' = nWorld n /\ nStore n' = nStore n /\ nStreams n' = nStreams n.
Proof.
  assert (NoDup ord) as Hn by (rewrite Ho; apply NoDup_fst_map_to_list).
  destruct (checkWorkerHealth_fields ds now env ord n Hn) as (Hw & Hwd & Hs & Hst & _).
  split_and!; [|done..]. intros id. rewrite Hw.
  destruct (nWorkers n !! id) as [w|] eqn:E; [|by case_decide]. case_decide as Hid.
  { cbn. f_equal. unfold checkedWorker, nextHealth. by destruct (wkState w). }
  exfalso. apply Hid. rewrite Ho.
  apply (list_elem_of_fmap_2 fst _ (id, w)). by apply elem_of_map_to_list.
Qed.

(** What happens to a connected worker: its heartbeats and the health checks. *)

Inductive Beat :=
| BeatFrom (now : Time) (hb : Heartbeat)
| BeatCheck (now : Time) (env : PubEnv) (ord : list string).

Definition onBeat (ds : Duration -> string) (b : Beat) n : Node S :=
  match b with
  | BeatFrom now hb => SendHeartbeat now hb n
  | BeatCheck now env ord => checkWorkerHealth ds now env ord n
  end.

Inductive healthEdge : WorkerState -> WorkerState -> Prop :=
| health_silent : healthEdge WORKER_ACTIVE WORKER_SUSPECT
| health_back : healthEdge WORKER_SUSPECT WORKER_ACTIVE
| health_dead : healthEdge WORKER_SUSPECT WORKER_DEAD.

(** Under any sequence of heartbeats and health checks, a worker's state
    moves only ACTIVE to SUSPECT, SUSPECT to ACTIVE and SUSPECT to DEAD: no worker
    is declared DEAD in one check, and a DEAD one stays DEAD whatever heartbeats
    arrive. *)
Theorem worker_health_machine (ds : Duration -> string) (bs : list Beat) n (id : string) (w : WorkerInfo)
  (Hord : Forall (fun b => match b with BeatCheck _ _ ord => NoDup ord | _ => True end) bs)
  (Hw : nWorkers n !! id = Some w) :
  exists w', nWorkers (foldl (fun n b => onBeat ds b n) n bs) !! id = Some w' /\
    rtc healthEdge (wkState w) (wkState w') /\ (wkState w = WORKER_DEAD -> wkState w' = WORKER_DEAD).
Proof.
  revert n w Hw. induction Hord as [|b bs Hb _ IH]; intros n w Hw; [by exists w|].
  cbn [foldl].
  assert (exists w1, nWorkers (onBeat ds b n) !! id = Some w1 /\
    (wkState w1 = wkState w \/ healthEdge (wkState w) (wkState w1))) as (w1 & Hw1 & Hs).
  { destruct b as [now hb|now env ord]; cbn [onBeat].
    - rewrite SendHeartbeat_workers, Hw. eexists. split; [reflexivity|]. cbv beta zeta.
      case_decide; [|by left]. simpl_fields_goal. case_decide as Es; simpl_fields_goal; [|by left].
      right. rewrite Es. constructor.
    - destruct (checkWorkerHealth_fields ds now env ord n Hb) as (-> & _). rewrite Hw.
      case_decide; [|by exists w; auto]. eexists. split; [reflexivity|].
      unfold checkedWorker, nextHealth. simpl_fields_goal.
      destruct (wkState w); try (by left); case_match; auto using healthEdge. }
  destruct (IH (onBeat ds b n) w1 Hw1) as (w' & Hw' & Hr & Hd). exists w'. split; [done|]. split.
  - destruct Hs as [<-|Hs]; [done|]. by eapply rtc_l.
  - intros E. apply Hd. destruct Hs as [->|Hs]; [done|]. rewrite E in Hs. inversion Hs.
Qed.

End handlers.

(** ** Witnesses *)

Definition demoCfg : Config := Load (fun _ _ _ => 0) (fun _ => "").

Definition demoNode (w : World) : Node MemoryStore :=
  (NewNodeServer demoCfg (Some NewMemoryStore) (Some NewBus)) <| nWorld := w |>.

Definition demoEnv : DispatchEnv := mkDispatchEnv 100 101 102 103 None (mkPubEnv 104 []).

Definition demoReport (id : string) : TaskReport :=
  mkReport id "w2" TASK_COMPLETED "done" "" None None 0.

Lemma nWorld_demo w : nWorld (demoNode w) = w.
Proof. reflexivity. Qed.

Lemma demoQueued_states t :
  t ∈ queue (sched demoQueued) -> tState (mem demoQueued !!! t) = StateQueued.
Proof.
  assert (queue (sched demoQueued) = [4%positive; 2%positive; 3%positive; 1%positive]) as ->
    by (vm_compute; reflexivity).
  rewrite !elem_of_cons, elem_of_nil. intros [->|[->|[->|[->|[]]]]]; vm_compute; reflexivity.
Qed.

Lemma demoQueued_ne : queue (sched demoQueued) <> [].
Proof. intros E. apply (f_equal length) in E. vm_compute in E. discriminate. Qed.

#[local] Opaque demoQueued demoFlying.

Lemma ReportTaskStatus_completed_witness :
  let n' := ReportTaskStatus (mkReportEnv 40 (mkFailEnv 0 (mkRetryEnv 0 0 0)) 41 (mkPubEnv 42 []))
    (demoReport "b") (demoNode demoFlying) in
  last (completed (sched (nWorld n'))) = Some 2%positive /\
  nStore n' = Some (fst (Save (mem (nWorld n')) 2%positive NewMemoryStore)).
Proof.
  intros n'.
  destruct (ReportTaskStatus_completed (mkReportEnv 40 (mkFailEnv 0 (mkRetryEnv 0 0 0)) 41 (mkPubEnv 42 []))
    (demoReport "b") (demoNode demoFlying) 2) as (_ & _ & _ & Hl & _ & _ & _ & Hs & _).
  - reflexivity.
  - rewrite nWorld_demo. vm_compute. reflexivity.
  - rewrite nWorld_demo. vm_compute. reflexivity.
  - split; [exact Hl | exact Hs].
Defined.

Lemma late_report_counts_for_breaker_witness :
  let n' := ReportTaskStatus (mkReportEnv 40 (mkFailEnv 0 (mkRetryEnv 0 0 0)) 41 (mkPubEnv 42 []))
    (demoReport "zz") (demoNode demoFlying) in
  nWorld n' = demoFlying.
Proof.
  intros n'.
  destruct (late_report_counts_for_breaker (mkReportEnv 40 (mkFailEnv 0 (mkRetryEnv 0 0 0)) 41 (mkPubEnv 42 []))
    (demoReport "zz") (demoNode demoFlying)) as [Hw _].
  - rewrite nWorld_demo. vm_compute. reflexivity.
  - exact Hw.
Defined.

Lemma dispatchRound_sends_witness :
  exists a, snd (dispatchRound demoEnv "w1" (demoNode demoQueued)) = RoundSent a /\
    asAssignedAt a = 103.
Proof.
  pose proof (dispatchRound_sends demoEnv "w1" (demoNode demoQueued) demoQueued_inv demoQueued_ne
    demoQueued_states eq_refl eq_refl) as H.
  destruct (dispatchRound demoEnv "w1" (demoNode demoQueued)) as [n' round].
  destruct H as (t & _ & _ & _ & _ & _ & _ & Hr & _). cbn [snd].
  eexists. split; [exact Hr | reflexivity].
Defined.

Lemma dispatchRound_idle_witness :
  let n := (demoNode demoQueued) <| nBreakers := regStep (RegCall "w1" (CallTrip 90)) (NewRegistry 5 2 30) |> in
  snd (dispatchRound demoEnv "w1" n) = RoundContinue.
Proof.
  intros n.
  pose proof (dispatchRound_idle demoEnv "w1" n) as H.
  destruct (dispatchRound demoEnv "w1" n) as [n' round].
  destruct H as (H & _); [left; vm_compute; reflexivity | exact H].
Defined.

Lemma send_failure_leaves_entry_witness :
  let env := mkDispatchEnv 100 101 102 103 (Some "EOF") (mkPubEnv 104 []) in
  ~ Inv (nWorld (fst (dispatchRound env "w1" (demoNode demoQueued)))).
Proof.
  intros env.
  pose proof (send_failure_leaves_entry env "w1" "EOF" (demoNode demoQueued) demoQueued_inv demoQueued_ne
    demoQueued_states eq_refl eq_refl) as H.
  destruct (dispatchRound env "w1" (demoNode demoQueued)) as [n' round].
  destruct H as (_ & t & _ & _ & _ & _ & _ & _ & H). exact H.
Defined.

Lemma closeStream_recovers_witness :
  let n' := closeStream (mkPubEnv 60 []) (map_to_list (inFlight (sched demoFlying))) "w2" 7
    (demoNode demoFlying) in
  2%positive ∈ queue (sched (nWorld n')) /\ 7%positive ∈ nCancelled n'.
Proof.
  intros n'.
  destruct (closeStream_recovers (mkPubEnv 60 []) (map_to_list (inFlight (sched demoFlying))) "w2" 7
    (demoNode demoFlying) demoFlying_inv (Permutation_refl _)) as (_ & _ & _ & Hmine & _ & _ & _ & _ & Hc & _).
  split; [|exact Hc]. apply (Hmine 2%positive).
  split; [by apply (bool_decide_unpack _); vm_compute | vm_compute; reflexivity].
Defined.

Definition demoWorkers : Node MemoryStore :=
  openStream 10 (mkPubEnv 10 []) (mkReg "w1" "host" 5) 1 (demoNode demoQueued).

Lemma checkWorkerHealth_exact_witness :
  let n' := checkWorkerHealth (fun _ => "") (10 + 31 * Second) (mkPubEnv 50 []) ["w1"] demoWorkers in
  wkState <$> nWorkers n' !! "w1" = Some WORKER_SUSPECT.
Proof.
  intros n'.
  destruct (checkWorkerHealth_exact (fun _ => "") (10 + 31 * Second) (mkPubEnv 50 []) ["w1"] demoWorkers)
    as [H _].
  - apply (bool_decide_unpack _). vm_compute. exact I.
  - subst n'. rewrite H. vm_compute. reflexivity.
Defined.

Lemma worker_health_machine_witness :
  let bs := [BeatCheck (10 + 31 * Second) (mkPubEnv 50 []) ["w1"];
             BeatCheck (10 + 61 * Second) (mkPubEnv 51 []) ["w1"];
             BeatFrom (10 + 62 * Second) (mkHeartbeat "w1" 0)] in
  exists w', nWorkers (foldl (fun n b => onBeat (fun _ => "") b n) demoWorkers bs) !! "w1" = Some w' /\
    rtc healthEdge WORKER_ACTIVE (wkState w').
Proof.
  intros bs.
  destruct (worker_health_machine (fun _ => "") bs demoWorkers "w1" (mkWorker "w1" "host" WORKER_ACTIVE 5 10 0))
    as (w' & Hw & Hr & _).
  - repeat constructor; apply (bool_decide_unpack _); vm_compute; exact I.
  - vm_compute. reflexivity.
  - exists w'. split; [exact Hw | exact Hr].
Defined.
