(* ===== verification/Dispatch.v ===== *)
(** * The dispatch loops running concurrently

    Every open stream has a dispatch loop ([AssignTask] in
    [internal/server/node_server.go]); the loops, the report handlers and the
    tickers run in parallel.  Here each piece of code between two lock operations
    is one step of a transition relation on the scheduler's world and the loops'
    program counters; [Scheduler]'s methods are atomic, the task methods that the
    loop calls without a lock are steps of their own.  What a breaker answers and
    whether a send succeeds are left open. *)

From S2P Require Import Prelude GoTime Task Scheduler SchedulerFacts SchedulerProps.
From S2P Require Import CircuitBreaker Config Store Events NodeServer NodeFacts.

Open Scope string_scope.
Open Scope list_scope.
Open Scope Z_scope.

(** ** Threads *)

(** Where a loop is: at its [select]; after receiving a notification; after the
    breaker's answer; with a dequeued task before [Assign], before [Start],
    before [Send]; after a failed send, before [Enqueue]; in its cleanup; done. *)

Inductive PC :=
| AtSelect | Signalled | Refused | MayDequeue
| Holding (t : loc) | Assigned (t : loc) | Sending (t : loc) | SendFailed (t : loc)
| Cleanup | Closed.

Record Loop := mkLoop { lpWorker : string; lpPC : PC }.

Record System := mkSystem { sWorld : World; sLoops : gmap streamId Loop }.

Definition setPC (i : streamId) (pc : PC) (l : Loop) (s : System) : gmap streamId Loop :=
  <[i := mkLoop (lpWorker l) pc]> (sLoops s).

(** The operations of the other handlers and of the tickers. *)

Definition outside (o : Op) : bool :=
  match o with
  | OpEnqueue _ | OpComplete _ _ _ _ | OpFail _ _ _ _ | OpProcessRetries _ | OpCheckTimeouts _ _ _
  | OpRetryFromDLQ _ => true
  | _ => false
  end.

Inductive sysStep : System -> System -> Prop :=
| step_open s i w :
    sLoops s !! i = None ->
    sysStep s (mkSystem (sWorld s) (<[i := mkLoop w AtSelect]> (sLoops s)))
| step_outside s o :
    outside o = true -> sysStep s (mkSystem (opStep o (sWorld s)) (sLoops s))
| step_receive s i l w :
    sLoops s !! i = Some l -> lpPC l = AtSelect -> receiveNotify (sWorld s) = Some w ->
    sysStep s (mkSystem w (setPC i Signalled l s))
| step_allow s i l (ok : bool) :
    sLoops s !! i = Some l -> lpPC l = Signalled ->
    sysStep s (mkSystem (sWorld s) (setPC i (if ok then MayDequeue else Refused) l s))
| step_renotify s i l :
    sLoops s !! i = Some l -> lpPC l = Refused ->
    sysStep s (mkSystem (Notify (sWorld s)) (setPC i AtSelect l s))
| step_dequeue s i l w o :
    sLoops s !! i = Some l -> lpPC l = MayDequeue -> Dequeue (sWorld s) = (w, o) ->
    sysStep s (mkSystem w (setPC i (match o with Some t => Holding t | None => AtSelect end) l s))
| step_assign s i l t now :
    sLoops s !! i = Some l -> lpPC l = Holding t ->
    sysStep s (mkSystem (withTask (fun tk => fst (Assign now (lpWorker l) tk)) t (sWorld s))
      (setPC i (Assigned t) l s))
| step_start s i l t now :
    sLoops s !! i = Some l -> lpPC l = Assigned t ->
    sysStep s (mkSystem (withTask (fun tk => fst (Start now tk)) t (sWorld s)) (setPC i (Sending t) l s))
| step_sent s i l t :
    sLoops s !! i = Some l -> lpPC l = Sending t ->
    sysStep s (mkSystem (sWorld s) (setPC i AtSelect l s))
| step_send_failed s i l t :
    sLoops s !! i = Some l -> lpPC l = Sending t ->
    sysStep s (mkSystem (withTask release t (sWorld s)) (setPC i (SendFailed t) l s))
| step_reenqueue s i l t :
    sLoops s !! i = Some l -> lpPC l = SendFailed t ->
    sysStep s (mkSystem (Enqueue t (sWorld s)) (setPC i Cleanup l s))
| step_cancelled s i l :
    sLoops s !! i = Some l -> lpPC l = AtSelect ->
    sysStep s (mkSystem (sWorld s) (setPC i Cleanup l s))
| step_cleanup s i l ord :
    sLoops s !! i = Some l -> lpPC l = Cleanup -> map_order (inFlight (sched (sWorld s))) ord ->
    sysStep s (mkSystem (fst (RequeueFromWorker (lpWorker l) ord (sWorld s))) (setPC i Closed l s)).

Definition initial (m : Mem) (timeout : Duration) : System :=
  mkSystem (mkWorld m (NewScheduler timeout)) ∅.

(** ** No lost wakeup *)

(** A loop that has taken the notification and will pass it on or dequeue. *)

Definition awake (s : System) : Prop :=
  exists i l, sLoops s !! i = Some l /\ (lpPC l = Signalled \/ lpPC l = Refused \/ lpPC l = MayDequeue).

Definition wakeable (s : System) : Prop :=
  queue (sched (sWorld s)) <> [] -> notify (sched (sWorld s)) = true \/ awake s.

(** How an operation on the scheduler keeps the signal up: the queue does not
    grow, or the signal is raised. *)

Definition keepsSignal (w w' : World) : Prop :=
  (notify (sched w) = true -> notify (sched w') = true) /\
  (notify (sched w') = true \/ queue (sched w') = queue (sched w)).

Lemma keepsSignal_refl w : keepsSignal w w.
Proof. split; auto. Qed.

Lemma Notify_signal w w' : keepsSignal w (Notify w').
Proof. split; [|left]; intros; by world. Qed.

Lemma requeue_loop_count wid ord w c :
  0 <= c ->
  let '(w', c') := foldl (requeueOne wid) (w, c) ord in
  c <= c' /\ notify (sched w') = notify (sched w) /\ (c' = c -> queue (sched w') = queue (sched w)).
Proof.
  revert w c. induction ord as [|[id t] ord IH]; intros w c Hc; [done|].
  cbn [foldl]. unfold requeueOne at 2. destruct (String.eqb _ _); [|by apply IH].
  specialize (IH (requeueStep wid id t w) (c + 1) ltac:(lia)).
  unfold requeueStep in IH. destruct (foldl _ _ ord) as [w' c'].
  destruct IH as (H1 & H2 & H3). split_and!; [lia| |lia]. rewrite H2. by world.
Qed.

Lemma RequeueFromWorker_signal wid ord w : keepsSignal w (fst (RequeueFromWorker wid ord w)).
Proof.
  unfold RequeueFromWorker. pose proof (requeue_loop_count wid ord w 0 ltac:(lia)) as H.
  destruct (foldl _ _ ord) as [w' c]. destruct H as (H1 & H2 & H3). cbn [fst].
  unfold notifyIf. destruct (Z.ltb_spec 0 c); [apply Notify_signal|].
  split; rewrite H2; [done|]. right. apply H3. lia.
Qed.

Lemma retry_loop_count now l w rem c :
  0 <= c ->
  let '(w', _, c') := foldl (retryOne now) (w, rem, c) l in
  c <= c' /\ notify (sched w') = notify (sched w) /\ (c' = c -> queue (sched w') = queue (sched w)).
Proof.
  revert w rem c. induction l as [|t l IH]; intros w rem c Hc; [done|].
  cbn [foldl]. unfold retryOne at 2. destruct (After _ _); [|by apply IH].
  specialize (IH (retryStep t w) rem (c + 1) ltac:(lia)).
  unfold retryStep in IH. destruct (foldl _ _ l) as [[w' r'] c'].
  destruct IH as (H1 & H2 & H3). split_and!; [lia| |lia]. rewrite H2. by world.
Qed.

Lemma ProcessRetries_signal now w : keepsSignal w (fst (ProcessRetries now w)).
Proof.
  unfold ProcessRetries. pose proof (retry_loop_count now (retryQueue (sched w)) w [] 0 ltac:(lia)) as H.
  destruct (foldl _ _ _) as [[w' r] c]. destruct H as (H1 & H2 & H3). cbn [fst].
  unfold notifyIf. destruct (Z.ltb_spec 0 c); [apply Notify_signal|].
  split; world; rewrite H2; [done|]. right. apply H3. lia.
Qed.

Lemma CheckTimeouts_signal now envs ord w : keepsSignal w (fst (CheckTimeouts now envs ord w)).
Proof.
  unfold CheckTimeouts. cbn [fst]. generalize 0%nat as i.
  generalize (filter (fun t => timedOut now (mem w !!! t) = true) ord.*2) as ts. intros ts. revert w.
  induction ts as [|t ts IH]; intros w i; [apply keepsSignal_refl|]. cbn [timeoutLoop].
  rewrite timeoutOne_failing.
  destruct (failing_fields (envs i) (idOf (mem w) t) "task execution timed out" (-1) 0 t w)
    as (_ & Hq & _ & _ & _ & _ & Hn & _).
  specialize (IH (retryOrBury (failRetry (envs i)) t
    (failing (envs i) (idOf (mem w) t) "task execution timed out" (-1) 0 t w)) (S i)).
  unfold keepsSignal in *. by rewrite Hq, Hn in IH.
Qed.

Lemma outside_signal o w : outside o = true -> keepsSignal w (opStep o w).
Proof.
  destruct o; cbn [outside opStep]; try done; intros _.
  - apply Notify_signal.
  - destruct (inFlight (sched w) !! id) as [t|] eqn:E.
    + destruct (SchedComplete_known now id out code w t E) as (w' & -> & _ & Hs). cbn [fst].
      unfold keepsSignal. rewrite Hs. unfold keepCompleted. simpl_fields_goal. auto.
    + rewrite SchedComplete_unknown by done. apply keepsSignal_refl.
  - destruct (inFlight (sched w) !! id) as [t|] eqn:E.
    + rewrite (SchedFail_known _ _ _ _ _ t) by done. cbn [fst].
      destruct (failing_fields env id msg code 1 t w) as (_ & Hq & _ & _ & _ & _ & Hn & _).
      unfold keepsSignal. rewrite Hq, Hn. auto.
    + rewrite SchedFail_unknown by done. apply keepsSignal_refl.
  - apply ProcessRetries_signal.
  - apply CheckTimeouts_signal.
  - unfold SchedRetryFromDLQ. repeat case_match; cbn [fst];
      first [apply Notify_signal | apply keepsSignal_refl].
Qed.

Lemma Dequeue_signal w w' o :
  Dequeue w = (w', o) -> queue (sched w') <> [] -> notify (sched w') = true.
Proof.
  intros E Hne. destruct (decide (queue (sched w) = [])) as [Eq|Eq].
  { rewrite Dequeue_empty in E by done. by injection E as <- <-. }
  unfold Dequeue in E. rewrite bool_decide_false in E by (unfold pqLen; by destruct queue).
  destruct (heapPop_some (mem w) (queue (sched w)) Eq) as (t & rest & Hp & _). rewrite Hp in E.
  injection E as <- <-. revert Hne. world. case_bool_decide as Hl; world; [done|].
  intros Hr. unfold pqLen in Hl. destruct rest; [done|]. cbn in Hl. lia.
Qed.

Lemma awake_here s i l pc :
  sLoops s !! i = Some l -> pc = Signalled \/ pc = Refused \/ pc = MayDequeue ->
  forall w, awake (mkSystem w (setPC i pc l s)).
Proof.
  intros Hl Hpc w. exists i, (mkLoop (lpWorker l) pc). cbn. unfold setPC.
  by rewrite lookup_insert_eq.
Qed.

(** A step of a loop that is not awake leaves the awake ones as they are. *)
Lemma awake_elsewhere s i l pc w :
  sLoops s !! i = Some l -> lpPC l <> Signalled -> lpPC l <> Refused -> lpPC l <> MayDequeue ->
  awake s -> awake (mkSystem w (setPC i pc l s)).
Proof.
  intros Hl H1 H2 H3 (j & l' & Hj & Hpc). exists j, l'. cbn. unfold setPC.
  rewrite lookup_insert_ne; [done|]. intros ->. rewrite Hl in Hj. injection Hj as <-. naive_solver.
Qed.

Lemma wakeable_signal s w loops :
  wakeable s -> keepsSignal (sWorld s) w -> (awake s -> awake (mkSystem w loops)) ->
  wakeable (mkSystem w loops).
Proof.
  intros Hw [H1 [H2|H2]] Ha Hne; cbn in *; [by left|]. rewrite H2 in Hne.
  destruct (Hw Hne) as [Hn|Hn]; [left; auto|right; auto].
Qed.

Lemma withTask_signal f t w : keepsSignal w (withTask f t w).
Proof. split; [|right]; intros; by world. Qed.

Lemma sysStep_wakeable s s' : sysStep s s' -> wakeable s -> wakeable s'.
Proof.
  destruct 1 as [s i w Hi|s o Ho|s i l w Hl Hpc Hr|s i l ok Hl Hpc|s i l Hl Hpc|s i l w o Hl Hpc Hd
    |s i l t now Hl Hpc|s i l t now Hl Hpc|s i l t Hl Hpc|s i l t Hl Hpc|s i l t Hl Hpc|s i l Hl Hpc
    |s i l ord Hl Hpc Ho]; intros Hw.
  - apply (wakeable_signal s); [done|apply keepsSignal_refl|]. intros (j & l & Hj & Hpc).
    exists j, l. cbn. rewrite lookup_insert_ne by congruence. done.
  - apply (wakeable_signal s); [done|by apply outside_signal|by intros (j & l & ?); exists j, l].
  - intros _. right. apply awake_here; auto.
  - intros _. right. apply awake_here; [done|]. destruct ok; auto.
  - intros _. left. cbn. by world.
  - intros Hne. left. cbn in *. by eapply Dequeue_signal.
  - apply (wakeable_signal s); [done|apply withTask_signal|].
    apply awake_elsewhere; rewrite ?Hpc; done.
  - apply (wakeable_signal s); [done|apply withTask_signal|].
    apply awake_elsewhere; rewrite ?Hpc; done.
  - apply (wakeable_signal s); [done|apply keepsSignal_refl|].
    apply awake_elsewhere; rewrite ?Hpc; done.
  - apply (wakeable_signal s); [done|apply withTask_signal|].
    apply awake_elsewhere; rewrite ?Hpc; done.
  - intros _. left. cbn. unfold Enqueue. by world.
  - apply (wakeable_signal s); [done|apply keepsSignal_refl|].
    apply awake_elsewhere; rewrite ?Hpc; done.
  - apply (wakeable_signal s); [done|apply RequeueFromWorker_signal|].
    apply awake_elsewhere; rewrite ?Hpc; done.
Qed.

(** A loop that can take the next step towards a dispatch: it waits at its
    [select] with a notification, or it is awake. *)

Definition ready (s : System) (i : streamId) : Prop :=
  exists l, sLoops s !! i = Some l /\
    ((lpPC l = AtSelect /\ notify (sched (sWorld s)) = true) \/
     lpPC l = Signalled \/ lpPC l = Refused \/ lpPC l = MayDequeue).

(** ** Properties *)

(** Claim C3: no wakeup is lost. However the loops, the report handlers, the
    tickers and the submissions interleave, connections and disconnections
    included, whenever a task is queued the notification is set or some loop has
    taken it and will dequeue or pass it on; so as long as some loop is at its
    [select], a loop can step towards dispatching. *)
Theorem no_lost_wakeup (m : Mem) (timeout : Duration) (s : System)
  (H : rtc sysStep (initial m timeout) s) (Hq : queue (sched (sWorld s)) <> []) :
  (notify (sched (sWorld s)) = true \/ awake s) /\
  (forall i l, sLoops s !! i = Some l -> lpPC l = AtSelect -> exists j, ready s j).
Proof.
  assert (wakeable s) as Hw.
  { assert (wakeable (initial m timeout)) as H0 by (intros Hne; done).
    revert H0. clear Hq. induction H as [s|s1 s2 s3 Hs _ IH]; [done|]. intros H0.
    by apply IH, (sysStep_wakeable s1). }
  specialize (Hw Hq). split; [done|]. intros i l Hi Hpc. destruct Hw as [Hn|(j & l' & Hj & Hpc')].
  - exists i, l. auto.
  - exists j, l'. auto.
Qed.

Lemma no_lost_wakeup_witness :
  let s := mkSystem demoQueued {[1%positive := mkLoop "w1" AtSelect]} in
  notify (sched (sWorld s)) = true \/ awake s.
Proof.
  intros s.
  destruct (no_lost_wakeup demoMem (300 * Second) s) as [H _]; [| |exact H].
  - apply (rtc_l _ _ (mkSystem (opStep (OpEnqueue 1) (mkWorld demoMem (NewScheduler (300 * Second)))) ∅)).
    { exact (step_outside (initial demoMem (300 * Second)) (OpEnqueue 1) eq_refl). }
    eapply rtc_l; [exact (step_outside _ (OpEnqueue 2) eq_refl)|].
    eapply rtc_l; [exact (step_outside _ (OpEnqueue 3) eq_refl)|].
    eapply rtc_l; [exact (step_outside _ (OpEnqueue 4) eq_refl)|].
    eapply rtc_l; [apply (step_open _ 1 "w1"); reflexivity|]. apply rtc_refl.
  - intros E. apply (f_equal length) in E. vm_compute in E. discriminate.
Defined.

(** A worker whose breaker refuses may take back the signal that it raised
    for the others: with a notification pending, receiving it, being refused and
    raising it again is a cycle that leaves the system as it was, for as long as the
    breaker refuses and whether or not any task is queued. *)
Theorem refused_loop_spins (s : System) (i : streamId) (l : Loop)
  (Hl : sLoops s !! i = Some l) (Hpc : lpPC l = AtSelect) (Hn : notify (sched (sWorld s)) = true) :
  exists s1 s2, sysStep s s1 /\ sysStep s1 s2 /\ sysStep s2 s /\
    (forall l1, sLoops s1 !! i = Some l1 -> lpPC l1 = Signalled) /\
    (forall l2, sLoops s2 !! i = Some l2 -> lpPC l2 = Refused).
Proof.
  set (w1 := withSched (fun k => k <| notify := false |>) (sWorld s)).
  set (s1 := mkSystem w1 (setPC i Signalled l s)). set (l1 := mkLoop (lpWorker l) Signalled).
  assert (sLoops s1 !! i = Some l1) as H1 by apply lookup_insert_eq.
  set (s2 := mkSystem w1 (setPC i Refused l1 s1)). set (l2 := mkLoop (lpWorker l) Refused).
  assert (sLoops s2 !! i = Some l2) as H2 by apply lookup_insert_eq.
  exists s1, s2. split; [|split; [|split; [|split]]].
  - apply (step_receive s i l); [done..|]. unfold receiveNotify. by rewrite Hn.
  - exact (step_allow s1 i l1 false H1 eq_refl).
  - assert (mkSystem (Notify (sWorld s2)) (setPC i AtSelect l2 s2) = s) as E;
      [|pose proof (step_renotify s2 i l2 H2 eq_refl) as Hst; by rewrite E in Hst].
    subst s2 l2 s1 l1 w1. unfold setPC. destruct s as [w loops], l as [wid pc]. cbn in *. subst pc. f_equal.
    + destruct w as [m [ ]]. cbn in *. by subst.
    + rewrite !insert_insert_eq. by apply insert_id.
  - intros l' E. rewrite H1 in E. by injection E as <-.
  - intros l' E. rewrite H2 in E. by injection E as <-.
Qed.

Lemma refused_loop_spins_witness :
  let s := mkSystem (mkWorld demoMem ((NewScheduler (300 * Second)) <| notify := true |>)) {[1%positive := mkLoop "w1" AtSelect]} in
  queue (sched (sWorld s)) = [] /\ exists s1, sysStep s s1 /\ s1 <> s.
Proof.
  intros s. split; [reflexivity|].
  destruct (refused_loop_spins s 1 (mkLoop "w1" AtSelect)) as (s1 & s2 & H1 & _ & _ & Hs & _); [reflexivity..|].
  exists s1. split; [exact H1|]. intros ->. discriminate (Hs (mkLoop "w1" AtSelect) eq_refl).
Defined.

(** ** The rounds of the node service

    [NodeServer] runs a round, and the cleanup, in one piece. *)

Section rounds.
Context {S : Type} `{TaskStore S}.
Implicit Types n : Node S.

(** The loop [i] of the worker [wid] at [pc], next to the others. *)
Definition at_ (loops : gmap streamId Loop) (i : streamId) (wid : string) (w : World) (pc : PC) : System :=
  mkSystem w (<[i := mkLoop wid pc]> loops).

Lemma at_steps loops i wid w pc w' pc' s' :
  (forall s, s = at_ loops i wid w pc -> sLoops s !! i = Some (mkLoop wid pc) ->
     sysStep s (mkSystem w' (setPC i pc' (mkLoop wid pc) s))) ->
  rtc sysStep (at_ loops i wid w' pc') s' -> rtc sysStep (at_ loops i wid w pc) s'.
Proof.
  intros Hs Hr. eapply rtc_l; [|exact Hr]. specialize (Hs _ eq_refl (lookup_insert_eq _ _ _)).
  unfold at_, setPC in *. cbn [sLoops lpWorker] in Hs. by rewrite insert_insert_eq in Hs.
Qed.

Tactic Notation "at_step" uconstr(st) :=
  eapply at_steps; [intros ? -> ?; eapply st; first [eassumption|reflexivity]|cbn [at_ sWorld lpWorker]].

Lemma dispatchTask_steps loops i env wid t n :
  let '(n', r) := dispatchTask env wid t n in
  rtc sysStep (at_ loops i wid (nWorld n) (Holding t))
    (at_ loops i wid (nWorld n') (match r with RoundFailed _ => Cleanup | _ => AtSelect end)).
Proof.
  unfold dispatchTask, sendFailed.
  destruct (dsSend env) as [err|]; at_step (step_assign _ i _ t (dsAssign env)); at_step (step_start _ i _ t (dsStart env)).
  - at_step step_send_failed. at_step step_reenqueue. node. apply rtc_refl.
  - at_step step_sent. node. apply rtc_refl.
Qed.

(** The service's rounds and cleanups are behaviours of the loops. From the
    moment a loop has taken the notification, its own steps lead to exactly the
    scheduler and the tasks that a whole round of the service leaves, at the
    [select] again, or in the cleanup when the send failed; and its cleanup leaves
    what the end of the stream leaves. *)
Theorem rounds_are_loop_steps (loops : gmap streamId Loop) (i : streamId) (wid : string) n :
  (forall env, let '(n', r) := dispatchRound env wid n in
     rtc sysStep (at_ loops i wid (nWorld n) Signalled)
       (at_ loops i wid (nWorld n') (match r with RoundFailed _ => Cleanup | _ => AtSelect end))) /\
  (forall env ord, map_order (inFlight (sched (nWorld n))) ord ->
     rtc sysStep (at_ loops i wid (nWorld n) Cleanup) (at_ loops i wid (nWorld (closeStream env ord wid i n)) Closed)).
Proof.
  split.
  - intros env. unfold dispatchRound. destruct (Get wid (nBreakers n)) as [regs cb].
    destruct (Allow (dsAllow env) (cbMem regs !!! cb)) as [c [|]]; cbn [negb].
    + simpl_fields_goal. destruct (Dequeue (nWorld n)) as [w o] eqn:Hd.
      set (n1 := (n <| nBreakers := _ |>) <| nWorld := w |>).
      assert (nWorld n1 = w) as Hw by (subst n1; by simpl_fields_goal).
      pose proof (dispatchTask_steps loops i env wid) as Ht. destruct o as [t|].
      * specialize (Ht t n1). rewrite Hw in Ht. destruct (dispatchTask env wid t n1) as [n' r].
        at_step (step_allow _ i _ true). at_step (step_dequeue _ i _ w (Some t)). exact Ht.
      * at_step (step_allow _ i _ true). at_step (step_dequeue _ i _ w None). rewrite Hw. apply rtc_refl.
    + at_step (step_allow _ i _ false). at_step step_renotify. node. apply rtc_refl.
  - intros env ord Ho. eapply at_steps; [intros ? -> ?; by eapply step_cleanup|]. cbn [at_ sWorld].
    unfold closeStream. node. apply rtc_refl.
Qed.

End rounds.

(** The most urgent task of four goes to [w1], whose stream then ends. *)
Lemma rounds_are_loop_steps_witness :
  exists s, rtc sysStep (at_ ∅ 1 "w1" demoQueued Signalled) s /\
    (fun p => tWorkerID (mem (sWorld s) !!! p.2)) <$> map_to_list (inFlight (sched (sWorld s))) = ["w1"] /\
    rtc sysStep (at_ ∅ 1 "w1" demoQueued Cleanup) (at_ ∅ 1 "w1" demoQueued Closed).
Proof.
  destruct (rounds_are_loop_steps ∅ 1 "w1" (demoNode demoQueued)) as [H1 H2]. specialize (H1 demoEnv).
  specialize (H2 (mkPubEnv 1 []) [] ltac:(vm_compute; reflexivity)). rewrite nWorld_demo in H1, H2.
  destruct (dispatchRound demoEnv "w1" (demoNode demoQueued)) as [n' r] eqn:E.
  eexists. split; [exact H1|]. split; [vm_compute in E; injection E as <- <-; vm_compute; reflexivity|].
  assert (nWorld (closeStream (mkPubEnv 1 []) [] "w1" 1 (demoNode demoQueued)) = demoQueued) as Ew by (vm_compute; reflexivity).
  rewrite Ew in H2. exact H2.
Defined.

(** ** Schedules, for evaluation *)

(** The next step of the loop [i]: how the choices of [sysStep] are made. *)

Inductive Act :=
| ActOpen (i : streamId) (w : string)
| ActOutside (o : Op)
| ActLoop (i : streamId) (now : Time) (good : bool) (ord : list (string * loc))
| ActCancel (i : streamId).

Definition actLoop (i : streamId) (now : Time) (good : bool) (ord : list (string * loc)) (l : Loop)
    (s : System) : option System :=
  match lpPC l with
  | AtSelect => w ← receiveNotify (sWorld s); Some (mkSystem w (setPC i Signalled l s))
  | Signalled => Some (mkSystem (sWorld s) (setPC i (if good then MayDequeue else Refused) l s))
  | Refused => Some (mkSystem (Notify (sWorld s)) (setPC i AtSelect l s))
  | MayDequeue =>
      let '(w, o) := Dequeue (sWorld s) in
      Some (mkSystem w (setPC i (match o with Some t => Holding t | None => AtSelect end) l s))
  | Holding t => Some (mkSystem (withTask (fun tk => fst (Assign now (lpWorker l) tk)) t (sWorld s))
                   (setPC i (Assigned t) l s))
  | Assigned t => Some (mkSystem (withTask (fun tk => fst (Start now tk)) t (sWorld s))
                    (setPC i (Sending t) l s))
  | Sending t => if good then Some (mkSystem (sWorld s) (setPC i AtSelect l s))
                 else Some (mkSystem (withTask release t (sWorld s)) (setPC i (SendFailed t) l s))
  | SendFailed t => Some (mkSystem (Enqueue t (sWorld s)) (setPC i Cleanup l s))
  | Cleanup =>
      if decide (map_order (inFlight (sched (sWorld s))) ord)
      then Some (mkSystem (fst (RequeueFromWorker (lpWorker l) ord (sWorld s))) (setPC i Closed l s))
      else None
  | Closed => None
  end.

Definition act (a : Act) (s : System) : option System :=
  match a with
  | ActOpen i w =>
      match sLoops s !! i with
      | None => Some (mkSystem (sWorld s) (<[i := mkLoop w AtSelect]> (sLoops s)))
      | Some _ => None
      end
  | ActOutside o => if outside o then Some (mkSystem (opStep o (sWorld s)) (sLoops s)) else None
  | ActLoop i now good ord => l ← sLoops s !! i; actLoop i now good ord l s
  | ActCancel i =>
      l ← sLoops s !! i;
      match lpPC l with AtSelect => Some (mkSystem (sWorld s) (setPC i Cleanup l s)) | _ => None end
  end.

Fixpoint acts (l : list Act) (s : System) : option System :=
  match l with [] => Some s | a :: l => s' ← act a s; acts l s' end.

Lemma actLoop_step i now good ord l s s' :
  sLoops s !! i = Some l -> actLoop i now good ord l s = Some s' -> sysStep s s'.
Proof.
  intros Hl. unfold actLoop. destruct (lpPC l) eqn:Hpc.
  - intros (w & Hw & [= <-])%bind_Some. by eapply step_receive.
  - intros [= <-]. by apply step_allow.
  - intros [= <-]. by apply step_renotify.
  - destruct (Dequeue (sWorld s)) as [w o] eqn:Hd. intros [= <-]. by eapply step_dequeue.
  - intros [= <-]. by eapply step_assign.
  - intros [= <-]. by eapply step_start.
  - destruct good; intros [= <-]; [by eapply step_sent|by eapply step_send_failed].
  - intros [= <-]. by eapply step_reenqueue.
  - case_decide; [|done]. intros [= <-]. by eapply step_cleanup.
  - done.
Qed.

Lemma act_step a s s' : act a s = Some s' -> sysStep s s'.
Proof.
  destruct a as [i w|o|i now good ord|i]; cbn [act].
  - destruct (sLoops s !! i) eqn:E; [done|]. intros [= <-]. by apply step_open.
  - destruct (outside o) eqn:E; [|done]. intros [= <-]. by apply step_outside.
  - intros (l & Hl & Ha)%bind_Some. by eapply actLoop_step.
  - intros (l & Hl & Ha)%bind_Some. destruct (lpPC l) eqn:Hpc; try done.
    injection Ha as <-. by apply step_cancelled.
Qed.

Lemma acts_reach l s s' : acts l s = Some s' -> rtc sysStep s s'.
Proof.
  revert s. induction l as [|a l IH]; intros s; cbn [acts]; [by intros [= <-]|].
  intros (s1 & Ha & Hl)%bind_Some. eapply rtc_l; [by eapply act_step|by apply IH].
Qed.

(** A round of the loop [i] up to the send. *)
Definition roundOf (i : streamId) (now : Time) : list Act :=
  [ActLoop i now true []; ActLoop i now true []; ActLoop i now true []].

(** Task 1 fails on [w1] and is retried; [w2]'s loop takes it just before [w1]
    disconnects, and assigns it just after. *)
Definition staleActs : list Act :=
  [ActOutside (OpEnqueue 1); ActOpen 1 "w1"] ++ roundOf 1 20 ++
  [ActLoop 1 21 true []; ActLoop 1 22 true []; ActLoop 1 22 true [];
   ActOutside (OpFail (mkFailEnv 30 (mkRetryEnv 30 0 0)) "a" "boom" 1);
   ActOutside (OpProcessRetries (30 + 3 * Second)); ActOpen 2 "w2"] ++ roundOf 2 40 ++
  [ActCancel 1; ActLoop 1 50 true [("a", 1%positive)]; ActLoop 2 60 true []; ActLoop 2 61 true []].

(** A retried task keeps the id of the worker it failed on until it is
    assigned again, so that worker's disconnection takes it away from the loop
    that has just dequeued it: in a reachable state the task is RUNNING on one
    worker and queued for another, is not in flight, and the report of its
    completion is dropped. *)
Theorem stale_worker_takes_task :
  exists m s t, rtc sysStep (initial m (300 * Second)) s /\
    tState (mem (sWorld s) !!! t) = StateRunning /\ tWorkerID (mem (sWorld s) !!! t) = "w2" /\
    t ∈ queue (sched (sWorld s)) /\
    (forall now out code, SchedComplete now (tID (mem (sWorld s) !!! t)) out code (sWorld s) = (sWorld s, None)).
Proof.
  destruct (acts staleActs (initial demoMem (300 * Second))) as [s|] eqn:E; [|vm_compute in E; discriminate].
  exists demoMem, s, 1%positive. split; [by eapply acts_reach|].
  assert (acts staleActs (initial demoMem (300 * Second)) = Some s) as E' by done.
  vm_compute in E. injection E as <-. clear E'.
  split; [reflexivity|]. split; [reflexivity|].
  split; [by apply (bool_decide_unpack _); vm_compute|].
  intros now out code. apply SchedComplete_unknown. vm_compute. reflexivity.
Qed.
