(* ===== verification/Master.v ===== *)
(** * The HTTP API: [internal/master/master.go]

    A handler is a function from the request and the node to the new node and the
    response.  What the standard library and third-party code hand over (a decoded
    body or a decoding error, a directory listing, an uploaded file, the text of a
    time) are arguments.  Bodies written with a format are the string; bodies that
    are JSON-encoded values are the value.  Log calls are left out. *)

From Stdlib Require Import Ascii.
From stdpp Require Import pretty.
From S2P Require Import Prelude GoTime Task Scheduler CircuitBreaker Config Store Events NodeServer.

Open Scope string_scope.
Open Scope list_scope.
Open Scope Z_scope.

(** ** Requests and responses *)

Definition StatusOK : Z := 200.
Definition StatusBadRequest : Z := 400.
Definition StatusNotFound : Z := 404.
Definition StatusInternalServerError : Z := 500.

Record Response (B : Type) := mkResponse { rsStatus : Z; rsBody : B }.
Arguments mkResponse {B}. Arguments rsStatus {B}. Arguments rsBody {B}.

Record submitRequest := mkSubmit { sbLanguage : string; sbScript : string }.

Record failRequest := mkFailRequest { frCount : Z; frLanguage : string }.

Record batchRequest := mkBatch {
  btCount : Z; btLanguage : string; btScript : string; btSleepMs : Z; btPriority : Z
}.

Record workerJSON := mkWorkerJSON {
  wjID : string; wjHostname : string; wjState : string; wjActiveTasks : Z; wjLastHeartbeat : string;
  wjUptimeSeconds : Z; wjCircuitBreaker : option Info
}.

Record taskJSON := mkTaskJSON {
  tjID : string; tjScript : string; tjState : string; tjWorkerID : string; tjAttempt : Z;
  tjPriority : Z; tjType : string; tjLanguage : string; tjOutput : string; tjError : string;
  tjExitCode : Z; tjCreatedAt : string; tjAssignedAt : string; tjStartedAt : string;
  tjCompletedAt : string; tjDurationMs : Z
}.

Record dlqJSON := mkDlqJSON {
  djID : string; djScript : string; djError : string; djAttempts : Z; djLanguage : string;
  djType : string; djOutput : string; djExitCode : Z; djCreatedAt : string
}.

(** ** Texts *)

(** [time.Time.UnixNano]. *)
Definition UnixNano (t : Time) : Z := int64 (t - 62135596800 * Second).

(** The zeros that [%0<width>d] puts before a non-negative number. *)

Fixpoint zeros (k : nat) (s : string) : string :=
  match k with O => s | S k => String "0"%char (zeros k s) end.

Definition padded (width : nat) (n : Z) : string :=
  let s := pretty n in zeros (width - String.length s) s.

(** A literal double quote in the code's formats. *)
Definition q : string := String (ascii_of_nat 34) "".

(** [fmt.Sprintf] with one name and one string value, as an error or a result body. *)
Definition object1 (name value : string) : string := "{" +:+ q +:+ name +:+ q +:+ ":" +:+ value +:+ "}".
Definition quoted (s : string) : string := q +:+ s +:+ q.
Definition errorBody (msg : string) : string := object1 "error" (quoted msg).

Definition hasSuffix (suffix s : string) : bool :=
  let k := (String.length s - String.length suffix)%nat in
  (String.length suffix <=? String.length s)%nat &&
  String.eqb (String.substring k (String.length suffix) s) suffix.

Definition WorkerState_String (s : WorkerState) : string :=
  match s with
  | WORKER_UNKNOWN => "WORKER_UNKNOWN" | WORKER_ACTIVE => "WORKER_ACTIVE"
  | WORKER_SUSPECT => "WORKER_SUSPECT" | WORKER_DEAD => "WORKER_DEAD"
  | WORKER_DRAINING => "WORKER_DRAINING"
  end.

Section master.
Context {S : Type} `{TaskStore S}.
Implicit Types n : Node S.

(** [m.eventBus.Publish]: the master always has a bus. *)
Definition announce (env : PubEnv) (ty : EventType) (data : list (string * Value)) n : Node S :=
  publishEvent env ty data n.

(** ** Submission *)

(** One submission: the clock when the id is made and when the task is created,
    and the new task's location. *)
Record LoopEnv := mkLoopEnv { leNow : Time; leCreated : Time; leLoc : loc; lePub : PubEnv }.

(** [handleTask]: [join] is [filepath.Join]; a directory entry is its name and
    whether it is a directory. *)

Definition handleTaskOne (join : string -> string -> string) (dir : string) (env : LoopEnv)
    (file : string * bool) (acc : Node S * Z) : Node S * Z :=
  let '(n, count) := acc in
  if negb (snd file) && hasSuffix ".sh" (fst file) then
    let fullPath := join dir (fst file) in
    let taskID := "task-" +:+ pretty (UnixNano (leNow env)) +:+ "-" +:+ fst file in
    let n := EnqueueTask (leCreated env) (leLoc env) taskID fullPath n in
    (announce (lePub env) EventTaskQueued [("task_id", VString taskID); ("script", VString fullPath)] n,
     count + 1)
  else acc.

Definition handleTask (join : string -> string -> string) (dir : string)
    (files : result (list (string * bool))) (envs : nat -> LoopEnv) n : Node S * Response string :=
  if String.eqb dir "" then
    (n, mkResponse StatusBadRequest (errorBody "missing 'dir' query parameter"))
  else
    match files with
    | inl err => (n, mkResponse StatusInternalServerError (errorBody ("failed to read directory: " +:+ err)))
    | inr files =>
        let '(n, count) :=
          foldl (fun acc f => handleTaskOne join dir (envs (fst f)) (snd f) acc) (n, 0)
            (imap (fun i f => (i, f)) files) in
        (n, mkResponse StatusOK ("{" +:+ quoted "enqueued" +:+ ":" +:+ pretty count +:+ "," +:+
           quoted "directory" +:+ ":" +:+ quoted dir +:+ "}"))
    end.

Definition handleSubmit (env : LoopEnv) (body : result submitRequest) n : Node S * Response string :=
  match body with
  | inl err => (n, mkResponse StatusBadRequest (errorBody ("invalid JSON: " +:+ err)))
  | inr req =>
      if String.eqb (sbScript req) "" then
        (n, mkResponse StatusBadRequest (errorBody "missing 'script' field"))
      else
        let language := if String.eqb (sbLanguage req) "" then "bash" else sbLanguage req in
        let taskID := "inline-" +:+ pretty (UnixNano (leNow env)) in
        let n := EnqueueInlineTask (leCreated env) (leLoc env) taskID (sbScript req) language n in
        let n := announce (lePub env) EventTaskQueued
          [("task_id", VString taskID); ("type", VString "inline"); ("language", VString language)] n in
        (n, mkResponse StatusOK ("{" +:+ quoted "task_id" +:+ ":" +:+ quoted taskID +:+ "," +:+
           quoted "type" +:+ ":" +:+ quoted "inline" +:+ "," +:+ quoted "language" +:+ ":" +:+
           quoted language +:+ "}"))
  end.

(** [handleUpload] after the form is parsed: the file's bytes, encoded as base64
    by [encode], with their number. *)

Record Upload := mkUpload {
  upParse : error;                             (* r.ParseMultipartForm *)
  upFile : result (result (string * Z));       (* r.FormFile, then io.ReadAll: encoded data and size *)
  upEntrypoint : string; upLanguage : string
}.

Definition handleUpload (env : LoopEnv) (up : Upload) n : Node S * Response string :=
  match upParse up with
  | Some err => (n, mkResponse StatusBadRequest (errorBody ("parse form: " +:+ err)))
  | None =>
      match upFile up with
      | inl _ => (n, mkResponse StatusBadRequest (errorBody "missing 'archive' file field"))
      | inr (inl err) => (n, mkResponse StatusInternalServerError (errorBody ("read archive: " +:+ err)))
      | inr (inr (encoded, size)) =>
          let entrypoint := if String.eqb (upEntrypoint up) "" then "./run.sh" else upEntrypoint up in
          let language := if String.eqb (upLanguage up) "" then "bash" else upLanguage up in
          let taskID := "archive-" +:+ pretty (UnixNano (leNow env)) in
          let n := EnqueueArchiveTask (leCreated env) (leLoc env) taskID encoded entrypoint language n in
          let n := announce (lePub env) EventTaskQueued
            [("task_id", VString taskID); ("type", VString "archive"); ("entrypoint", VString entrypoint)] n in
          (n, mkResponse StatusOK ("{" +:+ quoted "task_id" +:+ ":" +:+ quoted taskID +:+ "," +:+
             quoted "type" +:+ ":" +:+ quoted "archive" +:+ "," +:+ quoted "entrypoint" +:+ ":" +:+
             quoted entrypoint +:+ "," +:+ quoted "size_bytes" +:+ ":" +:+ pretty size +:+ "}"))
      end
  end.

(** ** Chaos *)

Definition handleChaosKillWorker (env : PubEnv) (workerID : string) n : Node S * Response string :=
  if String.eqb workerID "" then (n, mkResponse StatusBadRequest (errorBody "missing worker id"))
  else
    let '(n, found) := DisconnectWorker workerID n in
    if found then
      (announce env EventChaosWorkerKilled [("worker_id", VString workerID)] n,
       mkResponse StatusOK (object1 "killed" (quoted workerID)))
    else (n, mkResponse StatusNotFound (errorBody "worker not found or not connected")).

Definition handleChaosTripCB (now : Time) (env : PubEnv) (workerID : string) n : Node S * Response string :=
  if String.eqb workerID "" then (n, mkResponse StatusBadRequest (errorBody "missing worker id"))
  else
    let n := withBreaker (Trip now) workerID n in
    let n := announce env EventChaosCBTripped [("worker_id", VString workerID)] n in
    (n, mkResponse StatusOK ("{" +:+ quoted "tripped" +:+ ":" +:+ quoted workerID +:+ "," +:+
       quoted "state" +:+ ":" +:+ quoted "OPEN" +:+ "}")).

Definition handleChaosResetCB (env : PubEnv) (workerID : string) n : Node S * Response string :=
  if String.eqb workerID "" then (n, mkResponse StatusBadRequest (errorBody "missing worker id"))
  else
    let n := withBreaker ResetCB workerID n in
    let n := announce env EventChaosCBReset [("worker_id", VString workerID)] n in
    (n, mkResponse StatusOK ("{" +:+ quoted "reset" +:+ ":" +:+ quoted workerID +:+ "," +:+
       quoted "state" +:+ ":" +:+ quoted "CLOSED" +:+ "}")).

Definition failScripts (language : string) : string :=
  if String.eqb language "bash" then "echo 'chaos: intentional failure'; exit 1"
  else if String.eqb language "python" then "import sys; print('chaos: intentional failure'); sys.exit(1)"
  else if String.eqb language "node" then "console.log('chaos: intentional failure'); process.exit(1)"
  else "".

(** The range that a requested count is brought into. *)
Definition clampCount (default max count : Z) : Z :=
  let count := if count <=? 0 then default else count in
  if max <? count then max else count.

(** The submission loops: [k] rounds from round [i]. *)

Fixpoint failLoop (envs : nat -> LoopEnv) (script language : string) (k i : nat) n : Node S :=
  match k with
  | O => n
  | Datatypes.S k =>
      let env := envs i in
      let taskID := "chaos-fail-" +:+ pretty (UnixNano (leNow env)) +:+ "-" +:+ pretty (Z.of_nat i) in
      let n := EnqueueInlineTask (leCreated env) (leLoc env) taskID script language n in
      failLoop envs script language k (Datatypes.S i) n
  end.

Definition handleChaosFailTasks (envs : nat -> LoopEnv) (pub : PubEnv) (body : result failRequest) n
    : Node S * Response string :=
  match body with
  | inl _ => (n, mkResponse StatusBadRequest (errorBody "invalid JSON"))
  | inr req =>
      let count := clampCount 5 100 (frCount req) in
      let language := if String.eqb (frLanguage req) "" then "bash" else frLanguage req in
      let script := failScripts language in
      let script := if String.eqb script "" then failScripts "bash" else script in
      let n := failLoop envs script language (Z.to_nat count) 0 n in
      let n := announce pub EventBatchSubmitted
        [("count", VString (pretty count)); ("type", VString "chaos-fail")] n in
      (n, mkResponse StatusOK ("{" +:+ quoted "submitted" +:+ ":" +:+ pretty count +:+ "," +:+
         quoted "type" +:+ ":" +:+ quoted "chaos-fail" +:+ "}"))
  end.

(** ** Batches *)

(** The seconds to sleep: [fmt.Sprintf("0.%03d", ms)]. *)
Definition sleepSec (ms : Z) : string := if 0 <? ms then "0." +:+ padded 3 ms else "0.1".

Definition defaultScripts (sleep : string) (ms : Z) (language : string) : string :=
  if String.eqb language "bash" then
    "echo " +:+ quoted "batch-task $(hostname) $$" +:+ "; sleep " +:+ sleep +:+ "; echo " +:+ quoted "done"
  else if String.eqb language "python" then
    "import time, os; print(f" +:+ quoted "batch-task {os.getpid()}" +:+ "); time.sleep(" +:+ sleep
      +:+ "); print(" +:+ quoted "done" +:+ ")"
  else if String.eqb language "node" then
    "console.log(" +:+ quoted "batch-task " +:+ " + process.pid); setTimeout(() => console.log("
      +:+ quoted "done" +:+ "), " +:+ pretty ms +:+ ")"
  else "".

Definition batchScript (req : batchRequest) (language : string) : string :=
  let scripts := defaultScripts (sleepSec (btSleepMs req)) (btSleepMs req) in
  if String.eqb (btScript req) "" then
    let script := scripts language in
    if String.eqb script "" then scripts "bash" else script
  else btScript req.

Definition batchTask (created : Time) (batchID script language : string) (priority : Z) (i : nat) : Task :=
  let t := NewInline created (batchID +:+ "-" +:+ padded 5 (Z.of_nat i)) script language in
  if (0 <=? priority) && (priority <=? 2) then t <| tPriority := priority |> else t.

Fixpoint batchLoop (envs : nat -> LoopEnv) (batchID script language : string) (priority : Z) (k i : nat) n
    : Node S :=
  match k with
  | O => n
  | Datatypes.S k =>
      let env := envs i in
      let t := batchTask (leCreated env) batchID script language priority i in
      let n := EnqueueInlineTaskDirect (leLoc env) (allocTask (leLoc env) t n) in
      batchLoop envs batchID script language priority k (Datatypes.S i) n
  end.

Definition handleBatchSubmit (startTime endTime : Time) (envs : nat -> LoopEnv) (pub : PubEnv)
    (body : result batchRequest) n : Node S * Response string :=
  match body with
  | inl err => (n, mkResponse StatusBadRequest (errorBody ("invalid JSON: " +:+ err)))
  | inr req =>
      let count := clampCount 100 10000 (btCount req) in
      let language := if String.eqb (btLanguage req) "" then "bash" else btLanguage req in
      let script := batchScript req language in
      let batchID := "batch-" +:+ pretty (UnixNano startTime) in
      let n := batchLoop envs batchID script language (btPriority req) (Z.to_nat count) 0 n in
      let elapsed := Sub endTime startTime in
      let n := announce pub EventBatchSubmitted
        [("batch_id", VString batchID); ("count", VString (pretty count)); ("language", VString language)] n in
      (n, mkResponse StatusOK ("{" +:+ quoted "batch_id" +:+ ":" +:+ quoted batchID +:+ "," +:+
         quoted "count" +:+ ":" +:+ pretty count +:+ "," +:+ quoted "elapsed_ms" +:+ ":" +:+
         pretty (Milliseconds elapsed) +:+ "}"))
  end.

(** ** Statistics and lists *)

(** The share of the completed tasks is computed in float64: [percent c t] is
    [math.Round(float64(c)/float64(t)*1000)/10], and [zero] is [0.0]. *)

Record statsJSON (F : Type) := mkStatsJSON {
  sjQueueDepth : Z; sjInFlight : Z; sjRetryPending : Z; sjDeadLettered : Z; sjWorkers : Z;
  sjCompleted : Z; sjFailed : Z; sjSuccessRate : F
}.
Arguments mkStatsJSON {F}.

Definition handleStats {F} (zero : F) (percent : Z -> Z -> F) (ord : list string) n : Response (statsJSON F) :=
  let stats := SchedStats (nWorld n) in
  let total := int64 (TotalCompleted stats + TotalFailed stats) in
  let successRate := if 0 <? total then percent (TotalCompleted stats) total else zero in
  mkResponse StatusOK
    (mkStatsJSON (QueueDepth stats) (InFlight stats) (RetryPending stats) (DeadLettered stats)
       (Z.of_nat (length (GetWorkers ord n))) (TotalCompleted stats) (TotalFailed stats) successRate).

(** [format] is [Format(time.RFC3339)]; [seconds d] is [int64(d.Seconds())]. *)

Definition handleWorkers (format : Time -> string) (seconds : Duration -> Z) (now : Time) (ord : list string) n
    : Response (list workerJSON) :=
  let cbStates := GetAll format (nBreakers n) in
  mkResponse StatusOK
    ((fun wk => {|
        wjID := wkID wk; wjHostname := wkHostname wk; wjState := WorkerState_String (wkState wk);
        wjActiveTasks := wkActiveTasks wk; wjLastHeartbeat := format (wkLastHeartbeat wk);
        wjUptimeSeconds := seconds (Sub now (wkStartTime wk)); wjCircuitBreaker := cbStates !! wkID wk
      |}) <$> GetWorkers ord n).

(** A time as text, left out when zero. *)
Definition formatted (format : Time -> string) (t : Time) : string := if IsZero t then "" else format t.

Definition toTaskJSON (format : Time -> string) (t : Task) : taskJSON := {|
  tjID := tID t; tjScript := tScript t; tjState := State_String (tState t); tjWorkerID := tWorkerID t;
  tjAttempt := tAttempt t; tjPriority := tPriority t; tjType := TaskType_String (tType t);
  tjLanguage := tLanguage t; tjOutput := tOutput t; tjError := tError t; tjExitCode := tExitCode t;
  tjCreatedAt := formatted format (tCreatedAt t); tjAssignedAt := formatted format (tAssignedAt t);
  tjStartedAt := formatted format (tStartedAt t); tjCompletedAt := formatted format (tCompletedAt t);
  tjDurationMs := let d := TaskDuration t in if 0 <? d then Milliseconds d else 0
|}.

Definition handleTasks (format : Time -> string) (ord : list (string * loc)) n : Response (list taskJSON) :=
  mkResponse StatusOK
    ((fun t => toTaskJSON format (mem (nWorld n) !!! t)) <$> AllTasks ord (nWorld n)).

Definition toDlqJSON (format : Time -> string) (t : Task) : dlqJSON := {|
  djID := tID t; djScript := tScript t; djError := tError t; djAttempts := tAttempt t;
  djLanguage := tLanguage t; djType := TaskType_String (tType t); djOutput := tOutput t;
  djExitCode := tExitCode t; djCreatedAt := formatted format (tCreatedAt t)
|}.

Definition handleDeadLetter (format : Time -> string) n : Response (list dlqJSON) :=
  mkResponse StatusOK
    ((fun t => toDlqJSON format (mem (nWorld n) !!! t)) <$> DeadLetterQueue (nWorld n)).

Definition handleRetryDLQ (taskID : string) n : Node S * Response string :=
  if String.eqb taskID "" then (n, mkResponse StatusBadRequest (errorBody "missing task id"))
  else
    let '(w, ok) := SchedRetryFromDLQ taskID (nWorld n) in
    let n := withWorld (fun _ => w) n in
    if ok then (n, mkResponse StatusOK (object1 "retried" (quoted taskID)))
    else (n, mkResponse StatusNotFound (errorBody "task not found in dead letter queue")).

(** ** Documentation *)

(** The embedded files are [readFile]. *)

Definition handleDocsList : Response (list (string * string * string)) :=
  mkResponse StatusOK [
    ("ARCHITECTURE", "Architecture", "System diagrams, communication patterns, and package dependencies");
    ("DISTRIBUTED_SYSTEMS_CONCEPTS", "Distributed Systems Concepts",
     "Every feature mapped to distributed systems theory and real-world systems");
    ("INSTALLATION", "Installation Guide", "Setup for local, Docker Compose, and Kubernetes deployment")].

Definition handleDocContent (readFile : string -> option string) (name : string) : Response string :=
  if String.eqb name "" then mkResponse StatusBadRequest (errorBody "missing doc name")
  else
    match readFile ("docs/" +:+ name +:+ ".md") with
    | None => mkResponse StatusNotFound (errorBody "document not found")
    | Some content => mkResponse StatusOK content
    end.

End master.
