(* ===== verification/MasterFacts.v ===== *)
(** * The HTTP API's lemmas and properties

    The submission loops are one sequence of allocations and [enqueue] calls;
    what such a sequence does to the scheduler; the texts of ids and sleeps. *)

From Stdlib Require Import Ascii.
From stdpp Require Import pretty.
From S2P Require Import Prelude GoTime Task Scheduler SchedulerFacts SchedulerProps.
From S2P Require Import CircuitBreaker Config Store Events NodeServer NodeFacts Master.

Open Scope string_scope.
Open Scope list_scope.
Open Scope Z_scope.

(** ** Texts *)

Lemma digits_zeros k acc s : digits acc (zeros k s) = digits (10 ^ Z.of_nat k * acc) s.
Proof.
  revert acc. induction k as [|k IH]; intros acc; [by rewrite Z.mul_1_l|].
  cbn [zeros digits]. change (digit "0") with (Some 0). cbv iota beta. rewrite IH. f_equal.
  rewrite Nat2Z.inj_succ, Z.pow_succ_r by lia. lia.
Qed.

Lemma digits_padded w n : 0 <= n -> digits 0 (padded w n) = Some n.
Proof.
  intros Hn. unfold padded. rewrite digits_zeros, Z.mul_0_r. destruct n as [|p|p]; [done| |lia].
  exact (proj1 (digits_pretty (Npos p))).
Qed.

Lemma padded_inj w n k : 0 <= n -> 0 <= k -> padded w n = padded w k -> n = k.
Proof.
  intros Hn Hk E. apply (f_equal (digits 0)) in E. rewrite !digits_padded in E by done. congruence.
Qed.

Lemma str_app_inj (s t u : string) : s +:+ t = s +:+ u -> t = u.
Proof. induction s as [|c s IH]; [done|]. intros E. apply IH. by injection E. Qed.

Lemma clampCount_range default max count :
  1 <= default -> 1 <= max -> 1 <= clampCount default max count <= max.
Proof. unfold clampCount. intros. repeat case_match; b2p; lia. Qed.

Section master.
Context {S : Type} `{TaskStore S}.
Implicit Types n : Node S.

(** ** Sequences of submissions *)

Definition submit n (pt : loc * Task) : Node S := enqueue (fst pt) (allocTask (fst pt) (snd pt) n).

Definition submitAll (pts : list (loc * Task)) n : Node S := foldl submit n pts.

(** [n'] is [n] with the tasks [pts] queued and nothing else changed. *)

Record submitted (pts : list (loc * Task)) n n' : Prop := {
  sub_inv : Inv (nWorld n');
  sub_queue : queue (sched (nWorld n')) ≡ₚ pts.*1 ++ queue (sched (nWorld n));
  sub_rest : inFlight (sched (nWorld n')) = inFlight (sched (nWorld n)) /\
    retryQueue (sched (nWorld n')) = retryQueue (sched (nWorld n)) /\
    deadLetter (sched (nWorld n')) = deadLetter (sched (nWorld n)) /\
    completed (sched (nWorld n')) = completed (sched (nWorld n)) /\
    totalCompleted (sched (nWorld n')) = totalCompleted (sched (nWorld n)) /\
    totalFailed (sched (nWorld n')) = totalFailed (sched (nWorld n));
  sub_task : forall p t, (p, t) ∈ pts -> mem (nWorld n') !!! p = t;
  sub_frame : forall p, p ∉ pts.*1 -> mem (nWorld n') !!! p = mem (nWorld n) !!! p;
  sub_notify : notify (sched (nWorld n')) = notify (sched (nWorld n)) || bool_decide (pts <> [])
}.

(** Fresh pointers and unused, distinct ids. *)

Record fresh (pts : list (loc * Task)) n : Prop := {
  fresh_locs : NoDup pts.*1;
  fresh_pool : forall p, p ∈ pts.*1 -> p ∉ pool (nWorld n);
  fresh_ids : NoDup (tID <$> pts.*2);
  fresh_idpool : forall p t u, (p, t) ∈ pts -> u ∈ pool (nWorld n) -> tID t <> idOf (mem (nWorld n)) u
}.

Lemma nWorld_submit pt n :
  nWorld (submit n pt) = Enqueue (fst pt) ((nWorld n) <| mem := <[fst pt := snd pt]> (mem (nWorld n)) |>).
Proof. unfold submit, enqueue, allocTask. by node. Qed.

(** A store to memory that the scheduler does not look at. *)

Lemma Inv_alloc p t (w : World) : p ∉ pool w -> Inv w -> Inv (w <| mem := <[p := t]> (mem w) |>).
Proof.
  intros Hp [Hh Hk Hn].
  assert (forall q, q ∈ pool w -> (<[p := t]> (mem w) : Mem) !!! q = mem w !!! q) as Hm.
  { intros q Hq. rewrite lookup_total_insert_ne; [done|]. by intros ->. }
  split; unfold pool, idOf in *; simpl_fields_goal.
  - intros i Hi Hlt x y Hx Hy. specialize (Hh i Hi Hlt x y Hx Hy). unfold locLess in *.
    rewrite !Hm; [done|..]; apply elem_of_app; left; by eapply list_elem_of_lookup_2.
  - intros id u Hu. rewrite Hm; [by apply Hk|]. rewrite !elem_of_app. right; left.
    apply flight_elem. eauto.
  - erewrite list_fmap_ext; [exact Hn|]. intros i q Hq. cbn. rewrite Hm; [done|].
    by eapply list_elem_of_lookup_2.
Qed.

Lemma submit_spec p t n :
  Inv (nWorld n) -> fresh [(p, t)] n -> submitted [(p, t)] n (submit n (p, t)).
Proof.
  intros HI [_ Hp _ Hid]. specialize (Hp p). specialize (Hid p t).
  assert (p ∉ pool (nWorld n)) as Hpool by (apply Hp; by left).
  pose proof (Inv_alloc p t _ Hpool HI) as HI1.
  destruct (Enqueue_inv p _ HI1) as [HI2 _].
  { unfold pool, idOf. simpl_fields_goal. rewrite list_elem_of_fmap, lookup_total_insert_eq.
    intros (u & E & Hu). apply (Hid u); [by left|exact Hu|]. rewrite E, lookup_total_insert_ne; [done|].
    intros ->. done. }
  split; rewrite nWorld_submit; cbn [fst snd fmap list_fmap app]; unfold Enqueue; world; try done.
  - by rewrite heapPush_perm.
  - intros q u [= -> ->]%list_elem_of_singleton. by rewrite lookup_total_insert_eq.
  - intros q Hq. rewrite lookup_total_insert_ne; [done|]. intros ->. apply Hq. by left.
  - by rewrite orb_comm.
Qed.

Lemma submitted_trans pts1 pts2 n1 n2 n3 :
  (forall p, p ∈ pts1.*1 -> p ∉ pts2.*1) ->
  submitted pts1 n1 n2 -> submitted pts2 n2 n3 -> submitted (pts1 ++ pts2) n1 n3.
Proof.
  intros Hd [I1 Q1 (F1 & R1 & D1 & C1 & S1 & U1) T1 M1 N1] [I2 Q2 (F2 & R2 & D2 & C2 & S2 & U2) T2 M2 N2].
  split; [done|..].
  - rewrite fmap_app, Q2, Q1, !app_assoc. f_equiv. apply Permutation_app_comm.
  - by rewrite F2, F1, R2, R1, D2, D1, C2, C1, S2, S1, U2, U1.
  - intros p t [Hp|Hp]%elem_of_app; [|by apply T2]. rewrite M2; [by apply T1|].
    apply Hd. apply list_elem_of_fmap. by exists (p, t).
  - intros p Hp. rewrite fmap_app, elem_of_app in Hp. rewrite M2, M1; tauto.
  - rewrite N2, N1, <- orb_assoc. f_equal. destruct pts1; [done|]. by rewrite orb_true_l.
Qed.

Lemma submitAll_spec pts n : Inv (nWorld n) -> fresh pts n -> submitted pts n (submitAll pts n).
Proof.
  revert n. induction pts as [|[p t] pts IH]; intros n HI [Hl Hp Hi Hx].
  { split; [done|done|done|by intros ?? ?%elem_of_nil|done|by rewrite orb_false_r]. }
  rewrite !fmap_cons in *. cbn [fst snd] in *.
  apply NoDup_cons in Hl as [Hpl Hl], Hi as [Hti Hi].
  change (submitAll ((p, t) :: pts) n) with (submitAll pts (submit n (p, t))).
  assert (submitted [(p, t)] n (submit n (p, t))) as Hs.
  { apply submit_spec; [done|]. split.
    - apply NoDup_singleton.
    - intros q ->%list_elem_of_singleton. apply Hp. by left.
    - apply NoDup_singleton.
    - intros q u v [= -> ->]%list_elem_of_singleton. apply (Hx p). by left. }
  apply (submitted_trans [(p, t)] pts n (submit n (p, t)) _); [by intros q ->%list_elem_of_singleton|exact Hs|].
  destruct Hs as [HI' Q (F & R & D & _) T M _].
  assert (pool (nWorld (submit n (p, t))) ≡ₚ p :: pool (nWorld n)) as Hpool.
  { unfold pool, flight. by rewrite Q, F, R, D. }
  apply IH; [done|]. split; [done| |done|].
  - intros q Hq. rewrite Hpool. intros [->|Hq']%elem_of_cons; [done|]. revert Hq'. apply Hp. by right.
  - intros q u v Hq. rewrite Hpool. unfold idOf. intros [->|Hv]%elem_of_cons.
    + rewrite (T p t) by (by left). intros E. apply Hti. cbn. rewrite <- E.
      apply list_elem_of_fmap. exists u. split; [done|]. apply list_elem_of_fmap. by exists (q, u).
    + rewrite M; [by apply (Hx q); [right|]|]. intros ->%list_elem_of_singleton.
      apply (Hp p); [by left|done].
Qed.

(** ** The submission loops *)

Definition batchEntries (envs : nat -> LoopEnv) (batchID script language : string) (priority : Z) (k i : nat)
    : list (loc * Task) :=
  (fun i => (leLoc (envs i), batchTask (leCreated (envs i)) batchID script language priority i)) <$> seq i k.

Lemma batchLoop_submitAll envs batchID script language priority k i n :
  batchLoop envs batchID script language priority k i n =
  submitAll (batchEntries envs batchID script language priority k i) n.
Proof. revert i n. induction k as [|k IH]; intros i n; [done|]. cbn [batchLoop]. by rewrite IH. Qed.

Definition failEntries (envs : nat -> LoopEnv) (script language : string) (k i : nat) : list (loc * Task) :=
  (fun i => (leLoc (envs i), NewInline (leCreated (envs i))
     ("chaos-fail-" +:+ pretty (UnixNano (leNow (envs i))) +:+ "-" +:+ pretty (Z.of_nat i)) script language))
    <$> seq i k.

Lemma failLoop_submitAll envs script language k i n :
  failLoop envs script language k i n = submitAll (failEntries envs script language k i) n.
Proof. revert i n. induction k as [|k IH]; intros i n; [done|]. cbn [failLoop]. by rewrite IH. Qed.

Lemma batchTask_fields created batchID script language priority i :
  let t := batchTask created batchID script language priority i in
  tID t = batchID +:+ "-" +:+ padded 5 (Z.of_nat i) /\ tState t = StateQueued /\ tType t = TaskTypeInline /\
  tContent t = script /\ tLanguage t = language /\ tAttempt t = 0 /\ tMaxRetries t = 3 /\
  tCreatedAt t = created /\
  tPriority t = (if (0 <=? priority) && (priority <=? 2) then priority else PriorityNormal).
Proof. cbv zeta. unfold batchTask. by case_match. Qed.

Lemma batchEntries_ids envs batchID script language priority k i :
  NoDup (tID <$> (batchEntries envs batchID script language priority k i).*2).
Proof.
  unfold batchEntries. rewrite <- !list_fmap_compose.
  apply (NoDup_fmap_2_strong _ (seq i k)); [|apply NoDup_seq].
  intros x y _ _ E. cbn in E.
  rewrite (proj1 (batchTask_fields _ _ _ _ _ x)), (proj1 (batchTask_fields _ _ _ _ _ y)) in E.
  apply str_app_inj, (str_app_inj "-"), padded_inj in E; lia.
Qed.

(** Claim C26: a batch request queues as many tasks as it asks for, brought into
    1 to 10,000 (100 when it asks for none), under distinct ids, each with the
    request's script, language and (when it is 0, 1 or 2) priority; the scheduler
    keeps its invariant and everything else it holds. *)
Theorem batch_queues_its_tasks (startTime endTime : Time) (envs : nat -> LoopEnv) (pub : PubEnv)
  (req : batchRequest) n (HI : Inv (nWorld n)) :
  let count := clampCount 100 10000 (btCount req) in
  let batchID := "batch-" +:+ pretty (UnixNano startTime) in
  let locs := (fun i => leLoc (envs i)) <$> seq 0 (Z.to_nat count) in
  NoDup locs -> (forall p, p ∈ locs -> p ∉ pool (nWorld n)) ->
  (forall t i, t ∈ pool (nWorld n) -> idOf (mem (nWorld n)) t <> batchID +:+ "-" +:+ padded 5 i) ->
  let '(n', r) := handleBatchSubmit startTime endTime envs pub (inr req) n in
  rsStatus r = StatusOK /\
  (1 <= count <= 10000 /\ (1 <= btCount req <= 10000 -> count = btCount req)) /\
  exists ts, Z.of_nat (length ts) = count /\ NoDup (tID <$> ts) /\
    submitted (zip locs ts) n n' /\
    forall t, t ∈ ts -> tState t = StateQueued /\ tType t = TaskTypeInline /\
      (btScript req <> "" -> tContent t = btScript req) /\
      tLanguage t = (if String.eqb (btLanguage req) "" then "bash" else btLanguage req) /\
      tPriority t = (if (0 <=? btPriority req) && (btPriority req <=? 2) then btPriority req else PriorityNormal).
Proof.
  intros count batchID locs Hl Hp Hx. cbn -[clampCount]. fold count batchID.
  set (script := batchScript _ _). set (language := if String.eqb (btLanguage req) "" then _ else _) in *.
  set (es := batchEntries envs batchID script language (btPriority req) (Z.to_nat count) 0).
  assert (es.*1 = locs) as El by (subst es; unfold batchEntries; by rewrite <- list_fmap_compose).
  assert (zip locs es.*2 = es) as Ez by (rewrite <- El; apply zip_fst_snd).
  assert (1 <= count <= 10000) as Hc by (apply clampCount_range; lia).
  split_and!; [done|lia|lia| |].
  { intros Hr. subst count. unfold clampCount. repeat case_match; b2p; lia. }
  exists es.*2. split_and!.
  - subst es. unfold batchEntries. rewrite !length_fmap, length_seq. lia.
  - apply batchEntries_ids.
  - rewrite Ez, batchLoop_submitAll. fold es.
    assert (submitted es n (submitAll es n)) as [].
    { apply submitAll_spec; [done|]. split; rewrite ?El; try done; [apply batchEntries_ids|].
      intros p t u (i & [= -> ->] & _)%list_elem_of_fmap Hu.
      rewrite (proj1 (batchTask_fields _ _ _ _ _ i)). intros E. by apply (Hx u (Z.of_nat i)). }
    unfold announce. split; by node.
  - intros t ((p & u) & -> & (i & [= -> ->] & _)%list_elem_of_fmap)%list_elem_of_fmap. cbn [snd].
    destruct (batchTask_fields (leCreated (envs i)) batchID script language (btPriority req) i)
      as (_ & -> & -> & -> & -> & _ & _ & _ & ->).
    split_and!; try done. intros Hs. subst script. unfold batchScript.
    by rewrite (proj2 (String.eqb_neq _ _) Hs).
Qed.

(** Claim C25: a submission whose body cannot be decoded or has no script gets
    status 400 and changes nothing; any other one queues one inline task with the
    script, in bash when no language is given, and announces it under its id. *)
Theorem submission_is_queued (env : LoopEnv) (body : result submitRequest) n (HI : Inv (nWorld n)) :
  let '(n', r) := handleSubmit env body n in
  match body with
  | inr (mkSubmit lang script) =>
      if decide (script = "") then rsStatus r = StatusBadRequest /\ n' = n
      else
        let language := if decide (lang = "") then "bash" else lang in
        let id := "inline-" +:+ pretty (UnixNano (leNow env)) in
        rsStatus r = StatusOK /\
        (leLoc env ∉ pool (nWorld n) -> (forall t, t ∈ pool (nWorld n) -> idOf (mem (nWorld n)) t <> id) ->
         submitted [(leLoc env, NewInline (leCreated env) id script language)] n n') /\
        nBus n' = announced (lePub env) EventTaskQueued
          [("task_id", VString id); ("type", VString "inline"); ("language", VString language)] (nBus n)
  | inl _ => rsStatus r = StatusBadRequest /\ n' = n
  end.
Proof.
  destruct body as [err|[lang script]]; cbn [handleSubmit sbScript sbLanguage]; [done|].
  destruct (String.eqb_spec script "") as [->|Hs]; [by rewrite decide_True|].
  rewrite (decide_False (P := script = "")) by done.
  assert ((if String.eqb lang "" then "bash" else lang) = if decide (lang = "") then "bash" else lang) as ->.
  { destruct (String.eqb_spec lang ""); by case_decide. }
  cbv zeta. set (language := if decide (lang = "") then _ else _). split; [done|].
  unfold announce, EnqueueInlineTask, enqueue, allocTask. split; [|by node].
  intros Hp Hx.
  destruct (submit_spec (leLoc env) (NewInline (leCreated env)
    ("inline-" +:+ pretty (UnixNano (leNow env))) script language) n HI) as [I' Q (F&R&D&C&T1&T2) T M N].
  { split; cbn.
    - apply NoDup_singleton.
    - by intros q ->%list_elem_of_singleton.
    - apply NoDup_singleton.
    - intros q u v [= -> ->]%list_elem_of_singleton Hv E. by apply (Hx v). }
  rewrite nWorld_submit in *. split; node; cbn [fst snd] in *; try done.
Qed.

(** ** The dead letter queue *)

Lemma findTask_filter (m : Mem) id l i t :
  NoDup (idOf m <$> l) -> findTask m id l = Some i -> l !! i = Some t ->
  take i l ++ drop (Datatypes.S i) l = filter (fun u => idOf m u <> id) l.
Proof.
  revert i. induction l as [|u l IH]; intros i; [done|]. cbn [findTask fmap list_fmap].
  intros [Hu Hn]%NoDup_cons. destruct (String.eqb_spec (tID (m !!! u)) id) as [E|E].
  - intros [= <-] _. rewrite filter_cons, decide_False by (unfold idOf; tauto). cbn [take drop app].
    symmetry. apply list_filter_all. intros v Hv Ev. apply Hu. unfold idOf in *. rewrite E, <- Ev.
    by apply (list_elem_of_fmap_2 (idOf m)).
  - destruct (findTask m id l) as [j|] eqn:Ej; intros [= <-] Ht.
    rewrite filter_cons, decide_True by done. cbn. f_equal. by apply IH.
Qed.

(** A retry request for a task of the dead-letter listing succeeds: it
    takes exactly that task off the listing and queues it again, with no attempts
    used; for any other id the answer is 404 (400 for none) and nothing changes. *)
Theorem dead_letter_retry (format : Time -> string) (id : string) n (HI : Inv (nWorld n)) :
  let listing n := rsBody (handleDeadLetter format n) in
  let '(n', r) := handleRetryDLQ id n in
  if decide (id <> "" /\ id ∈ djID <$> listing n) then
    rsStatus r = StatusOK /\ listing n' = filter (fun d => djID d <> id) (listing n) /\
    Inv (nWorld n') /\
    exists t, t ∈ deadLetter (sched (nWorld n)) /\ idOf (mem (nWorld n)) t = id /\
      queue (sched (nWorld n')) ≡ₚ t :: queue (sched (nWorld n)) /\
      (tState (mem (nWorld n) !!! t) = StateDead ->
       tState (mem (nWorld n') !!! t) = StateQueued /\ tAttempt (mem (nWorld n') !!! t) = 0)
  else n' = n /\ rsStatus r = (if decide (id = "") then StatusBadRequest else StatusNotFound).
Proof.
  intros listing.
  assert (forall n, djID <$> listing n = idOf (mem (nWorld n)) <$> deadLetter (sched (nWorld n))) as Hids.
  { intros m. subst listing. unfold handleDeadLetter, DeadLetterQueue. cbn [rsBody]. by rewrite <- list_fmap_compose. }
  unfold handleRetryDLQ. destruct (String.eqb_spec id "") as [->|Hid].
  { rewrite decide_False by tauto. by rewrite decide_True. }
  pose proof (SchedRetryFromDLQ_conserves id (nWorld n) HI) as (HI' & Hst & _).
  destruct (findTask (mem (nWorld n)) id (deadLetter (sched (nWorld n)))) as [i|] eqn:Hi.
  - destruct (findTask_Some _ _ _ _ Hi) as (t & Ht & Et & Hp).
    destruct (SchedRetryFromDLQ_found id _ i t Hi Ht) as (w' & E & Hm & Hq & Hd & _).
    rewrite E in *. cbn [fst] in *.
    assert (t ∈ deadLetter (sched (nWorld n))) as Hin by (by eapply list_elem_of_lookup_2).
    assert (NoDup (idOf (mem (nWorld n)) <$> deadLetter (sched (nWorld n)))) as Hnd.
    { destruct HI as [_ _ Hn]. unfold pool in Hn. rewrite !fmap_app in Hn.
      apply NoDup_app in Hn as (_ & _ & Hn). apply NoDup_app in Hn as (_ & _ & Hn).
      by apply NoDup_app in Hn as (_ & _ & Hn). }
    rewrite decide_True.
    2:{ split; [done|]. rewrite Hids, <- Et. by apply list_elem_of_fmap_2. }
    rewrite nWorld_world. split_and!; [done| |done|].
    + subst listing. unfold handleDeadLetter, DeadLetterQueue. cbn [rsBody].
      rewrite !nWorld_world, Hd, (findTask_filter _ _ _ _ _ Hnd Hi Ht).
      rewrite <- list_fmap_filter. cbn [djID toDlqJSON]. apply list_fmap_ext.
      intros k u Hu%list_elem_of_lookup_2%list_elem_of_filter. destruct Hu as [Hu _].
      rewrite Hm, onTask_lookup, decide_False; [done|]. intros ->. by apply Hu.
    + exists t. split_and!; [done|done|by rewrite Hq, heapPush_perm|]. intros Hdead.
      rewrite Hm, onTask_lookup, decide_True by done. unfold RetryFromDLQ.
      rewrite Transition_ok by (rewrite Hdead; set_solver). cbn [fst]. by simpl_fields_goal.
  - assert (SchedRetryFromDLQ id (nWorld n) = (nWorld n, false)) as E
      by (unfold SchedRetryFromDLQ; by rewrite Hi).
    rewrite E. rewrite decide_False.
    2:{ rewrite Hids. intros [_ (t & Et & Ht)%list_elem_of_fmap].
        by apply (proj1 (findTask_None _ _ _) Hi t). }
    rewrite decide_False by done. split; [|done]. by destruct n.
Qed.

End master.

(** ** The sleep of a batch task *)

Lemma digits_bound acc s v : digits acc s = Some v ->
  10 ^ Z.of_nat (String.length s) * acc <= v < 10 ^ Z.of_nat (String.length s) * (acc + 1).
Proof.
  revert acc. induction s as [|c s IH]; intros acc; cbn [digits String.length].
  { intros [= ->]. cbn. lia. }
  destruct (digit c) as [d|] eqn:E; [|done]. intros Hv%IH.
  assert (0 <= d <= 9) as Hd by (unfold digit in E; case_match; [|done]; injection E as <-; b2p; lia).
  rewrite Nat2Z.inj_succ, Z.pow_succ_r by lia.
  pose proof (Z.pow_pos_nonneg 10 (Z.of_nat (String.length s)) ltac:(lia) ltac:(lia)). nia.
Qed.

Lemma zeros_length k s : String.length (zeros k s) = (k + String.length s)%nat.
Proof. induction k as [|k IH]; [done|]. cbn. by rewrite IH. Qed.

Lemma padded_length_small ms : 1 <= ms <= 999 -> String.length (padded 3 ms) = 3%nat.
Proof.
  intros Hms.
  assert (Forall (fun i => String.length (padded 3 (Z.of_nat i)) = 3%nat) (seq 0 1000)) as Hall
    by (apply (bool_decide_unpack _); vm_compute; reflexivity).
  rewrite Forall_forall in Hall. rewrite <- (Z2Nat.id ms) by lia. apply Hall, elem_of_seq. lia.
Qed.

(** The number of seconds that a bash or python batch task sleeps is
    written as [0.] and digits, so it is always below one second: the digits are
    those of the requested milliseconds, which are thousandths of a second only
    up to 999; 1500 milliseconds become 0.15 seconds. *)
Theorem batch_sleep_below_second (ms : Z) (Hms : 1 <= ms) :
  (exists s, sleepSec ms = "0." +:+ s /\ digits 0 s = Some ms /\
    ms < 10 ^ Z.of_nat (String.length s) /\ (String.length s = 3%nat <-> ms <= 999)) /\
  sleepSec 1500 = "0.1500".
Proof.
  split; [|reflexivity]. unfold sleepSec. rewrite (proj2 (Z.ltb_lt _ _)) by lia.
  exists (padded 3 ms). pose proof (digits_padded 3 ms ltac:(lia)) as Hd.
  pose proof (digits_bound _ _ _ Hd) as Hb. split_and!; [done|done|lia|split].
  - intros E. rewrite E in Hb. change (10 ^ Z.of_nat 3) with 1000 in Hb. lia.
  - intros ?. by apply padded_length_small.
Qed.

(** ** Witnesses *)

Definition demoLoop (i : nat) : LoopEnv :=
  mkLoopEnv (Z.of_nat i) (Z.of_nat i) (Pos.of_nat (10 + i)) (mkPubEnv (Z.of_nat i) []).

Definition demoBatch : batchRequest := mkBatch 3 "python" "" 250 PriorityHigh.

Lemma batch_queues_its_tasks_witness :
  let '(n', r) := handleBatchSubmit 0 1 demoLoop (mkPubEnv 1 []) (inr demoBatch) (demoNode demoQueued) in
  rsStatus r = StatusOK /\ 10%positive ∈ queue (sched (nWorld n')).
Proof.
  pose proof (batch_queues_its_tasks 0 1 demoLoop (mkPubEnv 1 []) demoBatch (demoNode demoQueued)) as H.
  rewrite nWorld_demo in H. specialize (H demoQueued_inv). cbv zeta in H.
  destruct (handleBatchSubmit _ _ _ _ _ _) as [n' r].
  destruct H as (H1 & _ & ts & Hl & _ & [_ Hq _ _ _ _] & _).
  - apply (bool_decide_unpack _). vm_compute. exact I.
  - intros p Hp. apply (proj1 (list_elem_of_fmap _ _ _)) in Hp as (i & -> & Hi).
    apply elem_of_seq in Hi. change (Z.to_nat _) with 3%nat in Hi.
    destruct i as [|[|[|]]]; [..|lia]; apply (bool_decide_unpack _); vm_compute; exact I.
  - intros t i Ht E.
    assert (Forall (fun u => String.length (idOf (mem demoQueued) u) = 1%nat) (pool demoQueued)) as HF
      by (apply (bool_decide_unpack _); vm_compute; exact I).
    rewrite Forall_forall in HF. specialize (HF t Ht).
    rewrite E, !str_length_app in HF. cbn in HF. lia.
  - split; [exact H1|]. rewrite Hq. apply elem_of_app. left.
    change (Z.to_nat _) with 3%nat in Hl |- *. destruct ts as [|a ts]; [discriminate Hl|]. by left.
Defined.

Lemma submission_is_queued_witness :
  let '(n', r) := handleSubmit (demoLoop 0) (inr (mkSubmit "" "echo hi")) (demoNode demoQueued) in
  rsStatus r = StatusOK /\ 10%positive ∈ queue (sched (nWorld n')).
Proof.
  pose proof (submission_is_queued (demoLoop 0) (inr (mkSubmit "" "echo hi")) (demoNode demoQueued)) as H.
  rewrite nWorld_demo in H. specialize (H demoQueued_inv). cbv zeta in H.
  destruct (handleSubmit _ _ _) as [n' r]. rewrite decide_False in H by done.
  destruct H as (H1 & Hs & _). split; [exact H1|].
  destruct Hs as [_ Hq _ _ _ _].
  - apply (bool_decide_unpack _). vm_compute. exact I.
  - intros t Ht E.
    assert (Forall (fun u => String.length (idOf (mem demoQueued) u) = 1%nat) (pool demoQueued)) as HF
      by (apply (bool_decide_unpack _); vm_compute; exact I).
    rewrite Forall_forall in HF. specialize (HF t Ht). rewrite E in HF. vm_compute in HF. discriminate HF.
  - rewrite Hq. apply elem_of_app. left. apply (bool_decide_unpack _). vm_compute. exact I.
Defined.

Lemma dead_letter_retry_witness :
  Inv demoBuried /\ rsStatus (snd (handleRetryDLQ "b" (demoNode demoBuried))) = StatusOK /\
  rsBody (handleDeadLetter (fun _ => "") (fst (handleRetryDLQ "b" (demoNode demoBuried)))) = [].
Proof.
  assert (Inv demoBuried) as HI.
  { split; [intros i Hi Hlt x y Hx; discriminate Hx | intros id t Ht; discriminate Ht
           | apply (bool_decide_unpack _); vm_compute; exact I]. }
  split; [exact HI|]. pose proof (dead_letter_retry (fun _ => "") "b" (demoNode demoBuried)) as H.
  rewrite nWorld_demo in H. specialize (H HI). cbv zeta in H.
  destruct (handleRetryDLQ _ _) as [n' r].
  rewrite decide_True in H by (apply (bool_decide_unpack _); vm_compute; exact I).
  destruct H as (H1 & H2 & _). split; [exact H1|]. cbn [fst]. rewrite H2. vm_compute. reflexivity.
Defined.

Lemma batch_sleep_below_second_witness : exists s, sleepSec 250 = "0." +:+ s /\ digits 0 s = Some 250.
Proof. destruct (batch_sleep_below_second 250 ltac:(lia)) as [(s & H1 & H2 & _) _]. exists s. exact (conj H1 H2). Defined.
