(* ===== verification/Worker.v ===== *)
(** * The worker: [internal/worker/worker.go]

    Two parts: how one assignment is executed and reported ([executeTask] and its
    three handlers), as functions of what the operating system answers, with the
    system calls they make in order; and the process that receives assignments
    ([Start]), as a step relation on its goroutines, its two channels, its
    semaphore and its counters. *)

From S2P Require Import Prelude GoTime Task Config Store NodeServer.

Open Scope string_scope.
Open Scope list_scope.
Open Scope Z_scope.

(** ** Executing one assignment *)

(** The file, the arguments and the working directory of [exec.Command]. *)
Record Cmd := mkCmd { cmdName : string; cmdArgs : list string; cmdDir : string }.

#[export] Instance Cmd_struct : Struct Cmd := fun c => mkCmd (cmdName c) (cmdArgs c) (cmdDir c).

#[export] Instance Cmd_eq_dec : EqDecision Cmd.
Proof. solve_decision. Defined.

(** An error of an execution: an [*exec.ExitError] with its exit code, or any
    other error; both with their text. *)
Inductive ExecErr := ExitError (code : Z) (text : string) | OtherError (text : string).

Definition errText (e : ExecErr) : string := match e with ExitError _ s | OtherError s => s end.

(** What the operating system and the base64 decoder answer. *)
Record OsEnv := mkOsEnv {
  osCreateTemp : string -> result string;
  osWriteString : error;
  osChmod : error;
  osDecode : string -> result string;
  osMkdirTemp : string -> result string;
  osWriteFile : string -> error;
  osCombinedOutput : Cmd -> string * option ExecErr;
  osJoin : string -> string -> string   (* filepath.Join *)
}.

(** The calls that change the file system or run a command. *)
Inductive OsCall :=
| CreateTemp (name : string) | WriteString (name content : string) | Chmod (name : string)
| Remove (name : string) | MkdirTemp (name : string) | WriteFile (name content : string)
| RemoveAll (name : string) | Run (c : Cmd).

Definition Outcome : Type := list OsCall * (string * option ExecErr).

Definition failed (calls : list OsCall) (text : string) : Outcome := (calls, ("", Some (OtherError text))).

(** [cmd.CombinedOutput()]. *)
Definition run (os : OsEnv) (c : Cmd) : Outcome := ([Run c], osCombinedOutput os c).

(** The calls before, and the deferred ones after, an outcome. *)
Definition between (pre : list OsCall) (o : Outcome) (post : list OsCall) : Outcome :=
  (pre ++ fst o ++ post, snd o).

Definition interpreters (lang : string) : option string :=
  if String.eqb lang "bash" then Some "/bin/bash"
  else if String.eqb lang "sh" then Some "/bin/sh"
  else if String.eqb lang "python" then Some "python3"
  else if String.eqb lang "node" then Some "node"
  else None.

Definition executeScriptPath (os : OsEnv) (t : TaskAssignment) : Outcome :=
  run os (mkCmd "/bin/bash" [asScript t] "").

Definition inlineExt (lang : string) : string :=
  if String.eqb lang "python" then ".py" else if String.eqb lang "node" then ".js" else ".sh".

Definition executeInline (os : OsEnv) (t : TaskAssignment) : Outcome :=
  let lang := if String.eqb (asLanguage t) "" then "bash" else asLanguage t in
  match interpreters lang with
  | None => failed [] ("unsupported language: " +:+ lang +:+ " (supported: bash, python, node)")
  | Some interpreter =>
      match osCreateTemp os ("mw-inline-*" +:+ inlineExt lang) with
      | inl err => failed [] ("create temp file: " +:+ err)
      | inr name =>
          between [CreateTemp name]
            (match osWriteString os with
             | Some err => failed [WriteString name (asContent t)] ("write script: " +:+ err)
             | None =>
                 between [WriteString name (asContent t); Chmod name]
                   (match osChmod os with
                    | Some err => failed [] ("chmod temp file: " +:+ err)
                    | None => run os (mkCmd interpreter [name] "")
                    end) []
             end)
            [Remove name]
      end
  end.

Definition executeArchive (os : OsEnv) (t : TaskAssignment) : Outcome :=
  match osDecode os (asContent t) with
  | inl err => failed [] ("decode base64 archive: " +:+ err)
  | inr archiveData =>
      match osMkdirTemp os "mw-archive-*" with
      | inl err => failed [] ("create temp dir: " +:+ err)
      | inr tmpDir =>
          between [MkdirTemp tmpDir]
            (let archivePath := osJoin os tmpDir "archive.tar.gz" in
             between [WriteFile archivePath archiveData]
               (match osWriteFile os archivePath with
                | Some err => failed [] ("write archive: " +:+ err)
                | None =>
                    let extractCmd := mkCmd "tar" ["xzf"; archivePath; "-C"; tmpDir] "" in
                    match osCombinedOutput os extractCmd with
                    | (extractOut, Some err) =>
                        ([Run extractCmd], (extractOut, Some (OtherError ("extract archive: " +:+ errText err))))
                    | (_, None) =>
                        let entrypoint := if String.eqb (asEntrypoint t) "" then "./run.sh" else asEntrypoint t in
                        let lang := if String.eqb (asLanguage t) "" then "bash" else asLanguage t in
                        let interpreter := default "/bin/bash" (interpreters lang) in
                        between [Run extractCmd] (run os (mkCmd interpreter ["-c"; entrypoint] tmpDir)) []
                    end
                end) [])
            [RemoveAll tmpDir]
      end
  end.

Definition execute (os : OsEnv) (t : TaskAssignment) : Outcome :=
  match asTaskType t with
  | TaskTypeInline => executeInline os t
  | TaskTypeArchive => executeArchive os t
  | _ => executeScriptPath os t
  end.

(** [executeTask] up to the report it sends. *)
Definition executeTask (os : OsEnv) (workerID : string) (startedAt completedAt : Time) (t : TaskAssignment)
    : list OsCall * TaskReport :=
  let '(calls, (output, execErr)) := execute os t in
  (calls, {|
    rpTaskId := asTaskId t; rpWorkerId := workerID;
    rpState := match execErr with Some _ => TASK_FAILED | None => TASK_COMPLETED end;
    rpOutput := output;
    rpErrorMessage := match execErr with Some e => errText e | None => "" end;
    rpStartedAt := Some startedAt; rpCompletedAt := Some completedAt;
    rpExitCode := match execErr with
                  | Some (ExitError code _) => int32 code
                  | Some (OtherError _) => -1
                  | None => 0
                  end
  |}).

(** ** The process *)

(** The receiving goroutine: before [stream.Recv], sending on [taskChan], ended. *)
Inductive Receiver := Receiving | Passing (a : TaskAssignment) | Ended.

(** Why [Start] returned. *)
Inductive Exit := ExitShutdown | ExitEOF | ExitStreamError (err : string).

(** The value that [Start] returns. *)
Definition exitError (e : Exit) : error :=
  match e with ExitStreamError err => Some ("task stream error: " +:+ err) | _ => None end.

(** The main goroutine: at its [select]; with an assignment, waiting for a slot;
    with a slot, before the [go] statement; in [wg.Wait()]; returned. *)
Inductive MainPC :=
| AtSelect | Waiting (a : TaskAssignment) | Spawning (a : TaskAssignment) | Draining | Returned (e : Exit).

(** A task's goroutine: in [executeTask]; before [<-w.sem]; before
    [w.activeTasks.Add(-1)]; before [wg.Done()]. *)
Inductive TaskPC := Executing | Reported | Released | Uncounted.

#[export] Instance TaskPC_eq_dec : EqDecision TaskPC.
Proof. solve_decision. Defined.

(** [errChan]'s content, [ctx]'s cancellation, the tokens in [sem], the counters,
    the live task goroutines; and, for the statements, in order, what the stream
    delivered, what was started, what was executed and its report's RPC succeeded,
    and what was executed and the RPC failed, which is only logged. *)
Record Worker := mkWorkerProc {
  receiver : Receiver; main : MainPC; errChan : option Exit; ctxDone : bool;
  sem : nat; activeTasks : Z; wg : nat; running : gmap positive (TaskAssignment * TaskPC);
  received : list TaskAssignment; started : list TaskAssignment; reported : list TaskAssignment;
  unreported : list TaskAssignment
}.

#[export] Instance Worker_struct : Struct Worker := fun w =>
  mkWorkerProc (receiver w) (main w) (errChan w) (ctxDone w) (sem w) (activeTasks w) (wg w) (running w)
    (received w) (started w) (reported w) (unreported w).

(** [NewWorker]'s capacity of [sem]. *)
Definition maxConcurrent (cfg : Config) : nat :=
  Z.to_nat (if MaxConcurrentTasks cfg <=? 0 then 16 else MaxConcurrentTasks cfg).

(** The state once the stream is open. *)
Definition newWorker : Worker := {|
  receiver := Receiving; main := AtSelect; errChan := None; ctxDone := false; sem := 0; activeTasks := 0;
  wg := 0; running := ∅; received := []; started := []; reported := []; unreported := []
|}.

(** The goroutine [i] goes on to [pc]. *)
Definition setTask (i : positive) (a : TaskAssignment) (pc : TaskPC) (w : Worker) : Worker :=
  w <| running := <[i := (a, pc)]> (running w) |>.

(** The choices of a step: which goroutine moves, and what the outside does. *)
Inductive Act :=
| Recv (a : TaskAssignment)            (* stream.Recv returns an assignment *)
| RecvErr (e : Exit)                   (* stream.Recv returns an error, io.EOF or another *)
| Signal                               (* SIGINT or SIGTERM cancels ctx *)
| TakeTask | TakeErr | TakeDone        (* a case of the main select *)
| Acquire | AcquireDone                (* a case of the inner select *)
| Go (i : positive)                    (* wg.Add, activeTasks.Add and the go statement *)
| Report (i : positive) (ok : bool)    (* executeTask returns; did the report get through? *)
| Release (i : positive) | Uncount (i : positive) | WgDone (i : positive)   (* the deferred calls *)
| Drained.                             (* wg.Wait returns *)

(** One step; [None] when the goroutine of the act cannot take it. *)
Definition step (cap : nat) (act : Act) (w : Worker) : option Worker :=
  match act with
  | Recv a =>
      match receiver w with
      | Receiving => Some (w <| receiver := Passing a |> <| received := received w ++ [a] |>)
      | _ => None
      end
  | RecvErr e =>
      match receiver w, e with
      | Receiving, (ExitEOF | ExitStreamError _) => Some (w <| receiver := Ended |> <| errChan := Some e |>)
      | _, _ => None
      end
  | Signal => Some (w <| ctxDone := true |>)
  | TakeTask =>
      match main w, receiver w with
      | AtSelect, Passing a => Some (w <| receiver := Receiving |> <| main := Waiting a |>)
      | _, _ => None
      end
  | TakeErr =>
      match main w, errChan w with
      | AtSelect, Some e => Some (w <| errChan := None |> <| main := Returned e |>)
      | _, _ => None
      end
  | TakeDone =>
      match main w with
      | AtSelect => if ctxDone w then Some (w <| main := Draining |>) else None
      | _ => None
      end
  | Acquire =>
      match main w with
      | Waiting a =>
          if bool_decide (sem w < cap)%nat
          then Some (w <| sem := S (sem w) |> <| main := Spawning a |>) else None
      | _ => None
      end
  | AcquireDone =>
      match main w with
      | Waiting a => if ctxDone w then Some (w <| main := Draining |>) else None
      | _ => None
      end
  | Go i =>
      match main w, running w !! i with
      | Spawning a, None =>
          Some (setTask i a Executing
            (w <| main := AtSelect |> <| wg := S (wg w) |> <| activeTasks := int32 (activeTasks w + 1) |>
               <| started := started w ++ [a] |>))
      | _, _ => None
      end
  | Report i ok =>
      match running w !! i with
      | Some (a, Executing) =>
          Some (setTask i a Reported (if ok then w <| reported := reported w ++ [a] |>
                                      else w <| unreported := unreported w ++ [a] |>))
      | _ => None
      end
  | Release i =>
      match running w !! i with
      | Some (a, Reported) => Some (setTask i a Released (w <| sem := pred (sem w) |>))
      | _ => None
      end
  | Uncount i =>
      match running w !! i with
      | Some (a, Released) => Some (setTask i a Uncounted (w <| activeTasks := int32 (activeTasks w - 1) |>))
      | _ => None
      end
  | WgDone i =>
      match running w !! i with
      | Some (a, Uncounted) => Some (w <| wg := pred (wg w) |> <| running := delete i (running w) |>)
      | _ => None
      end
  | Drained =>
      match main w with
      | Draining => if bool_decide (wg w = 0)%nat then Some (w <| main := Returned ExitShutdown |>) else None
      | _ => None
      end
  end.

Fixpoint steps (cap : nat) (acts : list Act) (w : Worker) : option Worker :=
  match acts with
  | [] => Some w
  | act :: acts => w ← step cap act w; steps cap acts w
  end.

(** A heartbeat reads the counter. *)
Definition heartbeat (id : string) (w : Worker) : Heartbeat := mkHeartbeat id (activeTasks w).

(** ** Lemmas: the process *)

Definition tasks (w : Worker) : list (TaskAssignment * TaskPC) := (map_to_list (running w)).*2.

(** The goroutines that hold a token, that the counter counts, that execute. *)
Definition holding (w : Worker) : list (TaskAssignment * TaskPC) :=
  filter (fun t => snd t = Executing \/ snd t = Reported) (tasks w).
Definition counted (w : Worker) : list (TaskAssignment * TaskPC) := filter (fun t => snd t <> Uncounted) (tasks w).
Definition executing (w : Worker) : list TaskAssignment := (filter (fun t => snd t = Executing) (tasks w)).*1.

(** Received and not started: in the receiver, and before it in [main]. *)
Definition inReceiver (r : Receiver) : list TaskAssignment := match r with Passing a => [a] | _ => [] end.
Definition slot (m : MainPC) : nat := match m with Spawning _ => 1 | _ => 0 end.
Definition inMain (m : MainPC) (d : list TaskAssignment) : Prop :=
  match m with
  | AtSelect => d = []
  | Waiting a | Spawning a => d = [a]
  | Draining | Returned _ => (length d <= 1)%nat
  end.

Record WorkerInv (cap : nat) (w : Worker) : Prop := {
  wi_sem : sem w = (length (holding w) + slot (main w))%nat;
  wi_cap : (sem w <= cap)%nat;
  wi_wg : wg w = length (tasks w);
  wi_active : activeTasks w = int32 (Z.of_nat (length (counted w)));
  wi_flow : exists d, inMain (main w) d /\ received w = started w ++ d ++ inReceiver (receiver w);
  wi_started : started w ≡ₚ reported w ++ unreported w ++ executing w;
  wi_err : errChan w <> Some ExitShutdown;
  wi_done : main w = Returned ExitShutdown -> tasks w = []
}.

Lemma tasks_new i x (m : gmap positive (TaskAssignment * TaskPC)) :
  m !! i = None -> (map_to_list (<[i := x]> m)).*2 ≡ₚ x :: (map_to_list m).*2.
Proof. intros Hi. by rewrite map_to_list_insert. Qed.

Lemma tasks_move i x y (m : gmap positive (TaskAssignment * TaskPC)) :
  m !! i = Some x ->
  (map_to_list m).*2 ≡ₚ x :: (map_to_list (delete i m)).*2 /\
  (map_to_list (<[i := y]> m)).*2 ≡ₚ y :: (map_to_list (delete i m)).*2.
Proof.
  intros Hi. split.
  - rewrite <- (insert_delete_id m i x) at 1 by done.
    by rewrite map_to_list_insert by apply lookup_delete_eq.
  - rewrite <- insert_delete_eq. by rewrite map_to_list_insert by apply lookup_delete_eq.
Qed.

Lemma running_ne i x (m : gmap positive (TaskAssignment * TaskPC)) :
  m !! i = Some x -> (map_to_list m).*2 = [] -> False.
Proof. intros Hi E. pose proof (proj1 (tasks_move i x x m Hi)) as P. rewrite E in P. by apply Permutation_nil_cons in P. Qed.

(** The invariant's lists after a move of the goroutine [i]; then arithmetic. *)
Ltac regroup :=
  unfold holding, counted, executing, tasks, setTask in *; simpl_fields;
  repeat match goal with
  | H : running ?w !! ?i = None |- context [ <[?i := ?y]> (running ?w) ] =>
      rewrite (tasks_new i y (running w) H)
  | H : running ?w !! ?i = Some ?x |- context [ <[?i := ?y]> (running ?w) ] =>
      rewrite (proj2 (tasks_move i x y (running w) H))
  end;
  repeat match goal with
  | H : running ?w !! ?i = Some ?x, G : context [ map_to_list (running ?w) ] |- _ =>
      rewrite (proj1 (tasks_move i x x (running w) H)) in G
  end;
  repeat match goal with
  | G : context [ filter _ ((_, _) :: _) ] |- _ => rewrite filter_cons in G; cbn [snd] in G
  | |- context [ filter _ ((_, _) :: _) ] => rewrite filter_cons; cbn [snd]
  end;
  repeat case_decide; try (exfalso; intuition congruence);
  rewrite ?fmap_cons, ?length_cons in *; cbn [fst] in *.

Section inv.
Variable cap : nat.
Implicit Types w : Worker.

(** Acts of the receiver and of the main goroutine, [Go] apart. *)
Definition quiet (act : Act) : bool :=
  match act with Go _ | Report _ _ | Release _ | Uncount _ | WgDone _ => false | _ => true end.

Lemma quiet_inv act w w' : quiet act = true -> step cap act w = Some w' -> WorkerInv cap w -> WorkerInv cap w'.
Proof.
  intros Hq Hs [Is Ic Iw Ia (d & Id & If) It Ie Ix].
  destruct act; try discriminate Hq; cbn [step] in Hs; repeat case_match; simplify_eq;
    cbn [inMain slot inReceiver] in Id, Is, If; b2p;
    split; regroup; cbn [slot inReceiver]; try done; try lia;
    try (exists d; split; [by subst|by rewrite If, ?app_nil_r, ?app_assoc]).
  all: try (exists d; split; [subst; cbn; lia|done]).
  - exists [a]. split; [done|]. by rewrite If, Id, app_nil_r.
  - intros [= ->]. done.
  - intros _. by apply length_zero_iff_nil; rewrite <- Iw.
Qed.

Lemma go_inv i w w' : step cap (Go i) w = Some w' -> WorkerInv cap w -> WorkerInv cap w'.
Proof.
  intros Hs [Is Ic Iw Ia (d & Id & If) It Ie Ix]. cbn [step] in Hs.
  repeat case_match; simplify_eq. cbn [inMain slot] in Id, Is. subst d.
  split; regroup; cbn [slot]; try done; try lia.
  - rewrite Ia. unfold int32. rewrite wrap_plus. f_equal. lia.
  - exists []. split; [done|]. by rewrite If, app_assoc.
  - rewrite It. solve_Permutation.
Qed.

Definition ofTask (act : Act) : bool :=
  match act with Report _ _ | Release _ | Uncount _ | WgDone _ => true | _ => false end.

Lemma task_inv act w w' : ofTask act = true -> step cap act w = Some w' -> WorkerInv cap w -> WorkerInv cap w'.
Proof.
  intros Hq Hs [Is Ic Iw Ia Hf It Ie Ix].
  destruct act; try discriminate Hq; cbn [step] in Hs; repeat case_match; simplify_eq;
    split; regroup; try done; try lia.
  all: try (intros Hx; exfalso; revert Hx; intros Hx%Ix; by eapply running_ne).
  all: try (rewrite It; solve_Permutation).
  - rewrite Ia. unfold int32, Z.sub. rewrite wrap_plus. f_equal. lia.
Qed.

Lemma step_inv act w w' : step cap act w = Some w' -> WorkerInv cap w -> WorkerInv cap w'.
Proof.
  destruct (quiet act) eqn:Eq; [by apply quiet_inv|]. destruct (ofTask act) eqn:Et; [by apply task_inv|].
  destruct act; try discriminate. apply go_inv.
Qed.

Lemma newWorker_inv : WorkerInv cap newWorker.
Proof. split; try done; [cbn; lia|]. by exists []. Qed.

Lemma steps_inv acts w w' : steps cap acts w = Some w' -> WorkerInv cap w -> WorkerInv cap w'.
Proof.
  revert w. induction acts as [|act acts IH]; intros w; cbn [steps]; [by intros [= ->]|].
  intros (w1 & H1 & H2)%bind_Some HI. by eapply IH, step_inv.
Qed.

(** A goroutine at [pc] can run to its end, whatever the others do. *)

Definition finishes (i : positive) (a : TaskAssignment) (pc : TaskPC) : Prop :=
  forall w, running w !! i = Some (a, pc) -> exists acts w',
    Forall (fun act => ofTask act = true) acts /\ steps cap acts w = Some w' /\
    running w' = delete i (running w) /\ main w' = main w /\ started w' = started w /\
    unreported w' = unreported w.

Lemma finishes_step i a pc pc' act (f : Worker -> Worker) :
  ofTask act = true -> finishes i a pc' ->
  (forall w, running w !! i = Some (a, pc) -> step cap act w = Some (setTask i a pc' (f w))) ->
  (forall w, running (f w) = running w /\ main (f w) = main w /\ started (f w) = started w /\
     unreported (f w) = unreported w) ->
  finishes i a pc.
Proof.
  intros Hact Hnext Hstep Hf w Hi. destruct (Hf w) as (Er & Em & Es & Eu).
  destruct (Hnext (setTask i a pc' (f w))) as (acts & w' & Ha & Hs & Hr & Hm & Ht & Hu).
  { unfold setTask. simpl_fields_goal. apply lookup_insert_eq. }
  exists (act :: acts), w'. cbn [steps]. rewrite (Hstep w Hi). cbn [mbind option_bind].
  split_and!; [by constructor|done|..]; unfold setTask in *; simpl_fields; [|congruence..].
  by rewrite Hr, Er, delete_insert_eq.
Qed.

Lemma finish_task i a pc : finishes i a pc.
Proof.
  assert (finishes i a Uncounted) as H1.
  { intros w Hi. exists [WgDone i]. cbn [steps step]. rewrite Hi. eexists.
    split; [by repeat constructor|]. split; [reflexivity|]. by simpl_fields_goal. }
  assert (finishes i a Released) as H2.
  { apply (finishes_step i a Released Uncounted (Uncount i)
      (fun w => w <| activeTasks := int32 (activeTasks w - 1) |>)); [done|done| |].
    - intros w Hi. cbn [step]. by rewrite Hi.
    - intros w. by simpl_fields_goal. }
  assert (finishes i a Reported) as H3.
  { apply (finishes_step i a Reported Released (Release i) (fun w => w <| sem := pred (sem w) |>));
      [done|done| |].
    - intros w Hi. cbn [step]. by rewrite Hi.
    - intros w. by simpl_fields_goal. }
  destruct pc; [|done..].
  apply (finishes_step i a Executing Reported (Report i true) (fun w => w <| reported := reported w ++ [a] |>));
    [done|done| |].
  - intros w Hi. cbn [step]. by rewrite Hi.
  - intros w. by simpl_fields_goal.
Qed.

Lemma steps_app acts1 acts2 w : steps cap (acts1 ++ acts2) w = (w ← steps cap acts1 w; steps cap acts2 w).
Proof.
  revert w. induction acts1 as [|act acts IH]; intros w; [done|]. cbn. destruct (step cap act w); [|done].
  cbn. apply IH.
Qed.

Lemma finish_all w : exists acts w',
  Forall (fun act => ofTask act = true) acts /\ steps cap acts w = Some w' /\
  running w' = ∅ /\ main w' = main w /\ started w' = started w /\ unreported w' = unreported w.
Proof.
  remember (size (running w)) as k eqn:Hk. revert w Hk. induction k as [|k IH]; intros w Hk.
  { exists [], w. split_and!; try done. by apply map_size_empty_inv. }
  destruct (map_choose (running w)) as (i & [a pc] & Hi); [intros E; by rewrite E in Hk|].
  destruct (finish_task i a pc w Hi) as (acts1 & w1 & Ha1 & Hs1 & Hr1 & Hm1 & Ht1 & Hu1).
  destruct (IH w1) as (acts2 & w2 & Ha2 & Hs2 & Hr2 & Hm2 & Ht2 & Hu2).
  { rewrite Hr1, map_size_delete_Some by eauto. lia. }
  exists (acts1 ++ acts2), w2. rewrite steps_app, Hs1. cbn [mbind option_bind].
  split_and!; try done; [by apply Forall_app|congruence..].
Qed.

End inv.

(** ** Properties of the process *)

(** Claim C19: at most [maxConcurrent] tasks execute at a time: the semaphore has a
    token for each executing task and never more than its capacity, the wait group
    counts the live goroutines, and the heartbeat's counter those that have not
    yet left it; as a slot is given back before the counter goes down, the
    heartbeat can report more active tasks than there are slots. *)
Theorem worker_concurrency_bounded (cap : nat) (acts : list Act) (w : Worker)
  (H : steps cap acts newWorker = Some w) :
  (length (executing w) <= sem w)%nat /\ (sem w <= cap)%nat /\ wg w = length (tasks w) /\
  hbActiveTasks (heartbeat "" w) = int32 (Z.of_nat (length (counted w))) /\
  (length (executing w) <= length (counted w))%nat /\
  (exists acts w, steps 1 acts newWorker = Some w /\ hbActiveTasks (heartbeat "" w) = 2).
Proof.
  destruct (steps_inv _ _ _ _ H (newWorker_inv cap)) as [Is Ic Iw Ia _ _ _ _].
  unfold executing, holding, counted in *. rewrite length_fmap. split_and!; try done.
  - rewrite Is. etrans; [|apply Nat.le_add_r]. apply list_filter_length_le. auto.
  - apply list_filter_length_le. congruence.
  - set (a := mkAssignment "" "" 0 1 300 TaskTypeInline "" "" "").
    exists [Recv a; TakeTask; Acquire; Go 1; Report 1 true; Release 1; Recv a; TakeTask; Acquire; Go 2].
    eexists. split; vm_compute; reflexivity.
Qed.

(** No assignment is executed twice or out of order by a worker: those
    that the stream delivered are, in order, those started and at most two that
    are not; each started one is executing, or was executed once and its report got
    through or failed. *)
Theorem worker_accounts_for_assignments (cap : nat) (acts : list Act) (w : Worker)
  (H : steps cap acts newWorker = Some w) :
  (exists rest, received w = started w ++ rest /\ (length rest <= 2)%nat) /\
  started w ≡ₚ reported w ++ unreported w ++ executing w.
Proof.
  destruct (steps_inv _ _ _ _ H (newWorker_inv cap)) as [_ _ _ _ (d & Id & If) It _ _].
  split; [|done]. eexists. split; [exact If|]. rewrite length_app.
  assert (length (inReceiver (receiver w)) <= 1)%nat by (destruct (receiver w); cbn; lia).
  assert (length d <= 1)%nat by (destruct (main w); cbn in Id; subst; cbn in *; lia). lia.
Qed.

(** Claim C20: a worker that shuts down through its wait has executed every task it
    started and made the call that reports it (a call that fails is only logged and
    its task stays unreported), and from the wait it gets there by its task
    goroutines alone, without another report failing. *)
Theorem graceful_shutdown_reports_all (cap : nat) (acts : list Act) (w : Worker)
  (H : steps cap acts newWorker = Some w) :
  (main w = Returned ExitShutdown -> running w = ∅ /\ started w ≡ₚ reported w ++ unreported w) /\
  (main w = Draining -> exists acts' w',
     Forall (fun act => ofTask act = true) acts' /\ steps cap (acts' ++ [Drained]) w = Some w' /\
     main w' = Returned ExitShutdown /\ started w ≡ₚ reported w' ++ unreported w' /\ unreported w' = unreported w).
Proof.
  pose proof (steps_inv _ _ _ _ H (newWorker_inv cap)) as HI.
  assert (forall w, WorkerInv cap w -> tasks w = [] -> running w = ∅ /\ started w ≡ₚ reported w ++ unreported w) as Hdone.
  { intros v [_ _ _ _ _ It _ _] E. unfold executing in It. rewrite E, app_nil_r in It. split; [|done].
    unfold tasks in E. by apply map_to_list_empty_iff, (fmap_nil_inv snd). }
  split; [intros Hm; by apply Hdone; [|by apply HI]|]. intros Hm.
  destruct (finish_all cap w) as (acts' & w1 & Ha & Hs & Hr & Hm1 & Ht1 & Hu1).
  pose proof (steps_inv _ _ _ _ Hs HI) as HI1.
  assert (tasks w1 = []) as E by (unfold tasks; by rewrite Hr, map_to_list_empty).
  exists acts', (w1 <| main := Returned ExitShutdown |>). rewrite steps_app, Hs. cbn [mbind option_bind steps step].
  rewrite Hm1, Hm, (wi_wg _ _ HI1), E. simpl_fields_goal. split_and!; try done.
  rewrite <- Ht1. by apply Hdone.
Qed.

(** A shutdown signal can abandon running tasks. The signal cancels the
    context that the stream was opened with, so [stream.Recv] fails too, and the
    main [select] can take that error instead of the cancellation: [Start] returns
    an error at once while a task executes that is never reported. *)
Theorem shutdown_can_abandon_tasks :
  exists acts w, steps 16 acts newWorker = Some w /\ ctxDone w = true /\
    main w = Returned (ExitStreamError "context canceled") /\
    exitError (ExitStreamError "context canceled") = Some "task stream error: context canceled" /\
    executing w <> [] /\ reported w = [].
Proof.
  set (a := mkAssignment "t" "run.sh" 0 1 300 TaskTypeScriptPath "" "" "").
  exists [Recv a; TakeTask; Acquire; Go 1; Signal; RecvErr (ExitStreamError "context canceled"); TakeErr].
  eexists. split; [vm_compute; reflexivity|]. by vm_compute.
Qed.

(** ** Properties of an execution *)

(** The command that executes the assignment's payload, once it is in place. *)
Definition payloadCmd (os : OsEnv) (t : TaskAssignment) (c : Cmd) : Prop :=
  let lang := if String.eqb (asLanguage t) "" then "bash" else asLanguage t in
  match asTaskType t with
  | TaskTypeInline => exists interpreter name, interpreters lang = Some interpreter /\
      osCreateTemp os ("mw-inline-*" +:+ inlineExt lang) = inr name /\
      osWriteString os = None /\ osChmod os = None /\ c = mkCmd interpreter [name] ""
  | TaskTypeArchive => exists data dir, osDecode os (asContent t) = inr data /\
      osMkdirTemp os "mw-archive-*" = inr dir /\ osWriteFile os (osJoin os dir "archive.tar.gz") = None /\
      snd (osCombinedOutput os (mkCmd "tar" ["xzf"; osJoin os dir "archive.tar.gz"; "-C"; dir] "")) = None /\
      c = mkCmd (default "/bin/bash" (interpreters lang))
            ["-c"; if String.eqb (asEntrypoint t) "" then "./run.sh" else asEntrypoint t] dir
  | _ => c = mkCmd "/bin/bash" [asScript t] ""
  end.

(** An outcome is that of the payload's command, run last, or an error of its own. *)
Definition outcomeOk (os : OsEnv) (t : TaskAssignment) (o : Outcome) : Prop :=
  (exists c, payloadCmd os t c /\ Run c ∈ fst o /\ snd o = osCombinedOutput os c) \/
  (exists text, snd (snd o) = Some (OtherError text)) /\ (forall c, ~ payloadCmd os t c).

Lemma execute_outcome os t : outcomeOk os t (execute os t).
Proof.
  unfold execute, outcomeOk, payloadCmd, executeScriptPath, executeInline, executeArchive, between, run, failed.
  destruct (asTaskType t).
  - left. eexists. split; [reflexivity|]. split; [by left|done].
  - destruct (interpreters _) as [ip|] eqn:E1; [|right; split; [by eexists|]; by intros c (?&?&?&_)].
    destruct (osCreateTemp _ _) as [|name] eqn:E2; [right; split; [by eexists|]; intros c (?&?&_&?&_); congruence|].
    destruct (osWriteString os) eqn:E3; [right; split; [by eexists|]; by intros c (?&?&_&_&?&_)|].
    destruct (osChmod os) eqn:E4; [right; split; [by eexists|]; by intros c (?&?&_&_&_&?&_)|].
    left. eexists. split; [by exists ip, name|]. split; [|done]. cbn. set_solver.
  - destruct (osDecode _ _) as [|d] eqn:E1; [right; split; [by eexists|]; by intros c (?&?&?&_)|].
    destruct (osMkdirTemp _ _) as [|dir] eqn:E2; [right; split; [by eexists|]; by intros c (?&?&_&?&_)|].
    destruct (osWriteFile _ _) eqn:E3;
      [right; split; [by eexists|]; intros c (?&?&_&[= <-]&?&_); congruence|].
    destruct (osCombinedOutput os (mkCmd "tar" _ _)) as [out [err|]] eqn:E4;
      [right; split; [by eexists|]; intros c (?&?&_&[= <-]&_&Hx&_); by rewrite E4 in Hx|].
    left. eexists. split; [exists d, dir; by rewrite E4|]. split; [|done]. cbn. set_solver.
  - left. eexists. split; [reflexivity|]. split; [by left|done].
Qed.

(** Claim C23: a report tells what happened. It says COMPLETED exactly when the
    task's own command ran and succeeded, with its output; a command that exits
    with an error gives FAILED with its output and exit code; any failure on the
    way there (an unknown language, a file that cannot be written, an archive that
    does not unpack) gives FAILED with exit code -1 and the payload is not run. *)
Theorem execution_is_reported (os : OsEnv) (workerID : string) (startedAt completedAt : Time)
  (t : TaskAssignment) :
  let '(calls, r) := executeTask os workerID startedAt completedAt t in
  rpTaskId r = asTaskId t /\ rpWorkerId r = workerID /\
  ((exists c, payloadCmd os t c /\ Run c ∈ calls /\ rpOutput r = fst (osCombinedOutput os c) /\
      match snd (osCombinedOutput os c) with
      | None => rpState r = TASK_COMPLETED /\ rpExitCode r = 0
      | Some (ExitError code text) =>
          rpState r = TASK_FAILED /\ rpExitCode r = int32 code /\ rpErrorMessage r = text
      | Some (OtherError text) => rpState r = TASK_FAILED /\ rpExitCode r = -1 /\ rpErrorMessage r = text
      end) \/
   (rpState r = TASK_FAILED /\ rpExitCode r = -1 /\ forall c, ~ payloadCmd os t c)).
Proof.
  unfold executeTask. pose proof (execute_outcome os t) as [(c & Hp & Hr & Ho)|[(text & Ho) Hn]].
  - destruct (execute os t) as [calls [output err]]. cbn [fst snd] in *.
    split; [done|]. split; [done|]. left. exists c. rewrite <- Ho. split_and!; [done..|].
    by destruct err as [[]|].
  - destruct (execute os t) as [calls [output err]]. cbn [fst snd] in *. subst err.
    split; [done|]. split; [done|]. by right.
Qed.

(** No execution leaves files behind: the temporary file or directory
    that an execution creates is removed by its last system call, on every path,
    errors included. *)
Theorem execution_cleans_up (os : OsEnv) (t : TaskAssignment) (name : string) :
  (CreateTemp name ∈ fst (execute os t) -> last (fst (execute os t)) = Some (Remove name)) /\
  (MkdirTemp name ∈ fst (execute os t) -> last (fst (execute os t)) = Some (RemoveAll name)).
Proof.
  unfold execute, executeScriptPath, executeInline, executeArchive, between, run, failed.
  split; repeat case_match; cbn [fst app last]; rewrite ?last_app, ?last_snoc;
    rewrite ?elem_of_cons, ?elem_of_app, ?elem_of_cons, ?elem_of_nil; intuition congruence.
Qed.

(** ** Witnesses *)

Definition demoAssignment (id : string) : TaskAssignment := mkAssignment id "run.sh" 0 1 300 TaskTypeScriptPath "" "" "".

(** One task reported, one executing, a third received; then a signal. *)
Definition demoActs : list Act :=
  [Recv (demoAssignment "a"); TakeTask; Acquire; Go 1; Recv (demoAssignment "b"); TakeTask; Report 1 false; Release 1;
   Acquire; Go 2; Recv (demoAssignment "c"); TakeTask; Signal; AcquireDone].

Definition demoWorker : Worker := default newWorker (steps 1 demoActs newWorker).

Lemma worker_concurrency_bounded_witness :
  steps 1 demoActs newWorker = Some demoWorker /\ (sem demoWorker <= 1)%nat.
Proof.
  assert (steps 1 demoActs newWorker = Some demoWorker) as H by (vm_compute; reflexivity).
  split; [exact H|]. exact (proj1 (proj2 (worker_concurrency_bounded 1 demoActs demoWorker H))).
Defined.

Lemma worker_accounts_for_assignments_witness :
  length (received demoWorker) = 3%nat /\
  started demoWorker ≡ₚ reported demoWorker ++ unreported demoWorker ++ executing demoWorker.
Proof.
  split; [vm_compute; reflexivity|].
  exact (proj2 (worker_accounts_for_assignments 1 demoActs demoWorker ltac:(vm_compute; reflexivity))).
Defined.

Lemma graceful_shutdown_reports_all_witness : exists acts w',
  steps 1 (acts ++ [Drained]) demoWorker = Some w' /\ main w' = Returned ExitShutdown.
Proof.
  destruct (graceful_shutdown_reports_all 1 demoActs demoWorker) as [_ H]; [vm_compute; reflexivity|].
  destruct (H ltac:(vm_compute; reflexivity)) as (acts & w' & _ & H1 & H2 & _).
  exists acts, w'. exact (conj H1 H2).
Defined.
