(* ===== verification/EndToEnd.v ===== *)
(** * A task from the master to a worker and back

    The master's dispatch round, the worker's execution and the report, composed:
    the message that the loop sends is what [executeTask] reads, and the report it
    returns is what [ReportTaskStatus] applies. *)

From stdpp Require Import pretty.
From S2P Require Import Prelude GoTime Task Scheduler SchedulerFacts SchedulerProps.
From S2P Require Import CircuitBreaker Config Store Events NodeServer Worker NodeFacts.

Open Scope string_scope.
Open Scope list_scope.
Open Scope Z_scope.

Section master.
Context {S : Type} `{TaskStore S}.
Implicit Types n : Node S.

Lemma nWorld_dispatchTask env workerID t n : dsSend env = None ->
  let w := withTask (fun tk => fst (Start (dsStart env) tk)) t
             (withTask (fun tk => fst (Assign (dsAssign env) workerID tk)) t (nWorld n)) in
  nWorld (fst (dispatchTask env workerID t n)) = w /\
  snd (dispatchTask env workerID t n) = RoundSent (assignment (dsSentAt env) (mem w !!! t)).
Proof. intros Hs w. subst w. unfold dispatchTask. rewrite Hs. cbn [fst snd]. by node. Qed.

Lemma nStore_dispatchTask env workerID t n : dsSend env = None ->
  nStore (fst (dispatchTask env workerID t n)) =
  (fun s => fst (Save (mem (nWorld (fst (dispatchTask env workerID t n)))) t s)) <$> nStore n.
Proof. intros Hs. unfold dispatchTask. rewrite Hs. cbn [fst]. by node. Qed.

(** The scheduler's part of a report. *)
Lemma nWorld_report env r n :
  nWorld (ReportTaskStatus env r n) =
  if decide (rpState r = TASK_COMPLETED)
  then fst (SchedComplete (reNow env) (rpTaskId r) (rpOutput r) (rpExitCode r) (nWorld n))
  else fst (SchedFail (reFail env) (rpTaskId r) (rpErrorMessage r) (rpExitCode r) (nWorld n)).
Proof.
  unfold ReportTaskStatus. destruct (Get _ _) as [regs cb].
  case_decide; unfold reportCompleted, reportFailed; simpl_fields_goal;
    [destruct (SchedComplete _ _ _ _ _) as [w [t|]]|destruct (SchedFail _ _ _ _ _) as [w [t|]]];
    unfold saveReturned; repeat case_match; by node.
Qed.

(** A report for a running task in flight. *)

Lemma SchedComplete_running now id output code w t :
  Inv w -> inFlight (sched w) !! id = Some t -> tState (mem w !!! t) = StateRunning ->
  let w' := fst (SchedComplete now id output code w) in
  Inv w' /\ pool w ≡ₚ t :: pool w' /\ inFlight (sched w') = delete id (inFlight (sched w)) /\
  mem w' !!! t = (mem w !!! t) <| tState := StateCompleted |> <| tOutput := output |>
    <| tExitCode := code |> <| tCompletedAt := now |> /\
  (forall u, u <> t -> mem w' !!! u = mem w !!! u).
Proof.
  intros HI Ht Hrun. destruct (SchedComplete_inv now id output code w t HI Ht) as (HI' & _ & Hp).
  destruct (SchedComplete_known now id output code w t Ht) as (w' & E & Hm & Hs). rewrite E in *. cbn [fst] in *.
  split_and!; [done|done| | |].
  - rewrite Hs. unfold keepCompleted. by simpl_fields_goal.
  - rewrite Hm, onTask_lookup, decide_True by done. by rewrite Complete_running.
  - intros u Hu. by rewrite Hm, onTask_lookup, decide_False.
Qed.

Lemma SchedFail_running env id msg code w t :
  Inv w -> inFlight (sched w) !! id = Some t -> tState (mem w !!! t) = StateRunning ->
  let w' := fst (SchedFail env id msg code w) in
  let tk := mem w !!! t in let tk' := mem w' !!! t in
  Inv w' /\ pool w' ≡ₚ pool w /\ inFlight (sched w') = delete id (inFlight (sched w)) /\
  (tState tk' = (if bool_decide (tMaxRetries tk <= tAttempt tk) then StateDead else StateRetrying) /\
   tError tk' = msg /\ tExitCode tk' = code /\ tCompletedAt tk' = failNow env /\
   tAttempt tk' = tAttempt tk /\ tWorkerID tk' = tWorkerID tk) /\
  (forall u, u <> t -> mem w' !!! u = mem w !!! u) /\
  if decide (tState tk' = StateDead) then t ∈ deadLetter (sched w') else t ∈ retryQueue (sched w').
Proof.
  intros HI Ht Hrun. destruct (SchedFail_conserves env id msg code w HI) as (HI' & _ & Hp).
  rewrite (SchedFail_known env id msg code w t Ht) in *. cbn [fst] in *.
  destruct (failing_fields env id msg code 1 t w) as (Hm & _ & Hf & Hr & Hd & _).
  pose proof (failedTask_running env msg code (mem w !!! t) Hrun) as Htk.
  set (w' := retryOrBury _ _ _) in *. cbv zeta. rewrite (Hm t), (decide_True (P := t = t)) by done.
  split_and!; try apply Htk; try done.
  - intros u Hu. by rewrite Hm, decide_False.
  - rewrite Hd, Hr. case_decide; apply elem_of_app; right; by left.
Qed.

(** The world after a round that sends [t]. *)
Lemma dispatched_world env workerID n :
  Inv (nWorld n) -> queue (sched (nWorld n)) <> [] ->
  (forall t, t ∈ queue (sched (nWorld n)) -> tState (mem (nWorld n) !!! t) = StateQueued) ->
  snd (Allow (dsAllow env) (workerBreaker workerID (nBreakers n))) = true -> dsSend env = None ->
  exists t, t ∈ queue (sched (nWorld n)) /\
    let '(n', round) := dispatchRound env workerID n in
    round = RoundSent (assignment (dsSentAt env) (running env workerID (mem (nWorld n) !!! t))) /\
    Inv (nWorld n') /\ pool (nWorld n') ≡ₚ pool (nWorld n) /\
    (forall u, mem (nWorld n') !!! u =
       if decide (u = t) then running env workerID (mem (nWorld n) !!! t) else mem (nWorld n) !!! u) /\
    inFlight (sched (nWorld n)) !! tID (mem (nWorld n) !!! t) = None /\
    inFlight (sched (nWorld n')) = <[tID (mem (nWorld n) !!! t) := t]> (inFlight (sched (nWorld n))) /\
    retryQueue (sched (nWorld n')) = retryQueue (sched (nWorld n)) /\
    deadLetter (sched (nWorld n')) = deadLetter (sched (nWorld n)) /\
    completed (sched (nWorld n')) = completed (sched (nWorld n)) /\
    queue (sched (nWorld n)) ≡ₚ t :: queue (sched (nWorld n')) /\
    nStore n' = (fun s => fst (Save (mem (nWorld n')) t s)) <$> nStore n.
Proof.
  intros HI Hne Hq Ha Hs.
  destruct (dispatchRound_allowed env workerID n HI Hne Ha) as (w & t & regs & _ & Hd & ->).
  exists t. assert (t ∈ queue (sched (nWorld n))) as Hin by (rewrite (deq_queue _ _ _ Hd); by left).
  split; [done|].
  destruct (nWorld_dispatchTask env workerID t (n <| nBreakers := regs |> <| nWorld := w |>) Hs) as [Hw Hr].
  pose proof (nStore_dispatchTask env workerID t (n <| nBreakers := regs |> <| nWorld := w |>) Hs) as Hst'.
  destruct (dispatchTask _ _ _ _) as [n' round]. cbn [fst snd] in *. revert Hw Hr Hst'. simpl_fields_goal. intros Hw Hr Hst'.
  assert (tState (mem w !!! t) = StateQueued) as Hst by (rewrite (deq_mem _ _ _ Hd); by apply Hq).
  assert (forall u, mem (nWorld n') !!! u =
    if decide (u = t) then running env workerID (mem (nWorld n) !!! t) else mem (nWorld n) !!! u) as Hm.
  { intros u. rewrite Hw. world. rewrite mem_Assign_Start by done. by rewrite (deq_mem _ _ _ Hd). }
  assert (conserves (nWorld n) (nWorld n')) as Hc.
  { eapply conserves_trans; [exact (dequeued_conserves _ _ _ Hd)|]. rewrite Hw.
    eapply conserves_trans; apply withTask_conserves; intros.
    - apply (call_sameKey (CallAssign _ _)).
    - apply (call_sameKey (CallStart _)). }
  destruct (Hc HI) as (HI' & _ & Hp). destruct Hd as [_ Hqu _ _ Hf Hfr _ (Hrq & Hdl & Hcm & _)].
  split_and!; try done; [by rewrite Hr, <- Hw, Hm, decide_True|rewrite Hw; by world..].
Qed.

(** Claim C8: a task's way through the system. A dispatch round that sends hands
    some queued task to the worker; when the worker executes the message it gets
    and reports, a command that succeeds leaves the task COMPLETED with its output
    and exit code 0 and out of the scheduler; a command that fails leaves it with
    the error and the exit code, waiting for a retry while attempts are left and
    in the dead letter queue otherwise. Nothing else is in flight or changed. *)
Theorem task_end_to_end (denv : DispatchEnv) (renv : ReportEnv) (os : OsEnv) (workerID : string)
  (startedAt completedAt : Time) n
  (HI : Inv (nWorld n)) (Hne : queue (sched (nWorld n)) <> [])
  (Hq : forall t, t ∈ queue (sched (nWorld n)) -> tState (mem (nWorld n) !!! t) = StateQueued)
  (Ha : snd (Allow (dsAllow denv) (workerBreaker workerID (nBreakers n))) = true)
  (Hs : dsSend denv = None) :
  let '(n1, round) := dispatchRound denv workerID n in
  exists t a, t ∈ queue (sched (nWorld n)) /\ round = RoundSent a /\
    let '(calls, report) := executeTask os workerID startedAt completedAt a in
    let n2 := ReportTaskStatus renv report n1 in
    let tk := mem (nWorld n) !!! t in let tk2 := mem (nWorld n2) !!! t in
    Inv (nWorld n2) /\ inFlight (sched (nWorld n2)) = inFlight (sched (nWorld n)) /\
    (forall u, u <> t -> mem (nWorld n2) !!! u = mem (nWorld n) !!! u) /\
    tWorkerID tk2 = workerID /\ tAttempt tk2 = int32 (tAttempt tk + 1) /\
    match snd (execute os a) with
    | (output, None) =>
        tState tk2 = StateCompleted /\ tOutput tk2 = output /\ tExitCode tk2 = 0 /\
        pool (nWorld n) ≡ₚ t :: pool (nWorld n2)
    | (_, Some err) =>
        tError tk2 = errText err /\ pool (nWorld n2) ≡ₚ pool (nWorld n) /\
        if bool_decide (tMaxRetries tk <= int32 (tAttempt tk + 1))
        then tState tk2 = StateDead /\ t ∈ deadLetter (sched (nWorld n2))
        else tState tk2 = StateRetrying /\ t ∈ retryQueue (sched (nWorld n2))
    end.
Proof.
  destruct (dispatched_world denv workerID n HI Hne Hq Ha Hs) as (t & Hin & Hd).
  destruct (dispatchRound denv workerID n) as [n1 round].
  destruct Hd as (Hr & HI1 & Hp1 & Hm1 & Hfr & Hf1 & _).
  set (a := assignment _ _) in Hr. exists t, a. split; [done|]. split; [done|].
  assert (inFlight (sched (nWorld n1)) !! tID (mem (nWorld n) !!! t) = Some t) as Hflight
    by (rewrite Hf1; apply lookup_insert_eq).
  assert (mem (nWorld n1) !!! t = running denv workerID (mem (nWorld n) !!! t)) as Hmt
    by (by rewrite Hm1, decide_True).
  assert (delete (tID (mem (nWorld n) !!! t)) (inFlight (sched (nWorld n1))) = inFlight (sched (nWorld n))) as Hdel
    by (rewrite Hf1, delete_insert_eq; by apply delete_id).
  set (tk := mem (nWorld n) !!! t) in *.
  assert (tID tk = asTaskId a) as Hid by (subst a; unfold assignment, running; by simpl_fields_goal).
  rewrite Hid in *. unfold executeTask.
  assert (tState (mem (nWorld n1) !!! t) = StateRunning) as Hrun
    by (rewrite Hmt; unfold running; by simpl_fields_goal).
  destruct (execute os a) as [calls [output [err|]]]; cbn [snd]; rewrite nWorld_report;
    cbn [rpState rpTaskId rpOutput rpExitCode rpErrorMessage].
  - rewrite decide_False by done.
    match goal with |- context [ SchedFail ?e ?i ?m ?c ?w ] =>
      destruct (SchedFail_running e i m c w t HI1 Hflight) as (HI2 & Hp2 & Hf2 & Hm2 & Hu2 & Hq2);
      [done | set (w2 := fst (SchedFail e i m c w)) in *] end.
    rewrite Hmt in *. destruct Hm2 as (Hs2 & He2 & _ & _ & Ha2 & Hw2).
    rewrite Hf2, Hdel, Ha2, Hw2, He2, Hs2, Hp2, Hp1. split_and!; try done.
    + intros u Hu. by rewrite Hu2, Hm1, decide_False.
    + unfold running. by simpl_fields_goal.
    + unfold running. by simpl_fields_goal.
    + revert Hq2. rewrite Hs2. unfold running. simpl_fields_goal.
      destruct (decide (tMaxRetries tk <= int32 (tAttempt tk + 1))) as [E|E];
        [rewrite !(bool_decide_eq_true_2 _ E), decide_True by done|rewrite !(bool_decide_eq_false_2 _ E), decide_False by done]; done.
  - rewrite decide_True by done.
    match goal with |- context [ SchedComplete ?x ?i ?o ?c ?w ] =>
      destruct (SchedComplete_running x i o c w t HI1 Hflight) as (HI2 & Hp2 & Hf2 & Hm2 & Hu2);
      [done | set (w2 := fst (SchedComplete x i o c w)) in *] end.
    rewrite Hm2, Hmt, Hf2, Hdel, <- Hp1, Hp2. unfold running. simpl_fields_goal. split_and!; try done.
    intros u Hu. by rewrite Hu2, Hm1, decide_False.
Qed.

End master.

Definition demoOs (output : string) (err : option ExecErr) : OsEnv :=
  mkOsEnv (fun _ => inr "/tmp/f") None None inr (fun _ => inr "/tmp/d") (fun _ => None)
    (fun _ => (output, err)) (fun d f => d +:+ "/" +:+ f).

Definition demoReports : ReportEnv := mkReportEnv 40 (mkFailEnv 40 (mkRetryEnv 40 7 0)) 41 (mkPubEnv 42 []).

Lemma task_end_to_end_witness :
  exists n1 a, dispatchRound demoEnv "w1" (demoNode demoQueued) = (n1, RoundSent a) /\
    let report := snd (executeTask (demoOs "hello" None) "w1" 30 31 a) in
    exists t, t ∈ queue (sched demoQueued) /\
      tOutput (mem (nWorld (ReportTaskStatus demoReports report n1)) !!! t) = "hello".
Proof.
  assert (match snd (dispatchRound demoEnv "w1" (demoNode demoQueued)) with
          | RoundSent a => snd (execute (demoOs "hello" None) a) = ("hello", None)
          | _ => False end) as E by (vm_compute; reflexivity).
  pose proof (task_end_to_end demoEnv demoReports (demoOs "hello" None) "w1" 30 31 (demoNode demoQueued)
    demoQueued_inv demoQueued_ne demoQueued_states eq_refl eq_refl) as H.
  destruct (dispatchRound demoEnv "w1" (demoNode demoQueued)) as [n1 round].
  destruct H as (t & a & Ht & -> & H). exists n1, a. split; [reflexivity|]. cbn [snd] in E.
  rewrite nWorld_demo in Ht. exists t. split; [exact Ht|].
  destruct (executeTask (demoOs "hello" None) "w1" 30 31 a) as [calls report]. cbn [snd]. rewrite E in H.
  exact (proj1 (proj2 (proj2 (proj2 (proj2 (proj2 (proj2 H))))))).
Defined.
