(* ===== verification/NodeTrace.v ===== *)
(** * Whole runs of the master's node

    The operations of the node service in any sequence, each with the environment
    it meets, from [NewNodeServer] on.  Of that environment [lawful] asks what the
    language grants; when also the sends succeed ([sends]) and new tasks have unused
    ids ([newId]), every task the node holds is in the state that belongs to its
    place. *)

From stdpp Require Import pretty.
From S2P Require Import Prelude GoTime Heap Task Scheduler SchedulerFacts SchedulerProps SchedulerSpec.
From S2P Require Import CircuitBreaker Config Store Events NodeServer NodeFacts.
From S2P Require Import Master MasterFacts EndToEnd.

Open Scope string_scope.
Open Scope list_scope.
Open Scope Z_scope.

(** ** Every task in the state of its place *)

Definition stageState (st : Stage) : State :=
  match st with
  | Queued => StateQueued | Flying => StateRunning | Waiting => StateRetrying | Buried => StateDead
  end.

Record Places (w : World) : Prop := {
  pl_inv : Inv w;
  pl_state : forall st t, t ∈ part st (sched w) -> tState (mem w !!! t) = stageState st;
  pl_done : forall t, t ∈ completed (sched w) -> tState (mem w !!! t) = StateCompleted /\ t ∉ pool w
}.

(** An operation that keeps the pool and touches no task outside it. *)

Lemma Places_step w w' :
  Places w -> Inv w' -> pool w' ≡ₚ pool w -> completed (sched w') = completed (sched w) ->
  (forall t, t ∉ pool w -> mem w' !!! t = mem w !!! t) ->
  (forall st t, t ∈ part st (sched w') ->
     tState (mem w' !!! t) = stageState st \/ t ∈ part st (sched w) /\ mem w' !!! t = mem w !!! t) ->
  Places w'.
Proof.
  intros [_ Hs Hd] HI Hp Hc Hm Hst. split; [done| |].
  - intros st t Ht. destruct (Hst st t Ht) as [?|[Hin E]]; [done|]. rewrite E. by apply Hs.
  - intros t Ht. rewrite Hc in Ht. destruct (Hd t Ht) as [Hdone Hn]. by rewrite Hp, Hm.
Qed.

Lemma Notify_places w : Places w -> Places (Notify w).
Proof.
  intros HP. destruct (Notify_conserves w (pl_inv _ HP)) as (HI & _ & Hp).
  apply (Places_step w); try done; [by world|intros; by world|]. intros st t Ht. right.
  split; [|by world]. revert Ht. destruct st; cbn [part]; unfold flight; by world.
Qed.

Lemma notifyIf_places k w : Places w -> Places (notifyIf k w).
Proof. unfold notifyIf. case_match; auto using Notify_places. Qed.

Lemma RequeueFromWorker_places wid ord w :
  map_order (inFlight (sched w)) ord -> Places w -> Places (fst (RequeueFromWorker wid ord w)).
Proof.
  intros Ho HP. pose proof (pl_inv _ HP) as HI.
  destruct (RequeueFromWorker_conserves wid ord w Ho HI) as (HI' & _ & Hp).
  destruct (RequeueFromWorker_spec wid ord w HI Ho) as (w' & E & Hr). rewrite E in *. cbn [fst] in *.
  pose proof (requeued_exact _ _ _ _ HI Ho Hr) as (_ & Hm & Hf & Hq & _).
  destruct (rq_rest _ _ _ _ Hr) as (Hrq & Hdl & Hc & _).
  apply (Places_step w); try done; [by world| |].
  - intros t Ht. rewrite Hm, decide_False; [done|]. intros [Hfl _]. apply Ht.
    unfold pool. rewrite !elem_of_app. auto.
  - intros st t Ht. rewrite Hm. destruct (decide (t ∈ flight (sched w) /\ _)) as [[Hfl Hw]|Hn].
    + left. destruct st; cbn [part] in Ht; [unfold release; by simpl_fields_goal|exfalso..].
      * apply flight_elem in Ht as [id Hid]. rewrite Hf in Hid.
        apply bind_Some in Hid as (u & _ & Hid). by case_decide; simplify_eq.
      * revert Ht. world. rewrite Hrq. intros Ht. by pose proof (part_unique w t Flying Waiting HI Hfl Ht).
      * revert Ht. world. rewrite Hdl. intros Ht. by pose proof (part_unique w t Flying Buried HI Hfl Ht).
    + right. split; [|done]. destruct st; cbn [part] in *.
      * rewrite Hq, elem_of_app, list_elem_of_filter in Ht. tauto.
      * apply flight_elem in Ht as [id Hid]. rewrite Hf in Hid.
        apply bind_Some in Hid as (u & Hu & Hid). case_decide; simplify_eq. apply flight_elem. eauto.
      * revert Ht. world. by rewrite Hrq.
      * revert Ht. world. by rewrite Hdl.
Qed.

Lemma ProcessRetries_places now w : Places w -> Places (fst (ProcessRetries now w)).
Proof.
  intros HP. pose proof (pl_inv _ HP) as HI.
  destruct (ProcessRetries_conserves now w HI) as (HI' & _ & Hp).
  destruct (ProcessRetries_spec now w) as (w' & E & [Hm Hq Hs _ _]). rewrite E in *. cbn [fst] in *.
  set (l := retryQueue (sched w)) in *.
  assert (forall t, t ∈ due now (mem w) l -> t ∈ l) as Hdue by (by intros t [_ ?]%list_elem_of_filter).
  apply (Places_step w); world; try done.
  - rewrite Hs. by simpl_fields_goal.
  - intros t Ht. rewrite Hm, decide_False; [done|]. intros Hd%Hdue. by apply Ht, (part_pool Waiting).
  - intros st t. rewrite Hm. unfold part, flight. world.
    assert (inFlight (sched w') = inFlight (sched w) /\ deadLetter (sched w') = deadLetter (sched w)) as [-> ->]
      by (rewrite Hs; by simpl_fields_goal).
    destruct (decide (t ∈ due now (mem w) l)) as [Hd|Hd]; intros Ht.
    + left. destruct st; [|exfalso..].
      * rewrite Requeue_retrying; [by cbn [fst]; simpl_fields_goal|]. apply (pl_state _ HP Waiting). by apply Hdue.
      * by pose proof (part_unique w t Flying Waiting HI Ht (Hdue t Hd)).
      * apply list_elem_of_filter in Ht as [Hn _], Hd as [Hd _]. done.
      * by pose proof (part_unique w t Buried Waiting HI Ht (Hdue t Hd)).
    + right. split; [|done]. destruct st; try done.
      * rewrite Hq, elem_of_app in Ht. tauto.
      * by apply list_elem_of_filter in Ht as [_ Ht].
Qed.

Lemma CheckTimeouts_places now envs ord w :
  map_order (inFlight (sched w)) ord -> Places w -> Places (fst (CheckTimeouts now envs ord w)).
Proof.
  intros Ho HP. pose proof (pl_inv _ HP) as HI.
  destruct (CheckTimeouts_conserves now envs ord w Ho HI) as (HI' & _ & Hp).
  destruct (CheckTimeouts_spec now envs ord w HI Ho) as (w' & E & Ht). rewrite E in *. cbn [fst] in *.
  pose proof (timed_out_flight now envs ord w w') as Hfl. specialize (fun t => Hfl t HI Ho Ht).
  set (l := overdue now (mem w) ord) in *.
  assert (forall t, t ∈ l -> t ∈ flight (sched w) /\ timedOut now (mem w !!! t) = true) as Hl
    by (by intros t; apply (overdue_elem now (mem w) (sched w) ord Ho)).
  assert (forall t, t ∈ l -> tState (mem w' !!! t) = StateDead \/ tState (mem w' !!! t) = StateRetrying) as Hst.
  { intros t Hin. apply list_elem_of_lookup in Hin as [k Hk]. rewrite (to_task _ _ _ _ _ Ht k t Hk).
    rewrite (proj1 (failedTask_timedOut now (envs (0 + k)%nat) "task execution timed out" (-1) _
      (proj2 (Hl t (list_elem_of_lookup_2 _ _ _ Hk))))). case_decide; auto. }
  apply (Places_step w); try done; [by apply (to_rest _ _ _ _ _ Ht)| |].
  - intros t Hn. apply (to_mem _ _ _ _ _ Ht). intros [Hin _]%Hl. by apply Hn, (part_pool Flying).
  - intros st t Hin. destruct st; cbn [part] in Hin |- *.
    + rewrite (to_queue _ _ _ _ _ Ht) in Hin. right. split; [done|]. apply (to_mem _ _ _ _ _ Ht).
      intros [Hf _]%Hl. by pose proof (part_unique w t Queued Flying HI Hin Hf).
    + apply Hfl in Hin as [Hin Hn]. right. split; [done|]. by apply (to_mem _ _ _ _ _ Ht).
    + rewrite (to_retry _ _ _ _ _ Ht), elem_of_app, list_elem_of_filter in Hin. destruct Hin as [Hin|[Hn Hin]].
      * right. split; [done|]. apply (to_mem _ _ _ _ _ Ht).
        intros [Hf _]%Hl. by pose proof (part_unique w t Waiting Flying HI Hin Hf).
      * left. cbn. destruct (Hst t Hin); [done|congruence].
    + rewrite (to_dead _ _ _ _ _ Ht), elem_of_app, list_elem_of_filter in Hin. destruct Hin as [Hin|[Hn _]]; [|by left].
      right. split; [done|]. apply (to_mem _ _ _ _ _ Ht).
      intros [Hf _]%Hl. by pose proof (part_unique w t Buried Flying HI Hin Hf).
Qed.

Lemma RetryFromDLQ_places id w : Places w -> Places (fst (SchedRetryFromDLQ id w)).
Proof.
  intros HP. pose proof (pl_inv _ HP) as HI.
  destruct (SchedRetryFromDLQ_conserves id w HI) as (HI' & _ & Hp).
  destruct (findTask (mem w) id (deadLetter (sched w))) as [i|] eqn:Hi.
  2:{ unfold SchedRetryFromDLQ. by rewrite Hi. }
  destruct (findTask_Some _ _ _ _ Hi) as (t & Ht & _ & Hpd).
  destruct (SchedRetryFromDLQ_found id w i t Hi Ht) as (w' & E & Hm & Hq & Hd & Hf & Hr & Hc & _).
  rewrite E in *. cbn [fst] in *.
  assert (t ∈ deadLetter (sched w)) as Hin by (by eapply list_elem_of_lookup_2).
  apply (Places_step w); try done.
  - intros u Hn. rewrite Hm, onTask_lookup, decide_False; [done|]. intros ->. by apply Hn, (part_pool Buried).
  - intros st u Hu. rewrite Hm, onTask_lookup. case_decide as Heq; subst.
    + left. destruct st; cbn [part] in Hu; [|exfalso..].
      * unfold RetryFromDLQ. rewrite Transition_ok; [by cbn [fst]; simpl_fields_goal|].
        rewrite (pl_state _ HP Buried t Hin). set_solver.
      * unfold flight in Hu. rewrite Hf in Hu. by pose proof (part_unique w t Flying Buried HI Hu Hin).
      * rewrite Hr in Hu. by pose proof (part_unique w t Waiting Buried HI Hu Hin).
      * assert (part Queued (sched w') ≡ₚ t :: queue (sched w)) as Hq' by (cbn [part]; by rewrite Hq, heapPush_perm).
        by pose proof (part_unique w' t Buried Queued HI' Hu ltac:(rewrite Hq'; by left)).
    + right. split; [|done]. destruct st; cbn [part] in *.
      * rewrite Hq, heapPush_perm in Hu. by apply elem_of_cons in Hu as [->|Hu].
      * unfold flight in *. by rewrite Hf in Hu.
      * by rewrite Hr in Hu.
      * rewrite Hpd. right. by rewrite Hd in Hu.
Qed.

Lemma SchedComplete_places now id output code w :
  Places w -> Places (fst (SchedComplete now id output code w)).
Proof.
  intros HP. pose proof (pl_inv _ HP) as HI.
  destruct (inFlight (sched w) !! id) as [t|] eqn:Ht; [|by rewrite SchedComplete_unknown].
  assert (t ∈ part Flying (sched w)) as Hin by (by eapply flying_elem).
  destruct (SchedComplete_running now id output code w t HI Ht (pl_state _ HP _ _ Hin)) as (HI' & Hp & _ & Hmt & Hm).
  destruct (SchedComplete_known now id output code w t Ht) as (w' & E & _ & Hs). rewrite E in *. cbn [fst] in *.
  assert (forall st u, u ∈ part st (sched w') -> u ∈ part st (sched w) /\ u <> t) as Hpart.
  { intros st u Hu. split.
    - rewrite Hs in Hu. unfold keepCompleted in Hu. destruct st; cbn [part] in *; unfold flight in *; simpl_fields;
        try done. apply list_elem_of_fmap in Hu as ([i v] & -> & Hv). apply elem_of_map_to_list in Hv.
      apply lookup_delete_Some in Hv as [_ Hv]. apply flight_elem. eauto.
    - intros ->. apply inv_pool_nodup in HI. rewrite Hp in HI. apply NoDup_cons in HI as [Hn _].
      by apply Hn, (part_pool st). }
  split; [done| |].
  - intros st u [Hu Hne]%Hpart. rewrite Hm by done. by apply (pl_state _ HP).
  - intros u Hu.
    assert (u = t \/ u ∈ completed (sched w)) as [->|Hold].
    { rewrite Hs in Hu. unfold keepCompleted in Hu. simpl_fields_hyps.
      assert (u ∈ completed (sched w) ++ [t]) as Hc.
      { case_bool_decide; [|done]. unfold last_n in Hu. rewrite <- (take_drop (length (completed (sched w) ++ [t]) - maxCompleted)).
        apply elem_of_app. by right. }
      rewrite elem_of_app, list_elem_of_singleton in Hc. tauto. }
    + rewrite Hmt. simpl_fields_goal. split; [done|]. apply inv_pool_nodup in HI. rewrite Hp in HI.
      by apply NoDup_cons in HI as [? _].
    + destruct (pl_done _ HP u Hold) as [Hdone Hn]. rewrite Hp, elem_of_cons in Hn.
      rewrite Hm by tauto. tauto.
Qed.

Lemma SchedFail_places env id msg code w : Places w -> Places (fst (SchedFail env id msg code w)).
Proof.
  intros HP. pose proof (pl_inv _ HP) as HI.
  destruct (inFlight (sched w) !! id) as [t|] eqn:Ht; [|by rewrite SchedFail_unknown].
  assert (t ∈ part Flying (sched w)) as Hin by (by eapply flying_elem).
  destruct (SchedFail_running env id msg code w t HI Ht (pl_state _ HP _ _ Hin)) as (HI' & Hp & _ & _ & Hm & _).
  rewrite (SchedFail_known env id msg code w t Ht) in *. cbn [fst] in *.
  destruct (failing_fields env id msg code 1 t w) as (Hmt & Hq & Hf & Hr & Hd & Hc & _).
  pose proof (failedTask_running env msg code (mem w !!! t) (pl_state _ HP _ _ Hin)) as (Hst & _).
  set (w' := retryOrBury _ _ _) in *. set (tk := failedTask _ _ _ _) in *.
  apply (Places_step w); try done.
  - intros u Hn. apply Hm. intros ->. by apply Hn, (part_pool Flying).
  - intros st u Hu. rewrite Hmt. destruct (decide (u = t)) as [->|Hne].
    + left. destruct st; cbn [part] in Hu; [exfalso|exfalso|..].
      * rewrite Hq in Hu. by pose proof (part_unique w t Queued Flying HI Hu Hin).
      * apply flight_elem in Hu as [i Hu]. rewrite Hf in Hu. apply lookup_delete_Some in Hu as [Hi Hu].
        apply Hi. by rewrite <- (inv_keyed w HI _ _ Hu), (inv_keyed w HI _ _ Ht).
      * rewrite Hr in Hu. cbn. rewrite Hst in *. revert Hu. case_bool_decide; cbn; [|done].
        rewrite app_nil_r. intros Hu. by pose proof (part_unique w t Waiting Flying HI Hu Hin).
      * rewrite Hd in Hu. cbn. rewrite Hst in *. revert Hu. case_bool_decide; cbn; [done|].
        rewrite app_nil_r. intros Hu. by pose proof (part_unique w t Buried Flying HI Hu Hin).
    + right. split; [|done]. destruct st; cbn [part] in *.
      * by rewrite Hq in Hu.
      * apply flight_elem in Hu as [i Hu]. rewrite Hf in Hu. apply lookup_delete_Some in Hu as [_ Hu].
        apply flight_elem. eauto.
      * rewrite Hr in Hu. revert Hu. case_decide; rewrite elem_of_app; set_solver.
      * rewrite Hd in Hu. revert Hu. case_decide; rewrite elem_of_app; set_solver.
Qed.

(** ** The node's operations *)

Section node.
Context {S : Type} `{TaskStore S}.
Implicit Types n : Node S.

Lemma submit_places p t n :
  Places (nWorld n) -> fresh [(p, t)] n -> tState t = StateQueued -> p ∉ completed (sched (nWorld n)) ->
  Places (nWorld (submit n (p, t))).
Proof.
  intros HP Hf Ht Hc. destruct (submit_spec p t n (pl_inv _ HP) Hf) as [HI' Q (F & R & D & C & _) T M _].
  cbn [fmap list_fmap fst app] in Q, M.
  assert (pool (nWorld (submit n (p, t))) ≡ₚ p :: pool (nWorld n)) as Hp
    by (unfold pool, flight; by rewrite Q, F, R, D).
  split; [done| |].
  - intros st u Hu. destruct (decide (u = p)) as [->|Hne].
    + rewrite (T p t) by (by left).
      rewrite (part_unique _ p st Queued HI' Hu); [done|]. cbn [part]. rewrite Q. by left.
    + rewrite M by (by intros ->%list_elem_of_singleton). apply (pl_state _ HP).
      destruct st; cbn [part] in *; unfold flight in *; rewrite ?Q, ?F, ?R, ?D in Hu; try done.
      by apply elem_of_cons in Hu as [->|Hu].
  - intros u Hu. rewrite C in Hu. destruct (pl_done _ HP u Hu) as [Hd Hn].
    assert (u <> p) as Hne by (by intros ->).
    rewrite M by (by intros ->%list_elem_of_singleton). split; [done|].
    rewrite Hp, elem_of_cons. tauto.
Qed.

Lemma dispatchRound_places env workerID n :
  dsSend env = None -> Places (nWorld n) -> Places (nWorld (fst (dispatchRound env workerID n))).
Proof.
  intros Hs HP.
  destruct (decide (queue (sched (nWorld n)) = [] \/
    snd (Allow (dsAllow env) (workerBreaker workerID (nBreakers n))) = false)) as [Hidle|Hne].
  - pose proof (dispatchRound_idle env workerID n) as Hi. destruct (dispatchRound env workerID n) as [n' r].
    destruct Hi as (_ & _ & _ & Hw); [tauto|]. cbn [fst]. rewrite Hw. case_match; auto using Notify_places.
  - destruct (dispatched_world env workerID n (pl_inv _ HP)) as (t & Hin & Hd); [tauto|..|done|].
    { intros u. apply (pl_state _ HP Queued). }
    { destruct (snd _); tauto. }
    destruct (dispatchRound env workerID n) as [n' r]. cbn [fst].
    destruct Hd as (_ & HI' & Hp & Hm & _ & Hf & Hr & Hdl & Hc & Hq & _).
    apply (Places_step (nWorld n)); try done.
    + intros u Hu. rewrite Hm, decide_False; [done|]. intros ->. by apply Hu, (part_pool Queued).
    + intros st u Hu. rewrite Hm. destruct (decide (u = t)) as [->|Hne'].
      * left. rewrite (part_unique _ t st Flying HI' Hu); [unfold running; by simpl_fields_goal|].
        apply (flying_elem _ (tID (mem (nWorld n) !!! t))). rewrite Hf. apply lookup_insert_eq.
      * right. split; [|done]. destruct st; cbn [part] in *.
        -- rewrite Hq. by right.
        -- apply flight_elem in Hu as [i Hu]. rewrite Hf in Hu.
           apply lookup_insert_Some in Hu as [[_ E]|[_ Hu]]; [congruence|]. apply flight_elem. eauto.
        -- by rewrite Hr in Hu.
        -- by rewrite Hdl in Hu.
Qed.

End node.

(** ** Runs *)

(** A call of the node service, with what it meets: the API's submissions, the
    workers' RPCs, the events of a stream, the tickers, the API's actions. *)
Inductive NodeOp :=
| NEnqueueTask (now : Time) (p : loc) (id script : string)
| NEnqueueInline (now : Time) (p : loc) (id content language : string)
| NEnqueueArchive (now : Time) (p : loc) (id content entrypoint language : string)
| NEnqueueBatch (created : Time) (p : loc) (batchID script language : string) (priority : Z) (i : nat)
| NHeartbeat (now : Time) (hb : Heartbeat)
| NReport (env : ReportEnv) (r : TaskReport)
| NOpen (now : Time) (env : PubEnv) (reg : WorkerRegistration) (sid : streamId)
| NRound (env : DispatchEnv) (workerID : string)
| NClose (env : PubEnv) (ord : list (string * loc)) (workerID : string) (sid : streamId)
| NTick (t : Tick)
| NKillWorker (env : PubEnv) (workerID : string)
| NTripCB (now : Time) (env : PubEnv) (workerID : string)
| NResetCB (env : PubEnv) (workerID : string)
| NRetryDLQ (id : string).

Section runs.
Context {S : Type} `{TaskStore S}.
Implicit Types n : Node S.

(** The text of a duration, in the health check's events. *)
Variable durationString : Duration -> string.

Definition nodeStep (o : NodeOp) n : Node S :=
  match o with
  | NEnqueueTask now p id script => EnqueueTask now p id script n
  | NEnqueueInline now p id content language => EnqueueInlineTask now p id content language n
  | NEnqueueArchive now p id content entrypoint language =>
      EnqueueArchiveTask now p id content entrypoint language n
  | NEnqueueBatch created p batchID script language priority i =>
      EnqueueInlineTaskDirect p (allocTask p (batchTask created batchID script language priority i) n)
  | NHeartbeat now hb => SendHeartbeat now hb n
  | NReport env r => ReportTaskStatus env r n
  | NOpen now env reg sid => openStream now env reg sid n
  | NRound env workerID => fst (dispatchRound env workerID n)
  | NClose env ord workerID sid => closeStream env ord workerID sid n
  | NTick t => onTick durationString t n
  | NKillWorker env workerID => fst (handleChaosKillWorker env workerID n)
  | NTripCB now env workerID => fst (handleChaosTripCB now env workerID n)
  | NResetCB env workerID => fst (handleChaosResetCB env workerID n)
  | NRetryDLQ id => fst (handleRetryDLQ id n)
  end.

(** The task that a submission creates. *)
Definition submission (o : NodeOp) : option (loc * Task) :=
  match o with
  | NEnqueueTask now p id script => Some (p, New now id script)
  | NEnqueueInline now p id content language => Some (p, NewInline now id content language)
  | NEnqueueArchive now p id content entrypoint language =>
      Some (p, NewArchive now id content entrypoint language)
  | NEnqueueBatch created p batchID script language priority i =>
      Some (p, batchTask created batchID script language priority i)
  | _ => None
  end.

(** What the language grants: a new task has a pointer of its own, and a loop over
    a map visits its entries. *)
Definition lawful (o : NodeOp) n : Prop :=
  match submission o, o with
  | Some (p, _), _ => p ∉ pool (nWorld n) ++ completed (sched (nWorld n))
  | None, NClose _ ord _ _ => map_order (inFlight (sched (nWorld n))) ord
  | None, NTick (TimeoutTick _ _ ord) => map_order (inFlight (sched (nWorld n))) ord
  | None, NTick (HealthTick _ _ ord) => NoDup ord
  | None, _ => True
  end.

(** [stream.Send] returns no error. *)
Definition sends (o : NodeOp) : Prop := match o with NRound env _ => dsSend env = None | _ => True end.

(** A new task has an id that no held task has. *)
Definition newId (o : NodeOp) n : Prop :=
  match submission o with
  | Some (_, t) => tID t ∉ idOf (mem (nWorld n)) <$> pool (nWorld n)
  | None => True
  end.

#[export] Instance lawful_dec o n : Decision (lawful o n).
Proof. unfold lawful. destruct (submission o) as [[p t]|]; [apply _|]. destruct o; try apply _. destruct t; apply _. Defined.
#[export] Instance sends_dec o : Decision (sends o).
Proof. destruct o; apply _. Defined.
#[export] Instance newId_dec o n : Decision (newId o n).
Proof. unfold newId. destruct (submission o) as [[p t]|]; apply _. Defined.

(** All three, in the form the lemmas on a single operation use. *)
Definition nodeOk (o : NodeOp) n : Prop :=
  match o with
  | NRound env _ => dsSend env = None
  | NClose _ ord _ _ => map_order (inFlight (sched (nWorld n))) ord
  | NTick (TimeoutTick _ _ ord) => map_order (inFlight (sched (nWorld n))) ord
  | NTick (HealthTick _ _ ord) => NoDup ord
  | _ => match submission o with
         | Some (p, t) => fresh [(p, t)] n /\ p ∉ completed (sched (nWorld n))
         | None => True
         end
  end.

Lemma nodeOk_intro o n : lawful o n -> sends o -> newId o n -> nodeOk o n.
Proof.
  unfold lawful, sends, newId, nodeOk. destruct (submission o) as [[p t]|] eqn:Es.
  - rewrite elem_of_app. intros Hl _ Hid. assert (fresh [(p, t)] n /\ p ∉ completed (sched (nWorld n))) as Hf.
    { split; [|tauto]. split; cbn.
      - apply NoDup_singleton.
      - intros q ->%list_elem_of_singleton. tauto.
      - apply NoDup_singleton.
      - intros q u v [= -> ->]%list_elem_of_singleton Hv E. apply Hid. rewrite E. by apply list_elem_of_fmap_2. }
    by destruct o.
  - by destruct o as [| | | | | | | | |[]| | | |].
Qed.

Inductive nodeRun : list NodeOp -> Node S -> Node S -> Prop :=
| run_nil n : nodeRun [] n n
| run_cons o os n n' : nodeOk o n -> nodeRun os (nodeStep o n) n' -> nodeRun (o :: os) n n'.

(** A condition on every operation of a run, in the state it meets. *)
Fixpoint along (P : NodeOp -> Node S -> Prop) (os : list NodeOp) n : Prop :=
  match os with [] => True | o :: os => P o n /\ along P os (nodeStep o n) end.

Definition runNode (os : list NodeOp) n : Node S := foldl (fun n o => nodeStep o n) n os.

Lemma nodeRun_intro os n : along lawful os n -> Forall sends os -> along newId os n -> nodeRun os n (runNode os n).
Proof.
  revert n. induction os as [|o os IH]; intros n; [intros; apply run_nil|].
  intros [Hl Hls] [Hs Hss]%Forall_cons [Hi His]. apply run_cons; [by apply nodeOk_intro|by apply IH].
Qed.

Lemma submission_step o p t n : submission o = Some (p, t) ->
  nodeStep o n = submit n (p, t) /\ tState t = StateQueued.
Proof.
  destruct o; intros [= <- <-]; (split; [reflexivity|]); try done.
  apply (batchTask_fields created batchID script language priority i).
Qed.

(** The operations that leave the scheduler and the tasks alone. *)
Lemma nWorld_api env now id n :
  nWorld (fst (handleChaosKillWorker env id n)) = nWorld n /\
  nWorld (fst (handleChaosTripCB now env id n)) = nWorld n /\
  nWorld (fst (handleChaosResetCB env id n)) = nWorld n.
Proof.
  unfold handleChaosKillWorker, handleChaosTripCB, handleChaosResetCB, DisconnectWorker, withBreaker, announce.
  split_and!; destruct (String.eqb id ""); try done.
  - destruct (nStreams n !! id); cbn [fst]; by node.
  - destruct (Get id (nBreakers n)). cbn [fst]. by node.
  - destruct (Get id (nBreakers n)). cbn [fst]. by node.
Qed.

Lemma nWorld_rpc now env hb reg sid n :
  nWorld (SendHeartbeat now hb n) = nWorld n /\ nWorld (openStream now env reg sid n) = nWorld n.
Proof.
  unfold SendHeartbeat, openStream. split; [|by node].
  destruct (nWorkers (emit _ n) !! hbWorkerId hb); by node.
Qed.

Lemma nodeStep_places o n : nodeOk o n -> Places (nWorld n) -> Places (nWorld (nodeStep o n)).
Proof.
  intros Hok HP. destruct (submission o) as [[p t]|] eqn:Es.
  { destruct (submission_step o p t n Es) as [-> Ht].
    assert (fresh [(p, t)] n /\ p ∉ completed (sched (nWorld n))) as [Hf Hc]
      by (destruct o; cbn [submission nodeOk] in *; congruence || by injection Es as <- <-).
    by apply submit_places. }
  destruct o; try discriminate Es; cbn [nodeStep nodeOk] in *.
  - by rewrite (proj1 (nWorld_rpc now (mkPubEnv 0 []) hb (mkReg "" "" 0) 1 n)).
  - rewrite nWorld_report. case_decide; auto using SchedComplete_places, SchedFail_places.
  - by rewrite (proj2 (nWorld_rpc now env (mkHeartbeat "" 0) reg sid n)).
  - by apply dispatchRound_places.
  - unfold closeStream. node. by apply RequeueFromWorker_places.
  - destruct t as [now env ord|now|now envs ord]; cbn [onTick]; node.
    + by destruct (checkWorkerHealth_fields durationString now env ord n Hok) as (_ & -> & _).
    + by apply ProcessRetries_places.
    + by apply CheckTimeouts_places.
  - by rewrite (proj1 (nWorld_api env 0 workerID n)).
  - by rewrite (proj1 (proj2 (nWorld_api env now workerID n))).
  - by rewrite (proj2 (proj2 (nWorld_api env 0 workerID n))).
  - unfold handleRetryDLQ. destruct (String.eqb id ""); [done|].
    pose proof (RetryFromDLQ_places id (nWorld n) HP) as Hr.
    destruct (SchedRetryFromDLQ id (nWorld n)) as [w []]; cbn [fst] in *; by node.
Qed.

(** The operations beside submissions, reports and rounds move tasks between the
    queues; only the retry from the dead letter queue makes a dead task a live one. *)

Definition revive (o : NodeOp) : list string := match o with NRetryDLQ id => [id] | _ => [] end.

Lemma nWorld_retry id n :
  nWorld (fst (handleRetryDLQ id n)) = if String.eqb id "" then nWorld n else fst (SchedRetryFromDLQ id (nWorld n)).
Proof.
  unfold handleRetryDLQ. destruct (String.eqb id ""); [done|].
  destruct (SchedRetryFromDLQ id (nWorld n)) as [w []]; cbn [fst]; by node.
Qed.

Lemma quiet_world o n :
  nodeOk o n -> submission o = None -> (forall env r, o <> NReport env r) -> (forall env id, o <> NRound env id) ->
  Inv (nWorld n) ->
  conserves (nWorld n) (nWorld (nodeStep o n)) /\
  forall p, p ∈ deadLetter (sched (nWorld n)) ->
    p ∈ deadLetter (sched (nWorld (nodeStep o n))) \/ idOf (mem (nWorld n)) p ∈ revive o.
Proof.
  intros Hok Hs Hr Hd HI. destruct o; try discriminate Hs; cbn [nodeStep nodeOk revive] in *;
    try (by destruct (Hr env r)); try (by destruct (Hd env workerID)).
  - rewrite (proj1 (nWorld_rpc now (mkPubEnv 0 []) hb (mkReg "" "" 0) 1 n)). auto using conserves_refl.
  - rewrite (proj2 (nWorld_rpc now env (mkHeartbeat "" 0) reg sid n)). auto using conserves_refl.
  - unfold closeStream. node. split; [by apply RequeueFromWorker_conserves|]. intros p Hp. left.
    destruct (RequeueFromWorker_spec workerID ord (nWorld n) HI Hok) as (w' & -> & Hq). cbn [fst]. world.
    destruct (rq_rest _ _ _ _ Hq) as (_ & -> & _). done.
  - destruct t as [now env ord|now|now envs ord]; cbn [onTick]; node.
    + destruct (checkWorkerHealth_fields durationString now env ord n Hok) as (_ & -> & _). auto using conserves_refl.
    + split; [apply ProcessRetries_conserves|]. intros p Hp. left.
      destruct (ProcessRetries_spec now (nWorld n)) as (w' & -> & Hq). cbn [fst]. world.
      rewrite (rt_sched _ _ _ _ Hq). by simpl_fields_goal.
    + split; [by apply CheckTimeouts_conserves|]. intros p Hp. left.
      destruct (CheckTimeouts_spec now envs ord (nWorld n) HI Hok) as (w' & -> & Hq). cbn [fst].
      rewrite (to_dead _ _ _ _ _ Hq). apply elem_of_app. by left.
  - rewrite (proj1 (nWorld_api env 0 workerID n)). auto using conserves_refl.
  - rewrite (proj1 (proj2 (nWorld_api env now workerID n))). auto using conserves_refl.
  - rewrite (proj2 (proj2 (nWorld_api env 0 workerID n))). auto using conserves_refl.
  - rewrite nWorld_retry. destruct (String.eqb id ""); [auto using conserves_refl|].
    split; [apply SchedRetryFromDLQ_conserves|]. intros p Hp.
    destruct (findTask (mem (nWorld n)) id (deadLetter (sched (nWorld n)))) as [i|] eqn:Hi;
      [|unfold SchedRetryFromDLQ; rewrite Hi; by left].
    destruct (findTask_Some _ _ _ _ Hi) as (t & Ht & Eid & Hperm).
    destruct (SchedRetryFromDLQ_found id _ i t Hi Ht) as (w' & -> & _ & _ & Hdl & _). cbn [fst]. rewrite Hdl.
    rewrite Hperm in Hp. apply elem_of_cons in Hp as [->|Hp]; [right; rewrite Eid; by left|by left].
Qed.

(** No operation but a submission brings a task in, and none changes what a task is. *)
Lemma nodeStep_stable o n :
  nodeOk o n -> Places (nWorld n) -> submission o = None ->
  stable (mem (nWorld n)) (mem (nWorld (nodeStep o n))) /\
  forall p, p ∈ pool (nWorld (nodeStep o n)) -> p ∈ pool (nWorld n).
Proof.
  intros Hok HP Hs. pose proof (pl_inv _ HP) as HI.
  assert (forall w', conserves (nWorld n) w' -> stable (mem (nWorld n)) (mem w') /\
    forall p, p ∈ pool w' -> p ∈ pool (nWorld n)) as Hc.
  { intros w' Hc. destruct (Hc HI) as (_ & Hst & Hp). split; [done|]. intros p. by rewrite Hp. }
  assert ((exists env r, o = NReport env r) \/ (exists env id, o = NRound env id) \/
    ((forall env r, o <> NReport env r) /\ (forall env id, o <> NRound env id))) as [(env & r & ->)|[(env & id & ->)|[Hr Hd]]]
    by (destruct o; eauto; right; right; split; intros; discriminate).
  - cbn [nodeStep]. rewrite nWorld_report. case_decide; [|apply Hc, SchedFail_conserves].
    destruct (inFlight (sched (nWorld n)) !! rpTaskId r) as [t|] eqn:Ht;
      [|rewrite SchedComplete_unknown by done; apply Hc, conserves_refl].
    destruct (SchedComplete_inv (reNow env) _ (rpOutput r) (rpExitCode r) _ t HI Ht) as (_ & Hst & Hp).
    split; [done|]. intros p Hin. rewrite Hp. by right.
  - cbn [nodeStep nodeOk] in *. apply Hc.
    destruct (decide (queue (sched (nWorld n)) = [] \/
      snd (Allow (dsAllow env) (workerBreaker id (nBreakers n))) = false)) as [Hidle|Hne].
    + pose proof (dispatchRound_idle env id n) as Hi. destruct (dispatchRound env id n) as [n' r].
      destruct Hi as (_ & _ & _ & Hw); [tauto|]. cbn [fst]. rewrite Hw.
      case_match; [apply conserves_refl|apply Notify_conserves].
    + destruct (dispatched_world env id n HI) as (t & Hin & Hx); [tauto|..|done|].
      { intros u. apply (pl_state _ HP Queued). }
      { destruct (snd _); tauto. }
      destruct (dispatchRound env id n) as [n' r]. destruct Hx as (_ & HI' & Hp & Hm & _). intros _. cbn [fst].
      split; [done|]. split; [|done]. intros u. rewrite Hm. case_decide; [|done]. subst.
      unfold running, sameKey, payload. by simpl_fields_goal.
  - apply Hc. by apply quiet_world.
Qed.

Lemma NewNodeServer_places cfg (store : option S) bus : Places (nWorld (NewNodeServer cfg store bus)).
Proof.
  split; [apply NewScheduler_inv|intros [] t Ht; cbn in Ht; by apply elem_of_nil in Ht|].
  intros t Ht. by apply elem_of_nil in Ht.
Qed.

Lemma nodeRun_places os n n' : nodeRun os n n' -> Places (nWorld n) -> Places (nWorld n').
Proof. induction 1 as [|o os n n' Ho _ IH]; auto using nodeStep_places. Qed.

(** *** What holds without further conditions *)

Lemma alloc_loose p t (w : World) : p ∉ pool w -> Loose w -> Loose (w <| mem := <[p := t]> (mem w) |>).
Proof.
  intros Hp [Hh Hk].
  assert (forall q, q ∈ pool w -> (<[p := t]> (mem w) : Mem) !!! q = mem w !!! q) as Hm.
  { intros q Hq. rewrite lookup_total_insert_ne; [done|]. by intros ->. }
  split; unfold idOf in *; simpl_fields_goal.
  - intros i Hi Hlt x y Hx Hy. specialize (Hh i Hi Hlt x y Hx Hy). unfold locLess in *.
    rewrite !Hm; [done|..]; apply elem_of_app; left; by eapply list_elem_of_lookup_2.
  - intros id u Hu. rewrite Hm; [by apply Hk|]. eapply (part_pool Flying), flying_elem, Hu.
Qed.

Lemma dispatchRound_tidy env workerID n : tidy (nWorld n) (nWorld (fst (dispatchRound env workerID n))).
Proof.
  unfold dispatchRound. destruct (Get _ _) as [regs cb]. destruct (Allow _ _) as [c ok].
  destruct ok; cbn [negb]; [|cbn [fst]; node; apply Notify_tidy]. simpl_fields_goal.
  pose proof (Dequeue_tidy (nWorld n)) as Hd. destruct (Dequeue (nWorld n)) as [w [t|]]; cbn [fst] in *; node; [|done].
  eapply tidy_trans; [exact Hd|]. unfold dispatchTask.
  assert (forall a b w0, tidy w0 (withTask (fun tk => fst (Start b tk)) t (withTask (fun tk => fst (Assign a workerID tk)) t w0))) as Hrun.
  { intros a b w0. eapply tidy_trans; apply withTask_tidy; intros; [apply (call_sameKey (CallAssign _ _))|apply (call_sameKey (CallStart _))]. }
  destruct (dsSend env); cbn [fst]; unfold sendFailed; node; [|by apply Hrun].
  eapply tidy_trans; [apply Hrun|]. eapply tidy_trans; [apply withTask_tidy, release_sameKey|].
  apply (opStep_tidy (OpEnqueue t)).
Qed.

Lemma nodeStep_loose o n : lawful o n -> Loose (nWorld n) -> Loose (nWorld (nodeStep o n)).
Proof.
  intros Hok HL. assert (forall w, tidy (nWorld n) w -> Loose w) as Hx by (intros w Hw; by apply Hw).
  destruct (submission o) as [[p t]|] eqn:Es.
  { destruct (submission_step o p t n Es) as [-> _]. unfold lawful in Hok. rewrite Es, not_elem_of_app in Hok.
    rewrite nWorld_submit. apply (opStep_tidy (OpEnqueue p)). apply alloc_loose; tauto. }
  destruct o; try discriminate Es; cbn [nodeStep]; apply Hx.
  - rewrite (proj1 (nWorld_rpc now (mkPubEnv 0 []) hb (mkReg "" "" 0) 1 n)). apply tidy_refl.
  - rewrite nWorld_report. case_decide;
      [apply (opStep_tidy (OpComplete _ _ _ _))|apply (opStep_tidy (OpFail _ _ _ _))].
  - rewrite (proj2 (nWorld_rpc now env (mkHeartbeat "" 0) reg sid n)). apply tidy_refl.
  - apply dispatchRound_tidy.
  - unfold closeStream. node. apply (opStep_tidy (OpRequeueFromWorker _ _)).
  - destruct t as [now env ord|now|now envs ord]; cbn [onTick]; node.
    + destruct (checkWorkerHealth_fields durationString now env ord n Hok) as (_ & -> & _). apply tidy_refl.
    + apply (opStep_tidy (OpProcessRetries _)).
    + apply (opStep_tidy (OpCheckTimeouts _ _ _)).
  - rewrite (proj1 (nWorld_api env 0 workerID n)). apply tidy_refl.
  - rewrite (proj1 (proj2 (nWorld_api env now workerID n))). apply tidy_refl.
  - rewrite (proj2 (proj2 (nWorld_api env 0 workerID n))). apply tidy_refl.
  - rewrite nWorld_retry. case_match; [apply tidy_refl|apply (opStep_tidy (OpRetryFromDLQ _))].
Qed.

Lemma runNode_loose os n : along lawful os n -> Loose (nWorld n) -> Loose (nWorld (runNode os n)).
Proof.
  revert n. induction os as [|o os IH]; intros n; [done|]. intros [Hl Hls] HL. apply (IH _ Hls). by apply nodeStep_loose.
Qed.

(** Claim C9: the node keeps its data well-formed. After any sequence of
    submissions, RPCs, dispatch rounds, disconnections, ticks and API actions, one
    after the other: the queue is a heap and the in-flight entries are filed under
    the ids of their tasks, whatever the sends return and whatever ids the
    submissions have. If moreover the sends of the rounds succeed and no task is
    submitted under an id that a held task has, then each task held is in one place
    only and in the state of that place (QUEUED in the queue, RUNNING in flight,
    RETRYING in the retry queue, DEAD in the dead letter queue), no two held tasks
    share an id, and the completed list holds COMPLETED tasks that are held nowhere
    else. Both conditions are needed ([send_failure_leaves_entry],
    [same_instant_submissions_collide]); the operations of concurrent requests are
    not interleaved here but in [Dispatch] and [Net]. *)
Theorem node_well_formed (cfg : Config) (store : option S) (bus : option Bus) (os : list NodeOp)
  (Hlawful : along lawful os (NewNodeServer cfg store bus)) :
  let w := nWorld (runNode os (NewNodeServer cfg store bus)) in
  (heap_ordered (locLess (mem w)) (queue (sched w)) /\
   forall id t, inFlight (sched w) !! id = Some t -> tID (mem w !!! t) = id) /\
  (Forall sends os -> along newId os (NewNodeServer cfg store bus) ->
     NoDup (idOf (mem w) <$> pool w) /\
     (forall t, t ∈ queue (sched w) -> tState (mem w !!! t) = StateQueued) /\
     (forall t, t ∈ flight (sched w) -> tState (mem w !!! t) = StateRunning) /\
     (forall t, t ∈ retryQueue (sched w) -> tState (mem w !!! t) = StateRetrying) /\
     (forall t, t ∈ deadLetter (sched w) -> tState (mem w !!! t) = StateDead) /\
     (forall t, t ∈ completed (sched w) -> tState (mem w !!! t) = StateCompleted /\ t ∉ pool w)).
Proof.
  split.
  - pose proof (inv_loose _ (pl_inv _ (NewNodeServer_places cfg store bus))) as HL.
    by destruct (runNode_loose os _ Hlawful HL).
  - intros Hs Hi. pose proof (nodeRun_places _ _ _ (nodeRun_intro _ _ Hlawful Hs Hi)
      (NewNodeServer_places cfg store bus)) as [[Hh Hk Hn] Hst Hd].
    split_and!; [done|apply (Hst Queued)|apply (Hst Flying)|apply (Hst Waiting)|apply (Hst Buried)|done].
Qed.

End runs.

(** ** Runs that can be computed *)

Section eval.
Context {S : Type} `{TaskStore S}.

#[export] Instance along_dec durationString (P : NodeOp -> Node S -> Prop) `{!forall o n, Decision (P o n)} os n :
  Decision (along durationString P os n).
Proof. revert n. induction os as [|o os IH]; intros n; cbn [along]; apply _. Defined.

(** A decidable condition that implies [nodeOk]. *)
Definition nodeMay (o : NodeOp) (n : Node S) : Prop := (lawful o n /\ newId o n) /\ sends o.

#[export] Instance nodeMay_dec o n : Decision (nodeMay o n).
Proof. unfold nodeMay. apply _. Defined.

Lemma nodeMay_ok o n : nodeMay o n -> nodeOk o n.
Proof. intros [[Hl Hi] Hs]. by apply nodeOk_intro. Qed.

End eval.

(** ** Witness: a task from its submission to its report *)

Definition demoOps : list NodeOp :=
  [NEnqueueTask 10 1 "a" "run.sh"; NOpen 11 (mkPubEnv 11 []) (mkReg "w1" "host" 5) 1;
   NRound demoEnv "w1"; NReport demoReports (demoReport "a")].

Definition demoStart : Node MemoryStore := NewNodeServer demoCfg (Some NewMemoryStore) (Some NewBus).

Definition demoEnd : Node MemoryStore := runNode (fun _ => "") demoOps demoStart.

Lemma demoEnd_run : nodeRun (fun _ => "") demoOps demoStart demoEnd.
Proof. apply nodeRun_intro; apply (bool_decide_unpack _); vm_compute; exact I. Qed.

Lemma node_well_formed_witness :
  completed (sched (nWorld demoEnd)) = [1%positive] /\
  tState (mem (nWorld demoEnd) !!! 1%positive) = StateCompleted.
Proof.
  assert (completed (sched (nWorld demoEnd)) = [1%positive]) as E by (vm_compute; reflexivity).
  split; [exact E|].
  destruct (node_well_formed (fun _ => "") demoCfg (Some NewMemoryStore) (Some NewBus) demoOps) as [_ H];
    [apply (bool_decide_unpack _); vm_compute; exact I|].
  destruct H as (_ & _ & _ & _ & _ & H).
  - apply (bool_decide_unpack _). vm_compute. exact I.
  - apply (bool_decide_unpack _). vm_compute. exact I.
  - apply (H 1%positive). change (nWorld (runNode _ _ _)) with (nWorld demoEnd). rewrite E. by left.
Defined.

(** ** Two submissions at the same time *)

(** The second of two [POST /api/v1/submit] that read the same clock value. *)
Definition collided : Node MemoryStore :=
  let env p := mkLoopEnv 5 5 p (mkPubEnv 5 []) in
  let n := fst (handleSubmit (env 1%positive) (inr (mkSubmit "" "echo 1")) demoStart) in
  fst (handleSubmit (env 2%positive) (inr (mkSubmit "" "echo 2")) n).

(** The ids of submitted tasks are the clock's, and two requests handled
    in the same nanosecond get the same one. Both are answered with 200 and queued;
    once a worker has been sent both, only the second is in flight. The first report
    of that id completes the second task, whichever of them was executed, and the
    first task stays RUNNING: it is in no queue, no report and no timeout reaches
    it, and the stream's end does not give it back. *)
Theorem same_instant_submissions_collide :
  tID (mem (nWorld collided) !!! 1%positive) = tID (mem (nWorld collided) !!! 2%positive) /\
  queue (sched (nWorld collided)) ≡ₚ [1%positive; 2%positive] /\
  exists n1 a1 n2 a2, dispatchRound demoEnv "w1" collided = (n1, RoundSent a1) /\
    dispatchRound demoEnv "w1" n1 = (n2, RoundSent a2) /\ asContent a1 = "echo 1" /\ asContent a2 = "echo 2" /\
    let n3 := ReportTaskStatus demoReports (demoReport (asTaskId a1)) n2 in
    tState (mem (nWorld n3) !!! 2%positive) = StateCompleted /\ tState (mem (nWorld n3) !!! 1%positive) = StateRunning /\
    pool (nWorld n3) = [] /\ completed (sched (nWorld n3)) = [2%positive].
Proof.
  split; [vm_compute; reflexivity|]. split; [by apply (bool_decide_unpack _); vm_compute|].
  destruct (dispatchRound demoEnv "w1" collided) as [n1 r1] eqn:E1. vm_compute in E1. injection E1 as <- <-.
  do 4 eexists. split; [reflexivity|]. split; [vm_compute; reflexivity|]. vm_compute. repeat split.
Qed.
