(* ===== verification/Observe.v ===== *)
(** * Metrics, gRPC interceptors and the log level

    [internal/metrics/metrics.go] declares the collectors; the updates that the
    node service makes are the [Metric]s of [NodeServer.v], the interceptors of
    [internal/interceptors/interceptors.go] make their own around a handler;
    [parseLevel] is of [internal/logging/logger.go]. *)

From Stdlib Require Import Ascii.
From S2P Require Import Prelude GoTime Task Config NodeServer.

Open Scope string_scope.
Open Scope list_scope.
Open Scope Z_scope.

(** ** The collectors *)

Inductive Kind := Counter | Gauge | Histogram.

Record Collector := mkCollector { clName : string; clKind : Kind; clLabels : list string }.

#[export] Instance Kind_eq_dec : EqDecision Kind.
Proof. solve_decision. Defined.

#[export] Instance Collector_eq_dec : EqDecision Collector.
Proof. solve_decision. Defined.

Definition TasksQueued := mkCollector "mw_tasks_queued_total" Counter [].
Definition TasksCompleted := mkCollector "mw_tasks_completed_total" Counter ["status"].
Definition TasksAssigned := mkCollector "mw_tasks_assigned_total" Counter [].
Definition TasksRetried := mkCollector "mw_tasks_retried_total" Counter [].
Definition TaskDurationSeconds := mkCollector "mw_task_duration_seconds" Histogram [].
Definition TaskQueueDepth := mkCollector "mw_task_queue_depth" Gauge [].
Definition WorkersConnected := mkCollector "mw_workers_connected" Gauge [].
Definition HeartbeatsReceived := mkCollector "mw_heartbeats_received_total" Counter [].
Definition WorkerTasksActive := mkCollector "mw_worker_tasks_active" Gauge ["worker_id"].
Definition GRPCRequestDuration := mkCollector "mw_grpc_request_duration_seconds" Histogram ["method"; "status"].
Definition GRPCRequestsTotal := mkCollector "mw_grpc_requests_total" Counter ["method"; "status"].
Definition HTTPRequestDuration :=
  mkCollector "mw_http_request_duration_seconds" Histogram ["path"; "method"; "status_code"].
Definition HTTPRequestsTotal :=
  mkCollector "mw_http_requests_total" Counter ["path"; "method"; "status_code"].

(** The default registry after the package's initialisation. *)
Definition collectors : list Collector := [
  TasksQueued; TasksCompleted; TasksAssigned; TasksRetried; TaskDurationSeconds; TaskQueueDepth;
  WorkersConnected; HeartbeatsReceived; WorkerTasksActive; GRPCRequestDuration; GRPCRequestsTotal;
  HTTPRequestDuration; HTTPRequestsTotal].

(** [promauto] registers each collector and panics when its name is taken. *)

Fixpoint register (cs : list Collector) (reg : list Collector) : option (list Collector) :=
  match cs with
  | [] => Some reg
  | c :: cs =>
      if existsb (fun d => String.eqb (clName d) (clName c)) reg then None else register cs (reg ++ [c])
  end.

(** ** Updates *)

Inductive Change := Inc | Dec | Set_ (z : Z) | Observe (d : Duration).

Record Update := mkUpdate { upCollector : Collector; upLabels : list string; upChange : Change }.

(** [WithLabelValues] panics unless there is a value for each label; a counter
    only counts up and only a histogram observes. *)

Definition allowed (k : Kind) (c : Change) : bool :=
  match k, c with
  | Counter, Inc | Gauge, (Inc | Dec | Set_ _) | Histogram, Observe _ => true
  | _, _ => false
  end.

Definition wellTyped (u : Update) : bool :=
  bool_decide (upCollector u ∈ collectors) &&
  Nat.eqb (length (upLabels u)) (length (clLabels (upCollector u))) &&
  allowed (clKind (upCollector u)) (upChange u).

(** The node service's updates. *)

Definition metricUpdate (m : Metric) : Update :=
  match m with
  | IncTasksQueued => mkUpdate TasksQueued [] Inc
  | SetTaskQueueDepth k => mkUpdate TaskQueueDepth [] (Set_ k)
  | IncHeartbeatsReceived => mkUpdate HeartbeatsReceived [] Inc
  | SetWorkerTasksActive worker k => mkUpdate WorkerTasksActive [worker] (Set_ k)
  | IncTasksCompleted status => mkUpdate TasksCompleted [status] Inc
  | IncTasksRetried => mkUpdate TasksRetried [] Inc
  | ObserveTaskDuration d => mkUpdate TaskDurationSeconds [] (Observe d)
  | IncWorkersConnected => mkUpdate WorkersConnected [] Inc
  | DecWorkersConnected => mkUpdate WorkersConnected [] Dec
  | IncTasksAssigned => mkUpdate TasksAssigned [] Inc
  end.

(** ** Interceptors *)

(** [path.Base]. *)

Fixpoint dropSlashes (s : list ascii) : list ascii :=
  match s with c :: s' => if Ascii.eqb c "/" then dropSlashes s' else s | [] => [] end.

Fixpoint untilSlash (s : list ascii) : list ascii :=
  match s with c :: s' => if Ascii.eqb c "/" then [] else c :: untilSlash s' | [] => [] end.

Definition pathBase (s : string) : string :=
  if String.eqb s "" then "."
  else
    match untilSlash (dropSlashes (rev (String.list_ascii_of_string s))) with
    | [] => "/"
    | base => String.string_of_list_ascii (rev base)
    end.

Section interceptors.

(** What an RPC handler does to the server's state [N]: it returns a response and
    an error, or panics; [status.Code(err).String()] is [code]. *)
Context {N R E : Type}.
Variable code : option E -> string.
Variable internalError : E.   (* status.Errorf(13, "internal error") *)

Inductive HandlerResult := HReturns (resp : option R) (err : option E) | HPanics (value : string).

(** What the caller gets, and the metrics. *)
Record Intercepted := mkIntercepted {
  icState : N; icResp : option R; icErr : option E; icUpdates : list Update
}.

Definition rpcUpdates (method status : string) (d : Duration) : list Update :=
  [mkUpdate GRPCRequestDuration [method; status] (Observe d); mkUpdate GRPCRequestsTotal [method; status] Inc].

Definition UnaryServerInterceptor (start stop : Time) (fullMethod : string) (handler : N -> N * HandlerResult)
    (n : N) : Intercepted :=
  let method := pathBase fullMethod in
  match handler n with
  | (n, HReturns resp err) =>
      mkIntercepted n resp err (rpcUpdates method (code err) (Sub stop start))
  | (n, HPanics _) => mkIntercepted n None (Some internalError) []
  end.

(** A stream handler returns only an error. *)
Definition StreamServerInterceptor (start stop : Time) (fullMethod : string) (handler : N -> N * HandlerResult)
    (n : N) : Intercepted :=
  let method := pathBase fullMethod in
  match handler n with
  | (n, HReturns _ err) => mkIntercepted n None err (rpcUpdates method (code err) (Sub stop start))
  | (n, HPanics _) => mkIntercepted n None (Some internalError) []
  end.

End interceptors.

Arguments HandlerResult : clear implicits.
Arguments Intercepted : clear implicits.

(** ** The log level *)

(** [strings.ToLower] as far as a result made of ASCII letters can tell: the
    ASCII capitals, the dotted capital I (C4 B0), whose lower case is [i], and the
    Kelvin sign (E2 84 AA), whose lower case is [k]. *)

Fixpoint toLower (s : list ascii) : list ascii :=
  match s with
  | [] => []
  | c :: s' =>
      let n := nat_of_ascii c in
      match s' with
      | d :: s2 =>
          if Nat.eqb n 196 && Nat.eqb (nat_of_ascii d) 176 then "i"%char :: toLower s2
          else
            match s2 with
            | e :: s3 =>
                if Nat.eqb n 226 && Nat.eqb (nat_of_ascii d) 132 && Nat.eqb (nat_of_ascii e) 170
                then "k"%char :: toLower s3
                else (if (Nat.leb 65 n && Nat.leb n 90) then ascii_of_nat (n + 32) else c) :: toLower s'
            | [] => (if (Nat.leb 65 n && Nat.leb n 90) then ascii_of_nat (n + 32) else c) :: toLower s'
            end
      | [] => [if (Nat.leb 65 n && Nat.leb n 90) then ascii_of_nat (n + 32) else c]
      end
  end.

Definition ToLower (s : string) : string :=
  String.string_of_list_ascii (toLower (String.list_ascii_of_string s)).

(** [slog.Level]. *)
Definition LevelDebug : Z := -4.
Definition LevelInfo : Z := 0.
Definition LevelWarn : Z := 4.
Definition LevelError : Z := 8.

Definition parseLevel (level : string) : Z :=
  let l := ToLower level in
  if String.eqb l "debug" then LevelDebug
  else if String.eqb l "warn" || String.eqb l "warning" then LevelWarn
  else if String.eqb l "error" then LevelError
  else LevelInfo.

Inductive LogHandler := JSONHandler (level : Z) | TextHandler (level : Z).

(** The handler and the attributes of every line. *)
Definition NewLogger (component level format : string) : LogHandler * list (string * string) :=
  (if String.eqb (ToLower format) "json" then JSONHandler (parseLevel level) else TextHandler (parseLevel level),
   [("component", component)]).

Example levels : parseLevel "WARNING" = LevelWarn /\ parseLevel "Debug" = LevelDebug /\ parseLevel "" = LevelInfo.
Proof. repeat split. Qed.

Example bases : pathBase "/node.NodeService/SendHeartbeat" = "SendHeartbeat" /\ pathBase "///" = "/" /\
  pathBase "" = "." /\ pathBase "a/b//" = "b".
Proof. repeat split. Qed.

(** ** Properties *)

(** The metrics cannot panic: every collector has a name of its own, so
    the registration at start succeeds, and each update that the node service or
    an interceptor makes gives its collector one value per label and a change
    that its kind allows. *)
Theorem metrics_well_typed :
  register collectors [] = Some collectors /\
  (forall m, wellTyped (metricUpdate m) = true) /\
  (forall N R E (code : option E -> string) (internal : E) start stop (fullMethod : string)
     (handler : N -> N * HandlerResult R E) n,
     Forall (fun u => wellTyped u = true)
       (icUpdates (UnaryServerInterceptor code internal start stop fullMethod handler n) ++
        icUpdates (StreamServerInterceptor code internal start stop fullMethod handler n))).
Proof.
  split; [reflexivity|]. split.
  - intros m. destruct m; reflexivity.
  - intros. unfold UnaryServerInterceptor, StreamServerInterceptor.
    destruct (handler n) as [n' [resp err|v]]; repeat constructor.
Qed.

(** An interceptor is transparent to a handler that returns and contains
    one that panics. The state, the response and the error are the handler's, and
    the call is counted once, under the method's name and the error's code; after
    a panic the caller gets the internal error and no response, what the handler
    had done to the state stays, and the call is not counted. *)
Theorem interceptor_contains_panics {N R E} (code : option E -> string) (internal : E) (start stop : Time)
  (fullMethod : string) (handler : N -> N * HandlerResult R E) (n : N) :
  let r := UnaryServerInterceptor code internal start stop fullMethod handler n in
  icState r = fst (handler n) /\
  match snd (handler n) with
  | HReturns resp err => icResp r = resp /\ icErr r = err /\
      filter (fun u => upCollector u = GRPCRequestsTotal) (icUpdates r) =
        [mkUpdate GRPCRequestsTotal [pathBase fullMethod; code err] Inc]
  | HPanics _ => icResp r = None /\ icErr r = Some internal /\ icUpdates r = []
  end.
Proof. unfold UnaryServerInterceptor. by destruct (handler n) as [n' [resp err|v]]. Qed.
