(* ===== verification/Counters.v ===== *)
(** * What the metrics say about a run

    The log of the node service's metric updates, read as the values that
    [/metrics] exposes, against the operations of the run. *)

From stdpp Require Import pretty.
From S2P Require Import Prelude GoTime Heap Task Scheduler SchedulerFacts SchedulerProps.
From S2P Require Import CircuitBreaker Config Store Events NodeServer NodeFacts.
From S2P Require Import Master MasterFacts EndToEnd NodeTrace Observe.

Open Scope string_scope.
Open Scope list_scope.
Open Scope Z_scope.

(** The value of a counter or gauge with the label values [ls] after an update. *)

Definition updated (c : Collector) (ls : list string) (v : Z) (u : Update) : Z :=
  if String.eqb (clName (upCollector u)) (clName c) && bool_decide (upLabels u = ls) then
    match upChange u with Inc => v + 1 | Dec => v - 1 | Set_ z => z | Observe _ => v end
  else v.

Definition value (c : Collector) (ls : list string) (log : list Metric) : Z :=
  foldl (updated c ls) 0 (metricUpdate <$> log).

Lemma value_app c ls log log' :
  value c ls (log ++ log') = foldl (updated c ls) (value c ls log) (metricUpdate <$> log').
Proof. unfold value. by rewrite fmap_app, foldl_app. Qed.

Lemma value_snoc c ls log m : value c ls (log ++ [m]) = updated c ls (value c ls log) (metricUpdate m).
Proof. by rewrite value_app. Qed.

(** How many operations of a run satisfy a test. *)
Definition tally (P : NodeOp -> bool) (os : list NodeOp) : Z := Z.of_nat (length (filter (fun o => P o = true) os)).

Lemma tally_cons P o os : tally P (o :: os) = (if P o then 1 else 0) + tally P os.
Proof. unfold tally. rewrite filter_cons. destruct (P o); case_decide; try done; cbn [length]; lia. Qed.

Definition isSubmission (o : NodeOp) : bool := match submission o with Some _ => true | None => false end.
Definition isHeartbeat (o : NodeOp) : bool := match o with NHeartbeat _ _ => true | _ => false end.
Definition isOpen (o : NodeOp) : bool := match o with NOpen _ _ _ _ => true | _ => false end.
Definition isClose (o : NodeOp) : bool := match o with NClose _ _ _ _ => true | _ => false end.
Definition isCompletion (o : NodeOp) : bool :=
  match o with NReport _ r => bool_decide (rpState r = TASK_COMPLETED) | _ => false end.
Definition isFailure (o : NodeOp) : bool :=
  match o with NReport _ r => negb (bool_decide (rpState r = TASK_COMPLETED)) | _ => false end.

Section counters.
Context {S : Type} `{TaskStore S}.
Implicit Types n : Node S.
Variable durationString : Duration -> string.

(** The metrics that an operation may log. *)

Inductive opLog : NodeOp -> list Metric -> Prop :=
| ol_submission o k : isSubmission o = true -> opLog o [IncTasksQueued; SetTaskQueueDepth k]
| ol_heartbeat now hb l : l = [] \/ l = [SetWorkerTasksActive (hbWorkerId hb) (hbActiveTasks hb)] ->
    opLog (NHeartbeat now hb) (IncHeartbeatsReceived :: l)
| ol_completed env r l : rpState r = TASK_COMPLETED -> (l = [] \/ exists d, l = [ObserveTaskDuration d]) ->
    opLog (NReport env r) (IncTasksCompleted "completed" :: l)
| ol_failed env r l l' : rpState r <> TASK_COMPLETED -> (l = [] \/ l = [IncTasksRetried]) ->
    (l' = [] \/ exists d, l' = [ObserveTaskDuration d]) ->
    opLog (NReport env r) (IncTasksCompleted "failed" :: l ++ l')
| ol_open now env reg sid : opLog (NOpen now env reg sid) [IncWorkersConnected]
| ol_close env ord wid sid : opLog (NClose env ord wid sid) [DecWorkersConnected]
| ol_round env wid l : (l = [] \/ exists k, l = [IncTasksAssigned; SetTaskQueueDepth k]) ->
    opLog (NRound env wid) l
| ol_quiet o : match o with
    | NTick _ | NKillWorker _ _ | NTripCB _ _ _ | NResetCB _ _ | NRetryDLQ _ => True | _ => False end ->
    opLog o [].

Lemma log_submit p t n : nMetrics (submit n (p, t)) = nMetrics n ++
  [IncTasksQueued; SetTaskQueueDepth (Z.of_nat (length (queue (sched (nWorld (submit n (p, t)))))))].
Proof.
  unfold submit, enqueue. cbn [fst snd]. node. rewrite <- app_assoc. unfold SchedStats, allocTask. cbn. by node.
Qed.

Lemma log_report env r n : exists l, opLog (NReport env r) l /\
  nMetrics (ReportTaskStatus env r n) = nMetrics n ++ l.
Proof.
  unfold ReportTaskStatus. destruct (Get _ _) as [regs cb].
  set (tail := match rpStartedAt r, rpCompletedAt r with
               | Some started, Some completed => [ObserveTaskDuration (Sub completed started)] | _, _ => [] end).
  assert (tail = [] \/ exists d, tail = [ObserveTaskDuration d]) as Htail
    by (subst tail; destruct (rpStartedAt r), (rpCompletedAt r); eauto).
  assert (forall n', nMetrics (match rpStartedAt r, rpCompletedAt r with
    | Some started, Some completed => emit (ObserveTaskDuration (Sub completed started)) n' | _, _ => n' end)
    = nMetrics n' ++ tail) as Hlast.
  { intros n'. subst tail. destruct (rpStartedAt r), (rpCompletedAt r); rewrite ?app_nil_r; by node. }
  rewrite Hlast. case_decide as Hs.
  - exists (IncTasksCompleted "completed" :: tail). split; [by constructor|].
    unfold reportCompleted. simpl_fields_goal. destruct (SchedComplete _ _ _ _ _) as [w [t|]];
      unfold saveReturned; node; by rewrite <- app_assoc.
  - unfold reportFailed. simpl_fields_goal. destruct (SchedFail _ _ _ _ _) as [w t]. cbv zeta.
    set (n' := saveReturned t (n <| nBreakers := regs |> <| nWorld := w |>)).
    assert (nMetrics n' = nMetrics n) as Hn by (subst n'; unfold saveReturned; destruct t; by node).
    match goal with |- context [ if ?d then emit IncTasksRetried ?x else ?x ] => destruct d end.
    + exists (IncTasksCompleted "failed" :: [IncTasksRetried] ++ tail). split; [constructor; auto|].
      node. by rewrite Hn, <- !app_assoc.
    + exists (IncTasksCompleted "failed" :: [] ++ tail). split; [constructor; auto|].
      node. by rewrite Hn, <- !app_assoc.
Qed.

Lemma log_round env wid n : exists l, opLog (NRound env wid) l /\
  nMetrics (fst (dispatchRound env wid n)) = nMetrics n ++ l.
Proof.
  unfold dispatchRound. destruct (Get _ _) as [regs cb]. destruct (Allow _ _) as [c ok].
  destruct ok; cbn [negb].
  2:{ exists []. split; [constructor; auto|]. cbn [fst]. node. by rewrite app_nil_r. }
  destruct (Dequeue _) as [w [t|]].
  2:{ exists []. split; [constructor; auto|]. cbn [fst]. node. by rewrite app_nil_r. }
  unfold dispatchTask, sendFailed. destruct (dsSend env); cbn [fst];
    eexists; (split; [apply ol_round; right; by eexists|]); node; by rewrite <- app_assoc.
Qed.

Lemma log_health now env ord n : nMetrics (checkWorkerHealth durationString now env ord n) = nMetrics n.
Proof.
  unfold checkWorkerHealth. revert n. induction ord as [|id ord IH]; intros n; [done|]. cbn [foldl].
  rewrite IH. unfold checkWorker. destruct (nWorkers n !! id); [|done].
  repeat case_match; by node.
Qed.

Lemma nodeStep_log o n : exists l, opLog o l /\
  nMetrics (nodeStep durationString o n) = nMetrics n ++ l.
Proof.
  destruct (submission o) as [[p t]|] eqn:Es.
  { destruct (submission_step durationString o p t n Es) as [-> _]. eexists. split; [|apply log_submit].
    apply ol_submission. unfold isSubmission. by rewrite Es. }
  destruct o; try discriminate Es; cbn [nodeStep].
  - unfold SendHeartbeat. destruct (nWorkers (emit IncHeartbeatsReceived n) !! hbWorkerId hb);
      eexists; (split; [apply ol_heartbeat|node; rewrite <- ?app_assoc; reflexivity]); auto.
  - apply log_report.
  - eexists. split; [apply ol_open|]. unfold openStream. by node.
  - apply log_round.
  - eexists. split; [apply ol_close|]. unfold closeStream. by node.
  - exists []. split; [by apply ol_quiet|]. rewrite app_nil_r.
    destruct t; cbn [onTick]; node; [apply log_health|done..].
  - exists []. split; [by apply ol_quiet|]. rewrite app_nil_r.
    unfold handleChaosKillWorker, DisconnectWorker, announce. destruct (String.eqb _ _); [done|].
    destruct (nStreams n !! workerID); cbn [fst]; by node.
  - exists []. split; [by apply ol_quiet|]. rewrite app_nil_r.
    unfold handleChaosTripCB, withBreaker, announce. destruct (String.eqb _ _); [done|].
    destruct (Get _ _). cbn [fst]. by node.
  - exists []. split; [by apply ol_quiet|]. rewrite app_nil_r.
    unfold handleChaosResetCB, withBreaker, announce. destruct (String.eqb _ _); [done|].
    destruct (Get _ _). cbn [fst]. by node.
  - exists []. split; [by apply ol_quiet|]. rewrite app_nil_r.
    unfold handleRetryDLQ. destruct (String.eqb _ _); [done|].
    destruct (SchedRetryFromDLQ _ _) as [w []]; cbn [fst]; by node.
Qed.

(** The change of a collector's value by an operation. *)

Definition counts (c : Collector) (ls : list string) (P Q : NodeOp -> bool) : Prop :=
  forall o l v, opLog o l ->
    foldl (updated c ls) v (metricUpdate <$> l) = v + (if P o then 1 else 0) - (if Q o then 1 else 0).

Lemma run_counts c ls P Q os n n' : counts c ls P Q -> nodeRun durationString os n n' ->
  value c ls (nMetrics n') = value c ls (nMetrics n) + tally P os - tally Q os.
Proof.
  intros Hc. induction 1 as [n|o os n n' _ _ IH]; [unfold tally; cbn; lia|].
  destruct (nodeStep_log o n) as (l & Hl & E). rewrite IH, E, value_app, (Hc o l _ Hl), !tally_cons. lia.
Qed.

Definition never (o : NodeOp) : bool := false.

(** Run through the forms of an operation's log. *)
Ltac count_log :=
  intros o l v Hl; destruct Hl as [o k Ho|? ? l [->| ->]|? ? l Hs [->|[? ->]]
    |? ? l l' Hs [->| ->] [->|[? ->]]| | |? ? l [->|[? ->]]|o Ho];
  try (destruct o; try discriminate Ho; try destruct Ho);
  unfold isCompletion, isFailure; rewrite ?(bool_decide_eq_true_2 _ Hs), ?(bool_decide_eq_false_2 _ Hs);
  cbn; unfold updated; cbn; repeat (case_bool_decide; try done); lia.

Lemma counts_submissions : counts TasksQueued [] isSubmission never.
Proof. count_log. Qed.
Lemma counts_heartbeats : counts HeartbeatsReceived [] isHeartbeat never.
Proof. count_log. Qed.
Lemma counts_completed : counts TasksCompleted ["completed"] isCompletion never.
Proof. count_log. Qed.
Lemma counts_failed : counts TasksCompleted ["failed"] isFailure never.
Proof. count_log. Qed.
Lemma counts_connections : counts WorkersConnected [] isOpen isClose.
Proof. count_log. Qed.

(** Claim C35: the metrics count what happened. After any run from a new node, the
    counter of queued tasks is the number of submissions, that of heartbeats the
    number of heartbeats, the gauge of connected workers the streams opened less
    those closed, and the counters of completed and failed tasks the number of
    reports of each kind, late and repeated ones and failures that will be retried
    included; after a submission the depth gauge is the length of the queue. *)
Theorem metrics_count_the_run (cfg : Config) (store : option S) (bus : option Bus) (os : list NodeOp) n
  (Hrun : nodeRun durationString os (NewNodeServer cfg store bus) n) :
  value TasksQueued [] (nMetrics n) = tally isSubmission os /\
  value HeartbeatsReceived [] (nMetrics n) = tally isHeartbeat os /\
  value WorkersConnected [] (nMetrics n) = tally isOpen os - tally isClose os /\
  value TasksCompleted ["completed"] (nMetrics n) = tally isCompletion os /\
  value TasksCompleted ["failed"] (nMetrics n) = tally isFailure os /\
  (forall o, isSubmission o = true ->
     value TaskQueueDepth [] (nMetrics (nodeStep durationString o n)) =
     Z.of_nat (length (queue (sched (nWorld (nodeStep durationString o n)))))).
Proof.
  assert (forall P, tally never P = 0) as H0 by (intros l; induction l as [|o l IH]; [done|]; by rewrite tally_cons).
  assert (forall c ls P Q, counts c ls P Q -> value c ls (nMetrics n) = tally P os - tally Q os) as Hc
    by (intros c ls P Q HPQ; rewrite (run_counts c ls P Q os _ n HPQ Hrun); cbn; lia).
  rewrite (Hc _ _ _ _ counts_submissions), (Hc _ _ _ _ counts_heartbeats), (Hc _ _ _ _ counts_completed),
    (Hc _ _ _ _ counts_failed), (Hc _ _ _ _ counts_connections), H0.
  split_and!; try lia. intros o Ho.
  unfold isSubmission in Ho. destruct (submission o) as [[p t]|] eqn:Es; [|done].
  destruct (submission_step durationString o p t n Es) as [-> _]. by rewrite log_submit, value_app.
Qed.

End counters.

Lemma metrics_count_the_run_witness :
  value TasksQueued [] (nMetrics demoEnd) = 1 /\ value TasksCompleted ["completed"] (nMetrics demoEnd) = 1.
Proof.
  destruct (metrics_count_the_run (fun _ => "") demoCfg (Some NewMemoryStore) (Some NewBus) demoOps demoEnd demoEnd_run)
    as (H1 & _ & _ & H2 & _).
  rewrite H1, H2. split; vm_compute; reflexivity.
Defined.
