(* ===== verification/Lifecycle.v ===== *)
(** * The master's process: start, shutdown, health, rate limit

    [NewMaster], [Start], [startGRPC] and [startHTTP] of
    [internal/master/master.go], with the readiness flag of
    [internal/health/health.go] and the wrapper of
    [internal/middleware/rate_limiter.go].  The goroutines of [Start] are a step
    function over their program counters.  Of the servers, what their packages
    document: [GracefulStop] takes no new RPC and ends when no RPC is pending, a
    worker's [AssignTask] stream included; [Serve] returns nil only when
    [GracefulStop] has ended, and fails when it is called after it has begun;
    [ListenAndServe] returns [ErrServerClosed] as soon as [Shutdown] is called,
    which itself waits for the requests in flight or its time-out. *)

From S2P Require Import Prelude GoTime Task Scheduler CircuitBreaker Config Store Events NodeServer Master.

Open Scope string_scope.
Open Scope list_scope.
Open Scope Z_scope.

(** ** Health *)

Record Checker := mkChecker { ready : bool }.

Definition NewChecker : Checker := mkChecker false.

Definition SetReady (b : bool) (c : Checker) : Checker := mkChecker b.

Definition StatusServiceUnavailable : Z := 503.
Definition StatusTooManyRequests : Z := 429.

(** The JSON object of a response as its fields. *)

Definition LivenessHandler (c : Checker) : Response (list (string * string)) :=
  mkResponse StatusOK [("status", "alive")].

Definition ReadinessHandler (c : Checker) : Response (list (string * string)) :=
  if ready c then mkResponse StatusOK [("status", "ready")]
  else mkResponse StatusServiceUnavailable [("status", "not ready")].

(** ** The rate limiter *)

Section limiter.

(** [rate.Limiter] and its [Allow]; [http.Error]; the handler that is wrapped, on
    the server's state [N], with answers of its own. *)
Context {L N Req Ans : Type}.
Variable allow : Time -> L -> L * bool.
Variable refuse : Response string -> Ans.
Variable next : Req -> N -> N * Ans.

Definition Wrap (now : Time) (r : Req) (s : L * N) : L * N * Ans :=
  let '(l, n) := s in
  let '(l, ok) := allow now l in
  if negb ok then (l, n, refuse (mkResponse StatusTooManyRequests (errorBody "rate limit exceeded")))
  else let '(n, resp) := next r n in (l, n, resp).

Definition serveAll (rs : list (Time * Req)) (s : L * N) : L * N * list Ans :=
  foldl (fun acc r => let '(s, resps) := acc in
                      let '(s, resp) := Wrap (fst r) (snd r) s in (s, resps ++ [resp]))
    (s, []) rs.

(** The requests that the limiter lets through, and what they do by themselves. *)

Fixpoint admitted (rs : list (Time * Req)) (l : L) : list Req :=
  match rs with
  | [] => []
  | (now, r) :: rs => let '(l, ok) := allow now l in (if ok then [r] else []) ++ admitted rs l
  end.

Definition handleAll (rs : list Req) (n : N) : N := foldl (fun n r => fst (next r n)) n rs.

End limiter.

(** ** The process *)

Record Master (S : Type) := mkMaster { mNode : Node S; mHealth : Checker }.
Arguments mkMaster {S}. Arguments mNode {S}. Arguments mHealth {S}.

Definition NewMaster (cfg : Config) : Master MemoryStore :=
  mkMaster (NewNodeServer cfg (Some NewMemoryStore) (Some NewBus)) NewChecker.

(** [startGRPC]: before [net.Listen]; before [SetReady(true)]; before [Serve]; in
    it; returned. *)
Inductive GrpcPC := GListen | GListening | GBeforeServe | GServing | GReturned (err : error).

(** Its goroutine: not started; waiting for the context; before [GracefulStop];
    in it; ended. *)
Inductive StopPC := StopNone | StopWait | StopMarked | Stopping | Stopped.

(** [startHTTP]: before the [go] statement; in [ListenAndServe]; returned.  Its
    goroutine: not started; waiting; in [Shutdown]; ended. *)
Inductive HttpPC := HSetup | HServing | HReturned (err : error).
Inductive DownPC := DownNone | DownWait | ShuttingDown | Down.

Record Life := mkLife {
  lfCtxDone : bool;              (* the group's context *)
  lfHealth : Checker;
  lfGrpc : GrpcPC; lfStop : StopPC;
  lfHttp : HttpPC; lfDown : DownPC;
  lfTicks : bool;                (* StartHealthChecker runs *)
  lfRPCs : gset positive;        (* pending RPCs *)
  lfRequests : gset positive;    (* HTTP requests in flight *)
  lfFirst : error;               (* errgroup's first error *)
  lfClosed : nat;                (* calls of store.Close *)
  lfResult : option error        (* what Start returned *)
}.

#[export] Instance Life_struct : Struct Life := fun l =>
  mkLife (lfCtxDone l) (lfHealth l) (lfGrpc l) (lfStop l) (lfHttp l) (lfDown l) (lfTicks l) (lfRPCs l)
    (lfRequests l) (lfFirst l) (lfClosed l) (lfResult l).

Definition newLife : Life :=
  mkLife false NewChecker GListen StopNone HSetup DownNone true ∅ ∅ None 0 None.

(** A function of the group returns: the first error cancels the context. *)
Definition groupDone (err : error) (l : Life) : Life :=
  match err, lfFirst l with
  | Some _, None => l <| lfCtxDone := true |> <| lfFirst := err |>
  | _, _ => l
  end.

Inductive LifeAct :=
| ASignal
| AListen (err : error) | ASetReady | AServe | AServeReturn (err : error)
| AUnready | AGracefulStop | AStopped
| ARPC (i : positive) | ARPCDone (i : positive)
| AListenHTTP | AHttpFail (err : string) | AHttpClosed
| AShutdown | ADown (timeout : bool)
| ARequest (i : positive) | ARequestDone (i : positive)
| ATicksDone | AWaitReturn.

Definition stopBegun (s : StopPC) : bool := match s with Stopping | Stopped => true | _ => false end.
Definition downBegun (d : DownPC) : bool := match d with ShuttingDown | Down => true | _ => false end.

(** [cfg] gives the addresses of the error texts. *)
Definition lifeStep (cfg : Config) (a : LifeAct) (l : Life) : option Life :=
  match a with
  | ASignal => Some (l <| lfCtxDone := true |>)
  | AListen err =>
      match lfGrpc l, err with
      | GListen, Some e =>
          let err := Some ("gRPC listen on " +:+ GRPCPort cfg +:+ ": " +:+ e) in
          Some (groupDone err (l <| lfGrpc := GReturned err |>))
      | GListen, None => Some (l <| lfGrpc := GListening |> <| lfStop := StopWait |>)
      | _, _ => None
      end
  | ASetReady =>
      match lfGrpc l with
      | GListening => Some (l <| lfHealth := SetReady true (lfHealth l) |> <| lfGrpc := GBeforeServe |>)
      | _ => None
      end
  | AServe =>
      match lfGrpc l with
      | GBeforeServe =>
          if stopBegun (lfStop l)
          then let err := Some "grpc: the server has been stopped" in
               Some (groupDone err (l <| lfGrpc := GReturned err |>))
          else Some (l <| lfGrpc := GServing |>)
      | _ => None
      end
  | AServeReturn err =>
      match lfGrpc l with
      | GServing =>
          match lfStop l, err with
          | Stopping, _ => None
          | (StopNone | StopWait | StopMarked), None => None
          | _, _ => Some (groupDone err (l <| lfGrpc := GReturned err |>))
          end
      | _ => None
      end
  | AUnready =>
      match lfStop l with
      | StopWait =>
          if lfCtxDone l then Some (l <| lfHealth := SetReady false (lfHealth l) |> <| lfStop := StopMarked |>)
          else None
      | _ => None
      end
  | AGracefulStop => match lfStop l with StopMarked => Some (l <| lfStop := Stopping |>) | _ => None end
  | AStopped =>
      match lfStop l with
      | Stopping => if bool_decide (lfRPCs l = ∅) then Some (l <| lfStop := Stopped |>) else None
      | _ => None
      end
  | ARPC i =>
      match lfGrpc l with
      | GServing => if stopBegun (lfStop l) then None else Some (l <| lfRPCs := {[i]} ∪ lfRPCs l |>)
      | _ => None
      end
  | ARPCDone i => if bool_decide (i ∈ lfRPCs l) then Some (l <| lfRPCs := lfRPCs l ∖ {[i]} |>) else None
  | AListenHTTP =>
      match lfHttp l with HSetup => Some (l <| lfHttp := HServing |> <| lfDown := DownWait |>) | _ => None end
  | AHttpFail e =>
      match lfHttp l with
      | HServing =>
          let err := Some ("HTTP server on " +:+ HTTPPort cfg +:+ ": " +:+ e) in
          Some (groupDone err (l <| lfHttp := HReturned err |>))
      | _ => None
      end
  | AHttpClosed =>
      match lfHttp l with
      | HServing => if downBegun (lfDown l) then Some (l <| lfHttp := HReturned None |>) else None
      | _ => None
      end
  | AShutdown =>
      match lfDown l with
      | DownWait => if lfCtxDone l then Some (l <| lfDown := ShuttingDown |>) else None
      | _ => None
      end
  | ADown timeout =>
      match lfDown l with
      | ShuttingDown =>
          if timeout || bool_decide (lfRequests l = ∅) then Some (l <| lfDown := Down |>) else None
      | _ => None
      end
  | ARequest i =>
      match lfHttp l with
      | HServing => if downBegun (lfDown l) then None else Some (l <| lfRequests := {[i]} ∪ lfRequests l |>)
      | _ => None
      end
  | ARequestDone i =>
      if bool_decide (i ∈ lfRequests l) then Some (l <| lfRequests := lfRequests l ∖ {[i]} |>) else None
  | ATicksDone => if lfCtxDone l && lfTicks l then Some (l <| lfTicks := false |>) else None
  | AWaitReturn =>
      match lfGrpc l, lfHttp l, lfTicks l, lfResult l with
      | GReturned _, HReturned _, false, None =>
          Some (l <| lfClosed := S (lfClosed l) |> <| lfResult := Some (lfFirst l) |>)
      | _, _, _, _ => None
      end
  end.

Fixpoint lifeRun (cfg : Config) (acts : list LifeAct) (l : Life) : option Life :=
  match acts with
  | [] => Some l
  | a :: acts => l ← lifeStep cfg a l; lifeRun cfg acts l
  end.

(** A way to the end of [Start] from any state, with no failure of a server: the
    clients end the RPCs that are pending. *)

Definition stopPlan (s : StopPC) : list LifeAct :=
  match s with StopWait => [AUnready; AGracefulStop] | StopMarked => [AGracefulStop] | _ => [] end.

Definition servePlan (s : StopPC) : list LifeAct :=
  if stopBegun s then [AServe] else AServe :: stopPlan s ++ [AStopped; AServeReturn None].

Definition endRPCs (rpcs : gset positive) : list LifeAct := ARPCDone <$> elements rpcs.

Definition grpcPlan (g : GrpcPC) (s : StopPC) (rpcs : gset positive) : list LifeAct :=
  match g with
  | GListen => AListen None :: ASetReady :: servePlan StopWait
  | GListening => ASetReady :: servePlan s
  | GBeforeServe => servePlan s
  | GServing => stopPlan s ++ (match s with Stopped => [] | _ => endRPCs rpcs ++ [AStopped] end) ++ [AServeReturn None]
  | GReturned _ => []
  end.

Definition httpPlan (h : HttpPC) (d : DownPC) : list LifeAct :=
  match h with
  | HSetup => [AListenHTTP; AShutdown; AHttpClosed]
  | HServing => match d with DownWait => [AShutdown; AHttpClosed] | _ => [AHttpClosed] end
  | HReturned _ => []
  end.

Definition shutdownPlan (l : Life) : list LifeAct :=
  match lfResult l with
  | Some _ => []
  | None => ASignal :: (if lfTicks l then [ATicksDone] else []) ++ grpcPlan (lfGrpc l) (lfStop l) (lfRPCs l) ++
            httpPlan (lfHttp l) (lfDown l) ++ [AWaitReturn]
  end.

(** ** Lemmas *)

Section limited.
Context {L N Req Ans : Type}.
Variable allow : Time -> L -> L * bool.
Variable refuse : Response string -> Ans.
Variable next : Req -> N -> N * Ans.

Lemma serveAll_snoc rs now r s :
  serveAll allow refuse next (rs ++ [(now, r)]) s =
  let '(s, resps) := serveAll allow refuse next rs s in
  let '(s, resp) := Wrap allow refuse next now r s in (s, resps ++ [resp]).
Proof. unfold serveAll. by rewrite foldl_app. Qed.

Lemma serveAll_cons now r rs s :
  serveAll allow refuse next ((now, r) :: rs) s =
  let '(s, resp) := Wrap allow refuse next now r s in
  let '(s, resps) := serveAll allow refuse next rs s in (s, resp :: resps).
Proof.
  induction rs as [|[now' r'] rs IH] using rev_ind.
  - unfold serveAll. cbn [foldl fst snd]. by destruct (Wrap allow refuse next now r s).
  - rewrite app_comm_cons, serveAll_snoc, IH. destruct (Wrap allow refuse next now r s) as [s1 resp].
    rewrite serveAll_snoc. destruct (serveAll allow refuse next rs s1) as [s2 resps].
    by destruct (Wrap allow refuse next now' r' s2).
Qed.

Lemma serveAll_admitted rs l n :
  snd (fst (serveAll allow refuse next rs (l, n))) = handleAll next (admitted allow rs l) n.
Proof.
  revert l n. induction rs as [|[now r] rs IH]; intros l n; [done|].
  rewrite serveAll_cons. cbn [admitted]. unfold Wrap. destruct (allow now l) as [l' [|]]; cbn [negb].
  - destruct (next r n) as [n' resp] eqn:E. cbn [app]. specialize (IH l' n').
    destruct (serveAll allow refuse next rs (l', n')) as [s2 resps]. cbn [fst] in *. rewrite IH.
    unfold handleAll. cbn [foldl]. by rewrite E.
  - cbn [app]. specialize (IH l' n). by destruct (serveAll allow refuse next rs (l', n)) as [s2 resps].
Qed.

Lemma serveAll_length rs s : length (snd (serveAll allow refuse next rs s)) = length rs.
Proof.
  induction rs as [|[now r] rs IH] using rev_ind; [done|].
  rewrite serveAll_snoc, length_app. destruct (serveAll allow refuse next rs s) as [s' resps].
  destruct (Wrap allow refuse next now r s') as [s2 resp]. cbn in *. by rewrite length_app, IH.
Qed.

End limited.

Record LifeInv (l : Life) : Prop := {
  li_first : lfFirst l <> None -> lfCtxDone l = true;
  li_failed : forall e, lfGrpc l = GReturned (Some e) \/ lfHttp l = HReturned (Some e) -> lfFirst l <> None;
  li_source : forall e, lfFirst l = Some e -> lfGrpc l = GReturned (Some e) \/ lfHttp l = HReturned (Some e);
  li_stop : stopBegun (lfStop l) = true \/ lfStop l = StopMarked -> lfCtxDone l = true;
  li_down : downBegun (lfDown l) = true -> lfCtxDone l = true;
  li_returned : lfGrpc l = GReturned None \/ lfHttp l = HReturned None -> lfCtxDone l = true;
  li_ticks : lfTicks l = false -> lfCtxDone l = true;
  li_listen : lfStop l = StopNone -> lfGrpc l = GListen \/ exists e, lfGrpc l = GReturned e;
  li_graceful : lfGrpc l = GReturned None -> lfStop l = Stopped;
  li_stopped : lfStop l = Stopped -> lfRPCs l = ∅;
  li_rpcs : lfRPCs l <> ∅ -> lfGrpc l = GServing \/ exists e, lfGrpc l = GReturned e;
  li_http : lfDown l = DownNone -> lfHttp l = HSetup;
  li_ready : ready (lfHealth l) = true -> lfGrpc l <> GListen /\ lfGrpc l <> GListening;
  li_result : match lfResult l with
              | None => lfClosed l = 0%nat
              | Some r => lfClosed l = 1%nat /\ r = lfFirst l /\ lfTicks l = false /\
                  (exists e, lfGrpc l = GReturned e) /\ (exists e, lfHttp l = HReturned e)
              end
}.

Lemma newLife_inv : LifeInv newLife.
Proof. split; cbn; try done; try (by left); try (by intros e [|]); by intros [|]. Qed.

Lemma lifeStep_inv cfg a l l' : lifeStep cfg a l = Some l' -> LifeInv l -> LifeInv l'.
Proof.
  intros Hs [I1 I2 I3 I4 I5 I6 I7 J1 G1 G2 G3 J2 I8 I9].
  destruct l as [ctx h g s ht dn tk rpcs rqs fe cl res]; cbn in *.
  destruct a; unfold lifeStep, groupDone in Hs; cbn in Hs; repeat case_match; simplify_eq/=;
    split; cbn; b2p; try assumption; try done;
    try solve [intros; destruct_or?; destruct_and?; simplify_eq; eauto; congruence].
  all: try (intros e E; destruct (I3 e E); simplify_eq; by auto).
  all: try (destruct I9 as (? & ? & ? & [? ?] & [? ?]); simplify_eq; by eauto 8).
  all: try solve [intros E; specialize (G2 E); set_solver].
  all: try solve [intros Hx; by destruct (G3 Hx) as [ |[? ?] ]].
  all: try solve [intros Hx; apply G3; intros Hy; apply Hx; set_solver].
  all: naive_solver.
Qed.

Lemma lifeRun_inv cfg acts l l' : lifeRun cfg acts l = Some l' -> LifeInv l -> LifeInv l'.
Proof.
  revert l. induction acts as [|a acts IH]; intros l; cbn [lifeRun]; [by intros [= ->]|].
  destruct (lifeStep cfg a l) as [l1|] eqn:E; cbn; [|done]. intros H I. eauto using lifeStep_inv.
Qed.

(** The answer of [/readyz] follows the flag, and that of [/healthz] does not. *)

Definition isReady (l : Life) : Prop := rsStatus (ReadinessHandler (lfHealth l)) = StatusOK.

Lemma isReady_ready l : isReady l <-> ready (lfHealth l) = true.
Proof. unfold isReady, ReadinessHandler. by destruct (ready (lfHealth l)). Qed.

(** ** The end of [Start] *)

Lemma lifeRun_app cfg a b l l1 r :
  lifeRun cfg a l = Some l1 -> lifeRun cfg b l1 = r -> lifeRun cfg (a ++ b) l = r.
Proof.
  revert l. induction a as [|x a IH]; intros l; cbn [app lifeRun]; [by intros [= ->]|].
  destruct (lifeStep cfg x l); cbn; [apply IH|done].
Qed.

Lemma endRPCs_run cfg rpcs l :
  lfRPCs l = rpcs -> lifeRun cfg (endRPCs rpcs) l = Some (l <| lfRPCs := ∅ |>).
Proof.
  unfold endRPCs. intros E. assert (lfRPCs l = list_to_set (elements rpcs)) as Hl by (rewrite E; symmetry; apply list_to_set_elements_L).
  pose proof (NoDup_elements rpcs) as Hn. clear E. revert l Hl Hn.
  induction (elements rpcs) as [|i js IH]; intros l Hl Hn; cbn [fmap list_fmap lifeRun].
  - cbn in Hl. destruct l; cbn in *. by subst.
  - apply NoDup_cons in Hn as [Hi Hn]. cbn [lifeStep]. rewrite bool_decide_eq_true_2 by (rewrite Hl; set_solver).
    cbn [mbind option_bind]. rewrite (IH (l <| lfRPCs := lfRPCs l ∖ {[i]} |>)); [by destruct l| |done].
    simpl_fields_goal. rewrite Hl. cbn. set_solver.
Qed.

Definition grpcEnded (l l' : Life) (e : error) : Prop :=
  lfGrpc l' = GReturned e /\ lfHttp l' = lfHttp l /\ lfDown l' = lfDown l /\ lfTicks l' = lfTicks l /\
  lfResult l' = lfResult l /\ lfCtxDone l' = true /\ lfClosed l' = lfClosed l /\
  (lfFirst l = None -> stopBegun (lfStop l) = false \/ lfGrpc l = GServing -> lfFirst l' = None).

Lemma servingPlan_runs cfg l :
  lfGrpc l = GServing -> lfCtxDone l = true -> lfStop l <> StopNone ->
  exists l', lifeRun cfg (grpcPlan GServing (lfStop l) (lfRPCs l)) l = Some l' /\ grpcEnded l l' None.
Proof.
  intros Hg Hc Hs. unfold grpcPlan.
  assert (exists h s, lifeRun cfg (stopPlan (lfStop l)) l = Some (l <| lfHealth := h |> <| lfStop := s |>) /\
    (lfStop l = Stopped /\ s = Stopped \/ lfStop l <> Stopped /\ s = Stopping)) as (h & s & R1 & Hs1).
  { destruct l as [ctx h g s ht dn tk rpcs rqs fe cl res]; cbn in *. subst.
    destruct s; try done; eexists _, _; (split; [reflexivity|]); auto. }
  destruct Hs1 as [[E ->]|[Hne ->]].
  - rewrite E in *. exists (l <| lfHealth := h |> <| lfStop := Stopped |> <| lfGrpc := GReturned None |>). split.
    + apply (lifeRun_app _ _ _ _ _ _ R1). cbn [lifeRun lifeStep app]. simpl_fields_goal. by rewrite Hg.
    + unfold grpcEnded. simpl_fields_goal. by repeat split.
  - exists (l <| lfHealth := h |> <| lfStop := Stopped |> <| lfRPCs := ∅ |> <| lfGrpc := GReturned None |>). split.
    + apply (lifeRun_app _ _ _ _ _ _ R1).
      assert ((match lfStop l with Stopped => [] | _ => endRPCs (lfRPCs l) ++ [AStopped] end) = endRPCs (lfRPCs l) ++ [AStopped]) as ->
        by (by destruct (lfStop l)).
      rewrite <- app_assoc. eapply lifeRun_app; [apply endRPCs_run; by simpl_fields_goal|].
      cbn [lifeRun lifeStep app]. simpl_fields_goal. rewrite bool_decide_eq_true_2 by done. cbn [mbind option_bind].
      simpl_fields_goal. rewrite Hg. by destruct l.
    + unfold grpcEnded. simpl_fields_goal. by repeat split.
Qed.

Lemma grpcPlan_runs cfg l :
  LifeInv l -> lfCtxDone l = true ->
  exists l' e, lifeRun cfg (grpcPlan (lfGrpc l) (lfStop l) (lfRPCs l)) l = Some l' /\ grpcEnded l l' e.
Proof.
  intros I Hc. pose proof (li_listen _ I) as HL. pose proof (li_failed _ I) as HF.
  pose proof (li_rpcs _ I) as HR. clear I.
  destruct (lfGrpc l) eqn:Hg.
  4:{ destruct (servingPlan_runs cfg l Hg Hc) as (l' & ? & ?); [|by eauto].
      intros E. by destruct (HL E) as [|[? ?]]. }
  4:{ exists l, err. split; [done|]. unfold grpcEnded. rewrite Hg. auto 10. }
  all: assert (lfRPCs l = ∅) as HE by (destruct (decide (lfRPCs l = ∅)) as [|Hne]; [done|destruct (HR Hne) as [|[? ?]]; done]).
  all: clear HR; unfold grpcEnded; destruct l as [ctx h g s ht dn tk rpcs rqs fe cl res]; cbn in *; subst.
  all: destruct s; try (by destruct (HL eq_refl) as [|[? ?]]); destruct fe;
    (eexists _, _; split; [reflexivity|]; cbn; repeat split; naive_solver).
Qed.

Lemma httpPlan_runs cfg l :
  LifeInv l -> lfCtxDone l = true ->
  exists l' e, lifeRun cfg (httpPlan (lfHttp l) (lfDown l)) l = Some l' /\
    lfHttp l' = HReturned e /\ lfGrpc l' = lfGrpc l /\ lfTicks l' = lfTicks l /\ lfResult l' = lfResult l /\
    lfClosed l' = lfClosed l /\ lfFirst l' = lfFirst l.
Proof.
  intros I Hc. pose proof (li_http _ I) as HL. clear I.
  destruct l as [ctx h g s ht dn tk rpcs rqs fe cl res]; cbn in *. subst ctx.
  destruct ht, dn; try (by specialize (HL eq_refl));
    (eexists _, _; split; [reflexivity|]; cbn; by repeat split).
Qed.

(** An RPC stays pending until its end. *)
Lemma pending_stays cfg acts l l' i :
  lifeRun cfg acts l = Some l' -> ARPCDone i ∉ acts -> i ∈ lfRPCs l -> i ∈ lfRPCs l'.
Proof.
  revert l. induction acts as [|a acts IH]; intros l; cbn [lifeRun]; [by intros [= ->]|].
  destruct (lifeStep cfg a l) as [l1|] eqn:E; cbn [mbind option_bind]; [|done].
  intros Hr [Hne Hn]%not_elem_of_cons Hi. apply (IH l1 Hr Hn). clear Hr Hn IH.
  destruct l as [ctx h g s ht dn tk rpcs rqs fe cl res]; cbn in *.
  destruct a; unfold lifeStep, groupDone in E; cbn in E; repeat case_match; simplify_eq/=; try done; set_solver.
Qed.

(** Claim C33: the master's shutdown waits for the clients' RPCs and can complete
    when they end. From every state that its goroutines can reach: [Start] does not
    return nil as long as an RPC is pending, a worker's [AssignTask] stream among
    them, which nothing on the master ends; and once the clients end the pending RPCs, a signal, the end of the health checker and the
    servers' own stop sequences (no failure of either) lead to the return of
    [Start], with the store closed once; the result is nil when nothing failed
    before and [GracefulStop] was not called ahead of [Serve]. *)
Theorem master_shutdown_completes cfg acts l :
  lifeRun cfg acts newLife = Some l ->
  (forall i acts' l', i ∈ lfRPCs l -> (ARPCDone i ∉ acts') -> lifeRun cfg acts' l = Some l' ->
     lfResult l' <> Some None) /\
  exists l' r, lifeRun cfg (shutdownPlan l) l = Some l' /\ lfResult l' = Some r /\ lfClosed l' = 1%nat /\
    (lfResult l = None -> lfFirst l = None -> stopBegun (lfStop l) = false \/ lfGrpc l = GServing -> r = None).
Proof.
  intros Hr. pose proof (lifeRun_inv _ _ _ _ Hr newLife_inv) as I. split.
  { intros i acts' l' Hi Hn Hr' E. pose proof (pending_stays _ _ _ _ _ Hr' Hn Hi) as Hi'.
    pose proof (lifeRun_inv _ _ _ _ Hr' I) as I'. pose proof (li_result _ I') as HR. rewrite E in HR.
    destruct HR as (_ & Hf & _ & [[e|] He] & _).
    - by destruct (li_failed _ I' e); [left|].
    - rewrite (li_stopped _ I' (li_graceful _ I' He)) in Hi'. set_solver. }
  unfold shutdownPlan.
  pose proof (li_result _ I) as HR. destruct (lfResult l) as [r|] eqn:E.
  { exists l, r. cbn. naive_solver. }
  set (l1 := if lfTicks l then (l <| lfCtxDone := true |> <| lfTicks := false |>) else (l <| lfCtxDone := true |>)).
  assert (Hl1 : lifeRun cfg (ASignal :: if lfTicks l then [ATicksDone] else []) l = Some l1).
  { subst l1. by destruct l as [ctx h g s ht dn [|] rpcs rqs fe cl res]. }
  assert (Hp : lfGrpc l1 = lfGrpc l /\ lfStop l1 = lfStop l /\ lfHttp l1 = lfHttp l /\ lfDown l1 = lfDown l /\
    lfTicks l1 = false /\ lfResult l1 = None /\ lfCtxDone l1 = true /\ lfClosed l1 = 0%nat /\ lfFirst l1 = lfFirst l /\
    lfRPCs l1 = lfRPCs l).
  { subst l1. destruct l as [ctx h g s ht dn [|] rpcs rqs fe cl res]; cbn in *; by repeat split. }
  pose proof (lifeRun_inv _ _ _ _ Hl1 I) as I1. clearbody l1.
  destruct Hp as (Hg & Hs & Hh & Hd & Ht & Hres & Hc & Hcl & Hf & Hrp).
  destruct (grpcPlan_runs cfg l1 I1 Hc) as (l2 & eg & R2 & G2 & H2 & D2 & T2 & S2 & C2 & L2 & F2).
  pose proof (lifeRun_inv _ _ _ _ R2 I1) as I2.
  destruct (httpPlan_runs cfg l2 I2 C2) as (l3 & eh & R3 & H3 & G3 & T3 & S3 & L3 & F3).
  rewrite Hg, Hs, Hrp in R2. rewrite H2, D2, Hh, Hd in R3.
  exists (l3 <| lfClosed := S (lfClosed l3) |> <| lfResult := Some (lfFirst l3) |>), (lfFirst l3).
  split.
  - rewrite app_comm_cons. apply (lifeRun_app _ _ _ _ _ _ Hl1), (lifeRun_app _ _ _ _ _ _ R2), (lifeRun_app _ _ _ _ _ _ R3).
    cbn [lifeRun lifeStep]. by rewrite G3, G2, H3, T3, T2, Ht, S3, S2, Hres.
  - rewrite L3, L2, Hcl, F3. split; [by simpl_fields_goal|]. split; [by simpl_fields_goal|].
    intros _ HF HO. apply F2; [congruence|by rewrite Hs, Hg].
Qed.

Definition demoConfig : Config := Load (fun _ _ _ => 0) (fun _ => "").

(** A run to a clean stop, with an RPC and a request in flight when the signal
    comes. *)
Definition demoLife : list LifeAct :=
  [AListenHTTP; AListen None; ASetReady; AServe; ARPC 1; ARequest 1; ASignal; AUnready; AGracefulStop].

Definition demoStopped : list LifeAct :=
  demoLife ++ [ARPCDone 1; AStopped; AServeReturn None; AShutdown; ARequestDone 1; ADown false; AHttpClosed;
    ATicksDone; AWaitReturn].

Lemma master_shutdown_completes_witness :
  exists l l' r, lifeRun demoConfig demoLife newLife = Some l /\ lifeRun demoConfig (shutdownPlan l) l = Some l' /\
    lfResult l' = Some r /\ lfClosed l' = 1%nat /\ r = None.
Proof.
  destruct (lifeRun demoConfig demoLife newLife) as [l|] eqn:E; [|vm_compute in E; discriminate].
  destruct (master_shutdown_completes demoConfig demoLife l E) as (_ & l' & r & H1 & H2 & H3 & H4).
  exists l, l', r. split; [done|]. split; [done|]. split; [done|]. split; [done|].
  vm_compute in E. injection E as <-. apply H4; [done|done|by right].
Defined.

(** What is known when [Start] has returned. *)
Lemma returned_servers l r : LifeInv l -> lfResult l = Some r ->
  lfClosed l = 1%nat /\ lfTicks l = false /\
  exists g h, lfGrpc l = GReturned g /\ lfHttp l = HReturned h /\ (r = None <-> g = None /\ h = None) /\ (r = g \/ r = h).
Proof.
  intros [I1 I2 I3 I4 I5 I6 I7 J1 _ _ _ J2 I8 I9] E. rewrite E in I9. destruct I9 as (Hc & -> & Ht & [g Hg] & [h Hh]).
  split; [done|]. split; [done|]. exists g, h. split; [done|]. split; [done|].
  rewrite Hg, Hh in *. clear - I2 I3. destruct (lfFirst l) as [e|].
  - destruct (I3 e eq_refl) as [[= ->]|[= ->]]; (split; [split; [done|by intros [? ?]]|auto]).
  - destruct g as [g|]; [exfalso; eapply (I2 g); auto|].
    destruct h as [h|]; [exfalso; eapply (I2 h); auto|]. by split; [|left].
Qed.

(** [Start] returns only when the context is done and [startGRPC], [startHTTP] and
    the health checker have returned, which the HTTP requests in flight need not
    have; the store is closed then, exactly once and never earlier; it returns nil
    only when [GracefulStop] has ended with no RPC pending, and otherwise the error
    of a server which failed.  Before that, [/readyz] answers 200 only once the
    gRPC port is open. *)
Theorem master_start_returns cfg acts l :
  lifeRun cfg acts newLife = Some l ->
  lfClosed l = match lfResult l with Some _ => 1%nat | None => 0%nat end /\
  (isReady l -> lfGrpc l <> GListen /\ lfGrpc l <> GListening) /\
  (forall r, lfResult l = Some r ->
     lfCtxDone l = true /\ lfTicks l = false /\
     (exists g h, lfGrpc l = GReturned g /\ lfHttp l = HReturned h /\
        (r = None <-> g = None /\ h = None) /\ (r = g \/ r = h)) /\
     (r = None -> lfStop l = Stopped /\ lfRPCs l = ∅)).
Proof.
  intros Hr. pose proof (lifeRun_inv _ _ _ _ Hr newLife_inv) as [I1 I2 I3 I4 I5 I6 I7 J1 G1 G2 G3 J2 I8 I9].
  rewrite isReady_ready. split; [|split; [done|]].
  - destruct (lfResult l); [by destruct I9|done].
  - intros r E. destruct (returned_servers l r (lifeRun_inv _ _ _ _ Hr newLife_inv) E) as (_ & Ht & g & h & Hg & Hh & Hn & Hs).
    split; [|split; [done|split; [by exists g, h|]]].
    + destruct g as [e|]; [apply I1, (I2 e); auto|auto].
    + intros ->. destruct (proj1 Hn eq_refl) as [-> _]. auto.
Qed.

Lemma master_start_returns_witness :
  exists l, lifeRun demoConfig demoStopped newLife = Some l /\ lfResult l = Some None /\
    lfClosed l = 1%nat /\ lfCtxDone l = true.
Proof.
  destruct (lifeRun demoConfig demoStopped newLife) as [l|] eqn:E; [|vm_compute in E; discriminate].
  destruct (master_start_returns demoConfig demoStopped l E) as (H1 & _ & H3).
  assert (R : lfResult l = Some None) by (vm_compute in E; injection E as <-; reflexivity).
  exists l. rewrite R in H1. split; [done|]. split; [done|]. split; [exact H1|]. apply (H3 None R).
Defined.

(** Nobody waits for [srv.Shutdown]: [ListenAndServe] returns as soon as
    it is called, so [Start] can return nil, with the store closed and the process
    about to exit, while an HTTP request is in flight and the shutdown still has
    its whole time-out left. *)
Theorem shutdown_cuts_requests cfg :
  exists acts l, lifeRun cfg acts newLife = Some l /\ lfResult l = Some None /\ lfClosed l = 1%nat /\
    lfDown l = ShuttingDown /\ lfRequests l <> ∅.
Proof.
  exists [AListenHTTP; AListen None; ASetReady; AServe; ARequest 1; ASignal; AUnready; AGracefulStop; AStopped;
    AServeReturn None; AShutdown; AHttpClosed; ATicksDone; AWaitReturn].
  eexists. split; [reflexivity|]. repeat split. done.
Qed.

(** The goroutine that marks the master unready and the function that
    marks it ready race: with a signal during start-up the second can write last,
    and [/readyz] then answers 200 for as long as the process lives although the
    gRPC server is stopping, and [Start] ends with an error. *)
Theorem ready_after_shutdown cfg :
  exists acts l, lifeRun cfg acts newLife = Some l /\ isReady l /\ lfStop l = Stopped /\
    exists e, lfResult l = Some (Some e).
Proof.
  exists [AListenHTTP; ASignal; AListen None; AUnready; AGracefulStop; AStopped; ASetReady; AServe; AShutdown;
    AHttpClosed; ATicksDone; AWaitReturn].
  eexists. split; [reflexivity|]. repeat split. by eexists.
Qed.

(** ** The rate limiter *)

(** Behind the limiter the server goes through exactly the requests the
    limiter admits: whatever is rejected leaves no trace in its state, and each of
    the requests, admitted or not, gets one response. *)
Theorem limiter_transparent {L N Req Ans : Type} (allow : Time -> L -> L * bool)
  (refuse : Response string -> Ans) (next : Req -> N -> N * Ans) rs l n :
  snd (fst (serveAll allow refuse next rs (l, n))) = handleAll next (admitted allow rs l) n /\
  length (snd (serveAll allow refuse next rs (l, n))) = length rs.
Proof. split; [apply serveAll_admitted|apply serveAll_length]. Qed.
