(* ===== verification/WebSocket.v ===== *)
(** * The event stream: [handleWebSocket] of [internal/master/api_handlers.go]

    The handlers of all open requests run against the bus of [Events.v] together
    with the publishers.  A session is one request: where its handler stands, its
    channel, whether its read loop still runs, and what it has written to the
    client.  The connection is code of gorilla/websocket: whether the upgrade, a
    read and a write succeed is an argument of the step. *)

From S2P Require Import Prelude GoTime Events.

Open Scope string_scope.
Open Scope list_scope.
Open Scope Z_scope.

(** ** Sessions *)

(** The handler: before [Upgrade]; before [Subscribe]; at the head of the write
    loop; in [WriteMessage]; in the deferred [Unsubscribe], before and after its
    critical section; returned. *)

Inductive WsPC :=
| WsUpgrade | WsSubscribe | WsRange | WsWrite (e : Event) | WsUnsubscribe | WsCloseChan | WsReturned.

Record Session := mkSession { wsPC : WsPC; wsChan : positive; wsReader : bool; wsSent : list Event }.

#[export] Instance Session_struct : Struct Session := fun s =>
  mkSession (wsPC s) (wsChan s) (wsReader s) (wsSent s).

Record Hub := mkHub { hubClients : Clients; hubSessions : gmap positive Session }.

Definition newHub : Hub := mkHub (mkClients NewBus ∅) ∅.

Inductive HubOp :=
| WConnect (id : positive)
| WUpgraded (id : positive) (ok : bool)
| WSubscribed (id : positive)
| WReadFails (id : positive)
| WNext (id : positive)
| WWritten (id : positive) (ok : bool)
| WDelete (id : positive)
| WClose (id : positive)
| WPublish (now : Time) (ord : list positive) (e : Event).

(** ** Steps *)

(** The handler's own state after its step, when the step can be taken; [c] is the
    channel that a [Subscribe] returns, [q] the session's channel. *)

Definition handlerStep (o : HubOp) (c : positive) (q : Chan) (s : Session) : option Session :=
  match o, wsPC s with
  | WUpgraded _ ok, WsUpgrade => Some (s <| wsPC := if ok then WsSubscribe else WsReturned |>)
  | WSubscribed _, WsSubscribe => Some (s <| wsPC := WsRange |> <| wsChan := c |> <| wsReader := true |>)
  | WReadFails _, _ => if wsReader s then Some (s <| wsReader := false |>) else None
  | WNext _, WsRange =>
      match buf q with
      | e :: _ => Some (s <| wsPC := WsWrite e |>)
      | [] => if closed q then Some (s <| wsPC := WsUnsubscribe |>) else None
      end
  | WWritten _ ok, WsWrite e =>
      if ok then Some (s <| wsPC := WsRange |> <| wsSent := wsSent s ++ [e] |>)
      else Some (s <| wsPC := WsUnsubscribe |>)
  | WDelete _, WsUnsubscribe => Some (s <| wsPC := WsCloseChan |>)
  | WClose _, WsCloseChan => Some (s <| wsPC := WsReturned |>)
  | _, _ => None
  end.

Definition sessionOf (o : HubOp) : option positive :=
  match o with
  | WUpgraded id _ | WSubscribed id | WReadFails id | WNext id | WWritten id _ | WDelete id | WClose id => Some id
  | WConnect _ | WPublish _ _ _ => None
  end.

(** The call of the bus that the step makes. *)

Definition busCall (o : HubOp) (ch : positive) : option BusOp :=
  match o with
  | WSubscribed _ => Some BSubscribe
  | WNext _ => Some (BReceive ch)
  | WDelete _ => Some (BDelete ch)
  | WClose _ => Some (BClose ch)
  | WPublish now ord e => Some (BPublish now ord e)
  | _ => None
  end.

Definition sessionsStep (o : HubOp) (h : Hub) : option (gmap positive Session) :=
  let b := bus (hubClients h) in
  match o with
  | WConnect id =>
      match hubSessions h !! id with
      | None => Some (<[id := mkSession WsUpgrade 1 false []]> (hubSessions h))
      | Some _ => None
      end
  | WPublish _ ord _ => if bool_decide (ord ≡ₚ elements (subscribers b)) then Some (hubSessions h) else None
  | _ =>
      id ← sessionOf o; s ← hubSessions h !! id;
      s ← handlerStep o (chNext b) (chans b !!! wsChan s) s; Some (<[id := s]> (hubSessions h))
  end.

Definition busCallOf (o : HubOp) (h : Hub) : option BusOp :=
  busCall o (match id ← sessionOf o; hubSessions h !! id with Some s => wsChan s | None => 1%positive end).

Inductive Outcome := Blocked | Panics | Next (h : Hub).

Definition hubStep (o : HubOp) (h : Hub) : Outcome :=
  match sessionsStep o h with
  | None => Blocked
  | Some ss =>
      match busCallOf o h with
      | None => Next (mkHub (hubClients h) ss)
      | Some call =>
          match busStep call (hubClients h) with
          | Some c => Next (mkHub c ss)
          | None => Panics
          end
      end
  end.

Fixpoint hubRun (os : list HubOp) (h : Hub) : Outcome :=
  match os with
  | [] => Next h
  | o :: os => match hubStep o h with Next h => hubRun os h | r => r end
  end.

(** The bus calls of a run and the events published in it. *)

Fixpoint busCalls (os : list HubOp) (h : Hub) : list BusOp :=
  match os with
  | [] => []
  | o :: os =>
      option_list (busCallOf o h) ++ match hubStep o h with Next h => busCalls os h | _ => [] end
  end.

Fixpoint hubPublished (os : list HubOp) : list Event :=
  match os with
  | [] => []
  | WPublish now _ e :: os => e <| evTimestamp := now |> :: hubPublished os
  | _ :: os => hubPublished os
  end.

(** Sessions that hold a subscribed channel, and those about to close theirs. *)

Definition subscribed (s : Session) : Prop :=
  match wsPC s with WsRange | WsWrite _ | WsUnsubscribe => True | _ => False end.

Definition closingChan (s : Session) : Prop := wsPC s = WsCloseChan.

#[export] Instance subscribed_dec s : Decision (subscribed s).
Proof. unfold subscribed. destruct (wsPC s); apply _. Defined.

(** An event taken from the channel and not written yet. *)
Definition inHand (s : Session) : list Event := match wsPC s with WsWrite e => [e] | _ => [] end.

(** ** Lemmas *)

(** What a session holds of the bus: a channel, subscribed or about to be closed. *)

Definition slot (s : option Session) : option (bool * positive) :=
  match s with
  | Some s =>
      match wsPC s with
      | WsRange | WsWrite _ | WsUnsubscribe => Some (true, wsChan s)
      | WsCloseChan => Some (false, wsChan s)
      | _ => None
      end
  | None => None
  end.

Record SlotInv (c : Clients) (f : positive -> option (bool * positive)) : Prop := {
  si_bus : BusInv c;
  si_sub : forall ch, ch ∈ subscribers (bus c) <-> exists id, f id = Some (true, ch);
  si_clo : forall ch, ch ∈ closing c <-> exists id, f id = Some (false, ch);
  si_one : forall i j a b ch, f i = Some (a, ch) -> f j = Some (b, ch) -> i = j
}.

Definition slots (h : Hub) (id : positive) : option (bool * positive) := slot (hubSessions h !! id).

Definition HubInv (h : Hub) : Prop := SlotInv (hubClients h) (slots h).

Lemma SlotInv_ext c f g : (forall id, f id = g id) -> SlotInv c f -> SlotInv c g.
Proof.
  intros E [I1 I2 I3 I4]. split; [done|..].
  - intros ch. rewrite I2. by setoid_rewrite E.
  - intros ch. rewrite I3. by setoid_rewrite E.
  - intros i j a b ch. rewrite <- !E. apply I4.
Qed.

Lemma slots_insert c ss id s id' :
  slots (mkHub c (<[id := s]> ss)) id' = if decide (id' = id) then slot (Some s) else slot (ss !! id').
Proof.
  unfold slots. cbn [hubSessions]. case_decide as E; [subst; by rewrite lookup_insert_eq|].
  by rewrite lookup_insert_ne.
Qed.

(** The calls that the bus gets from the sessions keep to its contract. *)

Lemma SlotInv_ok o c f :
  SlotInv c f ->
  match o with
  | BDelete ch => exists id, f id = Some (true, ch)
  | BClose ch => exists id, f id = Some (false, ch)
  | BPublish _ ord _ => ord ≡ₚ elements (subscribers (bus c))
  | _ => True
  end -> busOk o c.
Proof. intros [I1 I2 I3 I4]. destruct o; cbn [busOk]; [done|apply I2|apply I3|done|done]. Qed.

Definition setSlot (id : positive) (v : option (bool * positive)) (f : positive -> option (bool * positive)) :
  positive -> option (bool * positive) := fun id' => if decide (id' = id) then v else f id'.

Lemma SlotInv_subscribe c c' f id :
  SlotInv c f -> f id = None -> busStep BSubscribe c = Some c' ->
  SlotInv c' (setSlot id (Some (true, chNext (bus c))) f).
Proof.
  intros [I1 I2 I3 I4] Hf E. destruct (busStep_inv BSubscribe c I1 I) as (c1 & E1 & HI). rewrite E in E1.
  injection E1 as <-. cbn in E. injection E as <-.
  assert (F : forall i a, f i = Some (a, chNext (bus c)) -> False).
  { intros i a Hi. assert (chNext (bus c) < chNext (bus c))%positive; [|lia]. apply (bi_fresh _ I1).
    destruct a; [left; apply I2|right; apply I3]; eauto. }
  unfold setSlot. split; [exact HI|..]; unfold Subscribe; cbn [bus closing fst]; simpl_fields_goal.
  - intros ch. rewrite elem_of_union, elem_of_singleton, I2. split.
    + intros [->|[i Hi]]; [exists id; by rewrite decide_True|]. exists i. rewrite decide_False; [done|congruence].
    + intros [i Hi]. case_decide; [left; congruence|right; eauto].
  - intros ch. rewrite I3. split; intros [i Hi]; exists i; case_decide; congruence.
  - intros i j a b ch. repeat case_decide; subst; [done|intros [= <- <-] G; destruct (F _ _ G)|
      intros G [= <- <-]; destruct (F _ _ G)|apply I4].
Qed.

Lemma SlotInv_delete c c' f id ch :
  SlotInv c f -> f id = Some (true, ch) -> busStep (BDelete ch) c = Some c' ->
  SlotInv c' (setSlot id (Some (false, ch)) f).
Proof.
  intros HS Hf E. destruct (busStep_inv (BDelete ch) c (si_bus _ _ HS)) as (c1 & E1 & HI).
  { apply (SlotInv_ok (BDelete ch) _ _ HS). eauto. }
  rewrite E in E1. injection E1 as <-. cbn in E. injection E as <-. destruct HS as [I1 I2 I3 I4].
  unfold setSlot. split; [exact HI|..]; unfold unsubscribeDelete; cbn [bus closing fst]; simpl_fields_goal.
  - intros ch'. rewrite elem_of_difference, elem_of_singleton, I2. split.
    + intros [[i Hi] Hne]. exists i. rewrite decide_False; [done|congruence].
    + intros [i Hi]. case_decide; [congruence|]. split; [eauto|]. intros ->. by pose proof (I4 _ _ _ _ _ Hf Hi).
  - intros ch'. rewrite elem_of_union, elem_of_singleton, I3. split.
    + intros [->|[i Hi]]; [exists id; by rewrite decide_True|]. exists i. rewrite decide_False; [done|congruence].
    + intros [i Hi]. case_decide; [left; congruence|right; eauto].
  - intros i j a b ch'. repeat case_decide; subst; [done|..|apply I4].
    + intros [= <- <-] G. by apply (I4 _ _ _ _ _ Hf G).
    + intros G [= <- <-]. by apply (I4 _ _ _ _ _ G Hf).
Qed.

Lemma SlotInv_close c c' f id ch :
  SlotInv c f -> f id = Some (false, ch) -> busStep (BClose ch) c = Some c' ->
  SlotInv c' (setSlot id None f).
Proof.
  intros HS Hf E. destruct (busStep_inv (BClose ch) c (si_bus _ _ HS)) as (c1 & E1 & HI).
  { apply (SlotInv_ok (BClose ch) _ _ HS). eauto. }
  rewrite E in E1. injection E1 as <-. destruct HS as [I1 I2 I3 I4]. cbn in E. unfold closeChan in E.
  case_match; [done|]. injection E as <-.
  unfold setSlot. split; [exact HI|..]; cbn [bus closing fst]; simpl_fields_goal.
  - intros ch'. rewrite I2. split; intros [i Hi]; exists i; case_decide; congruence.
  - intros ch'. rewrite elem_of_difference, elem_of_singleton, I3. split.
    + intros [[i Hi] Hne]. exists i. rewrite decide_False; [done|congruence].
    + intros [i Hi]. case_decide; [congruence|]. split; [eauto|]. intros ->. by pose proof (I4 _ _ _ _ _ Hf Hi).
  - intros i j a b ch'. repeat case_decide; subst; [done..|apply I4].
Qed.

(** Receives and publishes leave the holders alone. *)

Lemma SlotInv_quiet o c f :
  match o with BReceive _ | BPublish _ _ _ => True | _ => False end ->
  SlotInv c f -> busOk o c -> exists c', busStep o c = Some c' /\ SlotInv c' f.
Proof.
  intros Ho [I1 I2 I3 I4] Hk. destruct (busStep_inv o c I1 Hk) as (c' & E & HI). exists c'. split; [done|].
  assert (subscribers (bus c') = subscribers (bus c) /\ closing c' = closing c) as [E1 E2].
  { destruct o as [| | |now ord e|ch]; try done; cbn [busStep busOk] in *.
    - destruct (Publish_spec now ord e c I1 Hk) as (b' & E' & Hs & _). rewrite E' in E. by injection E as <-.
    - injection E as <-. by destruct (receive_rest ch (bus c)). }
  split; [done|..]; by rewrite ?E1, ?E2.
Qed.

(** A step of a session, as the change of its slot. *)

Lemma HubInv_set c ss id s :
  SlotInv c (setSlot id (slot (Some s)) (fun i => slot (ss !! i))) -> HubInv (mkHub c (<[id := s]> ss)).
Proof. apply SlotInv_ext. intros i. by rewrite slots_insert. Qed.

Lemma HubInv_same c ss id s :
  SlotInv c (fun i => slot (ss !! i)) -> slot (Some s) = slot (ss !! id) -> HubInv (mkHub c (<[id := s]> ss)).
Proof.
  intros HI E. apply HubInv_set. revert HI. apply SlotInv_ext. intros i. unfold setSlot. case_decide; congruence.
Qed.

Lemma hubStep_inv o h :
  HubInv h -> hubStep o h = Blocked \/ exists h', hubStep o h = Next h' /\ HubInv h'.
Proof.
  intros HI. destruct h as [c ss]. unfold hubStep, sessionsStep, busCallOf. unfold HubInv, slots in HI.
  cbn [hubClients hubSessions] in *.
  destruct o as [id|id ok|id|id|id|id ok|id|id|now ord e]; cbn [sessionOf busCall mbind option_bind].
  - destruct (ss !! id) eqn:E; [by left|]. right. eexists. split; [reflexivity|].
    apply HubInv_same; [done|by rewrite E].
  - destruct (ss !! id) as [[pc q rd sent]|] eqn:E; cbn; [|by left]. destruct pc; cbn; try by left.
    right. eexists. split; [reflexivity|]. apply HubInv_same; [done|]. rewrite E. by destruct ok.
  - destruct (ss !! id) as [[pc q rd sent]|] eqn:E; cbn; [|by left]. destruct pc; cbn; try by left.
    right. eexists. split; [reflexivity|]. apply HubInv_set. eapply SlotInv_subscribe; [exact HI|by rewrite E|done].
  - destruct (ss !! id) as [[pc q rd sent]|] eqn:E; cbn; [|by left]. destruct rd; cbn; [|by left].
    right. eexists. split; [reflexivity|]. apply HubInv_same; [done|]. by rewrite E.
  - destruct (ss !! id) as [[pc q rd sent]|] eqn:E; cbn; [|by left]. destruct pc; cbn; try by left.
    destruct (SlotInv_quiet (BReceive q) c _ I HI I) as (c' & E' & HI'). cbn [busStep] in E'. injection E' as <-.
    destruct (buf (chans (bus c) !!! q)) as [|e es] eqn:Eq; [destruct (closed (chans (bus c) !!! q)); [|by left]|];
      (right; eexists; split; [reflexivity|]; apply HubInv_same; [done|by rewrite E]).
  - destruct (ss !! id) as [[pc q rd sent]|] eqn:E; cbn; [|by left]. destruct pc; cbn; try by left.
    destruct ok; (right; eexists; split; [reflexivity|]; apply HubInv_same; [done|by rewrite E]).
  - destruct (ss !! id) as [[pc q rd sent]|] eqn:E; cbn; [|by left]. destruct pc; cbn; try by left.
    right. eexists. split; [reflexivity|]. apply HubInv_set. eapply SlotInv_delete; [exact HI|by rewrite E|done].
  - destruct (ss !! id) as [[pc q rd sent]|] eqn:E; cbn [mbind option_bind handlerStep wsPC]; [|by left].
    destruct pc; cbn [mbind option_bind]; try by left. cbn [wsChan].
    assert (Hs : slot (ss !! id) = Some (false, q)) by (by rewrite E).
    destruct (busStep_inv (BClose q) c (si_bus _ _ HI)) as (c' & E' & _).
    { apply (SlotInv_ok (BClose q) _ _ HI). eauto. }
    rewrite E'. right. eexists. split; [reflexivity|]. apply HubInv_set. by eapply SlotInv_close.
  - case_bool_decide as Hp; [|by left]. right.
    destruct (SlotInv_quiet (BPublish now ord e) c _ I HI Hp) as (c' & E' & HI'). rewrite E'.
    eexists. split; [reflexivity|]. exact HI'.
Qed.

Lemma newHub_inv : HubInv newHub.
Proof.
  split; [apply NewBus_inv|..]; cbn; [| |by intros].
  - intros ch. split; [set_solver|]. by intros [id [=]].
  - intros ch. split; [set_solver|]. by intros [id [=]].
Qed.

Lemma hubRun_inv os h h' : hubRun os h = Next h' -> HubInv h -> HubInv h'.
Proof.
  revert h. induction os as [|o os IH]; intros h; cbn [hubRun]; [by intros [= ->]|].
  intros H HI. destruct (hubStep_inv o h HI) as [E|(h1 & E & HI1)]; rewrite E in H; [done|eauto].
Qed.

(** ** One session's stream *)

Definition streaming (s : Session) : Prop :=
  match wsPC s with WsRange | WsWrite _ => True | _ => False end.

Definition ended (s : Session) : Prop :=
  match wsPC s with WsUnsubscribe | WsCloseChan | WsReturned => True | _ => False end.

#[export] Instance streaming_dec s : Decision (streaming s).
Proof. unfold streaming. destruct (wsPC s); apply _. Defined.

(** What the handler has taken from its channel. *)
Definition taken (s : Session) : list Event := wsSent s ++ inHand s.

(** The step's bus call, as far as the session on channel [ch] is concerned. *)

Definition receivedBy (ch : positive) (call : option BusOp) (b : Bus) : list Event :=
  match call with
  | Some (BReceive ch') => if decide (ch' = ch) then option_list (snd (receive ch b)) else []
  | _ => []
  end.

Lemma hubStep_bus o h h' :
  hubStep o h = Next h' ->
  match busCallOf o h with
  | Some call => busStep call (hubClients h) = Some (hubClients h')
  | None => hubClients h' = hubClients h
  end.
Proof.
  unfold hubStep. destruct (sessionsStep o h); [|done].
  destruct (busCallOf o h) as [call|]; [|by intros [= <-]].
  destruct (busStep call (hubClients h)); [|done]. by intros [= <-].
Qed.

Lemma hubStep_sessions o h h' : hubStep o h = Next h' -> sessionsStep o h = Some (hubSessions h').
Proof.
  unfold hubStep. destruct (sessionsStep o h) as [ss|]; [|done].
  destruct (busCallOf o h); [destruct (busStep _ _); [|done]|]; by intros [= <-].
Qed.

Lemma hubStep_ok o h h' : HubInv h -> hubStep o h = Next h' ->
  forall call, busCallOf o h = Some call -> busOk call (hubClients h).
Proof.
  intros HI E call Hc. unfold hubStep in E. destruct (sessionsStep o h) as [ss'|] eqn:Es; [clear E|done].
  destruct h as [c ss]. unfold HubInv, slots in HI. unfold sessionsStep, busCallOf in *. cbn [hubClients hubSessions] in *.
  destruct o as [id|id ok|id|id|id|id ok|id|id|now ord e]; cbn [sessionOf busCall mbind option_bind] in *;
    try discriminate; try (injection Hc as <-); try exact I.
  - destruct (ss !! id) as [[pc q rd sent]|] eqn:E; cbn in *; [|done]. destruct pc; cbn in *; try done.
    apply (SlotInv_ok (BDelete q) _ _ HI). exists id. by rewrite E.
  - destruct (ss !! id) as [[pc q rd sent]|] eqn:E; cbn in *; [|done]. destruct pc; cbn in *; try done.
    apply (SlotInv_ok (BClose q) _ _ HI). exists id. by rewrite E.
  - case_bool_decide; [done|discriminate].
Qed.

Lemma hubRun_bus os h h' :
  HubInv h -> hubRun os h = Next h' ->
  busRun (busCalls os h) (hubClients h) (Some (hubClients h')) /\ published (busCalls os h) = hubPublished os.
Proof.
  revert h. induction os as [|o os IH]; intros h HI; cbn [hubRun busCalls].
  { intros [= <-]. split; [apply run_nil|done]. }
  destruct (hubStep_inv o h HI) as [E|(h1 & E & HI1)]; rewrite E; [done|]. intros H.
  destruct (IH h1 HI1 H) as [IH1 IH2]. pose proof (hubStep_bus _ _ _ E) as Hb.
  pose proof (hubStep_ok _ _ _ HI E) as Hk. destruct (busCallOf o h) as [call|] eqn:Ec; cbn [option_list app].
  - split; [eapply run_step; eauto|]. unfold busCallOf in Ec.
    destruct o; cbn in Ec; try discriminate; injection Ec as <-; cbn; by rewrite ?IH2.
  - rewrite <- Hb. split; [done|]. by destruct o.
Qed.

Lemma handlerStep_session o c q s s' :
  handlerStep o c q s = Some s' ->
  (ended s -> ended s') /\
  (streaming s -> ended s' \/
    (streaming s' /\ wsChan s' = wsChan s /\
     taken s' = taken s ++ match o with WNext _ => option_list (head (buf q)) | _ => [] end /\
     match o with WDelete _ => False | _ => True end)).
Proof.
  destruct s as [pc ch rd sent]. unfold ended, streaming, taken, inHand.
  destruct o; cbn; destruct pc; cbn; try done; repeat case_match; try done; intros [= <-]; cbn; split; try done;
    intros _; auto; right; rewrite ?app_nil_r; repeat split; subst; cbn;
    repeat match goal with E : buf _ = _ |- _ => rewrite E end; simpl in *; congruence.
Qed.

(** Another session's step never touches this one's, and its bus call is not for
    this one's channel. *)

Lemma hubStep_session o h h' id s :
  HubInv h -> hubStep o h = Next h' -> hubSessions h !! id = Some s -> streaming s ->
  exists s', hubSessions h' !! id = Some s' /\
    (ended s' \/
     (streaming s' /\ wsChan s' = wsChan s /\
      taken s' = taken s ++ receivedBy (wsChan s) (busCallOf o h) (bus (hubClients h)) /\
      busCallOf o h <> Some (BDelete (wsChan s)))).
Proof.
  intros HI E Hs Hst.
  assert (Hsame : forall j, sessionOf o = Some j -> j <> id -> busCallOf o h <> Some (BDelete (wsChan s)) /\
    receivedBy (wsChan s) (busCallOf o h) (bus (hubClients h)) = []).
  { intros j Ej Hne.
    assert (Hd : forall t, hubSessions h !! j = Some t -> wsChan t = wsChan s ->
      slot (Some t) = None).
    { intros t Et Ec. destruct (slot (Some t)) as [[b ch]|] eqn:Esl; [|done]. exfalso. apply Hne.
      assert (ch = wsChan s) as -> by (rewrite <- Ec; cbn in Esl; destruct (wsPC t); congruence).
      apply (si_one _ _ HI j id b true (wsChan s)); unfold slots; [by rewrite Et|]. rewrite Hs.
      unfold streaming in Hst. cbn. by destruct (wsPC s). }
    unfold hubStep in E. destruct (sessionsStep o h) as [ss'|] eqn:Es; [clear E|done]. unfold busCallOf.
    destruct o; cbn in Ej; try discriminate; injection Ej as ->; cbn in Es |- *; try done;
      (destruct (hubSessions h !! j) as [[pc q rd sent]|] eqn:E; [|done]); specialize (Hd _ eq_refl); cbn in *;
      destruct pc; cbn in *; try done.
    - case_decide as Hc; [by specialize (Hd Hc)|done].
    - split; [|done]. intros [= Hc]. by specialize (Hd Hc). }
  pose proof (hubStep_sessions _ _ _ E) as Es. clear E. revert Es. generalize (hubSessions h'). intros ss' Es. destruct (sessionOf o) as [j|] eqn:Ej.
  - assert (exists t t', hubSessions h !! j = Some t /\ ss' = <[j := t']> (hubSessions h) /\
      handlerStep o (chNext (bus (hubClients h))) (chans (bus (hubClients h)) !!! wsChan t) t = Some t')
      as (t & t' & Et & -> & Eh).
    { unfold sessionsStep in Es. destruct o; try discriminate; rewrite Ej in Es; cbn [mbind option_bind] in Es;
        (destruct (hubSessions h !! j) as [t|]; [|done]); cbn [mbind option_bind] in Es;
        (match type of Es with context [handlerStep ?a ?b ?c ?d] => destruct (handlerStep a b c d) as [t'|] eqn:Eh end;
         [|done]); cbn in Es; injection Es as <-; eauto. }
    destruct (decide (j = id)) as [->|Hne].
    + rewrite Hs in Et. injection Et as <-. exists t'. rewrite lookup_insert_eq. split; [done|].
      destruct (handlerStep_session _ _ _ _ _ Eh) as [_ Hx]. destruct (Hx Hst) as [Hx'|(H1 & H2 & H3 & H4)]; [by left|].
      right. split; [done|]. split; [done|]. rewrite H3. unfold busCallOf. rewrite Ej. cbn. rewrite Hs.
      destruct o; cbn in *; try done. rewrite decide_True by done. split; [|done]. f_equal.
      unfold receive. by destruct (buf _).
    + exists s. rewrite lookup_insert_ne by done. split; [done|]. right. destruct (Hsame j eq_refl Hne) as [H1 H2].
      by rewrite H2, app_nil_r.
  - assert (busCallOf o h <> Some (BDelete (wsChan s)) /\
      receivedBy (wsChan s) (busCallOf o h) (bus (hubClients h)) = []) as [H1 H2] by (by destruct o).
    exists s. rewrite H2, app_nil_r. split; [|by right].
    destruct o as [i| | | | | | | |now ord e]; try discriminate; cbn in Es.
    + destruct (hubSessions h !! i) eqn:Ei; [done|]. injection Es as <-. by rewrite lookup_insert_ne by congruence.
    + case_bool_decide; [|discriminate]. by injection Es as <-.
Qed.

Lemma hubStep_ended o h h' id s :
  hubStep o h = Next h' -> hubSessions h !! id = Some s -> ended s ->
  exists s', hubSessions h' !! id = Some s' /\ ended s'.
Proof.
  intros E Hs He. pose proof (hubStep_sessions _ _ _ E) as Es. clear E. revert Es. generalize (hubSessions h'). intros ss' Es. unfold sessionsStep in Es.
  assert (Hj : forall j, (forall q t', handlerStep o (chNext (bus (hubClients h))) q s = Some t' -> ended t') ->
    (j ← Some j; s ← hubSessions h !! j;
     s ← handlerStep o (chNext (bus (hubClients h))) (chans (bus (hubClients h)) !!! wsChan s) s;
     Some (<[j := s]> (hubSessions h))) = Some ss' -> exists s', ss' !! id = Some s' /\ ended s').
  { intros j Hh. cbn. destruct (decide (j = id)) as [->|Hne].
    - rewrite Hs. cbn. destruct (handlerStep _ _ _ _) as [t'|] eqn:Eh; [|done]. cbn. intros [= <-].
      exists t'. rewrite lookup_insert_eq. eauto.
    - destruct (hubSessions h !! j) as [t|]; [|done]. cbn. destruct (handlerStep _ _ _ _) as [t'|]; [|done]. cbn.
      intros [= <-]. exists s. by rewrite lookup_insert_ne. }
  assert (Hh : forall q t', handlerStep o (chNext (bus (hubClients h))) q s = Some t' -> ended t').
  { intros q t' Et. by apply (handlerStep_session _ _ _ _ _ Et). }
  destruct o as [i| | | | | | | |now ord e]; [|eapply Hj; [exact Hh|exact Es]..|].
  - destruct (hubSessions h !! i) eqn:Ei; [done|]. injection Es as <-. exists s. by rewrite lookup_insert_ne by congruence.
  - case_bool_decide; [|discriminate]. injection Es as <-. eauto.
Qed.

Lemma hubRun_ended os h h' id s :
  hubRun os h = Next h' -> hubSessions h !! id = Some s -> ended s ->
  exists s', hubSessions h' !! id = Some s' /\ ended s'.
Proof.
  revert h s. induction os as [|o os IH]; intros h s; cbn [hubRun]; [intros [= ->]; eauto|].
  intros H Hs He. destruct (hubStep o h) as [| |h1] eqn:E; [done|done|].
  destruct (hubStep_ended o h h1 id s E Hs He) as (s1 & H1 & H2). eauto.
Qed.

Lemma streaming_not_ended s : streaming s -> ended s -> False.
Proof. unfold streaming, ended. by destruct (wsPC s). Qed.

Lemma received_cons ch o os c c' :
  busStep o c = Some c' -> received ch (o :: os) c = receivedBy ch (Some o) (bus c) ++ received ch os c'.
Proof. intros E. cbn [received receivedBy]. rewrite E. by destruct o. Qed.

Lemma hubRun_session os h h' id s s' :
  HubInv h -> hubRun os h = Next h' -> hubSessions h !! id = Some s -> streaming s ->
  hubSessions h' !! id = Some s' -> streaming s' ->
  wsChan s' = wsChan s /\ (BDelete (wsChan s) ∉ busCalls os h) /\
  taken s' = taken s ++ received (wsChan s) (busCalls os h) (hubClients h).
Proof.
  revert h s. induction os as [|o os IH]; intros h s HI; cbn [hubRun busCalls].
  { intros [= ->] Hs _ Hs' _. assert (s' = s) as -> by congruence. cbn. rewrite app_nil_r.
    split; [done|]. split; [apply not_elem_of_nil|done]. }
  intros H Hs Hst Hs' Hst'. destruct (hubStep_inv o h HI) as [E|(h1 & E & HI1)]; rewrite E in H |- *; [done|].
  destruct (hubStep_session o h h1 id s HI E Hs Hst) as (s1 & Hs1 & [He|(Hst1 & Hc & Ht & Hd)]).
  { destruct (hubRun_ended _ _ _ _ _ H Hs1 He) as (s2 & E2 & He2). rewrite Hs' in E2. injection E2 as <-.
    destruct (streaming_not_ended _ Hst' He2). }
  destruct (IH h1 s1 HI1 H Hs1 Hst1 Hs' Hst') as (H1 & H2 & H3). rewrite Hc in H1, H2, H3.
  split; [done|]. pose proof (hubStep_bus _ _ _ E) as Hb. rewrite H3, Ht, <- app_assoc.
  destruct (busCallOf o h) as [call|] eqn:Ec; cbn [option_list from_option app].
  - change (option_list (Some call) ++ busCalls os h1) with (call :: busCalls os h1).
    rewrite (received_cons _ _ _ _ _ Hb). split; [|done].
    apply not_elem_of_cons. split; [congruence|done].
  - change (option_list None ++ busCalls os h1) with (busCalls os h1). rewrite <- Hb. split; [done|done].
Qed.

(** ** Properties *)

(** Claim C36: whatever the requests, their connections and the publishers do in
    whatever order, the handlers keep to the bus's contract: no run panics, every
    subscription of the bus belongs to exactly one handler that has not cleaned up
    yet, and when all handlers have returned the bus has no subscriber left. *)
Theorem websocket_handlers_clean_up (os : list HubOp) :
  hubRun os newHub <> Panics /\
  forall h, hubRun os newHub = Next h ->
    (forall ch, ch ∈ subscribers (bus (hubClients h)) <->
       exists id s, hubSessions h !! id = Some s /\ subscribed s /\ wsChan s = ch) /\
    (forall i j s t, hubSessions h !! i = Some s -> hubSessions h !! j = Some t ->
       subscribed s -> subscribed t -> wsChan s = wsChan t -> i = j) /\
    ((forall id s, hubSessions h !! id = Some s -> wsPC s = WsReturned) -> SubscriberCount (bus (hubClients h)) = 0).
Proof.
  split.
  { generalize newHub_inv. generalize newHub. induction os as [|o os IH]; intros h HI; cbn [hubRun]; [done|].
    destruct (hubStep_inv o h HI) as [E|(h1 & E & HI1)]; rewrite E; [done|auto]. }
  intros h H. pose proof (hubRun_inv _ _ _ H newHub_inv) as HI.
  assert (Hsl : forall s ch, slot (Some s) = Some (true, ch) <-> subscribed s /\ wsChan s = ch).
  { intros s ch. unfold subscribed. cbn. destruct (wsPC s); naive_solver. }
  assert (Hsub : forall ch, ch ∈ subscribers (bus (hubClients h)) <->
    exists id s, hubSessions h !! id = Some s /\ subscribed s /\ wsChan s = ch).
  { intros ch. rewrite (si_sub _ _ HI). unfold slots. split.
    - intros [id Hid]. destruct (hubSessions h !! id) as [s|] eqn:E; [|done]. exists id, s. by rewrite <- Hsl.
    - intros (id & s & E & Hs). exists id. rewrite E. by apply Hsl. }
  split; [exact Hsub|]. split.
  - intros i j s t Ei Ej Hs Ht Hc. apply (si_one _ _ HI i j true true (wsChan t)); unfold slots.
    + rewrite Ei. by apply Hsl.
    + rewrite Ej. by apply Hsl.
  - intros Hall. unfold SubscriberCount. enough (subscribers (bus (hubClients h)) = ∅) as -> by done.
    apply elem_of_equiv_empty_L. intros ch Hin. apply Hsub in Hin as (id & s & E & Hs & _).
    unfold subscribed in Hs. by rewrite (Hall id s E) in Hs.
Qed.

Lemma websocket_handlers_clean_up_witness :
  exists h, hubRun [WConnect 1; WUpgraded 1 true; WSubscribed 1; WPublish 5 [1%positive] demoEvent; WNext 1;
      WWritten 1 false; WDelete 1; WClose 1] newHub = Next h /\
    SubscriberCount (bus (hubClients h)) = 0.
Proof.
  pose proof (websocket_handlers_clean_up [WConnect 1; WUpgraded 1 true; WSubscribed 1;
    WPublish 5 [1%positive] demoEvent; WNext 1; WWritten 1 false; WDelete 1; WClose 1]) as [H1 H2].
  destruct (hubRun _ newHub) as [| |h] eqn:E; [discriminate E|discriminate E|].
  exists h. split; [reflexivity|]. apply (H2 h eq_refl). intros id s Hs.
  vm_compute in E. injection E as <-. cbn [hubSessions] in Hs.
  change (<[1%positive := mkSession WsReturned 1 true []]> (∅ : gmap positive Session) !! id = Some s) in Hs.
  apply lookup_insert_Some in Hs as [[_ <-]|[_ Hs]]; [reflexivity|]. by rewrite lookup_empty in Hs.
Defined.

(** Claim C22: the events that a connected client has been sent, the one being
    written and those still buffered are in order a subsequence of what it was due
    and what is published meanwhile, whatever the other handlers and publishers
    do; nothing is missing while its 512-event buffer cannot overflow. *)
Theorem websocket_delivery (before os : list HubOp) (h h' : Hub) (id : positive) (s s' : Session)
  (H0 : hubRun before newHub = Next h) (H : hubRun os h = Next h')
  (Hs : hubSessions h !! id = Some s) (Hst : streaming s)
  (Hs' : hubSessions h' !! id = Some s') (Hst' : streaming s') :
  let waiting := buf (chans (bus (hubClients h)) !!! wsChan s) in
  let out := wsSent s' ++ inHand s' ++ buf (chans (bus (hubClients h')) !!! wsChan s') in
  let due := wsSent s ++ inHand s ++ waiting ++ hubPublished os in
  out `sublist_of` due /\
  ((length waiting + length (hubPublished os) <= 512)%nat -> out = due).
Proof.
  pose proof (hubRun_inv _ _ _ H0 newHub_inv) as HI.
  destruct (hubRun_session _ _ _ _ _ _ HI H Hs Hst Hs' Hst') as (Hc & Hd & Ht).
  destruct (hubRun_bus _ _ _ HI H) as [Hb Hp].
  destruct (run_delivery _ _ _ (wsChan s) Hb (si_bus _ _ HI)) as (R1 & R2 & R3); [|done|].
  { apply (si_sub _ _ HI). exists id. unfold slots. rewrite Hs. unfold streaming in Hst. cbn. by destruct (wsPC s). }
  cbv zeta in *. rewrite Hp in R1, R2, R3. unfold taken in Ht. rewrite Hc, !app_assoc, Ht.
  rewrite <- !(app_assoc (wsSent s ++ inHand s)). split; [by apply sublist_app|].
  intros Hlen. f_equal. rewrite (R3 Hlen) in R2. cbn in R2. apply sublist_full; [done|]. rewrite length_app. lia.
Qed.

Definition demoBefore : list HubOp := [WConnect 1; WConnect 2; WUpgraded 1 true; WSubscribed 1].
Definition demoOps : list HubOp :=
  [WPublish 5 [1%positive] demoEvent; WUpgraded 2 true; WSubscribed 2; WNext 1; WWritten 1 true].

Lemma websocket_delivery_witness :
  exists h h' s', hubRun demoBefore newHub = Next h /\ hubRun demoOps h = Next h' /\
    hubSessions h' !! 1%positive = Some s' /\ wsSent s' ++ inHand s' ++ buf (chans (bus (hubClients h')) !!! 1%positive) =
      [demoEvent <| evTimestamp := 5 |>].
Proof.
  destruct (hubRun demoBefore newHub) as [| |h] eqn:E0; [discriminate E0|discriminate E0|].
  assert (Hs : hubSessions h !! 1%positive = Some (mkSession WsRange 1 true []))
    by (vm_compute in E0; injection E0 as <-; reflexivity).
  destruct (hubRun demoOps h) as [| |h'] eqn:E1;
    [vm_compute in E0; injection E0 as <-; discriminate E1|vm_compute in E0; injection E0 as <-; discriminate E1|].
  assert (Hs' : hubSessions h' !! 1%positive = Some (mkSession WsRange 1 true [demoEvent <| evTimestamp := 5 |>]))
    by (vm_compute in E0; injection E0 as <-; vm_compute in E1; injection E1 as <-; reflexivity).
  exists h, h', (mkSession WsRange 1 true [demoEvent <| evTimestamp := 5 |>]).
  split; [done|]. split; [done|]. split; [done|].
  destruct (websocket_delivery demoBefore demoOps h h' 1 _ _ E0 E1 Hs I Hs' I) as [_ Hall]. cbv zeta in Hall.
  assert (Hw : buf (chans (bus (hubClients h)) !!! 1%positive) = [])
    by (vm_compute in E0; injection E0 as <-; reflexivity).
  cbn [wsChan] in Hall. rewrite Hw in Hall. apply Hall. vm_compute. lia.
Defined.

(** Nothing happens to a handler that waits on an empty channel after its reader
    has ended, until something is published. *)

Lemma idle_step o h h' id s :
  HubInv h -> hubStep o h = Next h' -> hubPublished [o] = [] ->
  hubSessions h !! id = Some s -> wsPC s = WsRange -> wsReader s = false ->
  buf (chans (bus (hubClients h)) !!! wsChan s) = [] ->
  hubSessions h' !! id = Some s /\ buf (chans (bus (hubClients h')) !!! wsChan s) = [].
Proof.
  intros HI E Hp Hs Hpc Hrd Hbuf.
  assert (Hst : streaming s) by (unfold streaming; by rewrite Hpc).
  assert (Hsub : wsChan s ∈ subscribers (bus (hubClients h))).
  { apply (si_sub _ _ HI). exists id. unfold slots. rewrite Hs. cbn. by rewrite Hpc. }
  assert (Hcl : closed (chans (bus (hubClients h)) !!! wsChan s) = false)
    by (apply (bi_open _ (si_bus _ _ HI)); by left).
  assert (Hss : hubSessions h' !! id = Some s).
  { pose proof (hubStep_sessions _ _ _ E) as Es. clear E. revert Es. generalize (hubSessions h'). intros ss' Es. unfold sessionsStep in Es.
    assert (Hno : handlerStep o (chNext (bus (hubClients h))) (chans (bus (hubClients h)) !!! wsChan s) s = None).
    { unfold handlerStep. rewrite Hpc, Hrd, Hbuf, Hcl. by destruct o. }
    assert (Hj : forall j, (j ← Some j; s ← hubSessions h !! j;
       s ← handlerStep o (chNext (bus (hubClients h))) (chans (bus (hubClients h)) !!! wsChan s) s;
       Some (<[j := s]> (hubSessions h))) = Some ss' -> ss' !! id = Some s).
    { intros j. cbn [mbind option_bind]. destruct (decide (j = id)) as [->|Hne]; [rewrite Hs; cbn; by rewrite Hno|].
      destruct (hubSessions h !! j) as [t|]; cbn; [|discriminate].
      destruct (handlerStep o _ _ t) as [t'|]; cbn; [|discriminate].
      intros [= <-]. by rewrite lookup_insert_ne. }
    destruct o as [i| | | | | | | |now ord e]; [|eapply Hj; exact Es..|discriminate].
    destruct (hubSessions h !! i) eqn:Ei; [done|]. injection Es as <-. by rewrite lookup_insert_ne by congruence. }
  split; [done|]. destruct (hubStep_session _ _ _ _ _ HI E Hs Hst) as (s1 & Hs1 & Hx). rewrite Hss in Hs1.
  injection Hs1 as <-. destruct Hx as [Hx|(_ & _ & _ & Hd)]; [destruct (streaming_not_ended _ Hst Hx)|].
  pose proof (hubStep_bus _ _ _ E) as Hb. pose proof (hubStep_ok _ _ _ HI E) as Hk.
  destruct (busCallOf o h) as [call|] eqn:Ec; [|by rewrite Hb].
  destruct (busStep_subscriber (wsChan s) call _ _ (si_bus _ _ HI) (Hk _ eq_refl) Hb Hsub) as [_ ->]; [congruence|].
  unfold busCallOf in Ec. destruct o; cbn in Ec; try discriminate; injection Ec as <-; try done.
  case_decide; by rewrite Hbuf.
Qed.

(** The read loop's end does not end the handler: a client that has
    disconnected while its channel was empty stays subscribed, its handler blocked,
    for as long as nothing is published, whatever else happens. *)
Theorem disconnected_client_lingers (before os : list HubOp) (h h' : Hub) (id : positive) (s : Session)
  (H0 : hubRun before newHub = Next h) (H : hubRun os h = Next h') (Hp : hubPublished os = [])
  (Hs : hubSessions h !! id = Some s) (Hpc : wsPC s = WsRange) (Hrd : wsReader s = false)
  (Hb : buf (chans (bus (hubClients h)) !!! wsChan s) = []) :
  hubSessions h' !! id = Some s /\ wsChan s ∈ subscribers (bus (hubClients h')) /\
  hubStep (WNext id) h' = Blocked.
Proof.
  pose proof (hubRun_inv _ _ _ H0 newHub_inv) as HI. clear H0. revert h HI H Hs Hb.
  induction os as [|o os IH]; intros h HI; cbn [hubRun].
  - intros [= ->] Hs Hb. split; [done|].
    assert (Hsub : wsChan s ∈ subscribers (bus (hubClients h'))).
    { apply (si_sub _ _ HI). exists id. unfold slots. rewrite Hs. cbn. by rewrite Hpc. }
    split; [done|]. unfold hubStep, sessionsStep. cbn. rewrite Hs. cbn. rewrite Hpc, Hb.
    by rewrite (bi_open _ (si_bus _ _ HI)) by (by left).
  - intros H Hs Hb. destruct (hubStep_inv o h HI) as [E|(h1 & E & HI1)]; rewrite E in H; [done|].
    assert (hubPublished [o] = [] /\ hubPublished os = []) as [Ho Hos]
      by (destruct o; cbn in Hp; try discriminate; by split).
    destruct (idle_step _ _ _ _ _ HI E Ho Hs Hpc Hrd Hb) as [Hs1 Hb1]. eauto.
Qed.

Lemma disconnected_client_lingers_witness :
  exists h h' s, hubRun [WConnect 1; WUpgraded 1 true; WSubscribed 1; WReadFails 1] newHub = Next h /\
    hubRun [WConnect 2; WUpgraded 2 true; WSubscribed 2] h = Next h' /\
    hubSessions h' !! 1%positive = Some s /\ wsReader s = false /\ hubStep (WNext 1) h' = Blocked.
Proof.
  destruct (hubRun [WConnect 1; WUpgraded 1 true; WSubscribed 1; WReadFails 1] newHub) as [| |h] eqn:E0;
    [discriminate E0|discriminate E0|].
  assert (Hs : hubSessions h !! 1%positive = Some (mkSession WsRange 1 false []))
    by (vm_compute in E0; injection E0 as <-; reflexivity).
  assert (Hb : buf (chans (bus (hubClients h)) !!! 1%positive) = [])
    by (vm_compute in E0; injection E0 as <-; reflexivity).
  destruct (hubRun [WConnect 2; WUpgraded 2 true; WSubscribed 2] h) as [| |h'] eqn:E1;
    [vm_compute in E0; injection E0 as <-; discriminate E1|vm_compute in E0; injection E0 as <-; discriminate E1|].
  destruct (disconnected_client_lingers _ _ h h' 1 _ E0 E1 eq_refl Hs eq_refl eq_refl Hb) as (H1 & _ & H3).
  exists h, h', (mkSession WsRange 1 false []). by split_and!.
Defined.
