(* ===== verification/LoadTest.v ===== *)
(** * The load test: [cmd/loadtest/main.go]

    The goroutines of the requests as a step function over the shared counters and
    the list of latencies; the percentiles with the product in float64, by the
    Standard Library's [SpecFloat].  What a request gets back is an argument of
    its step.  Parsing the flags, the pauses and printing are left out; [LoadMaster]
    puts the master behind the requests. *)

From Stdlib Require Import SpecFloat.
From stdpp Require Import sorting pretty.
From S2P Require Import Prelude GoTime.

Open Scope string_scope.
Open Scope list_scope.
Open Scope Z_scope.

(** ** The requests *)

(** [http.Post]'s error, or the status and the latency. *)
Inductive Reply := PostError | Replied (status : Z) (latency : Duration).

(** A goroutine: in [http.Post]; before it appends its latency; returned, with
    what it got. *)
Inductive GoPC := GPost | GAppend (r : Reply) (latency : Duration) | GReturned (r : Reply).

Record LoadState := mkLoad {
  ldErrors : Z; ldSubmitted : Z; ldLatencies : list Duration; ldRoutines : list GoPC
}.

#[export] Instance LoadState_struct : Struct LoadState := fun l =>
  mkLoad (ldErrors l) (ldSubmitted l) (ldLatencies l) (ldRoutines l).

Definition newLoad : LoadState := mkLoad 0 0 [] [].

Inductive LoadAct := LSpawn | LReply (n : nat) (r : Reply) | LAppend (n : nat).

(** The latency of a request that counts as submitted. *)
Definition accepted (r : Reply) : option Duration :=
  match r with Replied status latency => if negb (status =? 200) then None else Some latency | PostError => None end.

Definition loadStep (count : Z) (a : LoadAct) (l : LoadState) : option LoadState :=
  match a with
  | LSpawn =>
      if Z.of_nat (length (ldRoutines l)) <? count then Some (l <| ldRoutines := ldRoutines l ++ [GPost] |>) else None
  | LReply n r =>
      match ldRoutines l !! n with
      | Some GPost =>
          match accepted r with
          | None => Some (l <| ldErrors := int32 (ldErrors l + 1) |>
                            <| ldRoutines := <[n := GReturned r]> (ldRoutines l) |>)
          | Some latency => Some (l <| ldSubmitted := int32 (ldSubmitted l + 1) |>
                                    <| ldRoutines := <[n := GAppend r latency]> (ldRoutines l) |>)
          end
      | _ => None
      end
  | LAppend n =>
      match ldRoutines l !! n with
      | Some (GAppend r latency) =>
          Some (l <| ldLatencies := ldLatencies l ++ [latency] |>
                  <| ldRoutines := <[n := GReturned r]> (ldRoutines l) |>)
      | _ => None
      end
  end.

Fixpoint loadRun (count : Z) (acts : list LoadAct) (l : LoadState) : option LoadState :=
  match acts with
  | [] => Some l
  | a :: acts => l ← loadStep count a l; loadRun count acts l
  end.

(** The script of the request [n], and where it goes. *)
Definition loadScript (n : Z) : string := "echo 'load test task " +:+ pretty n +:+ "'; sleep 1".
Definition loadURL (addr : string) : string := addr +:+ "/api/v1/submit".

(** [wg.Wait] has returned, after the loop over the count. *)
Definition finished (count : Z) (replies : list Reply) (l : LoadState) : Prop :=
  ldRoutines l = GReturned <$> replies /\ Z.of_nat (length replies) = Z.max 0 count.

(** [time.Second / time.Duration(rate)]: a division by zero panics. *)
Definition interval (rate : Z) : option Duration :=
  if rate =? 0 then None else Some (Z.quot Second rate).

(** ** The report *)

Definition sorted (latencies : list Duration) : list Duration := merge_sort Z.le latencies.

(** float64: 53 bits of precision. *)

Definition float64 (n : Z) : spec_float := binary_normalize 53 1024 n 0 false.
Definition mulFloat64 (x y : spec_float) : spec_float := SFmul 53 1024 x y.

(** [int(x)] of a finite number: towards zero.  The others do not come up. *)
Definition truncate (x : spec_float) : Z :=
  match x with
  | S754_finite s m e =>
      let z := if 0 <=? e then Z.pos m * 2 ^ e else Z.pos m / 2 ^ (- e) in if s then - z else z
  | _ => 0
  end.

(** The constants 0.50, 0.95 and 0.99. *)
Definition pct50 : spec_float := S754_finite false 4503599627370496 (-53).
Definition pct95 : spec_float := S754_finite false 8556839292003942 (-53).
Definition pct99 : spec_float := S754_finite false 8917127262193582 (-53).

Definition rankIndex (len : Z) (pct : spec_float) : Z :=
  let idx := truncate (mulFloat64 (float64 len) pct) in
  if len <=? idx then len - 1 else idx.

(** [None] is the panic of an index out of range. *)
Definition p (latencies : list Duration) (pct : spec_float) : option Duration :=
  if Nat.eqb (length latencies) 0 then Some 0
  else
    let idx := rankIndex (Z.of_nat (length latencies)) pct in
    if idx <? 0 then None else latencies !! Z.to_nat idx.

Example constants : truncate (mulFloat64 (float64 20) pct95) = 19 /\ truncate (mulFloat64 (float64 1000) pct99) = 990 /\
  pct50 = SFdiv 53 1024 (float64 1) (float64 2) /\ pct95 = SFdiv 53 1024 (float64 95) (float64 100) /\
  pct99 = SFdiv 53 1024 (float64 99) (float64 100).
Proof. vm_compute. repeat split. Qed.

(** ** Lemmas *)

(** What the goroutines have done so far, each on its own. *)

Definition errorsOf (g : GoPC) : list unit :=
  match g with GReturned r => match accepted r with None => [tt] | Some _ => [] end | _ => [] end.

Definition submittedOf (g : GoPC) : list unit :=
  match g with
  | GAppend _ _ => [tt]
  | GReturned r => match accepted r with Some _ => [tt] | None => [] end
  | GPost => []
  end.

Definition latenciesOf (g : GoPC) : list Duration :=
  match g with GReturned r => option_list (accepted r) | _ => [] end.

Record LoadInv (l : LoadState) : Prop := {
  di_errors : ldErrors l = int32 (Z.of_nat (length (ldRoutines l ≫= errorsOf)));
  di_submitted : ldSubmitted l = int32 (Z.of_nat (length (ldRoutines l ≫= submittedOf)));
  di_latencies : ldLatencies l ≡ₚ ldRoutines l ≫= latenciesOf;
  di_append : forall r d, GAppend r d ∈ ldRoutines l -> accepted r = Some d
}.

Lemma bind_insert {A B} (f : A -> list B) (xs : list A) n x y :
  xs !! n = Some x -> (<[n := y]> xs ≫= f) ++ f x ≡ₚ (xs ≫= f) ++ f y.
Proof.
  intros H. rewrite <- (take_drop_middle xs n x H) at 2.
  rewrite insert_take_drop by (eapply lookup_lt_Some; eauto).
  rewrite !bind_app. cbn [mbind list_bind]. solve_Permutation.
Qed.

Lemma bind_insert_length {A B} (f : A -> list B) (xs : list A) n x y :
  xs !! n = Some x -> (length (<[n := y]> xs ≫= f) + length (f x) = length (xs ≫= f) + length (f y))%nat.
Proof. intros H. rewrite <- !length_app. by rewrite (bind_insert f xs n x y H). Qed.

Lemma elem_of_insert {A} (xs : list A) n (x y : A) : x ∈ <[n := y]> xs -> x = y \/ x ∈ xs.
Proof.
  intros (i & Hi)%list_elem_of_lookup. apply list_lookup_insert_Some in Hi as [(_ & -> & _)|(_ & Hi)]; [by left|].
  right. by eapply list_elem_of_lookup_2.
Qed.

Lemma int32_succ (n : nat) : int32 (int32 (Z.of_nat n) + 1) = int32 (Z.of_nat (n + 1)).
Proof. unfold int32. rewrite wrap_plus. f_equal. lia. Qed.

Lemma loadStep_inv count a l l' : loadStep count a l = Some l' -> LoadInv l -> LoadInv l'.
Proof.
  intros E [I1 I2 I3 I4]. destruct l as [er sub lat gs]; cbn in *. subst er sub.
  destruct a as [|n r|n]; cbn in E.
  - case_match; [|done]. injection E as <-. split; cbn; rewrite ?bind_app; cbn; rewrite ?app_nil_r; try done.
    intros r d. rewrite elem_of_app, list_elem_of_singleton. intros [|[=]]. eauto.
  - destruct (gs !! n) as [[| |]|] eqn:Eg; try done. destruct (accepted r) as [d|] eqn:Er; injection E as <-.
    + assert (forall A (f : GoPC -> list A), f GPost = [] ->
        (<[n := GAppend r d]> gs ≫= f) ≡ₚ (gs ≫= f) ++ f (GAppend r d)) as Hf.
      { intros A f Hf. rewrite <- (bind_insert f gs n GPost) by done. by rewrite Hf, app_nil_r. }
      split; cbn.
      * by rewrite (Hf _ errorsOf eq_refl), app_nil_r.
      * rewrite (Hf _ submittedOf eq_refl), length_app. apply int32_succ.
      * by rewrite (Hf _ latenciesOf eq_refl), app_nil_r.
      * intros r' d' Hin. apply elem_of_insert in Hin as [[= -> ->]|Hin]; eauto.
    + assert (forall A (f : GoPC -> list A), f GPost = [] ->
        (<[n := GReturned r]> gs ≫= f) ≡ₚ (gs ≫= f) ++ f (GReturned r)) as Hf.
      { intros A f Hf. rewrite <- (bind_insert f gs n GPost) by done. by rewrite Hf, app_nil_r. }
      split; cbn.
      * rewrite (Hf _ errorsOf eq_refl), length_app. cbn. rewrite Er. apply int32_succ.
      * rewrite (Hf _ submittedOf eq_refl). cbn. by rewrite Er, app_nil_r.
      * rewrite (Hf _ latenciesOf eq_refl). cbn. by rewrite Er, app_nil_r.
      * intros r' d' Hin. apply elem_of_insert in Hin as [[=]|Hin]; eauto.
  - destruct (gs !! n) as [[|r d|]|] eqn:Eg; try done. injection E as <-.
    assert (Er : accepted r = Some d) by (eapply I4, list_elem_of_lookup_2; eauto).
    pose proof (bind_insert_length errorsOf gs n _ (GReturned r) Eg) as H1.
    pose proof (bind_insert_length submittedOf gs n _ (GReturned r) Eg) as H2.
    pose proof (bind_insert latenciesOf gs n _ (GReturned r) Eg) as H3.
    cbn in H1, H2, H3. rewrite Er in H1, H2, H3. cbn in H1, H2, H3. rewrite app_nil_r in H3.
    split; cbn.
    + do 2 f_equal. lia.
    + do 2 f_equal. lia.
    + by rewrite H3, I3.
    + intros r' d' Hin. apply elem_of_insert in Hin as [[=]|Hin]; eauto.
Qed.

Lemma loadRun_inv count acts l l' : loadRun count acts l = Some l' -> LoadInv l -> LoadInv l'.
Proof.
  revert l. induction acts as [|a acts IH]; intros l; cbn [loadRun]; [by intros [= ->]|].
  destruct (loadStep count a l) as [l1|] eqn:E; cbn; [|done]. eauto using loadStep_inv.
Qed.

(** The reference: the requests one after another. *)

Definition sequential (replies : list Reply) : nat * nat * list Duration :=
  foldl (fun '(errors, submitted, latencies) r =>
           match accepted r with
           | None => (S errors, submitted, latencies)
           | Some d => (errors, S submitted, latencies ++ [d])
           end) (0, 0, [])%nat replies.

Lemma sequential_routines replies :
  sequential replies =
    (length ((GReturned <$> replies) ≫= errorsOf), length ((GReturned <$> replies) ≫= submittedOf),
     (GReturned <$> replies) ≫= latenciesOf).
Proof.
  induction replies as [|r rs IH] using rev_ind; [done|].
  unfold sequential in *. rewrite foldl_app, IH, fmap_app, !bind_app, !length_app. cbn.
  destruct (accepted r); cbn; rewrite ?app_nil_r; repeat f_equal; lia.
Qed.

Lemma sequential_total replies :
  let '(errors, submitted, latencies) := sequential replies in
  (errors + submitted = length replies)%nat /\ length latencies = submitted.
Proof.
  unfold sequential. induction replies as [|r rs IH] using rev_ind; [done|].
  rewrite foldl_app, length_app. destruct (foldl _ _ rs) as [[e s] lat]. cbn.
  destruct (accepted r); cbn; rewrite ?length_app; cbn; lia.
Qed.

Lemma sorted_Permutation xs ys : xs ≡ₚ ys -> sorted xs = sorted ys.
Proof.
  intros H. apply (StronglySorted_unique Z.le); [apply (StronglySorted_merge_sort _)..|].
  unfold sorted. by rewrite !merge_sort_Permutation.
Qed.

(** The float product is exact enough: the index is the integer quotient. *)

Definition exactIndex (n : Z) : bool :=
  (rankIndex n pct50 =? n * 50 / 100) && (rankIndex n pct95 =? n * 95 / 100) &&
  (rankIndex n pct99 =? n * 99 / 100).

Fixpoint exactFrom (n : Z) (fuel : nat) : bool :=
  match fuel with O => true | S fuel => exactIndex n && exactFrom (n + 1) fuel end.

Lemma exactFrom_spec n fuel k : exactFrom n fuel = true -> n <= k < n + Z.of_nat fuel -> exactIndex k = true.
Proof.
  revert n. induction fuel as [|fuel IH]; intros n; cbn [exactFrom]; [lia|].
  intros [H1 H2]%andb_prop Hk. destruct (decide (k = n)) as [->|]; [done|]. apply (IH (n + 1)); [done|lia].
Qed.

Lemma exactIndex_upto n : 1 <= n <= 10000 -> exactIndex n = true.
Proof.
  intros Hn. apply (exactFrom_spec 1 (Z.to_nat 10000)); [vm_compute; reflexivity|lia].
Qed.

Lemma rankIndex_exact n pct x :
  (pct, x) ∈ [(pct50, 50); (pct95, 95); (pct99, 99)] -> 1 <= n <= 10000 -> rankIndex n pct = n * x / 100.
Proof.
  intros Hp Hn. pose proof (exactIndex_upto n Hn) as H. unfold exactIndex in H. b2p.
  rewrite !elem_of_cons, elem_of_nil in Hp. by destruct Hp as [[= -> ->]|[[= -> ->]|[[= -> ->]|[]]]].
Qed.

Lemma filter_none d (ys : list Z) : Forall (fun y => y <= d) ys -> filter (fun y => d < y) ys = [].
Proof. induction 1 as [|y ys Hy _ IH]; [done|]. rewrite filter_cons, decide_False by lia. done. Qed.

(** ** Properties *)

(** However the goroutines of the load test interleave, its report is
    that of the same replies taken one after another: as many errors as requests
    that failed or got another status than 200, as many submissions as the others,
    and the sorted list of the latencies of exactly these; errors and submissions
    make up the count as long as it fits an int32. *)
Theorem load_report_sequential count acts l replies :
  loadRun count acts newLoad = Some l -> finished count replies l ->
  let '(errors, submitted, latencies) := sequential replies in
  ldErrors l = int32 (Z.of_nat errors) /\ ldSubmitted l = int32 (Z.of_nat submitted) /\
  sorted (ldLatencies l) = sorted latencies /\ length (ldLatencies l) = submitted /\
  (0 <= count < 2 ^ 31 -> ldErrors l + ldSubmitted l = count).
Proof.
  intros Hr [Hg Hn]. assert (LoadInv newLoad) as H0 by (split; try done; by intros ? ? ?%elem_of_nil).
  pose proof (loadRun_inv _ _ _ _ Hr H0) as [I1 I2 I3 _]. rewrite Hg in I1, I2, I3.
  pose proof (sequential_total replies) as Ht. rewrite sequential_routines in Ht |- *. destruct Ht as [Ht Hl].
  split; [done|]. split; [done|]. split; [by apply sorted_Permutation|]. split; [by rewrite I3|].
  intros Hc. rewrite I1, I2. unfold int32. rewrite !wrap_id; unfold in_range; lia.
Qed.

Definition demoReplies : list Reply := [Replied 200 9; PostError; Replied 200 4].
Definition demoLoad : list LoadAct :=
  [LSpawn; LSpawn; LReply 1 PostError; LSpawn; LReply 2 (Replied 200 4); LReply 0 (Replied 200 9); LAppend 0; LAppend 2].

Lemma load_report_sequential_witness :
  exists l, loadRun 3 demoLoad newLoad = Some l /\ ldErrors l = 1 /\ ldSubmitted l = 2 /\
    sorted (ldLatencies l) = [4; 9] /\ ldErrors l + ldSubmitted l = 3.
Proof.
  destruct (loadRun 3 demoLoad newLoad) as [l|] eqn:E; [|vm_compute in E; discriminate].
  assert (F : finished 3 demoReplies l) by (vm_compute in E; injection E as <-; by split).
  destruct (load_report_sequential 3 demoLoad l demoReplies E F) as (H1 & H2 & H3 & _ & H5).
  exists l. split; [done|]. split; [exact H1|]. split; [exact H2|]. split; [|apply H5; lia].
  rewrite H3. vm_compute. reflexivity.
Defined.

(** Up to 10,000 measured requests each reported percentile (50, 95 and
    99) is one of the latencies, its index is never out of range, and fewer than
    the remaining 50, 5 or 1 percent of the latencies exceed it: the rounding of
    the float product does no harm. *)
Theorem percentile_sound latencies pct x :
  (pct, x) ∈ [(pct50, 50); (pct95, 95); (pct99, 99)] -> 1 <= Z.of_nat (length latencies) <= 10000 ->
  exists d, p (sorted latencies) pct = Some d /\ d ∈ latencies /\
    100 * Z.of_nat (length (filter (fun y => d < y) latencies)) < Z.of_nat (length latencies) * (100 - x).
Proof.
  intros Hp Hlen. set (n := length latencies) in *. set (i := Z.of_nat n * x / 100).
  assert (Hperm : sorted latencies ≡ₚ latencies) by apply merge_sort_Permutation.
  assert (Hn : length (sorted latencies) = n) by (by rewrite Hperm).
  assert (Hx : 0 < x < 100).
  { rewrite !elem_of_cons, elem_of_nil in Hp. destruct Hp as [[= _ ->]|[[= _ ->]|[[= _ ->]|[]]]]; lia. }
  assert (Hi : 0 <= i < Z.of_nat n /\ Z.of_nat n * x < 100 * (i + 1)).
  { unfold i. pose proof (Z.div_mod (Z.of_nat n * x) 100 ltac:(lia)).
    pose proof (Z.mod_pos_bound (Z.of_nat n * x) 100 ltac:(lia)). nia. }
  assert (Hat : (Z.to_nat i < length (sorted latencies))%nat) by lia.
  destruct (lookup_lt_is_Some_2 _ _ Hat) as [d Hd]. exists d. split; [|split].
  - unfold p. rewrite Hn, (rankIndex_exact _ _ _ Hp) by lia. fold i.
    destruct (Nat.eqb_spec n 0); [lia|]. by rewrite (proj2 (Z.ltb_ge _ _)) by lia.
  - rewrite <- Hperm. by eapply list_elem_of_lookup_2.
  - assert (Hs : StronglySorted Z.le (sorted latencies)) by apply (StronglySorted_merge_sort _).
    rewrite <- Hperm at 1. rewrite <- (take_drop_middle _ _ _ Hd) in Hs |- *.
    assert (Hle : Forall (fun y => y <= d) (take (Z.to_nat i) (sorted latencies) ++ [d])).
    { apply Forall_app. split; [|by constructor]. apply Forall_forall. intros y Hy.
      apply StronglySorted_app in Hs as [Hs _]. apply Hs; [done|by left]. }
    rewrite cons_middle, app_assoc, filter_app, (filter_none _ _ Hle), app_nil_l.
    pose proof (length_filter (fun y => d < y) (drop (S (Z.to_nat i)) (sorted latencies))) as Hf.
    rewrite length_drop, Hn in Hf. nia.
Qed.

Lemma percentile_sound_witness :
  exists d, p (sorted [30; 10; 20]) pct95 = Some d /\
    100 * Z.of_nat (length (filter (fun y => d < y) [30; 10; 20])) < 3 * 5.
Proof.
  destruct (percentile_sound [30; 10; 20] pct95 95) as (d & H1 & _ & H3).
  - right. left.
  - cbn. lia.
  - exists d. split; [exact H1|exact H3].
Defined.
