(* ===== verification/Cluster.v ===== *)
(** * The cluster: the master's node and its workers over the network

    The node service of [NodeTrace], one worker process of [Worker] per stream, and
    what lies between them: the assignments sent on a stream and not received yet,
    and the RPCs a worker's goroutines are making.  Any step of any part may come
    next; a stream can end at either side at any time and a report can fail.  Each
    step at the master is one operation of the node service, under the conditions of
    [NodeTrace.nodeOk]: sends succeed and new tasks have unused ids.  [Net] does
    without them and interleaves the rounds of the loops. *)

From stdpp Require Import pretty.
From S2P Require Import Prelude GoTime Heap Task Scheduler SchedulerFacts SchedulerProps.
From S2P Require Import CircuitBreaker Config Store Events NodeServer Worker NodeFacts.
From S2P Require Import Master MasterFacts EndToEnd NodeTrace.

Open Scope string_scope.
Open Scope list_scope.
Open Scope Z_scope.

(** ** State *)

(** The [ReportTaskStatus] call of a task's goroutine: made and not handled yet, or
    over: it was handled and answered, or it failed. *)
Inductive Rpc := Calling (r : TaskReport) | Answered (ok : bool).

(** A stream of [AssignTask] with the worker at its end: the worker's id and the
    capacity of its semaphore; whether the master's handler still serves it; the
    assignments sent so far and those still on the wire; the worker's process, its
    RPCs by goroutine, and the ids of the tasks whose report failed. *)

Record Link := mkLink {
  lkWorker : string; lkCap : nat; lkOpen : bool;
  lkSent : list TaskAssignment; lkWire : list TaskAssignment;
  lkProc : Worker.Worker; lkCalls : gmap positive Rpc; lkLost : list string
}.

#[export] Instance Link_struct : Struct Link := fun l =>
  mkLink (lkWorker l) (lkCap l) (lkOpen l) (lkSent l) (lkWire l) (lkProc l) (lkCalls l) (lkLost l).

Record Cluster (S : Type) := mkCluster { cNode : Node S; cLinks : gmap streamId Link }.
Arguments mkCluster {S}. Arguments cNode {S}. Arguments cLinks {S}.

Definition newLink (workerID : string) (cap : nat) : Link := mkLink workerID cap true [] [] newWorker ∅ [].

(** ** Steps *)

Inductive CAct :=
| CNode (o : NodeOp)                       (* a submission, a tick, an action of the API *)
| CConnect (now : Time) (env : PubEnv) (reg : WorkerRegistration) (sid : streamId) (cfg : Config)
| CRound (sid : streamId) (env : DispatchEnv)
| CHeartbeat (sid : streamId) (now : Time)
| CRecv (sid : streamId)                   (* stream.Recv returns the next assignment *)
| CWork (sid : streamId) (a : Act)         (* any other step of the worker's process *)
| CCall (sid : streamId) (i : positive) (os : OsEnv) (startedAt completedAt : Time)
| CHandle (sid : streamId) (i : positive) (env : ReportEnv)
| CLose (sid : streamId) (i : positive)    (* the RPC fails *)
| CReturn (sid : streamId) (i : positive)
| CClose (sid : streamId) (env : PubEnv) (ord : list (string * loc)).

(** The operations that the streams and RPCs do not make. *)
Definition internal (o : NodeOp) : bool :=
  match o with NHeartbeat _ _ | NReport _ _ | NOpen _ _ _ _ | NRound _ _ | NClose _ _ _ _ => false | _ => true end.

Section cluster.
Context {S : Type} `{TaskStore S}.
Implicit Types c : Cluster S.
Variable durationString : Duration -> string.

(** What happens at the master. *)

Definition nodeOpOf (a : CAct) c : option NodeOp :=
  match a with
  | CNode o => Some o
  | CConnect now env reg sid _ => Some (NOpen now env reg sid)
  | CRound sid env => l ← cLinks c !! sid; Some (NRound env (lkWorker l))
  | CHeartbeat sid now => l ← cLinks c !! sid; Some (NHeartbeat now (heartbeat (lkWorker l) (lkProc l)))
  | CHandle sid i env =>
      l ← cLinks c !! sid;
      match lkCalls l !! i with Some (Calling r) => Some (NReport env r) | _ => None end
  | CClose sid env ord => l ← cLinks c !! sid; Some (NClose env ord (lkWorker l) sid)
  | _ => None
  end.

(** What happens to the stream of the step; [round] is the outcome of a round. *)

Definition linkStep (a : CAct) (round : Round) (l : Link) : option Link :=
  match a with
  | CRound _ _ =>
      if lkOpen l then
        match round with
        | RoundSent x => Some (l <| lkSent := lkSent l ++ [x] |> <| lkWire := lkWire l ++ [x] |>)
        | _ => Some l
        end
      else None
  | CHeartbeat _ _ => if ctxDone (lkProc l) then None else Some l
  | CRecv _ =>
      match lkWire l with
      | x :: wire => p ← step (lkCap l) (Recv x) (lkProc l); Some (l <| lkWire := wire |> <| lkProc := p |>)
      | [] => None
      end
  | CWork _ (Recv _) | CWork _ (Report _ _) => None
  | CWork _ w => p ← step (lkCap l) w (lkProc l); Some (l <| lkProc := p |>)
  | CCall _ i os startedAt completedAt =>
      match Worker.running (lkProc l) !! i, lkCalls l !! i with
      | Some (x, Executing), None =>
          let r := snd (executeTask os (lkWorker l) startedAt completedAt x) in
          Some (l <| lkCalls := <[i := Calling r]> (lkCalls l) |>)
      | _, _ => None
      end
  | CHandle _ i _ =>
      match lkCalls l !! i with
      | Some (Calling r) => Some (l <| lkCalls := <[i := Answered true]> (lkCalls l) |>)
      | _ => None
      end
  | CLose _ i =>
      match lkCalls l !! i with
      | Some (Calling r) =>
          Some (l <| lkCalls := <[i := Answered false]> (lkCalls l) |> <| lkLost := lkLost l ++ [rpTaskId r] |>)
      | _ => None
      end
  | CReturn _ i =>
      match lkCalls l !! i with
      | Some (Answered ok) =>
          p ← step (lkCap l) (Report i ok) (lkProc l);
          Some (l <| lkProc := p |> <| lkCalls := delete i (lkCalls l) |>)
      | _ => None
      end
  | CClose _ _ _ => if lkOpen l then Some (l <| lkOpen := false |>) else None
  | CNode _ | CConnect _ _ _ _ _ => None
  end.

Definition linkOf (a : CAct) : option streamId :=
  match a with
  | CNode _ | CConnect _ _ _ _ _ => None
  | CRound sid _ | CHeartbeat sid _ | CRecv sid | CWork sid _ | CCall sid _ _ _ _ | CHandle sid _ _
  | CLose sid _ | CReturn sid _ | CClose sid _ _ => Some sid
  end.

Definition roundOf (a : CAct) c : Round :=
  match a with
  | CRound sid env =>
      match cLinks c !! sid with Some l => snd (dispatchRound env (lkWorker l) (cNode c)) | None => RoundContinue end
  | _ => RoundContinue
  end.

Definition linksStep (a : CAct) c : option (gmap streamId Link) :=
  match a with
  | CNode o => if internal o then Some (cLinks c) else None
  | CConnect _ _ reg sid cfg =>
      match cLinks c !! sid with
      | None => Some (<[sid := newLink (regWorkerId reg) (maxConcurrent cfg)]> (cLinks c))
      | Some _ => None
      end
  | _ =>
      sid ← linkOf a; l ← cLinks c !! sid;
      l ← linkStep a (roundOf a c) l; Some (<[sid := l]> (cLinks c))
  end.

Definition clusterStep (a : CAct) c : option (Cluster S) :=
  links ← linksStep a c;
  Some (mkCluster (match nodeOpOf a c with Some o => nodeStep durationString o (cNode c) | None => cNode c end) links).

Definition clusterOk (a : CAct) c : Prop :=
  match nodeOpOf a c with Some o => nodeOk o (cNode c) | None => True end.

Inductive clusterRun : list CAct -> Cluster S -> Cluster S -> Prop :=
| crun_nil c : clusterRun [] c c
| crun_cons a acts c c1 c' :
    clusterOk a c -> clusterStep a c = Some c1 -> clusterRun acts c1 c' -> clusterRun (a :: acts) c c'.

End cluster.

(** ** Where an assignment is *)

Definition inMainPC (m : MainPC) : list TaskAssignment :=
  match m with Worker.Waiting a | Spawning a => [a] | _ => [] end.

(** On the wire, held by the worker, or executed with the report on its way. *)
Definition carries (l : Link) (id : string) : Prop :=
  id ∈ asTaskId <$> (lkWire l ++ inReceiver (receiver (lkProc l)) ++ inMainPC (main (lkProc l))) \/
  exists i a, Worker.running (lkProc l) !! i = Some (a, Executing) /\ (forall ok, lkCalls l !! i <> Some (Answered ok)) /\
    asTaskId a = id.

(** The worker shuts down, or its end of the stream is over. *)
Definition ending (l : Link) : Prop := ctxDone (lkProc l) = true \/ receiver (lkProc l) = Ended.

Definition accounted (l : Link) (id : string) : Prop := carries l id \/ id ∈ lkLost l \/ ending l.

Record LinkInv (l : Link) : Prop := {
  ki_worker : WorkerInv (lkCap l) (lkProc l);
  ki_calls : forall i x, lkCalls l !! i = Some x ->
    exists a, Worker.running (lkProc l) !! i = Some (a, Executing) /\
      match x with Calling r => rpTaskId r = asTaskId a /\ rpWorkerId r = lkWorker l | Answered _ => True end;
  ki_err : errChan (lkProc l) <> None -> receiver (lkProc l) = Ended;
  ki_sent : lkSent l = received (lkProc l) ++ lkWire l
}.

(** ** Lemmas: the tasks in flight after an operation of the node *)

(** An entry that was there before, of the same worker. *)
Definition kept (w w' : World) (id : string) (t : loc) : Prop :=
  inFlight (sched w) !! id = Some t /\ tWorkerID (mem w' !!! t) = tWorkerID (mem w !!! t).

Section flights.
Context {S : Type} `{TaskStore S}.
Implicit Types n : Node S.
Variable durationString : Duration -> string.

Lemma kept_flight w id t : inFlight (sched w) !! id = Some t -> t ∈ part Flying (sched w).
Proof. intros Hid. by eapply flying_elem. Qed.

Lemma submit_flight p t n id u :
  Places (nWorld n) -> fresh [(p, t)] n ->
  inFlight (sched (nWorld (submit n (p, t)))) !! id = Some u -> kept (nWorld n) (nWorld (submit n (p, t))) id u.
Proof.
  intros HP Hf. destruct (submit_spec p t n (pl_inv _ HP) Hf) as [_ _ (F & _) _ M _]. rewrite F. intros Hu.
  split; [done|]. rewrite M; [done|]. intros ->%list_elem_of_singleton.
  apply (fresh_pool _ _ Hf p); [by left|]. by eapply (part_pool Flying), kept_flight.
Qed.

Lemma report_flight env r n id t :
  Places (nWorld n) -> inFlight (sched (nWorld (ReportTaskStatus env r n))) !! id = Some t ->
  kept (nWorld n) (nWorld (ReportTaskStatus env r n)) id t /\ id <> rpTaskId r.
Proof.
  intros HP. pose proof (pl_inv _ HP) as HI. rewrite nWorld_report.
  assert (forall w', inFlight (sched w') = delete (rpTaskId r) (inFlight (sched (nWorld n))) ->
    (forall u, inFlight (sched (nWorld n)) !! rpTaskId r <> Some u -> mem w' !!! u = mem (nWorld n) !!! u) ->
    inFlight (sched w') !! id = Some t -> kept (nWorld n) w' id t /\ id <> rpTaskId r) as Hw.
  { intros w' Hf Hm. rewrite Hf. intros [Hne Hid]%lookup_delete_Some. split; [|done]. split; [done|].
    rewrite Hm; [done|]. intros Hr. apply Hne. by rewrite <- (inv_keyed _ HI _ _ Hid), <- (inv_keyed _ HI _ _ Hr). }
  destruct (inFlight (sched (nWorld n)) !! rpTaskId r) as [u|] eqn:E.
  - pose proof (pl_state _ HP Flying u (kept_flight _ _ _ E)) as Hst.
    case_decide; apply Hw.
    + by destruct (SchedComplete_running (reNow env) (rpTaskId r) (rpOutput r) (rpExitCode r) _ u HI E Hst)
        as (_ & _ & ? & _).
    + intros v Hv. destruct (SchedComplete_running (reNow env) (rpTaskId r) (rpOutput r) (rpExitCode r) _ u HI E Hst)
        as (_ & _ & _ & _ & Hm). apply Hm. congruence.
    + by destruct (SchedFail_running (reFail env) (rpTaskId r) (rpErrorMessage r) (rpExitCode r) _ u HI E Hst)
        as (_ & _ & ? & _).
    + intros v Hv. destruct (SchedFail_running (reFail env) (rpTaskId r) (rpErrorMessage r) (rpExitCode r) _ u HI E Hst)
        as (_ & _ & _ & _ & Hm & _). apply Hm. congruence.
  - case_decide; [rewrite SchedComplete_unknown by done|rewrite SchedFail_unknown by done]; cbn [fst];
      (intros Hid; split; [by split|congruence]).
Qed.

Lemma report_unknown env r n :
  inFlight (sched (nWorld n)) !! rpTaskId r = None ->
  nWorld (ReportTaskStatus env r n) = nWorld n /\ nStore (ReportTaskStatus env r n) = nStore n.
Proof.
  intros E. split.
  - rewrite nWorld_report. by case_decide; [rewrite SchedComplete_unknown|rewrite SchedFail_unknown].
  - unfold ReportTaskStatus. destruct (Get _ _) as [regs cb]. case_decide; unfold reportCompleted, reportFailed; simpl_fields_goal;
      [rewrite SchedComplete_unknown by done|rewrite SchedFail_unknown by done];
      unfold saveReturned; repeat case_match; by node.
Qed.

Lemma round_flight env workerID n id t :
  dsSend env = None -> Places (nWorld n) ->
  inFlight (sched (nWorld (fst (dispatchRound env workerID n)))) !! id = Some t ->
  kept (nWorld n) (nWorld (fst (dispatchRound env workerID n))) id t \/
  exists a, snd (dispatchRound env workerID n) = RoundSent a /\ asTaskId a = id /\
    tWorkerID (mem (nWorld (fst (dispatchRound env workerID n))) !!! t) = workerID.
Proof.
  intros Hs HP. pose proof (pl_inv _ HP) as HI.
  destruct (decide (queue (sched (nWorld n)) = [] \/
    snd (Allow (dsAllow env) (workerBreaker workerID (nBreakers n))) = false)) as [Hidle|Hne].
  - pose proof (dispatchRound_idle env workerID n) as Hi. destruct (dispatchRound env workerID n) as [n' r].
    destruct Hi as (_ & _ & _ & Hw); [tauto|]. cbn [fst snd]. rewrite Hw. unfold kept. intros Hid. left.
    case_match; revert Hid; world; auto.
  - destruct (dispatched_world env workerID n HI) as (u & Hin & Hd); [tauto|..|done|].
    { intros v. apply (pl_state _ HP Queued). }
    { destruct (snd _); tauto. }
    destruct (dispatchRound env workerID n) as [n' r]. cbn [fst snd].
    destruct Hd as (-> & _ & _ & Hm & _ & Hf & _). rewrite Hf. intros [[<- <-]|[Hne' Hid]]%lookup_insert_Some.
    + right. eexists. split; [done|]. rewrite Hm, decide_True by done. unfold assignment, running. by simpl_fields_goal.
    + left. split; [done|]. rewrite Hm, decide_False; [done|]. intros ->.
      by pose proof (part_unique _ u Queued Flying HI Hin (kept_flight _ _ _ Hid)).
Qed.

Lemma close_flight env ord workerID sid n id t :
  map_order (inFlight (sched (nWorld n))) ord -> Places (nWorld n) ->
  inFlight (sched (nWorld (closeStream env ord workerID sid n))) !! id = Some t ->
  kept (nWorld n) (nWorld (closeStream env ord workerID sid n)) id t /\ tWorkerID (mem (nWorld n) !!! t) <> workerID.
Proof.
  intros Ho HP. pose proof (pl_inv _ HP) as HI. unfold closeStream. node. unfold kept.
  destruct (RequeueFromWorker_spec workerID ord (nWorld n) HI Ho) as (w' & E & Hr). rewrite E. cbn [fst].
  destruct (requeued_exact _ _ _ _ HI Ho Hr) as (_ & Hm & Hf & _). rewrite Hf.
  intros (u & Hu & Hid)%bind_Some. case_decide; simplify_eq. rewrite Hm, decide_False by tauto. done.
Qed.

Lemma tick_flight t n id u :
  nodeOk (NTick t) n -> Places (nWorld n) ->
  inFlight (sched (nWorld (onTick durationString t n))) !! id = Some u ->
  kept (nWorld n) (nWorld (onTick durationString t n)) id u.
Proof.
  intros Hok HP. pose proof (pl_inv _ HP) as HI. destruct t as [now env ord|now|now envs ord]; cbn [onTick nodeOk] in *; node.
  - destruct (checkWorkerHealth_fields durationString now env ord n Hok) as (_ & -> & _). done.
  - destruct (ProcessRetries_spec now (nWorld n)) as (w' & E & [Hm Hq Hs _ _]). rewrite E. cbn [fst].
    world. rewrite Hs. simpl_fields_goal. intros Hid. split; [done|]. world.
    rewrite Hm, decide_False; [done|]. intros [_ Hd]%list_elem_of_filter.
    by pose proof (part_unique _ u SchedulerProps.Waiting Flying HI Hd (kept_flight _ _ _ Hid)).
  - destruct (CheckTimeouts_spec now envs ord (nWorld n) HI Hok) as (w' & E & Ht). rewrite E. cbn [fst].
    pose proof (timed_out_flight now envs ord (nWorld n) w' u HI Hok Ht) as Hfl.
    intros Hid. assert (u ∈ flight (sched w')) as [Hin Hn]%Hfl by (apply flight_elem; eauto).
    split; [|by rewrite (to_mem _ _ _ _ _ Ht)]. revert Hid. rewrite (to_flight _ _ _ _ _ Ht). by case_decide.
Qed.

Lemma retry_flight id n i t :
  Places (nWorld n) -> inFlight (sched (nWorld (fst (handleRetryDLQ id n)))) !! i = Some t ->
  kept (nWorld n) (nWorld (fst (handleRetryDLQ id n))) i t.
Proof.
  intros HP. pose proof (pl_inv _ HP) as HI. unfold handleRetryDLQ.
  destruct (String.eqb id ""); [by cbn [fst]|].
  destruct (findTask (mem (nWorld n)) id (deadLetter (sched (nWorld n)))) as [k|] eqn:Hk.
  - destruct (findTask_Some _ _ _ _ Hk) as (u & Hu & _ & _).
    destruct (SchedRetryFromDLQ_found id _ k u Hk Hu) as (w' & E & Hm & _ & _ & Hf & _). rewrite E. cbn [fst]. node.
    rewrite Hf. intros Hid. split; [done|]. rewrite Hm, onTask_lookup, decide_False; [done|]. intros ->.
    by pose proof (part_unique _ u Buried Flying HI (list_elem_of_lookup_2 _ _ _ Hu) (kept_flight _ _ _ Hid)).
  - unfold SchedRetryFromDLQ. rewrite Hk. cbn [fst]. node. done.
Qed.

(** Every operation. *)

Lemma node_flight o n id t :
  nodeOk o n -> Places (nWorld n) ->
  inFlight (sched (nWorld (nodeStep durationString o n))) !! id = Some t ->
  let n' := nodeStep durationString o n in
  match o with
  | NRound env workerID =>
      kept (nWorld n) (nWorld n') id t \/
      exists a, snd (dispatchRound env workerID n) = RoundSent a /\ asTaskId a = id /\
        tWorkerID (mem (nWorld n') !!! t) = workerID
  | NReport _ r => kept (nWorld n) (nWorld n') id t /\ id <> rpTaskId r
  | NClose _ _ workerID _ => kept (nWorld n) (nWorld n') id t /\ tWorkerID (mem (nWorld n) !!! t) <> workerID
  | _ => kept (nWorld n) (nWorld n') id t
  end.
Proof.
  intros Hok HP. cbv zeta.
  assert (forall w, w = nWorld n -> inFlight (sched w) !! id = Some t -> kept (nWorld n) w id t) as Hsame
    by (intros w -> Hid; by split).
  destruct (submission o) as [[p tk]|] eqn:Es.
  { destruct (submission_step durationString o p tk n Es) as [E _].
    assert (fresh [(p, tk)] n) as Hf
      by (destruct o; cbn [submission nodeOk] in *; try congruence; injection Es as <- <-; by destruct Hok).
    rewrite E. intros Hid. pose proof (submit_flight p tk n id t HP Hf Hid). by destruct o. }
  destruct o; try discriminate Es; cbn [nodeStep nodeOk] in *.
  - apply Hsame, (nWorld_rpc now (mkPubEnv 0 []) hb (mkReg "" "" 0) 1 n).
  - by apply report_flight.
  - apply Hsame, (nWorld_rpc now env (mkHeartbeat "" 0) reg sid n).
  - by apply round_flight.
  - by apply close_flight.
  - by apply tick_flight.
  - apply Hsame, (nWorld_api env 0 workerID n).
  - apply Hsame, (nWorld_api env now workerID n).
  - apply Hsame, (nWorld_api env 0 workerID n).
  - apply retry_flight; done.
Qed.

End flights.

(** ** Lemmas: one stream *)

(** A step of the worker's process that is neither a receive nor the end of an
    RPC keeps every assignment that it holds, unless it shuts down. *)

Definition ownStep (w : Act) : Prop := match w with Recv _ | Report _ _ => False | _ => True end.

Definition endingProc (p : Worker.Worker) : Prop := ctxDone p = true \/ receiver p = Ended.

Record WorkStep (p p' : Worker.Worker) : Prop := {
  ws_ending : endingProc p -> endingProc p';
  ws_err : errChan p' <> None -> receiver p' = Ended;
  ws_received : received p' = received p;
  ws_running : forall i a, Worker.running p !! i = Some (a, Executing) -> Worker.running p' !! i = Some (a, Executing);
  ws_held : forall a, a ∈ inReceiver (receiver p) ++ inMainPC (main p) ->
    a ∈ inReceiver (receiver p') ++ inMainPC (main p') \/ endingProc p' \/
    exists i, Worker.running p !! i = None /\ Worker.running p' !! i = Some (a, Executing)
}.

Lemma work_step cap w p p' :
  step cap w p = Some p' -> ownStep w -> (errChan p <> None -> receiver p = Ended) -> WorkStep p p'.
Proof.
  intros E Hw Herr. unfold endingProc. destruct p as [rc mn er cd sm at_ wg_ rn rcv st rp un]; cbn in *.
  destruct w; try done; unfold step, setTask in E; cbn in E; repeat case_match; simplify_eq/=; split; unfold endingProc; cbn;
    try done; try tauto; try (intros; apply lookup_insert_Some; naive_solver);
    try (intros; apply lookup_delete_Some; naive_solver); try set_solver.
  all: try (intros j x Hj; rewrite lookup_insert_ne; [done|congruence]).
  all: try (intros j x Hj; rewrite lookup_delete_ne; [done|congruence]).
  all: try (intros x; rewrite ?app_nil_r, elem_of_app, ?elem_of_nil, !list_elem_of_singleton; naive_solver).
  intros x. rewrite app_nil_r, elem_of_app, list_elem_of_singleton. intros [Hx| ->]; [by left|].
  right. right. exists i. by rewrite lookup_insert_eq.
Qed.

(** What a step on a stream keeps. *)

(** The proc [p'] in place of the stream's, with the calls as they are. *)

Lemma own_step l w p' :
  LinkInv l -> ownStep w -> step (lkCap l) w (lkProc l) = Some p' ->
  LinkInv (l <| lkProc := p' |>) /\ (forall id, accounted l id -> accounted (l <| lkProc := p' |>) id).
Proof.
  intros HI Hw E. pose proof (work_step _ _ _ _ E Hw (ki_err _ HI)) as WS.
  pose proof (step_inv _ _ _ _ E (ki_worker _ HI)) as HW.
  destruct l as [wid cap op sent wire p calls lost]; cbn in *. split.
  - destruct HI as [_ I2 _ I4]. split; cbn in *; [done| |apply (ws_err _ _ WS)|by rewrite (ws_received _ _ WS)].
    intros i x Hx. destruct (I2 i x Hx) as (a & Ha & Hr). exists a. split; [by apply (ws_running _ _ WS)|done].
  - intros id [[Hc|(i & a & Hi & Hn & Ea)]|[Hl|He]].
    + unfold accounted, carries, ending; cbn.
      apply list_elem_of_fmap in Hc as (a & -> & [Hin|Hin]%elem_of_app).
      { left. left. apply list_elem_of_fmap. exists a. split; [done|]. apply elem_of_app. by left. }
      destruct (ws_held _ _ WS a Hin) as [Hin'|[He|(i & Hi & Hi')]]; [|by right; right|].
      * left. left. apply list_elem_of_fmap. exists a. split; [done|]. apply elem_of_app. by right.
      * left. right. exists i, a. split; [done|]. split; [|done].
        intros ok Hx. destruct (ki_calls _ HI i _ Hx) as (b & Hb & _). cbn in Hb. congruence.
    + left. right. exists i, a. split; [by apply (ws_running _ _ WS)|done].
    + right. by left.
    + right. right. by apply (ws_ending _ _ WS).
Qed.

(** The goroutine [i] of which the call is answered has nothing more to do. *)

Definition answering (a : CAct) (l : Link) (id : string) : Prop :=
  match a with CHandle _ i _ => exists r, lkCalls l !! i = Some (Calling r) /\ rpTaskId r = id | _ => False end.

Record LinkStep (a : CAct) (round : Round) (l l' : Link) : Prop := {
  ls_inv : LinkInv l';
  ls_worker : lkWorker l' = lkWorker l;
  ls_open : lkOpen l' = match a with CClose _ _ _ => false | _ => lkOpen l end;
  ls_accounted : forall id, accounted l id -> ~ answering a l id -> accounted l' id
}.

Lemma call_step l i x y :
  LinkInv l -> lkCalls l !! i = Some x \/ lkCalls l !! i = None /\ (exists a, Worker.running (lkProc l) !! i = Some (a, Executing)) ->
  (forall a, Worker.running (lkProc l) !! i = Some (a, Executing) ->
    match y with Calling r => rpTaskId r = asTaskId a /\ rpWorkerId r = lkWorker l | Answered _ => True end) ->
  LinkInv (l <| lkCalls := <[i := y]> (lkCalls l) |>) /\
  (forall id, accounted l id ->
     ((exists ok, y = Answered ok) -> forall a, Worker.running (lkProc l) !! i = Some (a, Executing) -> asTaskId a <> id) ->
     accounted (l <| lkCalls := <[i := y]> (lkCalls l) |>) id).
Proof.
  intros HI Hx Hy. assert (exists a, Worker.running (lkProc l) !! i = Some (a, Executing)) as [a Ha].
  { destruct Hx as [Hx|[_ Hx]]; [|done]. destruct (ki_calls _ HI i x Hx) as (a & Ha & _). eauto. }
  destruct l as [wid cap op sent wire p calls lost]; cbn in *. split.
  - destruct HI as [I1 I2 I3 I4]. split; cbn in *; try done. intros j z.
    intros [[<- <-]|[Hne Hz]]%lookup_insert_Some; [|by apply I2]. exists a. split; [done|]. by apply Hy.
  - intros id [[Hc|(j & b & Hj & Hn & Eb)]|[Hl|He]] Hid; unfold accounted, carries, ending; cbn in *; try tauto.
    left. right. exists j, b. split; [done|]. split; [|done].
    destruct (decide (j = i)) as [->|Hne]; [|by rewrite lookup_insert_ne].
    intros ok. rewrite lookup_insert_eq. intros [= ->]. by apply (Hid (ex_intro _ ok eq_refl) b Hj).
Qed.

Lemma recv_step l x wire p' :
  LinkInv l -> lkWire l = x :: wire -> step (lkCap l) (Recv x) (lkProc l) = Some p' ->
  LinkInv (l <| lkWire := wire |> <| lkProc := p' |>) /\
  (forall id, accounted l id -> accounted (l <| lkWire := wire |> <| lkProc := p' |>) id).
Proof.
  intros HI Hw E. pose proof (step_inv _ _ _ _ E (ki_worker _ HI)) as HW. destruct HI as [_ I2 I3 I4].
  destruct l as [wid cap op sent wire0 p calls lost]; cbn in *. subst wire0.
  destruct p as [rc mn er cd sm at_ wg_ rn rcv st rp un]; cbn in *. destruct rc; try done. injection E as <-.
  unfold accounted, carries, ending. cbn in *. split.
  - split; cbn in *; [done|done| |by rewrite I4, <- app_assoc].
    intros He. by specialize (I3 He).
  - intros id [[Hc|Hc]|[Hl|[He|[=]]]]; [left; left|left; by right|right; by left|right; right; by left].
    rewrite <- fmap_cons in Hc. apply list_elem_of_fmap in Hc as (a & -> & Ha). apply list_elem_of_fmap. exists a.
    split; [done|]. set_solver.
Qed.

Lemma report_step l i ok p' :
  LinkInv l -> lkCalls l !! i = Some (Answered ok) -> step (lkCap l) (Report i ok) (lkProc l) = Some p' ->
  LinkInv (l <| lkProc := p' |> <| lkCalls := delete i (lkCalls l) |>) /\
  (forall id, accounted l id -> accounted (l <| lkProc := p' |> <| lkCalls := delete i (lkCalls l) |>) id).
Proof.
  intros HI Hc E. pose proof (step_inv _ _ _ _ E (ki_worker _ HI)) as HW. destruct HI as [_ I2 I3 I4].
  destruct l as [wid cap op sent wire p calls lost]; cbn in *.
  destruct p as [rc mn er cd sm at_ wg_ rn rcv st rp un]; cbn in *.
  destruct (rn !! i) as [[a []]|] eqn:Ei; try done. unfold setTask in E.
  assert (exists rp' un', p' = mkWorkerProc rc mn er cd sm at_ wg_ (<[i := (a, Worker.Reported)]> rn) rcv st rp' un')
    as (rp' & un' & ->) by (destruct ok; cbn in E; injection E as <-; eauto). clear E.
  unfold accounted, carries, ending. cbn in *. split.
  - split; cbn in *; [done| |done|done]. intros j x [Hne Hx]%lookup_delete_Some.
    destruct (I2 j x Hx) as (b & Hb & Hr). exists b. by rewrite lookup_insert_ne.
  - intros id [[Hin|(j & b & Hj & Hn & Eb)]|[Hl|He]]; [left; by left| |right; by left|right; by right].
    left. right. exists j, b. assert (i <> j) by (intros ->; congruence).
    by rewrite lookup_insert_ne, lookup_delete_ne.
Qed.

Lemma linkStep_spec a round l l' : linkStep a round l = Some l' -> LinkInv l -> LinkStep a round l l'.
Proof.
  intros E HI. destruct a as [| |sid env|sid now|sid|sid w|sid i os st ct|sid i env|sid i|sid i|sid env ord];
    cbn [linkStep] in E; try discriminate.
  - destruct (lkOpen l) eqn:Eo; [|done]. destruct round as [|x|]; injection E as <-; try by split.
    split; simpl_fields_goal; [|done|done|].
    + destruct HI as [I1 I2 I3 I4]. split; simpl_fields_goal; try done. by rewrite I4, app_assoc.
    + intros id [[Hc|Hc]|[Hl|He]] _; unfold accounted, carries, ending; simpl_fields_goal; try tauto.
      left. left. rewrite !fmap_app in *. set_solver.
  - destruct (ctxDone (lkProc l)); [done|]. injection E as <-. by split.
  - destruct (lkWire l) as [|x wire] eqn:Ew; [done|].
    destruct (step (lkCap l) (Recv x) (lkProc l)) as [p'|] eqn:Es; [|done]. cbn in E. injection E as <-.
    destruct (recv_step l x wire p' HI Ew Es) as [H1 H2]. split; [done|by simpl_fields_goal..|auto].
  - assert (exists p', step (lkCap l) w (lkProc l) = Some p' /\ ownStep w /\ l' = l <| lkProc := p' |>)
      as (p' & Es & Hw & ->).
    { destruct w; try discriminate;
        (match type of E with mbind _ ?o = _ => destruct o as [p'|] eqn:Es; [|discriminate] end;
         injection E as <-; by exists p'). }
    destruct (own_step l w p' HI Hw Es) as [H1 H2]. split; [done|by simpl_fields_goal..|auto].
  - destruct (Worker.running (lkProc l) !! i) as [[x []]|] eqn:Ei; try done.
    destruct (lkCalls l !! i) eqn:Ec; [done|]. injection E as <-.
    match goal with |- context [Calling ?r] => destruct (call_step l i (Answered true) (Calling r) HI) as [H1 H2] end.
    + right. eauto.
    + intros b Hb. assert (b = x) as -> by congruence. unfold executeTask.
      by destruct (execute os x) as [calls [output err]].
    + split; [done|by simpl_fields_goal..|]. intros id Hid _. apply H2; [done|]. by intros [ok [=]].
  - destruct (lkCalls l !! i) as [[r|]|] eqn:Ec; try done. injection E as <-.
    destruct (call_step l i (Calling r) (Answered true) HI) as [H1 H2]; [by left|done|].
    split; [done|by simpl_fields_goal..|]. intros id Hid Hn. apply H2; [done|]. intros _ b Hb Eb. apply Hn.
    exists r. split; [done|]. destruct (ki_calls _ HI i _ Ec) as (b' & Hb' & Er & _). congruence.
  - destruct (lkCalls l !! i) as [[r|]|] eqn:Ec; try done. injection E as <-.
    destruct (call_step l i (Calling r) (Answered false) HI) as [H1 H2]; [by left|done|].
    split; [|by simpl_fields_goal..|].
    + destruct H1 as [I1 I2 I3 I4]. revert I1 I2 I3 I4. simpl_fields_goal. intros. by split; simpl_fields_goal.
    + intros id Hid _. destruct (decide (id = rpTaskId r)) as [->|Hne].
      { right. left. simpl_fields_goal. apply elem_of_app. right. by left. }
      assert (accounted (l <| lkCalls := <[i := Answered false]> (lkCalls l) |>) id) as Ha.
      { apply H2; [done|]. intros _ b Hb Eb. destruct (ki_calls _ HI i _ Ec) as (b' & Hb' & Er & _). congruence. }
      revert Ha. unfold accounted, carries, ending. simpl_fields_goal. rewrite elem_of_app. tauto.
  - destruct (lkCalls l !! i) as [[r|ok]|] eqn:Ec; try done.
    destruct (step (lkCap l) (Report i ok) (lkProc l)) as [p'|] eqn:Es; [|done]. cbn in E. injection E as <-.
    destruct (report_step l i ok p' HI Ec Es) as [H1 H2]. split; [done|by simpl_fields_goal..|auto].
  - destruct (lkOpen l); [|done]. injection E as <-. split; simpl_fields_goal; [|done|done|].
    + destruct HI as [I1 I2 I3 I4]. by split; simpl_fields_goal.
    + intros id Hid _. revert Hid. unfold accounted, carries, ending. by simpl_fields_goal.
Qed.

(** ** Lemmas: the cluster *)

Section invariant.
Context {S : Type} `{TaskStore S}.
Implicit Types c : Cluster S.
Variable durationString : Duration -> string.

(** An open stream of the task's worker accounts for the task. *)
Definition inHands (links : gmap streamId Link) (workerID id : string) : Prop :=
  exists sid l, links !! sid = Some l /\ lkOpen l = true /\ lkWorker l = workerID /\ accounted l id.

Record ClusterInv c : Prop := {
  ci_places : Places (nWorld (cNode c));
  ci_links : forall sid l, cLinks c !! sid = Some l -> LinkInv l;
  ci_flight : forall id t, inFlight (sched (nWorld (cNode c))) !! id = Some t ->
    inHands (cLinks c) (tWorkerID (mem (nWorld (cNode c)) !!! t)) id
}.

Lemma newLink_inv workerID cap : LinkInv (newLink workerID cap).
Proof. split; cbn; [apply newWorker_inv|intros i x Hx; by rewrite lookup_empty in Hx|done|done]. Qed.

Lemma inHands_insert links sid l l' a round workerID id :
  links !! sid = Some l -> LinkStep a round l l' -> inHands links workerID id ->
  ~ answering a l id -> (match a with CClose _ _ _ => workerID <> lkWorker l | _ => True end) ->
  inHands (<[sid := l']> links) workerID id.
Proof.
  intros Hl [_ Hw Ho Ha] (s & k & Hk & Hop & Hwk & Hac) Hn Hc.
  destruct (decide (s = sid)) as [->|Hne].
  - assert (k = l) as -> by congruence. exists sid, l'. rewrite lookup_insert_eq, Ho, Hw.
    split; [done|]. split; [|auto]. by destruct a.
  - exists s, k. by rewrite lookup_insert_ne.
Qed.

Lemma clusterStep_inv a c c' :
  clusterOk a c -> clusterStep durationString a c = Some c' -> ClusterInv c -> ClusterInv c'.
Proof.
  intros Hok E [HP HL HF]. unfold clusterStep in E. destruct (linksStep a c) as [links|] eqn:El; [|done].
  cbn [mbind option_bind] in E. injection E as <-. unfold clusterOk in Hok.
  assert (Places (nWorld (match nodeOpOf a c with Some o => nodeStep durationString o (cNode c) | None => cNode c end))) as HP'
    by (destruct (nodeOpOf a c); [by apply nodeStep_places|done]).
  destruct (linkOf a) as [sid|] eqn:Es.
  - assert (exists l l', cLinks c !! sid = Some l /\ linkStep a (roundOf a c) l = Some l' /\
      links = <[sid := l']> (cLinks c)) as (l & l' & Hl & Hs & ->).
    { unfold linksStep in El. rewrite Es in El. destruct a; try discriminate; cbn [mbind option_bind] in El;
        (destruct (cLinks c !! sid) as [l|]; [|done]); cbn [mbind option_bind] in El;
        (match type of El with mbind _ ?o = _ => destruct o as [l'|] eqn:Hs; [|discriminate] end);
        injection El as <-; by exists l, l'. }
    pose proof (linkStep_spec _ _ _ _ Hs (HL _ _ Hl)) as LS.
    split; cbn [cNode cLinks]; [done| |].
    { intros s k. intros [[<- <-]|[_ Hk]]%lookup_insert_Some; [apply (ls_inv _ _ _ _ LS)|by apply (HL s)]. }
    intros id t Hid.
    assert (forall o, nodeOpOf a c = Some o -> kept (nWorld (cNode c)) (nWorld (nodeStep durationString o (cNode c))) id t ->
      ~ answering a l id -> (match a with CClose _ _ _ => tWorkerID (mem (nWorld (cNode c)) !!! t) <> lkWorker l | _ => True end) ->
      inHands (<[sid := l']> (cLinks c)) (tWorkerID (mem (nWorld (nodeStep durationString o (cNode c))) !!! t)) id) as Hkept.
    { intros o _ [Hid' ->] Hn Hc. by apply (inHands_insert _ _ l l' a (roundOf a c)); auto. }
    destruct a as [| |s env|s now|s|s w|s i os st ct|s i env|s i|s i|s env ord]; try discriminate; injection Es as ->;
      cbn [nodeOpOf] in *; rewrite ?Hl in *; cbn [mbind option_bind] in *;
      try (apply (inHands_insert _ _ l l' _ _ _ _ Hl LS); [by apply HF|by intros []|done]).
    + pose proof (node_flight durationString _ _ _ _ Hok HP Hid) as [Hk|(x & Hx & Ex & Ew)]; [by apply (Hkept _ eq_refl Hk (fun x => x) I)|].
      exists sid, l'. rewrite lookup_insert_eq, (ls_open _ _ _ _ LS), (ls_worker _ _ _ _ LS), Ew.
      cbn [linkStep roundOf] in Hs. rewrite Hl, Hx in Hs. destruct (lkOpen l) eqn:Eo; [|done]. injection Hs as <-.
      split; [done|]. split; [done|]. split; [done|]. left. left. simpl_fields_goal.
      apply list_elem_of_fmap. exists x. split; [done|]. rewrite !elem_of_app, list_elem_of_singleton. tauto.
    + pose proof (node_flight durationString _ _ _ _ Hok HP Hid) as Hk. by apply (Hkept _ eq_refl Hk (fun x => x) I).
    + cbn [linkStep] in Hs. destruct (lkCalls l !! i) as [[r|]|] eqn:Ec; try done.
      pose proof (node_flight durationString _ _ _ _ Hok HP Hid) as [Hk Hne]. apply (Hkept _ eq_refl Hk); [|done].
      intros (r' & Er & Ei). apply Hne. congruence.
    + pose proof (node_flight durationString _ _ _ _ Hok HP Hid) as [Hk Hne]. by apply (Hkept _ eq_refl Hk (fun x => x) Hne).
  - destruct a as [o|now env reg sid cfg| | | | | | | | |]; try discriminate; cbn [linksStep nodeOpOf] in *.
    + destruct (internal o) eqn:Ei; [|done]. injection El as <-. split; cbn [cNode cLinks]; [done|done|].
      intros id t Hid. pose proof (node_flight durationString _ _ _ _ Hok HP Hid) as Hk.
      assert (kept (nWorld (cNode c)) (nWorld (nodeStep durationString o (cNode c))) id t) as [Hid' ->] by (by destruct o).
      by apply HF.
    + destruct (cLinks c !! sid) eqn:Hl; [done|]. injection El as <-. split; cbn [cNode cLinks]; [done| |].
      * intros s k. intros [[<- <-]|[_ Hk]]%lookup_insert_Some; [apply newLink_inv|by apply (HL s)].
      * intros id t Hid. pose proof (node_flight durationString _ _ _ _ Hok HP Hid) as [Hid' ->].
        destruct (HF _ _ Hid') as (s & k & Hk & Hr). exists s, k. rewrite lookup_insert_ne by congruence. by split.
Qed.

Lemma clusterRun_inv acts c c' : clusterRun durationString acts c c' -> ClusterInv c -> ClusterInv c'.
Proof. induction 1; auto. eauto using clusterStep_inv. Qed.

Lemma newCluster_inv cfg (store : option S) bus : ClusterInv (mkCluster (NewNodeServer cfg store bus) ∅).
Proof.
  split; cbn [cNode cLinks]; [apply NewNodeServer_places|intros s l Hl; by rewrite lookup_empty in Hl|].
  intros id t Hid. cbn in Hid. by rewrite lookup_empty in Hid.
Qed.

End invariant.

(** ** Ending every stream *)

Section closing.
Context {S : Type} `{TaskStore S}.
Variable durationString : Duration -> string.

Definition openLinks (links : gmap streamId Link) : gmap streamId Link := filter (fun p => lkOpen p.2 = true) links.

Lemma close_step (c : Cluster S) sid l env :
  ClusterInv c -> cLinks c !! sid = Some l -> lkOpen l = true ->
  exists ord c', clusterRun durationString [CClose sid env ord] c c' /\ ClusterInv c' /\
    pool (nWorld (cNode c')) ≡ₚ pool (nWorld (cNode c)) /\ stable (mem (nWorld (cNode c))) (mem (nWorld (cNode c'))) /\
    openLinks (cLinks c') = delete sid (openLinks (cLinks c)).
Proof.
  intros HC Hl Ho. set (ord := map_to_list (inFlight (sched (nWorld (cNode c))))).
  assert (map_order (inFlight (sched (nWorld (cNode c)))) ord) as Hord by (unfold map_order; reflexivity).
  assert (clusterOk (CClose sid env ord) c) as Hok by (unfold clusterOk, nodeOpOf; rewrite Hl; exact Hord).
  assert (clusterStep durationString (CClose sid env ord) c =
    Some (mkCluster (closeStream env ord (lkWorker l) sid (cNode c)) (<[sid := l <| lkOpen := false |>]> (cLinks c)))) as E.
  { unfold clusterStep, linksStep, nodeOpOf. cbn [linkOf mbind option_bind]. rewrite Hl. cbn [mbind option_bind linkStep].
    by rewrite Ho. }
  exists ord. eexists. split; [eapply crun_cons; [done|exact E|apply crun_nil]|]. split.
  { by eapply clusterStep_inv. }
  cbn [cNode cLinks].
  destruct (RequeueFromWorker_conserves (lkWorker l) ord _ Hord (pl_inv _ (ci_places _ HC))) as (_ & Hst & Hp).
  split; [|split].
  - unfold closeStream. by node.
  - unfold closeStream. by node.
  - unfold openLinks. rewrite map_filter_insert_False by (cbn; by simpl_fields_goal).
    by rewrite map_filter_delete.
Qed.

Definition closing (a : CAct) : Prop := match a with CClose _ _ _ => True | _ => False end.

Lemma close_all (c : Cluster S) (env : PubEnv) :
  ClusterInv c -> exists acts c', clusterRun durationString acts c c' /\ Forall closing acts /\ ClusterInv c' /\
    pool (nWorld (cNode c')) ≡ₚ pool (nWorld (cNode c)) /\ stable (mem (nWorld (cNode c))) (mem (nWorld (cNode c'))) /\
    openLinks (cLinks c') = ∅.
Proof.
  remember (size (openLinks (cLinks c))) as k eqn:Hk. revert c Hk.
  induction k as [|k IH]; intros c Hk HC.
  { exists [], c. split; [apply crun_nil|]. split; [done|]. split; [done|]. split; [done|]. split; [done|]. by apply map_size_empty_inv. }
  destruct (map_choose (openLinks (cLinks c))) as (sid & l & Hl).
  { intros E. by rewrite E, map_size_empty in Hk. }
  pose proof Hl as [Hl' Ho]%map_lookup_filter_Some. cbn in Ho.
  destruct (close_step c sid l env HC Hl' Ho) as (ord & c1 & Hr & HC1 & Hp & Hst & Hd).
  destruct (IH c1) as (acts & c2 & Hr2 & Hcl & HC2 & Hp2 & Hst2 & He); [|done|].
  { rewrite Hd, map_size_delete_Some by eauto. lia. }
  exists (CClose sid env ord :: acts), c2. split; [|split; [by constructor|split; [done|split; [by rewrite Hp2|split; [by etrans|done]]]]].
  inversion Hr as [|? ? ? c1' ? Hok Hs Hn]; subst. inversion Hn; subst. by eapply crun_cons.
Qed.

Lemma no_stream_no_flight (c : Cluster S) :
  ClusterInv c -> openLinks (cLinks c) = ∅ -> inFlight (sched (nWorld (cNode c))) = ∅.
Proof.
  intros HC He. apply map_empty. intros id. destruct (_ !! id) as [t|] eqn:Hid; [|done].
  destruct (ci_flight _ HC id t Hid) as (sid & l & Hl & Ho & _).
  assert (openLinks (cLinks c) !! sid = Some l) as E by (by apply map_lookup_filter_Some).
  by rewrite He, lookup_empty in E.
Qed.

End closing.

(** ** Properties *)

Section theorems.
Context {S : Type} `{TaskStore S}.
Variable durationString : Duration -> string.

(** Where the tasks in flight are, when each round is one step, sends succeed and
    ids are unused ([nodeOk]; without these conditions, see [Net]): such a task is RUNNING and
    belongs to an open stream of the worker it names: it is on the wire, held by
    the worker, or executed with the report on its way, unless its report failed or
    that worker is shutting down or has lost the stream. So when no stream is open
    nothing is in flight. *)
Theorem cluster_accounts_for_tasks (cfg : Config) (store : option S) (bus : option Bus) (acts : list CAct) c
  (Hrun : clusterRun durationString acts (mkCluster (NewNodeServer cfg store bus) ∅) c) :
  let w := nWorld (cNode c) in
  (forall id t, inFlight (sched w) !! id = Some t ->
     tState (mem w !!! t) = StateRunning /\
     exists sid l, cLinks c !! sid = Some l /\ lkOpen l = true /\ lkWorker l = tWorkerID (mem w !!! t) /\
       (carries l id \/ id ∈ lkLost l \/ ending l)) /\
  ((forall sid l, cLinks c !! sid = Some l -> lkOpen l = false) -> inFlight (sched w) = ∅).
Proof.
  pose proof (clusterRun_inv _ _ _ _ Hrun (newCluster_inv cfg store bus)) as HC. split.
  - intros id t Hid. split; [|by apply (ci_flight _ HC)].
    apply (pl_state _ (ci_places _ HC) Flying). by eapply flying_elem.
  - intros Hall. apply no_stream_no_flight; [done|]. apply map_empty. intros sid.
    destruct (openLinks (cLinks c) !! sid) as [l|] eqn:E; [|done].
    apply map_lookup_filter_Some in E as [Hl Ho]. cbn in Ho. by rewrite (Hall sid l Hl) in Ho.
Qed.

(** Claim C7: what the master sends on a stream is executed there at most once and
    in order. In every state of a cluster whose sends succeed (one that fails sends
    nothing, and ends the stream) the assignments sent are those the worker received,
    in order, and those still on the wire; the received ones are reported, or the
    report failed, being executed or not started, at most two of the last kind and
    no more executing than the worker has slots; each call of a worker is for a task
    that it executes and carries its own id. *)
Theorem cluster_executes_what_was_sent (cfg : Config) (store : option S) (bus : option Bus) (acts : list CAct) c sid l
  (Hrun : clusterRun durationString acts (mkCluster (NewNodeServer cfg store bus) ∅) c)
  (Hl : cLinks c !! sid = Some l) :
  let p := lkProc l in
  lkSent l = received p ++ lkWire l /\
  (exists rest, received p ≡ₚ reported p ++ unreported p ++ executing p ++ rest /\ (length rest <= 2)%nat) /\
  (length (executing p) <= lkCap l)%nat /\
  (forall i r, lkCalls l !! i = Some (Calling r) ->
     rpWorkerId r = lkWorker l /\ exists a, a ∈ executing p /\ rpTaskId r = asTaskId a).
Proof.
  pose proof (clusterRun_inv _ _ _ _ Hrun (newCluster_inv cfg store bus)) as HC.
  destruct (ci_links _ HC sid l Hl) as [[Is Ic _ _ (d & Id & If) It _ _] I2 _ I4]. cbv zeta. split; [done|]. split; [|split].
  - exists (d ++ inReceiver (receiver (lkProc l))). rewrite If, It, <- !app_assoc. split; [done|]. rewrite length_app.
    assert (length (inReceiver (receiver (lkProc l))) <= 1)%nat by (destruct (receiver (lkProc l)); cbn; lia).
    assert (length d <= 1)%nat by (destruct (main (lkProc l)); cbn in Id; subst; cbn in *; lia). lia.
  - enough (length (executing (lkProc l)) <= length (holding (lkProc l)))%nat by lia.
    unfold executing, holding. rewrite length_fmap. induction (tasks (lkProc l)) as [|[a pc] ts IH]; [done|].
    rewrite !filter_cons. cbn [snd]. repeat case_decide; cbn [length]; (lia || naive_solver lia).
  - intros i r Hr. destruct (I2 i _ Hr) as (a & Ha & Hid & Hw). split; [done|]. exists a. split; [|done].
    unfold executing, tasks. apply list_elem_of_fmap. exists (a, Executing). split; [done|].
    apply list_elem_of_filter. split; [done|]. apply list_elem_of_fmap. exists (i, (a, Executing)).
    split; [done|]. by apply elem_of_map_to_list.
Qed.

(** Under the same conditions, closing the open streams at the master leads to a state
    with nothing in flight and every held task still held, in the queue, the retry queue
    or the dead letter queue. *)
Theorem closing_streams_recovers (cfg : Config) (store : option S) (bus : option Bus) (acts : list CAct) c
  (env : PubEnv) (Hrun : clusterRun durationString acts (mkCluster (NewNodeServer cfg store bus) ∅) c) :
  exists closes c', clusterRun durationString closes c c' /\ Forall closing closes /\
    let w := nWorld (cNode c) in let w' := nWorld (cNode c') in
    inFlight (sched w') = ∅ /\ queue (sched w') ++ retryQueue (sched w') ++ deadLetter (sched w') ≡ₚ pool w.
Proof.
  pose proof (clusterRun_inv _ _ _ _ Hrun (newCluster_inv cfg store bus)) as HC.
  destruct (close_all durationString c env HC) as (closes & c' & Hr & Hcl & HC' & Hp & _ & Ho).
  exists closes, c'. split; [done|]. split; [done|]. cbv zeta. pose proof (no_stream_no_flight c' HC' Ho) as Hf. split; [done|].
  rewrite <- Hp. unfold pool, flight. by rewrite Hf, map_to_list_empty.
Qed.


End theorems.

(** ** Runs that can be computed *)

Section eval.
Context {S : Type} `{TaskStore S}.
Variable durationString : Duration -> string.

Fixpoint clusterEval (acts : list CAct) (c : Cluster S) : option (Cluster S) :=
  match acts with
  | [] => Some c
  | a :: acts =>
      if match nodeOpOf a c with Some o => bool_decide (nodeMay o (cNode c)) | None => true end
      then c ← clusterStep durationString a c; clusterEval acts c else None
  end.

Lemma clusterEval_run acts c c' : clusterEval acts c = Some c' -> clusterRun durationString acts c c'.
Proof.
  revert c. induction acts as [|a acts IH]; intros c; cbn [clusterEval]; [intros [= ->]; apply crun_nil|].
  destruct (match nodeOpOf a c with Some o => _ | None => _ end) eqn:Em; [|done].
  destruct (clusterStep durationString a c) as [c1|] eqn:E; [|done]. cbn [mbind option_bind]. intros Hr.
  eapply crun_cons; [|exact E|by apply IH]. unfold clusterOk. destruct (nodeOpOf a c); [|done].
  apply nodeMay_ok. by apply bool_decide_eq_true in Em.
Qed.

End eval.

(** ** Examples *)

Definition demoPub : PubEnv := mkPubEnv 11 [].

(** Two workers; the first one has started the only task. *)
Definition demoDispatch : list CAct :=
  [CNode (NEnqueueTask 10 1 "a" "run.sh"); CConnect 11 demoPub (mkReg "w1" "h1" 5) 1 demoCfg;
   CConnect 11 demoPub (mkReg "w2" "h2" 5) 2 demoCfg; CRound 1 demoEnv; CRecv 1; CWork 1 TakeTask; CWork 1 Acquire;
   CWork 1 (Go 1)].

Definition second : Z := 1000000000.

(** It exceeds its time limit of 300 seconds and is retried on the second worker;
    then the first execution fails, and its report is on the way. *)
Definition demoLate : list CAct :=
  [CNode (NTick (TimeoutTick (400 * second) (fun _ => mkFailEnv (400 * second) (mkRetryEnv (400 * second) 7 0)) [("a", 1%positive)]));
   CNode (NTick (RetryTick (500 * second)));
   CRound 2 demoEnv; CRecv 2; CWork 2 TakeTask; CWork 2 Acquire; CWork 2 (Go 1);
   CCall 1 1 (demoOs "" (Some (ExitError 1 "exit status 1"))) 103 (600 * second)].

Definition demoCluster : Cluster MemoryStore := mkCluster demoStart ∅.

(** The cluster after a run, when it can be taken. *)
Definition after (acts : list CAct) : Cluster MemoryStore := default demoCluster (clusterEval (fun _ => "") acts demoCluster).

Lemma after_run acts :
  is_Some (clusterEval (fun _ => "") acts demoCluster) -> clusterRun (fun _ => "") acts demoCluster (after acts).
Proof. intros [c E]. apply clusterEval_run. unfold after. by rewrite E. Qed.

Ltac run_after := apply after_run; eexists; vm_compute; reflexivity.

Lemma cluster_executes_what_was_sent_witness :
  exists l, cLinks (after demoDispatch) !! 1%positive = Some l /\ lkSent l = received (lkProc l) ++ lkWire l /\
    executing (lkProc l) <> [] /\ (length (executing (lkProc l)) <= 16)%nat.
Proof.
  assert (is_Some (cLinks (after demoDispatch) !! 1%positive)) as [l Hl] by (eexists; vm_compute; reflexivity).
  destruct (cluster_executes_what_was_sent (fun _ => "") demoCfg (Some NewMemoryStore) (Some NewBus) demoDispatch
    (after demoDispatch) 1 l) as (H1 & _ & H3 & _); [run_after|exact Hl|].
  exists l. split; [exact Hl|]. split; [exact H1|].
  assert (executing (lkProc l) <> [] /\ lkCap l = 16%nat) as [He Hc]
    by (vm_compute in Hl; injection Hl as <-; vm_compute; by split).
  split; [exact He|]. by rewrite Hc in H3.
Defined.


