(* ===== verification/Router.v ===== *)
(** * The master's HTTP interface: the routes of [startHTTP]

    The routing table of [internal/master/master.go] with the patterns as the code
    writes them, the matching of [http.ServeMux] (literal segments before wildcards
    before trailing slashes, GET also for HEAD, redirects, 404 and 405), and
    [serve], the whole mux: a request goes to the handler of [Master] or [Lifecycle]
    that its pattern names.  Prometheus, pprof and the embedded dashboard are handed
    off; an upgraded WebSocket subscribes to the node's bus here, and its write loop
    is [WebSocket]'s. *)

From Stdlib Require Import Ascii.
From stdpp Require Import pretty.
From S2P Require Import Prelude GoTime Task Scheduler SchedulerFacts SchedulerProps CircuitBreaker Config Store Events.
From S2P Require Import NodeServer NodeFacts Master MasterFacts NodeTrace Lifecycle.

Open Scope string_scope.
Open Scope list_scope.
Open Scope Z_scope.

(** ** Patterns *)

Inductive Seg := Lit (s : string) | Wild (name : string) | Multi.

#[export] Instance Seg_eq_dec : EqDecision Seg.
Proof. solve_decision. Defined.

Definition slash : ascii := "/"%char.

(** The text up to the first [c], and the rest from it on. *)
Fixpoint cut (c : ascii) (s : string) : string * string :=
  match s with
  | EmptyString => ("", "")
  | String a s' => if Ascii.eqb a c then ("", s) else let '(x, y) := cut c s' in (String a x, y)
  end.

Definition tailOf (s : string) : string := match s with String _ s' => s' | EmptyString => "" end.

Definition isEmpty (s : string) : bool := match s with EmptyString => true | _ => false end.

(** [/a/b/] into [a], [b] and a last [/] for the trailing slash. *)

Fixpoint segments (fuel : nat) (path : string) : list string :=
  match fuel with
  | O => []
  | S fuel =>
      if isEmpty path then []
      else if String.eqb path "/" then ["/"]
      else let '(seg, rest) := cut slash (tailOf path) in seg :: segments fuel rest
  end.

Definition splitPath (path : string) : list string := segments (S (String.length path)) path.

Definition parseSeg (s : string) : Seg :=
  match s with
  | String "{" rest => Wild (fst (cut "}"%char rest))
  | _ => if String.eqb s "/" then Multi else Lit s
  end.

Record Pattern := mkPattern { ptMethod : string; ptSegs : list Seg }.

(** [METHOD /path]. *)
Definition parsePattern (s : string) : Pattern :=
  let '(method, rest) := cut " "%char s in mkPattern method (parseSeg <$> splitPath (tailOf rest)).

(** ** The table *)

Inductive Endpoint :=
| EpHealthz | EpReadyz | EpMetrics | EpTask | EpStats | EpWorkers | EpTasks | EpDeadLetter | EpRetryDLQ
| EpSubmit | EpUpload | EpEvents | EpKill | EpTrip | EpReset | EpFail | EpBatch | EpDocs | EpDoc
| EpPprof (name : string) | EpDashboard.

#[export] Instance Endpoint_eq_dec : EqDecision Endpoint.
Proof. solve_decision. Defined.

Definition routeTable : list (string * Endpoint) := [
  ("GET /healthz", EpHealthz);
  ("GET /readyz", EpReadyz);
  ("GET /metrics", EpMetrics);
  ("POST /tasks", EpTask);
  ("GET /api/v1/stats", EpStats);
  ("GET /api/v1/workers", EpWorkers);
  ("GET /api/v1/tasks", EpTasks);
  ("GET /api/v1/dead-letter", EpDeadLetter);
  ("POST /api/v1/dead-letter/{id}/retry", EpRetryDLQ);
  ("POST /api/v1/submit", EpSubmit);
  ("POST /api/v1/upload", EpUpload);
  ("GET /api/v1/events", EpEvents);
  ("POST /api/v1/chaos/kill-worker/{id}", EpKill);
  ("POST /api/v1/chaos/trip-cb/{id}", EpTrip);
  ("POST /api/v1/chaos/reset-cb/{id}", EpReset);
  ("POST /api/v1/chaos/fail-tasks", EpFail);
  ("POST /api/v1/batch-submit", EpBatch);
  ("GET /api/v1/docs", EpDocs);
  ("GET /api/v1/docs/{name}", EpDoc);
  ("GET /debug/pprof/", EpPprof "index");
  ("GET /debug/pprof/cmdline", EpPprof "cmdline");
  ("GET /debug/pprof/profile", EpPprof "profile");
  ("GET /debug/pprof/symbol", EpPprof "symbol");
  ("GET /debug/pprof/trace", EpPprof "trace");
  ("GET /", EpDashboard)].

Record Route := mkRoute { rtPattern : Pattern; rtEndpoint : Endpoint }.

Definition routes : list Route := (fun '(s, e) => mkRoute (parsePattern s) e) <$> routeTable.

(** ** Matching *)

(** A pattern against the segments of a path: what the documentation says. *)

Fixpoint matchSegs (p : list Seg) (path : list string) : bool :=
  match p, path with
  | [], [] => true
  | Lit s :: p, x :: path => String.eqb s x && matchSegs p path
  | Wild _ :: p, x :: path => negb (String.eqb x "/") && matchSegs p path
  | Multi :: _, _ :: _ => true
  | _, _ => false
  end.

Definition matchMethod (method requested : string) : bool :=
  String.eqb method requested || String.eqb method "GET" && String.eqb requested "HEAD".

Definition matchRoute (method : string) (path : list string) (r : Route) : bool :=
  matchMethod (ptMethod (rtPattern r)) method && matchSegs (ptSegs (rtPattern r)) path.

(** The search in the routing tree: the routes of a node with what is left of
    their patterns; the children of a literal, of a wildcard, and the trailing slash. *)

Section search.
Context {A : Type}.

Definition litChildren (x : string) (rs : list (list Seg * A)) : list (list Seg * A) :=
  omap (fun '(p, r) => match p with Lit s :: p => if String.eqb s x then Some (p, r) else None | _ => None end) rs.

Definition wildChildren (rs : list (list Seg * A)) : list (list Seg * A) :=
  omap (fun '(p, r) => match p with Wild _ :: p => Some (p, r) | _ => None end) rs.

Definition multiChild (rs : list (list Seg * A)) : option A :=
  head (omap (fun '(p, r) => match p with Multi :: _ => Some r | _ => None end) rs).

Definition leaf (rs : list (list Seg * A)) : option A :=
  head (omap (fun '(p, r) => match p with [] => Some r | _ => None end) rs).

(** The route and the values of its wildcards. *)

Fixpoint matchPath (rs : list (list Seg * A)) (path : list string) : option (A * list string) :=
  match path with
  | [] => r ← leaf rs; Some (r, [])
  | x :: path =>
      match matchPath (litChildren x rs) path with
      | Some r => Some r
      | None =>
          match (if String.eqb x "/" then None else matchPath (wildChildren rs) path) with
          | Some (r, vs) => Some (r, x :: vs)
          | None => r ← multiChild rs; Some (r, [])
          end
      end
  end.

End search.

Definition ofMethod (method : string) (rs : list Route) : list (list Seg * Route) :=
  omap (fun r => if String.eqb (ptMethod (rtPattern r)) method then Some (ptSegs (rtPattern r), r) else None) rs.

Definition matchMethodAndPath (rs : list Route) (method : string) (path : list string) : option (Route * list string) :=
  match matchPath (ofMethod method rs) path with
  | Some r => Some r
  | None => if String.eqb method "HEAD" then matchPath (ofMethod "GET" rs) path else None
  end.

Example match1 : matchMethodAndPath routes "POST" (splitPath "/api/v1/dead-letter/t-1/retry") =
  Some (mkRoute (parsePattern "POST /api/v1/dead-letter/{id}/retry") EpRetryDLQ, ["t-1"]).
Proof. vm_compute. reflexivity. Qed.

Example match2 : rtEndpoint ∘ fst <$> matchMethodAndPath routes "HEAD" (splitPath "/debug/pprof/heap") = Some (EpPprof "index").
Proof. vm_compute. reflexivity. Qed.

(** ** From a request to its handler *)

(** [url.PathUnescape], and the text itself when it is malformed. *)

Definition unhex (c : ascii) : option nat :=
  let n := nat_of_ascii c in
  if Nat.leb 48 n && Nat.leb n 57 then Some (n - 48)%nat
  else if Nat.leb 97 n && Nat.leb n 102 then Some (n - 87)%nat
  else if Nat.leb 65 n && Nat.leb n 70 then Some (n - 55)%nat
  else None.

Fixpoint unescape (s : string) : option string :=
  match s with
  | EmptyString => Some ""
  | String "%" (String a (String b s)) =>
      x ← unhex a; y ← unhex b; rest ← unescape s; Some (String (ascii_of_nat (16 * x + y)) rest)
  | String "%" _ => None
  | String a s => rest ← unescape s; Some (String a rest)
  end.

Definition pathUnescape (s : string) : string := default s (unescape s).

(** [cleanPath]: no empty, [.] and [..] segments; the trailing slash stays. *)

Fixpoint cleanSegs (segs : list string) (acc : list string) : list string :=
  match segs with
  | [] => rev acc
  | x :: segs =>
      if String.eqb x "" || String.eqb x "." || String.eqb x "/" then cleanSegs segs acc
      else if String.eqb x ".." then cleanSegs segs (tail acc)
      else cleanSegs segs (x :: acc)
  end.

(** [strings.HasSuffix] with a slash. *)
Fixpoint endsSlash (s : string) : bool :=
  match s with EmptyString => false | String a EmptyString => Ascii.eqb a slash | String _ s => endsSlash s end.

Definition joinSegs (segs : list string) : string := foldr (fun x s => "/" +:+ x +:+ s) "" segs.

Definition cleanPath (path : string) : string :=
  if String.eqb path "" then "/"
  else
    let path := if String.eqb (String.substring 0 1 path) "/" then path else "/" +:+ path in
    let np := joinSegs (cleanSegs (splitPath path) []) in
    if String.eqb np "" then "/" else if endsSlash path then np +:+ "/" else np.

Definition isMulti (p : Pattern) : bool := match last (ptSegs p) with Some Multi => true | _ => false end.

Fixpoint countSlashes (s : string) : nat :=
  match s with EmptyString => O | String a s => (if Ascii.eqb a slash then S else id) (countSlashes s) end.

Definition exactMatch (m : option (Route * list string)) (path : string) : bool :=
  match m with
  | None => false
  | Some (r, _) =>
      if negb (isMulti (rtPattern r)) then true
      else endsSlash path && Nat.eqb (length (ptSegs (rtPattern r))) (countSlashes path)
  end.

Inductive Handler := Found (r : Route) (values : list string) | Redirect (path : string) | MethodNotAllowed | NotFound.

Definition lookup (method path : string) : option (Route * list string) :=
  matchMethodAndPath routes method (pathUnescape <$> splitPath path).

(** [ServeMux.findHandler] for a request whose [EscapedPath] is given. A redirect's
    target is the path before [URL.String] escapes it; CONNECT is left out. *)

Definition findHandler (method escapedPath : string) : Handler :=
  let path := cleanPath escapedPath in
  let m := lookup method path in
  if negb (exactMatch m path) && negb (endsSlash path) && exactMatch (lookup method (path +:+ "/")) (path +:+ "/")
  then Redirect (path +:+ "/")
  else if negb (String.eqb path escapedPath) then Redirect path
  else
    match m with
    | Some (r, values) => Found r values
    | None =>
        if existsb (fun r => matchSegs (ptSegs (rtPattern r)) (pathUnescape <$> splitPath path)) routes
        then MethodNotAllowed else NotFound
    end.

Example find1 : findHandler "POST" "/nowhere" = MethodNotAllowed /\ findHandler "GET" "/debug/pprof" = Redirect "/debug/pprof/" /\
  findHandler "POST" "/api//v1/./submit" = Redirect "/api/v1/submit" /\
  findHandler "GET" "/api/v1/docs/..%2Fx" = Found (mkRoute (parsePattern "GET /api/v1/docs/{name}") EpDoc) ["../x"].
Proof. vm_compute. repeat split. Qed.

(** [r.PathValue]: the value under a wildcard's name, or the empty string. *)

Definition wildNames (p : Pattern) : list string :=
  omap (fun s => match s with Wild name => Some name | _ => None end) (ptSegs p).

Definition PathValue (name : string) (r : Route) (values : list string) : string :=
  default "" (snd <$> head (filter (fun nv => fst nv = name) (zip (wildNames (rtPattern r)) values))).

(** ** The server *)

(** A request, its body decoded for each handler that reads one. *)

Record Request := mkRequest {
  rqMethod : string; rqPath : string; rqDir : string; rqSubmit : result submitRequest; rqUpload : Upload;
  rqFail : result failRequest; rqBatch : result batchRequest
}.

(** The outside of a handler: clocks, new locations, map orders, directories, the
    embedded documents, formats and float arithmetic; the error of the upgrade of a
    WebSocket. *)

Record HttpEnv (F : Type) := mkHttpEnv {
  heNow : Time; heEnd : Time; hePub : PubEnv; heLoop : nat -> LoopEnv;
  heJoin : string -> string -> string; heFiles : result (list (string * bool));
  heWorkers : list string; heTasks : list (string * loc);
  heReadFile : string -> option string; heFormat : Time -> string; heSeconds : Duration -> Z;
  heZero : F; hePercent : Z -> Z -> F; heUpgrade : error
}.
Arguments mkHttpEnv {F}. Arguments heNow {F}. Arguments heEnd {F}. Arguments hePub {F}. Arguments heLoop {F}.
Arguments heJoin {F}. Arguments heFiles {F}. Arguments heWorkers {F}. Arguments heTasks {F}.
Arguments heReadFile {F}. Arguments heFormat {F}. Arguments heSeconds {F}. Arguments heZero {F}. Arguments hePercent {F}.
Arguments heUpgrade {F}.

Inductive Body (F : Type) :=
| BText (s : string) | BFields (l : list (string * string)) | BStats (s : statsJSON F)
| BWorkers (l : list workerJSON) | BTasks (l : list taskJSON) | BDeadLetter (l : list dlqJSON)
| BDocs (l : list (string * string * string)).
Arguments BText {F}. Arguments BFields {F}. Arguments BStats {F}. Arguments BWorkers {F}.
Arguments BTasks {F}. Arguments BDeadLetter {F}. Arguments BDocs {F}.

(** What the client gets: a response, a redirect, or what the code of another
    package makes of the request. *)

Inductive Answer (F : Type) := Answered (r : Response (Body F)) | Redirected (path : string) | HandedOff (e : Endpoint).
Arguments Answered {F}. Arguments Redirected {F}. Arguments HandedOff {F}.

Definition StatusMethodNotAllowed : Z := 405.

Definition mapBody {B C} (f : B -> C) (r : Response B) : Response C := mkResponse (rsStatus r) (f (rsBody r)).

Section serve.
Context {S F : Type} `{TaskStore S}.

Definition text (x : Node S * Response string) : Node S * Answer F := (fst x, Answered (mapBody BText (snd x))).
Definition reads {B} (f : B -> Body F) (n : Node S) (r : Response B) : Node S * Answer F := (n, Answered (mapBody f r)).

(** [handleWebSocket] up to its write loop. *)
Definition handleWebSocket (upgrade : error) (n : Node S) : Node S :=
  match upgrade, nBus n with
  | None, Some b => n <| nBus := Some (fst (Subscribe b)) |>
  | _, _ => n
  end.

Definition serveRoute (env : HttpEnv F) (hc : Checker) (req : Request) (r : Route) (values : list string) (n : Node S)
    : Node S * Answer F :=
  let id := PathValue "id" r values in
  match rtEndpoint r with
  | EpHealthz => reads BFields n (LivenessHandler hc)
  | EpReadyz => reads BFields n (ReadinessHandler hc)
  | EpTask => text (handleTask (heJoin env) (rqDir req) (heFiles env) (heLoop env) n)
  | EpStats => reads BStats n (handleStats (heZero env) (hePercent env) (heWorkers env) n)
  | EpWorkers => reads BWorkers n (handleWorkers (heFormat env) (heSeconds env) (heNow env) (heWorkers env) n)
  | EpTasks => reads BTasks n (handleTasks (heFormat env) (heTasks env) n)
  | EpDeadLetter => reads BDeadLetter n (handleDeadLetter (heFormat env) n)
  | EpRetryDLQ => text (handleRetryDLQ id n)
  | EpSubmit => text (handleSubmit (heLoop env 0%nat) (rqSubmit req) n)
  | EpUpload => text (handleUpload (heLoop env 0%nat) (rqUpload req) n)
  | EpKill => text (handleChaosKillWorker (hePub env) id n)
  | EpTrip => text (handleChaosTripCB (heNow env) (hePub env) id n)
  | EpReset => text (handleChaosResetCB (hePub env) id n)
  | EpFail => text (handleChaosFailTasks (heLoop env) (hePub env) (rqFail req) n)
  | EpBatch => text (handleBatchSubmit (heNow env) (heEnd env) (heLoop env) (hePub env) (rqBatch req) n)
  | EpDocs => reads BDocs n handleDocsList
  | EpDoc => reads BText n (handleDocContent (heReadFile env) (PathValue "name" r values))
  | EpEvents => (handleWebSocket (heUpgrade env) n, HandedOff EpEvents)
  | (EpMetrics | EpPprof _ | EpDashboard) as e => (n, HandedOff e)
  end.

Definition serve (env : HttpEnv F) (hc : Checker) (req : Request) (n : Node S) : Node S * Answer F :=
  match findHandler (rqMethod req) (rqPath req) with
  | Found r values => serveRoute env hc req r values n
  | Redirect path => (n, Redirected path)
  | MethodNotAllowed => (n, Answered (mkResponse StatusMethodNotAllowed (BText "Method Not Allowed")))
  | NotFound => (n, Answered (mkResponse StatusNotFound (BText "404 page not found")))
  end.

End serve.

(** ** Lemmas: the search *)

(** [p] comes before [q] in the search. *)
Fixpoint prefers (p q : list Seg) : Prop :=
  match p, q with
  | Lit _ :: p, Lit _ :: q | Wild _ :: p, Wild _ :: q => prefers p q
  | Lit _ :: _, (Wild _ | Multi) :: _ | Wild _ :: _, Multi :: _ | Multi :: _, Multi :: _ | [], [] => True
  | _, _ => False
  end.

Section search_facts.
Context {A : Type}.
Implicit Types (rs : list (list Seg * A)) (path : list string).

Lemma litChildren_elem x rs p r : (p, r) ∈ litChildren x rs <-> (Lit x :: p, r) ∈ rs.
Proof.
  unfold litChildren. rewrite list_elem_of_omap. split.
  - intros ([[|[s| |] q] r'] & Hin & E); try discriminate.
    destruct (String.eqb_spec s x) as [->|]; [|discriminate]. by injection E as <- <-.
  - intros Hin. exists (Lit x :: p, r). by rewrite String.eqb_refl.
Qed.

Lemma wildChildren_elem rs p r : (p, r) ∈ wildChildren rs <-> exists name, (Wild name :: p, r) ∈ rs.
Proof.
  unfold wildChildren. rewrite list_elem_of_omap. split.
  - intros ([[|[|name|] q] r'] & Hin & E); try discriminate. injection E as <- <-. eauto.
  - intros [name Hin]. by exists (Wild name :: p, r).
Qed.

Lemma head_omap {B C} (f : B -> option C) (xs : list B) :
  match head (omap f xs) with
  | Some y => exists x, x ∈ xs /\ f x = Some y
  | None => forall x, x ∈ xs -> f x = None
  end.
Proof.
  induction xs as [|x xs IH]; cbn; [by intros x Hx%elem_of_nil|].
  destruct (f x) as [y|] eqn:E; cbn; [exists x; split; [by left|done]|].
  destruct (head (omap f xs)) as [y|].
  - destruct IH as (z & Hz & Ez). exists z. split; [by right|done].
  - intros z [->|Hz]%elem_of_cons; auto.
Qed.

Lemma matchPath_spec rs path :
  match matchPath rs path with
  | Some (r, _) => exists p, (p, r) ∈ rs /\ matchSegs p path = true /\
      forall q r', (q, r') ∈ rs -> matchSegs q path = true -> prefers p q
  | None => forall q r', (q, r') ∈ rs -> matchSegs q path = false
  end.
Proof.
  revert rs. induction path as [|x path IH]; intros rs; cbn [matchPath].
  { unfold leaf. pose proof (head_omap (fun '(p, r) => match p with [] => Some r | _ => None end) rs) as Hh.
    destruct (head _) as [r|]; cbn [mbind option_bind].
    - destruct Hh as ([[|s p] r'] & Hin & E); [|discriminate]. injection E as <-. exists [].
      split; [done|]. split; [done|]. by intros [|[]] r'' _.
    - intros q r' Hin. specialize (Hh _ Hin). by destruct q as [|[]]. }
  pose proof (IH (litChildren x rs)) as HL. pose proof (IH (wildChildren rs)) as HW. clear IH.
  destruct (matchPath (litChildren x rs) path) as [[r vs]|].
  { destruct HL as (p & Hin & Hm & Hp). apply litChildren_elem in Hin. exists (Lit x :: p). split; [done|].
    cbn [matchSegs]. rewrite String.eqb_refl. split; [done|]. intros [|[s|name|] q] r' Hq; cbn; try done.
    intros [->%String.eqb_eq Hq']%andb_prop. apply (Hp q r'); [by apply litChildren_elem|done]. }
  assert (forall s q r', (Lit s :: q, r') ∈ rs -> matchSegs (Lit s :: q) (x :: path) = false) as HL'.
  { intros s q r' Hq. cbn. destruct (String.eqb_spec s x) as [->|]; [|done]. by apply (HL q r'), litChildren_elem. }
  destruct (if String.eqb x "/" then None else matchPath (wildChildren rs) path) as [[r vs]|] eqn:E.
  { destruct (String.eqb_spec x "/") as [|Hx]; [done|]. rewrite E in HW. destruct HW as (p & Hin & Hm & Hp).
    apply wildChildren_elem in Hin as [name Hin]. exists (Wild name :: p). split; [done|]. cbn [matchSegs].
    rewrite (proj2 (String.eqb_neq x "/") Hx). split; [done|]. intros [|[s|name'|] q] r' Hq; try done.
    - by rewrite (HL' _ _ _ Hq).
    - cbn. rewrite (proj2 (String.eqb_neq x "/") Hx). intros Hm'. apply (Hp q r'); [|done].
      apply wildChildren_elem. eauto. }
  assert (forall s q r', (Wild s :: q, r') ∈ rs -> matchSegs (Wild s :: q) (x :: path) = false) as HW'.
  { intros s q r' Hq. cbn. destruct (String.eqb x "/"); [done|]. rewrite E in HW. cbn.
    apply (HW q r'), wildChildren_elem. eauto. }
  unfold multiChild. pose proof (head_omap (fun '(p, r) => match p with Multi :: _ => Some r | _ => None end) rs) as Hh.
  destruct (head _) as [r|]; cbn [mbind option_bind].
  - destruct Hh as ([[|[| |] p] r'] & Hin & Er); try discriminate. injection Er as <-. exists (Multi :: p).
    split; [done|]. split; [done|]. intros [|[s|name|] q] r'' Hq; try done.
    + by rewrite (HL' _ _ _ Hq).
    + by rewrite (HW' _ _ _ Hq).
  - intros [|[s|name|] q] r' Hq; [done|by eapply HL'|by eapply HW'|]. by specialize (Hh _ Hq).
Qed.

End search_facts.

(** ** Lemmas: how patterns relate *)

(** Every path of [p] is one of [q]; no path is one of both. *)

Fixpoint below (p q : list Seg) : bool :=
  match p, q with
  | _ :: _, Multi :: _ => true
  | Lit s :: p, Lit t :: q => String.eqb s t && below p q
  | Lit s :: p, Wild _ :: q => negb (String.eqb s "/") && below p q
  | Wild _ :: p, Wild _ :: q => below p q
  | [], [] => true
  | _, _ => false
  end.

Fixpoint apart (p q : list Seg) : bool :=
  match p, q with
  | Lit s :: p, Lit t :: q => negb (String.eqb s t) || apart p q
  | Lit s :: p, Wild _ :: q | Wild _ :: p, Lit s :: q => String.eqb s "/" || apart p q
  | Wild _ :: p, Wild _ :: q => apart p q
  | Multi :: _, _ :: _ | _ :: _, Multi :: _ | [], [] => false
  | _, _ => true
  end.

Lemma below_sound p q path : below p q = true -> matchSegs p path = true -> matchSegs q path = true.
Proof.
  revert q path. induction p as [|[s|name|] p IH]; intros [|[t|name'|] q] [|x path]; cbn; try done.
  - intros [->%String.eqb_eq H1]%andb_prop [-> H2]%andb_prop. cbn. eauto.
  - intros [Hs H1]%andb_prop [->%String.eqb_eq H2]%andb_prop. rewrite Hs. cbn. eauto.
  - intros H1 [-> H2]%andb_prop. cbn. eauto.
Qed.

Lemma apart_sound p q path : apart p q = true -> matchSegs p path = true -> matchSegs q path = false.
Proof.
  revert q path. induction p as [|[s|name|] p IH]; intros [|[t|name'|] q] [|x path]; cbn; try done.
  - intros Ha [->%String.eqb_eq H2]%andb_prop. destruct (String.eqb_spec t x) as [->|]; [|done].
    rewrite String.eqb_refl in Ha. cbn in *. eauto.
  - intros Ha [->%String.eqb_eq H2]%andb_prop. destruct (String.eqb x "/"); [done|]. cbn in *. eauto.
  - intros Ha [Hx H2]%andb_prop. destruct (String.eqb_spec t x) as [->|]; [|done].
    destruct (String.eqb x "/"); [done|]. cbn in *. eauto.
  - intros Ha [-> H2]%andb_prop. cbn. eauto.
Qed.

Lemma prefers_below p q : prefers p q -> below q p = true -> below p q = true.
Proof.
  revert q. induction p as [|[s|name|] p IH]; intros [|[t|name'|] q]; cbn; try done.
  - intros Hp [->%String.eqb_eq Hb]%andb_prop. rewrite String.eqb_refl. cbn. auto.
  - auto.
Qed.

(** The registration of a pattern panics when another one of the method matches
    some of its requests and neither is the more specific one. *)

Definition conflicts (r r' : Route) : bool :=
  String.eqb (ptMethod (rtPattern r)) (ptMethod (rtPattern r')) &&
  negb (apart (ptSegs (rtPattern r)) (ptSegs (rtPattern r'))) &&
  Bool.eqb (below (ptSegs (rtPattern r)) (ptSegs (rtPattern r'))) (below (ptSegs (rtPattern r')) (ptSegs (rtPattern r))).

(** [mux.HandleFunc] for each of the patterns; [None] is the panic. *)
Fixpoint register (rs : list Route) (mux : list Route) : option (list Route) :=
  match rs with
  | [] => Some mux
  | r :: rs => if existsb (conflicts r) mux then None else register rs (mux ++ [r])
  end.

(** In the table any two patterns of a method are nested or disjoint. *)

Definition nested (p q : list Seg) : bool := below p q || below q p || apart p q.

Lemma routes_nested :
  forallb (fun r => forallb (fun r' => nested (ptSegs (rtPattern r)) (ptSegs (rtPattern r'))) (filter
    (fun r' => ptMethod (rtPattern r') = ptMethod (rtPattern r)) routes)) routes = true.
Proof. vm_compute. reflexivity. Qed.

Lemma ofMethod_elem method rs p r :
  (p, r) ∈ ofMethod method rs <-> r ∈ rs /\ p = ptSegs (rtPattern r) /\ ptMethod (rtPattern r) = method.
Proof.
  unfold ofMethod. rewrite list_elem_of_omap. split.
  - intros (r' & Hin & E). destruct (String.eqb_spec (ptMethod (rtPattern r')) method); [|discriminate].
    by injection E as <- <-.
  - intros (Hin & -> & <-). exists r. by rewrite String.eqb_refl.
Qed.

Lemma matchMethodAndPath_spec rs method path :
  Forall (fun r => ptMethod (rtPattern r) <> "HEAD") rs ->
  match matchMethodAndPath rs method path with
  | Some (r, _) => r ∈ rs /\ matchRoute method path r = true /\
      forall r', r' ∈ rs -> matchRoute method path r' = true ->
        ptMethod (rtPattern r') = ptMethod (rtPattern r) /\ prefers (ptSegs (rtPattern r)) (ptSegs (rtPattern r'))
  | None => forall r, r ∈ rs -> matchRoute method path r = false
  end.
Proof.
  intros Hh. rewrite Forall_forall in Hh.
  assert (forall m, (forall r, r ∈ rs -> matchMethod (ptMethod (rtPattern r)) method = String.eqb (ptMethod (rtPattern r)) m) ->
    match matchPath (ofMethod m rs) path with
    | Some (r, _) => r ∈ rs /\ matchRoute method path r = true /\
        forall r', r' ∈ rs -> matchRoute method path r' = true ->
          ptMethod (rtPattern r') = ptMethod (rtPattern r) /\ prefers (ptSegs (rtPattern r)) (ptSegs (rtPattern r'))
    | None => forall r, r ∈ rs -> matchRoute method path r = false
    end) as Hm.
  { intros m Hm. pose proof (matchPath_spec (ofMethod m rs) path) as Hs. unfold matchRoute.
    destruct (matchPath (ofMethod m rs) path) as [[r vs]|].
    - destruct Hs as (p & (Hin & -> & Em)%ofMethod_elem & Hp & Hbest). split; [done|].
      rewrite Hm, Em, String.eqb_refl, Hp by done. split; [done|]. intros r' Hin'. rewrite Hm by done.
      intros [Em'%String.eqb_eq Hp']%andb_prop. split; [done|]. apply (Hbest _ r'); [|done]. by apply ofMethod_elem.
    - intros r Hin. rewrite Hm by done. destruct (String.eqb_spec (ptMethod (rtPattern r)) m) as [Em|]; [|done].
      apply (Hs _ r). by apply ofMethod_elem. }
  unfold matchMethodAndPath. destruct (String.eqb_spec method "HEAD") as [->|Hne].
  - assert (ofMethod "HEAD" rs = []) as ->.
    { destruct (ofMethod "HEAD" rs) as [|[p r] l] eqn:E; [done|].
      assert ((p, r) ∈ ofMethod "HEAD" rs) as (Hin & _ & Em)%ofMethod_elem by (rewrite E; by left).
      destruct (Hh r Hin Em). }
    assert (matchPath (A := Route) [] path = None) as ->.
    { pose proof (matchPath_spec (A := Route) [] path) as Hs. destruct (matchPath [] path) as [[r vs]|]; [|done].
      destruct Hs as (p & Hin & _). by apply elem_of_nil in Hin. }
    apply (Hm "GET"). intros r Hin. unfold matchMethod. rewrite (proj2 (String.eqb_neq _ _) (Hh r Hin)).
    by rewrite andb_true_r.
  - specialize (Hm method). destruct (matchPath (ofMethod method rs) path) as [[r vs]|]; apply Hm; intros r' _;
      unfold matchMethod; by rewrite (proj2 (String.eqb_neq method "HEAD") Hne), andb_false_r, orb_false_r.
Qed.

Lemma routes_no_head : Forall (fun r => ptMethod (rtPattern r) <> "HEAD") routes.
Proof. apply (bool_decide_unpack _). vm_compute. exact I. Qed.

(** ** Properties of the routing *)

(** The routing table is registered without a panic, and the search
    agrees with the rule that the documentation gives: a request goes to the one
    pattern of the table that matches it and is more specific than every other one
    that does, and to none exactly when none matches. *)
Theorem mux_picks_most_specific method path :
  register routes [] = Some routes /\
  match matchMethodAndPath routes method path with
  | Some (r, _) => r ∈ routes /\ matchRoute method path r = true /\
      forall r', r' ∈ routes -> matchRoute method path r' = true ->
        forall m path', matchRoute m path' r = true -> matchRoute m path' r' = true
  | None => forall r, r ∈ routes -> matchRoute method path r = false
  end.
Proof.
  split; [vm_compute; reflexivity|].
  pose proof (matchMethodAndPath_spec routes method path routes_no_head) as Hs.
  destruct (matchMethodAndPath routes method path) as [[r vs]|]; [|done].
  destruct Hs as (Hin & Hm & Hbest). split; [done|]. split; [done|]. intros r' Hin' Hm' m path'.
  destruct (Hbest r' Hin' Hm') as [Em Hp]. unfold matchRoute in *. rewrite Em.
  intros [Hmm Hpath]%andb_prop. rewrite Hmm. cbn. apply (below_sound (ptSegs (rtPattern r))); [|done].
  apply andb_prop in Hm as [_ Hm], Hm' as [_ Hm'].
  assert (nested (ptSegs (rtPattern r)) (ptSegs (rtPattern r')) = true) as Hn.
  { pose proof routes_nested as Hall. rewrite forallb_forall in Hall. specialize (Hall r).
    rewrite forallb_forall in Hall. apply Hall; apply list_elem_of_In; [done|]. by apply list_elem_of_filter. }
  unfold nested in Hn. apply orb_prop in Hn as [[Hb|Hb]%orb_prop|Ha]; [done|by apply prefers_below|].
  by rewrite (apart_sound _ _ _ Ha Hm) in Hm'.
Qed.

(** ** Lemmas: paths *)

(** A clean segment: a name without slashes that is not [.] or [..]. *)

Fixpoint noSlash (s : string) : bool :=
  match s with EmptyString => true | String a s => negb (Ascii.eqb a slash) && noSlash s end.

Definition cleanSeg (s : string) : Prop := s <> "" /\ noSlash s = true /\ s <> "." /\ s <> "..".

Lemma cut_noSlash s : noSlash (fst (cut slash s)) = true.
Proof.
  induction s as [|a s IH]; cbn; [done|]. destruct (Ascii.eqb a slash) eqn:E; [done|].
  destruct (cut slash s) as [x y]. cbn in *. by rewrite E, IH.
Qed.

Lemma segments_elem fuel path x : x ∈ segments fuel path -> x = "/" \/ noSlash x = true.
Proof.
  revert path. induction fuel as [|fuel IH]; intros path; cbn; [by intros ?%elem_of_nil|].
  destruct (isEmpty path); [by intros ?%elem_of_nil|]. destruct (String.eqb path "/").
  { intros ->%list_elem_of_singleton. by left. }
  pose proof (cut_noSlash (tailOf path)) as Hc. destruct (cut slash (tailOf path)) as [seg rest]. cbn in Hc.
  intros [->|Hin]%elem_of_cons; [by right|eauto].
Qed.

Lemma cleanSegs_clean segs acc :
  (forall x, x ∈ segs -> x = "/" \/ noSlash x = true) -> Forall cleanSeg acc -> Forall cleanSeg (cleanSegs segs acc).
Proof.
  revert acc. induction segs as [|x segs IH]; intros acc Hs Ha; cbn [cleanSegs]; [by apply Forall_rev|].
  assert (forall y, y ∈ segs -> y = "/" \/ noSlash y = true) as Hs' by (intros y Hy; apply Hs; by right).
  destruct (String.eqb_spec x "") as [|H1], (String.eqb_spec x ".") as [|H2], (String.eqb_spec x "/") as [|H3];
    cbn [orb]; auto.
  destruct (String.eqb_spec x "..") as [|H4]; apply IH; auto.
  - destruct acc; [done|]. by apply Forall_cons in Ha as [_ Ha].
  - constructor; [|done]. destruct (Hs x) as [|Hx]; [by left|done|]. by split_and!.
Qed.

Lemma cleanSegs_id segs acc : Forall cleanSeg segs -> cleanSegs segs acc = rev acc ++ segs.
Proof.
  revert acc. induction segs as [|x segs IH]; intros acc; cbn [cleanSegs]; [by rewrite app_nil_r|].
  intros [(H1 & H2 & H3 & H4) Hs]%Forall_cons.
  rewrite (proj2 (String.eqb_neq _ _) H1), (proj2 (String.eqb_neq _ _) H3), (proj2 (String.eqb_neq _ _) H4).
  assert (String.eqb x "/" = false) as -> by (apply String.eqb_neq; by intros ->). cbn [orb].
  rewrite IH by done. cbn [rev]. by rewrite <- app_assoc.
Qed.

Lemma cut_seg x s :
  noSlash x = true -> cut slash (x +:+ String slash s) = (x, String slash s) /\ cut slash x = (x, "").
Proof.
  induction x as [|a x IH]; [done|]. cbn [noSlash]. intros [Ha Hx]%andb_prop. apply negb_true_iff in Ha.
  change (String a x +:+ String slash s) with (String a (x +:+ String slash s)). cbn [cut]. rewrite Ha.
  by destruct (IH Hx) as [-> ->].
Qed.

Lemma str_app_nil (s : string) : s +:+ "" = s.
Proof. induction s as [|a s IH]; [done|]. exact (f_equal (String a) IH). Qed.

Lemma str_app_assoc (s t u : string) : (s +:+ t) +:+ u = s +:+ (t +:+ u).
Proof. induction s as [|a s IH]; [done|]. exact (f_equal (String a) IH). Qed.

(** The segments of a path built from clean ones, with or without a trailing slash. *)

Lemma segments_join fuel segs e :
  Forall cleanSeg segs -> e = "" \/ e = "/" -> (String.length (joinSegs segs +:+ e) < fuel)%nat ->
  segments fuel (joinSegs segs +:+ e) = segs ++ (if String.eqb e "" then [] else [e]).
Proof.
  intros Hs He. revert fuel. induction segs as [|x segs IH]; intros fuel Hf.
  - cbn in Hf |- *. destruct fuel as [|[|fuel]]; [lia|by destruct He as [->| ->]; cbn in *; try lia|].
    by destruct He as [->| ->].
  - apply Forall_cons in Hs as [(H1 & H2 & _) Hs].
    assert (joinSegs (x :: segs) +:+ e = String slash (x +:+ (joinSegs segs +:+ e))) as Ej.
    { change (joinSegs (x :: segs)) with (String slash (x +:+ joinSegs segs)).
      change (String slash (x +:+ joinSegs segs) +:+ e) with (String slash ((x +:+ joinSegs segs) +:+ e)).
      by rewrite str_app_assoc. }
    rewrite Ej in *. cbn [String.length] in Hf. rewrite str_length_app in Hf.
    destruct fuel as [|fuel]; [lia|]. cbn [segments isEmpty].
    assert (String.eqb (String slash (x +:+ (joinSegs segs +:+ e))) "/" = false) as ->.
    { apply String.eqb_neq. intros [= Ex]. by destruct x. }
    cbn [tailOf].
    assert (cut slash (x +:+ (joinSegs segs +:+ e)) = (x, joinSegs segs +:+ e)) as ->.
    { destruct segs as [|y segs].
      - change (joinSegs [] +:+ e) with e. destruct He as [->| ->].
        + rewrite str_app_nil. by apply (cut_seg x "").
        + by apply (cut_seg x "").
      - change (joinSegs (y :: segs) +:+ e) with (String slash ((y +:+ joinSegs segs) +:+ e)). by apply cut_seg. }
    cbn [app]. f_equal. apply IH; [done|]. destruct x; [done|]. cbn [String.length] in Hf. lia.
Qed.

Lemma splitPath_join segs e :
  Forall cleanSeg segs -> e = "" \/ e = "/" ->
  splitPath (joinSegs segs +:+ e) = segs ++ (if String.eqb e "" then [] else [e]).
Proof. intros Hs He. apply segments_join; [done|done|lia]. Qed.

Lemma endsSlash_app s t : t <> "" -> endsSlash (s +:+ t) = endsSlash t.
Proof.
  intros Ht. induction s as [|a s IH]; [done|].
  change (String a s +:+ t) with (String a (s +:+ t)). rewrite <- IH. cbn [endsSlash].
  destruct (s +:+ t) eqn:E; [|done]. destruct s; [by cbn in E; subst|discriminate].
Qed.

Lemma noSlash_end x : noSlash x = true -> endsSlash x = false.
Proof.
  induction x as [|a x IH]; [done|]. cbn [noSlash]. intros [Ha Hx]%andb_prop. apply negb_true_iff in Ha.
  cbn [endsSlash]. destruct x; auto.
Qed.

Lemma joinSegs_end segs : Forall cleanSeg segs -> endsSlash (joinSegs segs) = false.
Proof.
  induction segs as [|x segs IH]; [done|]. intros [(H1 & H2 & _) Hs]%Forall_cons.
  change (joinSegs (x :: segs)) with ("/" +:+ (x +:+ joinSegs segs)).
  rewrite endsSlash_app by (by destruct x). destruct segs as [|y segs].
  - change (joinSegs []) with "". rewrite str_app_nil. by apply noSlash_end.
  - rewrite endsSlash_app by done. auto.
Qed.

(** Clean paths: the root, and names joined by slashes with or without one at the end. *)

Definition clean (path : string) : Prop :=
  path = "/" \/ exists segs e, segs <> [] /\ Forall cleanSeg segs /\ (e = "" \/ e = "/") /\ path = joinSegs segs +:+ e.

Lemma cleanPath_clean path : clean (cleanPath path).
Proof.
  unfold cleanPath. destruct (String.eqb path ""); [by left|].
  set (p := if String.eqb (String.substring 0 1 path) "/" then path else "/" +:+ path).
  assert (Forall cleanSeg (cleanSegs (splitPath p) [])) as Hc
    by (apply cleanSegs_clean; [intros x; apply segments_elem|constructor]).
  destruct (cleanSegs (splitPath p) []) as [|x segs] eqn:E; [by left|].
  change (String.eqb (joinSegs (x :: segs)) "") with false. cbv iota. right.
  exists (x :: segs), (if endsSlash p then "/" else ""). split; [done|]. split; [done|].
  destruct (endsSlash p); split; auto. by rewrite str_app_nil.
Qed.

Lemma cleanPath_rooted path s :
  path = String slash s ->
  cleanPath path =
    (let np := joinSegs (cleanSegs (splitPath path) []) in
     if String.eqb np "" then "/" else if endsSlash path then np +:+ "/" else np).
Proof.
  intros ->. assert (String.substring 0 1 (String slash s) = "/") as E by (cbn; by destruct s).
  unfold cleanPath. by rewrite E.
Qed.

Lemma cleanSegs_end segs e :
  Forall cleanSeg segs -> e = "" \/ e = "/" -> cleanSegs (segs ++ (if String.eqb e "" then [] else [e])) [] = segs.
Proof.
  intros Hs [->| ->]; [change (String.eqb "" "") with true; cbv iota; by rewrite app_nil_r, cleanSegs_id|].
  change (if String.eqb "/" "" then [] else ["/"]) with ["/"].
  assert (forall acc, cleanSegs (segs ++ ["/"]) acc = cleanSegs segs acc) as ->; [|by rewrite cleanSegs_id].
  clear Hs. induction segs as [|x segs IH]; intros acc; [done|]. cbn [app cleanSegs]. by rewrite !IH.
Qed.

Lemma cleanPath_id path : clean path -> cleanPath path = path.
Proof.
  intros [->|([|x segs] & e & Hne & Hs & He & ->)]; [done|done|].
  rewrite (cleanPath_rooted _ ((x +:+ joinSegs segs) +:+ e)) by done. cbv zeta.
  rewrite (splitPath_join _ _ Hs He), (cleanSegs_end _ _ Hs He).
  change (String.eqb (joinSegs (x :: segs)) "") with false. cbv iota.
  destruct He as [->| ->]; [|rewrite endsSlash_app by done; reflexivity].
  pose proof (joinSegs_end _ Hs) as He. revert He. rewrite str_app_nil. by intros ->.
Qed.

Lemma clean_slash path : clean path -> endsSlash path = false -> clean (path +:+ "/").
Proof.
  intros [->|(segs & e & Hne & Hs & [->| ->] & ->)] He; [done| |].
  - right. exists segs, "/". rewrite str_app_nil. split_and!; auto.
  - by rewrite endsSlash_app in He.
Qed.

(** A redirect is followed at most once: the path that the mux redirects
    to is clean, and a request for it is never redirected again. *)
Theorem redirects_end method path path' :
  findHandler method path = Redirect path' ->
  cleanPath path' = path' /\ forall path'', findHandler method path' <> Redirect path''.
Proof.
  unfold findHandler at 1. pose proof (cleanPath_clean path) as Hc.
  set (m := lookup method (cleanPath path)).
  destruct (negb (exactMatch m (cleanPath path)) && _ && _) eqn:E1.
  - intros [= <-]. apply andb_prop in E1 as [[_ Hs%negb_true_iff]%andb_prop _].
    pose proof (cleanPath_id _ (clean_slash _ Hc Hs)) as Ei. split; [done|]. intros path''.
    unfold findHandler. rewrite Ei, endsSlash_app by done. change (endsSlash "/") with true.
    rewrite andb_false_r, String.eqb_refl. cbn [negb andb].
    destruct (lookup method (cleanPath path +:+ "/")) as [[]|]; [discriminate|]. case_match; discriminate.
  - destruct (String.eqb (cleanPath path) path); cbn [negb]; [destruct m as [[]|]; [discriminate|]; case_match; discriminate|].
    intros [= <-]. pose proof (cleanPath_id _ Hc) as Ei. split; [done|]. intros path''.
    unfold findHandler. rewrite Ei. fold m. rewrite E1, String.eqb_refl. cbn [negb].
    destruct m as [[]|]; [discriminate|]. case_match; discriminate.
Qed.

Lemma redirects_end_witness : exists path', findHandler "GET" "/debug//pprof" = Redirect path' /\
  forall path'', findHandler "GET" path' <> Redirect path''.
Proof.
  exists "/debug/pprof/". split; [vm_compute; reflexivity|].
  destruct (redirects_end "GET" "/debug//pprof" "/debug/pprof/") as [_ Hn]; [vm_compute; reflexivity|exact Hn].
Defined.

(** The handler that a request reaches. *)

Lemma findHandler_route method path r values :
  findHandler method path = Found r values -> r ∈ routes /\ matchMethod (ptMethod (rtPattern r)) method = true /\
    lookup method (cleanPath path) = Some (r, values).
Proof.
  unfold findHandler. case_match; [discriminate|]. case_match; [discriminate|].
  destruct (lookup method (cleanPath path)) as [[r' vs]|] eqn:El; [|case_match; discriminate].
  intros [= -> ->]. pose proof (matchMethodAndPath_spec routes method (pathUnescape <$> splitPath (cleanPath path)) routes_no_head) as Hs.
  unfold lookup in El. rewrite El in Hs. destruct Hs as (Hin & Hm & _). unfold matchRoute in Hm.
  apply andb_prop in Hm as [Hm _]. done.
Qed.

Lemma findHandler_path method path r values :
  findHandler method path = Found r values ->
  cleanPath path = path /\ matchSegs (ptSegs (rtPattern r)) (pathUnescape <$> splitPath path) = true.
Proof.
  unfold findHandler. case_match; [discriminate|].
  destruct (String.eqb_spec (cleanPath path) path) as [Ep|]; [|discriminate]. rewrite Ep. cbn [negb].
  destruct (lookup method path) as [[r' vs]|] eqn:El; [|case_match; discriminate].
  intros [= -> ->]. split; [done|].
  pose proof (matchMethodAndPath_spec routes method (pathUnescape <$> splitPath path) routes_no_head) as Hs.
  unfold lookup in El. rewrite El in Hs. destruct Hs as (_ & Hm & _). unfold matchRoute in Hm.
  by apply andb_prop in Hm as [_ Hm].
Qed.

(** ** Lemmas: the values of a pattern's wildcards *)

(** The wildcards in front of a trailing slash. *)
Fixpoint wildsOf (p : list Seg) : list string :=
  match p with Wild name :: p => name :: wildsOf p | Lit _ :: p => wildsOf p | _ => [] end.

Lemma matchPath_values {A} (rs : list (list Seg * A)) path r vs :
  matchPath rs path = Some (r, vs) ->
  Forall (fun v => v ∈ path /\ v <> "/") vs /\ exists p, (p, r) ∈ rs /\ length vs = length (wildsOf p).
Proof.
  revert rs vs. induction path as [|x path IH]; intros rs vs; cbn [matchPath].
  { unfold leaf. pose proof (head_omap (fun '(p, r) => match p with [] => Some r | _ => None end) rs) as Hh.
    destruct (head _) as [r'|]; [|discriminate]. intros [= -> <-]. destruct Hh as ([[|s p] r'] & Hin & E); [|discriminate].
    injection E as ->. split; [constructor|]. by exists []. }
  assert (forall vs, Forall (fun v => v ∈ path /\ v <> "/") vs -> Forall (fun v => v ∈ x :: path /\ v <> "/") vs) as Hw.
  { intros l Hl. apply (Forall_impl _ _ _ Hl). intros v [Hv Hn]. split; [by right|done]. }
  destruct (matchPath (litChildren x rs) path) as [[r' vs']|] eqn:E1.
  { intros [= -> ->]. destruct (IH _ _ E1) as (Hv & p & Hin & Hl). split; [auto|]. exists (Lit x :: p).
    by apply litChildren_elem in Hin. }
  destruct (if String.eqb x "/" then None else matchPath (wildChildren rs) path) as [[r' vs']|] eqn:E2.
  - destruct (String.eqb_spec x "/") as [|Hx]; [discriminate|].
    intros [= -> <-]. destruct (IH _ _ E2) as (Hv & p & Hin & Hl). split.
    + constructor; [split; [by left|done]|auto].
    + apply wildChildren_elem in Hin as [name Hin]. exists (Wild name :: p). cbn. by rewrite Hl.
  - unfold multiChild. pose proof (head_omap (fun '(p, r) => match p with Multi :: _ => Some r | _ => None end) rs) as Hh.
    destruct (head _) as [r'|]; [|discriminate]. intros [= -> <-]. destruct Hh as ([[|[] p] r'] & Hin & E); try discriminate.
    injection E as ->. split; [constructor|]. by exists (Multi :: p).
Qed.

Lemma unescape_empty s : unescape s = Some "" -> s = "".
Proof.
  destruct s as [|a s]; [done|]. intros E. exfalso. cbn in E.
  repeat case_match; simplify_option_eq.
Qed.

Lemma splitPath_clean path s : clean path -> s ∈ splitPath path -> s <> "".
Proof.
  intros [->|(segs & e & _ & Hs & He & ->)].
  - by intros ->%list_elem_of_singleton.
  - rewrite (splitPath_join _ _ Hs He). intros [Hin|Hin]%elem_of_app.
    + rewrite Forall_forall in Hs. apply (Hs s Hin).
    + destruct He as [->| ->]; [by apply elem_of_nil in Hin|]. by apply list_elem_of_singleton in Hin as ->.
Qed.

Lemma lookup_values method path r values :
  lookup method path = Some (r, values) ->
  Forall (fun v => v ∈ pathUnescape <$> splitPath path /\ v <> "/") values /\
  length values = length (wildsOf (ptSegs (rtPattern r))).
Proof.
  unfold lookup, matchMethodAndPath. set (xs := pathUnescape <$> splitPath path).
  assert (forall m, matchPath (ofMethod m routes) xs = Some (r, values) ->
    Forall (fun v => v ∈ xs /\ v <> "/") values /\ length values = length (wildsOf (ptSegs (rtPattern r)))) as Hm.
  { intros m Em. destruct (matchPath_values _ _ _ _ Em) as (Hv & p & (_ & -> & _)%ofMethod_elem & Hl). done. }
  destruct (matchPath (ofMethod method routes) xs) as [[r' vs']|] eqn:E.
  - intros [= -> ->]. by apply (Hm method).
  - destruct (String.eqb method "HEAD"); [apply Hm|discriminate].
Qed.

(** A handler that reads a value from the path gets one: under every
    wildcard of the pattern that a request goes to there is a name that is neither
    empty nor a slash, so the handlers' own answers to an empty id are never given. *)
Theorem path_values_present method path r values name :
  findHandler method path = Found r values -> name ∈ wildNames (rtPattern r) ->
  PathValue name r values <> "" /\ PathValue name r values <> "/".
Proof.
  intros Ef Hn. apply findHandler_route in Ef as (Hin & _ & El). destruct (lookup_values _ _ _ _ El) as [Hv Hl].
  assert (Forall (fun r => wildsOf (ptSegs (rtPattern r)) = wildNames (rtPattern r)) routes) as Hall
    by (apply (bool_decide_unpack _); vm_compute; exact I).
  rewrite Forall_forall in Hall. rewrite (Hall r Hin) in Hl. clear Hall.
  assert (exists v, PathValue name r values = v /\ v ∈ values) as (v & -> & Hval).
  { unfold PathValue. revert Hn Hl. generalize (wildNames (rtPattern r)) as names. generalize values as vs.
    intros vs names. revert vs. induction names as [|x names IH]; intros [|v vs] Hn Hl; try discriminate;
      [by apply elem_of_nil in Hn..|]. cbn [zip zip_with]. rewrite filter_cons. cbn [fst].
    case_decide as Ex; [exists v; split; [done|by left]|].
    apply elem_of_cons in Hn as [->|Hn]; [done|]. destruct (IH vs Hn) as (w & Ew & Hw); [by injection Hl|].
    exists w. split; [done|by right]. }
  rewrite Forall_forall in Hv. destruct (Hv v Hval) as [(s & -> & Hs)%list_elem_of_fmap Hne]. split; [|done].
  intros E. apply (splitPath_clean _ s (cleanPath_clean path) Hs). unfold pathUnescape in E.
  destruct (unescape s) eqn:Eu; [|done]. cbn in E. subst. by apply unescape_empty.
Qed.

Lemma path_values_present_witness :
  PathValue "id" (mkRoute (parsePattern "POST /api/v1/chaos/kill-worker/{id}") EpKill) ["w 1"] <> "".
Proof.
  destruct (path_values_present "POST" "/api/v1/chaos/kill-worker/w%201"
    (mkRoute (parsePattern "POST /api/v1/chaos/kill-worker/{id}") EpKill) ["w 1"] "id") as [H _].
  - vm_compute. reflexivity.
  - apply (bool_decide_unpack _). vm_compute. exact I.
  - exact H.
Defined.

(** ** Properties of the server *)

Section serve_facts.
Context {S F : Type} `{TaskStore S}.
Implicit Types (n : Node S) (env : HttpEnv F).

(** The handlers that change the node's state, besides subscribing to its bus. *)
Definition changes (e : Endpoint) : bool :=
  match e with
  | EpTask | EpRetryDLQ | EpSubmit | EpUpload | EpKill | EpTrip | EpReset | EpFail | EpBatch => true
  | _ => false
  end.

(** Claim C24: only POST requests change tasks, workers, breakers, the store or the
    metrics. A request with any other method, whatever its path and whatever the
    state, leaves the whole node as it was, with one exception: GET (or HEAD) on the
    events' path, when the connection is upgraded, adds one empty subscription to
    the node's bus, and the other subscribers keep theirs with what it holds. *)
Theorem get_requests_are_safe env hc req n : rqMethod req <> "POST" ->
  let n' := fst (serve env hc req n) in
  n' = n \/
  exists b ch, heUpgrade env = None /\ nBus n = Some b /\ cleanPath (rqPath req) = rqPath req /\
    (pathUnescape <$> splitPath (rqPath req)) = ["api"; "v1"; "events"] /\
    nBus n' = Some (mkBus ({[ch]} ∪ subscribers b) (<[ch := mkChan [] false]> (chans b)) (Pos.succ ch)) /\
    ch = chNext b /\ n' <| nBus := Some b |> = n.
Proof.
  intros Hm. cbv zeta. unfold serve. destruct (findHandler _ _) as [r vs| | |] eqn:Ef; [|by left..].
  destruct (findHandler_path _ _ _ _ Ef) as [Hclean Hsegs].
  apply findHandler_route in Ef as (Hin & Hmm & _). unfold routes in Hin.
  assert (ptMethod (rtPattern r) <> "POST") as Hp.
  { intros Ep. rewrite Ep in Hmm. unfold matchMethod in Hmm. rewrite orb_false_r in Hmm.
    apply String.eqb_eq in Hmm. congruence. }
  assert (Forall (fun r => ptMethod (rtPattern r) = "POST" \/ changes (rtEndpoint r) = false /\
    (rtEndpoint r = EpEvents -> ptSegs (rtPattern r) = [Lit "api"; Lit "v1"; Lit "events"])) routes) as Hall.
  { repeat (apply Forall_cons; split; [first [left; vm_compute; reflexivity
      |right; split; [vm_compute; reflexivity|vm_compute; (reflexivity || discriminate)]]|]). constructor. }
  rewrite Forall_forall in Hall. destruct (Hall r Hin) as [|[Hr He]]; [done|].
  unfold serveRoute. destruct (rtEndpoint r); try discriminate Hr; try (left; reflexivity).
  cbn [fst]. unfold handleWebSocket. destruct (heUpgrade env) as [err|]; [by left|].
  destruct (nBus n) as [b|] eqn:Eb; [|by left]. right. exists b, (chNext b).
  split; [done|]. split; [done|]. split; [done|]. split.
  { specialize (He eq_refl). rewrite He in Hsegs. clear He. revert Hsegs.
    destruct (pathUnescape <$> _) as [|x [|y [|z [|u l]]]]; cbn [matchSegs]; rewrite ?andb_false_r; try discriminate.
    intros [<-%String.eqb_eq [<-%String.eqb_eq [<-%String.eqb_eq _]%andb_prop]%andb_prop]%andb_prop. done. }
  split; [simpl_fields_goal; unfold Subscribe; cbn [fst]; by destruct b|]. split; [done|].
  destruct n. cbn in *. by subst.
Qed.

(** ** The tasks of a request *)

(** The tasks that a request creates, with their locations, in the order of their
    submission. *)

Definition fileTask (env : HttpEnv F) (dir : string) (f : nat * (string * bool)) : option (loc * Task) :=
  let le := heLoop env f.1 in
  if negb (snd (snd f)) && hasSuffix ".sh" (fst (snd f)) then
    Some (leLoc le, New (leCreated le) ("task-" +:+ pretty (UnixNano (leNow le)) +:+ "-" +:+ fst (snd f))
      (heJoin env dir (fst (snd f))))
  else None.

Definition created (env : HttpEnv F) (req : Request) : list (loc * Task) :=
  let le := heLoop env 0%nat in
  match findHandler (rqMethod req) (rqPath req) with
  | Found r _ =>
      match rtEndpoint r with
      | EpTask =>
          match heFiles env with
          | inr files => if String.eqb (rqDir req) "" then [] else omap (fileTask env (rqDir req)) (imap (fun i f => (i, f)) files)
          | inl _ => []
          end
      | EpSubmit =>
          match rqSubmit req with
          | inr b => if String.eqb (sbScript b) "" then []
                     else [(leLoc le, NewInline (leCreated le) ("inline-" +:+ pretty (UnixNano (leNow le))) (sbScript b)
                              (if String.eqb (sbLanguage b) "" then "bash" else sbLanguage b))]
          | inl _ => []
          end
      | EpUpload =>
          match upParse (rqUpload req), upFile (rqUpload req) with
          | None, inr (inr (encoded, _)) =>
              [(leLoc le, NewArchive (leCreated le) ("archive-" +:+ pretty (UnixNano (leNow le))) encoded
                  (if String.eqb (upEntrypoint (rqUpload req)) "" then "./run.sh" else upEntrypoint (rqUpload req))
                  (if String.eqb (upLanguage (rqUpload req)) "" then "bash" else upLanguage (rqUpload req)))]
          | _, _ => []
          end
      | EpFail =>
          match rqFail req with
          | inr b =>
              let language := if String.eqb (frLanguage b) "" then "bash" else frLanguage b in
              let script := failScripts language in
              failEntries (heLoop env) (if String.eqb script "" then failScripts "bash" else script) language
                (Z.to_nat (clampCount 5 100 (frCount b))) 0
          | inl _ => []
          end
      | EpBatch =>
          match rqBatch req with
          | inr b =>
              let language := if String.eqb (btLanguage b) "" then "bash" else btLanguage b in
              batchEntries (heLoop env) ("batch-" +:+ pretty (UnixNano (heNow env))) (batchScript b language) language
                (btPriority b) (Z.to_nat (clampCount 100 10000 (btCount b))) 0
          | inl _ => []
          end
      | _ => []
      end
  | _ => []
  end.

Lemma created_queued env req p t : (p, t) ∈ created env req -> tState t = StateQueued.
Proof.
  unfold created. destruct (findHandler _ _) as [r vs| | |]; [|by intros ?%elem_of_nil..].
  destruct (rtEndpoint r); lazymatch goal with |- _ ∈ [] -> _ => by intros ?%elem_of_nil | _ => idtac end.
  - destruct (heFiles env) as [|files]; [by intros ?%elem_of_nil|].
    destruct (String.eqb _ _); [by intros ?%elem_of_nil|].
    intros (f & _ & E)%list_elem_of_omap. unfold fileTask in E. case_match; [|done]. by injection E as <- <-.
  - destruct (rqSubmit req); [by intros ?%elem_of_nil|].
    destruct (String.eqb _ _); [by intros ?%elem_of_nil|]. by intros [= -> ->]%list_elem_of_singleton.
  - destruct (upParse _); [by intros ?%elem_of_nil|]. destruct (upFile _) as [|[|[]]]; try by intros ?%elem_of_nil.
    by intros [= -> ->]%list_elem_of_singleton.
  - destruct (rqFail req); [by intros ?%elem_of_nil|]. by intros (i & [= -> ->] & _)%list_elem_of_fmap.
  - destruct (rqBatch req); [by intros ?%elem_of_nil|]. intros (i & [= -> ->] & _)%list_elem_of_fmap.
    apply batchTask_fields.
Qed.

(** Submissions and announcements, as the scheduler sees them. *)

Lemma nWorld_announce pub ty data n : nWorld (announce pub ty data n) = nWorld n.
Proof. unfold announce. by node. Qed.

Lemma submitAll_world pts n n' : nWorld n = nWorld n' -> nWorld (submitAll pts n) = nWorld (submitAll pts n').
Proof.
  revert n n'. induction pts as [|pt pts IH]; intros n n' E; [done|].
  apply (IH (submit n pt) (submit n' pt)). by rewrite !nWorld_submit, E.
Qed.

Lemma handleTask_world env dir files acc :
  nWorld (fst (foldl (fun acc f => handleTaskOne (heJoin env) dir (heLoop env (fst f)) (snd f) acc) acc files)) =
  nWorld (submitAll (omap (fileTask env dir) files) (fst acc)).
Proof.
  revert acc. induction files as [|[i f] files IH]; intros [n c]; [done|]. cbn [foldl]. rewrite IH.
  unfold handleTaskOne. cbn [fst snd omap list_omap].
  destruct (fileTask env dir (i, f)) as [pt|] eqn:E; unfold fileTask in E; cbn [fst snd] in E;
    destruct (negb (snd f) && hasSuffix ".sh" (fst f)); try discriminate; [|done].
  injection E as <-. cbn [fst].
  match goal with |- _ = nWorld (submitAll (?pt :: ?pts) n) =>
    change (submitAll (pt :: pts) n) with (submitAll pts (submit n pt)) end.
  apply submitAll_world. by rewrite nWorld_announce.
Qed.

(** Every request, as the scheduler sees it: its submissions, one retry from the
    dead letter queue, or nothing. *)

Lemma serve_world env hc req n :
  nWorld (fst (serve env hc req n)) = nWorld (submitAll (created env req) n) \/
  exists id, created env req = [] /\ nWorld (fst (serve env hc req n)) = fst (SchedRetryFromDLQ id (nWorld n)).
Proof.
  unfold serve, created. destruct (findHandler _ _) as [r vs| | |]; [|by left..]. unfold serveRoute, text.
  destruct (rtEndpoint r); cbn [fst]; try by left.
  - left. unfold handleTask. destruct (String.eqb _ _), (heFiles env) as [|files]; try done.
    pose proof (handleTask_world env (rqDir req) (imap (fun i f => (i, f)) files) (n, 0)) as Hw.
    destruct (foldl _ _ _) as [n' count]. exact Hw.
  - unfold handleRetryDLQ. destruct (String.eqb _ _); [by left|]. right. exists (PathValue "id" r vs). split; [done|].
    destruct (SchedRetryFromDLQ (PathValue "id" r vs) (nWorld n)) as [w []]; cbn [fst]; by node.
  - left. unfold handleSubmit. destruct (rqSubmit req); [done|]. destruct (String.eqb _ _); [done|]. cbn [fst].
    by rewrite nWorld_announce.
  - left. unfold handleUpload. destruct (upParse _); [done|]. destruct (upFile _) as [|[|[]]]; [done..|]. cbn [fst].
    by rewrite nWorld_announce.
  - left. unfold handleWebSocket. destruct (heUpgrade env); [done|]. destruct (nBus n); [by node|done].
  - left. apply nWorld_api; exact 0 || exact (hePub env).
  - left. apply nWorld_api; exact 0 || exact (hePub env).
  - left. apply nWorld_api; exact 0 || exact (hePub env).
  - left. unfold handleChaosFailTasks. destruct (rqFail req); [done|]. cbn [fst].
    by rewrite nWorld_announce, failLoop_submitAll.
  - left. unfold handleBatchSubmit. destruct (rqBatch req); [done|]. cbn [fst].
    by rewrite nWorld_announce, batchLoop_submitAll.
Qed.

Lemma submitted_places pts n n' :
  (forall p t, (p, t) ∈ pts -> tState t = StateQueued /\ p ∉ completed (sched (nWorld n))) ->
  fresh pts n -> submitted pts n n' -> Places (nWorld n) ->
  Places (nWorld n') /\ pool (nWorld n') ≡ₚ pts.*1 ++ pool (nWorld n).
Proof.
  intros Hq [_ Hf _ _] [HI' Q (Fl & R & D & C & _) T M _] HP.
  assert (pool (nWorld n') ≡ₚ pts.*1 ++ pool (nWorld n)) as Hp.
  { unfold pool, flight. rewrite Q, Fl, R, D. by rewrite <- app_assoc. }
  assert (forall u, u ∈ pts.*1 -> tState (mem (nWorld n') !!! u) = StateQueued /\ u ∈ queue (sched (nWorld n'))) as Hnew.
  { intros u Hu. split; [|rewrite Q; apply elem_of_app; by left].
    apply list_elem_of_fmap in Hu as ([p t] & -> & Hin). cbn [fst]. rewrite (T p t Hin). by apply (Hq p). }
  split; [split; [done| |]|done].
  - intros st u Hu. destruct (decide (u ∈ pts.*1)) as [Hin|Hn].
    + destruct (Hnew u Hin) as [-> Hin']. by rewrite (part_unique _ u st Queued HI' Hu Hin').
    + rewrite M by done. apply (pl_state _ HP).
      destruct st; cbn [part] in *; unfold flight in *; rewrite ?Q, ?Fl, ?R, ?D in Hu; try done.
      by apply elem_of_app in Hu as [?|Hu].
  - intros u Hu. rewrite C in Hu. destruct (pl_done _ HP u Hu) as [Hd Hn].
    assert (u ∉ pts.*1) as Hne by (intros ([p t] & -> & Hin)%list_elem_of_fmap; by apply (Hq p t Hin)).
    rewrite M by done. split; [done|]. rewrite Hp, elem_of_app. tauto.
Qed.

Lemma RetryFromDLQ_completed id (w : World) : completed (sched (fst (SchedRetryFromDLQ id w))) = completed (sched w).
Proof.
  destruct (findTask (mem w) id (deadLetter (sched w))) as [i|] eqn:Hi; [|unfold SchedRetryFromDLQ; by rewrite Hi].
  destruct (findTask_Some _ _ _ _ Hi) as (t & Ht & _ & _).
  destruct (SchedRetryFromDLQ_found id w i t Hi Ht) as (w' & -> & _ & _ & _ & _ & _ & Hc & _). done.
Qed.

Lemma serve_conserves env hc req n :
  Places (nWorld n) -> fresh (created env req) n ->
  (forall p, p ∈ (created env req).*1 -> p ∉ completed (sched (nWorld n))) ->
  let n' := fst (serve env hc req n) in
  Places (nWorld n') /\ pool (nWorld n') ≡ₚ (created env req).*1 ++ pool (nWorld n) /\
  completed (sched (nWorld n')) = completed (sched (nWorld n)).
Proof.
  intros HP Hf Hc n'. subst n'. destruct (serve_world env hc req n) as [->|(id & -> & ->)].
  - pose proof (submitAll_spec _ n (pl_inv _ HP) Hf) as Hs.
    destruct (submitted_places _ _ _ (fun p t Hin => conj (created_queued env req p t Hin)
      (Hc p (list_elem_of_fmap_2' fst _ _ p Hin eq_refl))) Hf Hs HP) as [HP' Hp].
    split_and!; try done. apply (sub_rest _ _ _ Hs).
  - destruct (SchedRetryFromDLQ_conserves id (nWorld n) (pl_inv _ HP)) as (_ & Hd & Hp).
    split_and!; [by apply RetryFromDLQ_places|done|apply RetryFromDLQ_completed].
Qed.
(** ** The server: the limiter around the mux *)

(** A request with what its handler meets. *)
Record Call := mkCall { clEnv : HttpEnv F; clChecker : Checker; clRequest : Request }.

Definition serveCall (c : Call) (n : Node S) : Node S * Answer F := serve (clEnv c) (clChecker c) (clRequest c) n.

(** [rl.Wrap(mux)] over the requests in the order in which they are handled. *)
Definition httpServer {L} (allow : Time -> L -> L * bool) (rs : list (Time * Call)) (s : L * Node S)
    : L * Node S * list (Answer F) :=
  serveAll allow (fun r => Answered (mapBody BText r)) serveCall rs s.

(** The new tasks of each request have pointers of their own and unused ids. *)
Fixpoint freshCalls (cs : list Call) (n : Node S) : Prop :=
  match cs with
  | [] => True
  | c :: cs =>
      let pts := created (clEnv c) (clRequest c) in
      fresh pts n /\ (forall p, p ∈ pts.*1 -> p ∉ completed (sched (nWorld n))) /\
      freshCalls cs (fst (serveCall c n))
  end.

Lemma handleAll_conserves cs n : Places (nWorld n) -> freshCalls cs n ->
  let n' := handleAll serveCall cs n in
  Places (nWorld n') /\
  pool (nWorld n') ≡ₚ (cs ≫= fun c => (created (clEnv c) (clRequest c)).*1) ++ pool (nWorld n) /\
  completed (sched (nWorld n')) = completed (sched (nWorld n)).
Proof.
  cbv zeta. revert n. induction cs as [|c cs IH]; intros n HP; [done|]. intros (Hf & Hc & Hcs).
  destruct (serve_conserves _ (clChecker c) _ _ HP Hf Hc) as (HP1 & Hp1 & Hc1).
  destruct (IH _ HP1 Hcs) as (HP2 & Hp2 & Hc2). change (handleAll serveCall (c :: cs) n) with (handleAll serveCall cs (fst (serveCall c n))).
  split; [done|]. split; [|unfold serveCall in *; congruence]. rewrite Hp2. unfold serveCall. rewrite Hp1. cbn [mbind list_bind].
  rewrite !app_assoc. f_equiv. apply Permutation_app_comm.
Qed.

(** Claim C11: whatever requests come in, for whatever paths, and however the rate
    limiter picks among them, the node stays well-formed and holds afterwards
    exactly the tasks it held and those that the admitted requests submit: no
    request loses, duplicates or finishes a task, and every one gets an answer. The
    new tasks need pointers of their own and unused ids. *)
Theorem requests_conserve_tasks {L} (allow : Time -> L -> L * bool) rs l n :
  Places (nWorld n) -> freshCalls (admitted allow rs l) n ->
  let '(_, n', answers) := httpServer allow rs (l, n) in
  length answers = length rs /\ Places (nWorld n') /\
  pool (nWorld n') ≡ₚ (admitted allow rs l ≫= fun c => (created (clEnv c) (clRequest c)).*1) ++ pool (nWorld n) /\
  completed (sched (nWorld n')) = completed (sched (nWorld n)).
Proof.
  intros HP Hf. pose proof (handleAll_conserves _ _ HP Hf) as Hh. unfold httpServer.
  pose proof (serveAll_admitted allow (fun r => Answered (mapBody BText r)) serveCall rs l n) as Ha.
  pose proof (serveAll_length allow (fun r => Answered (mapBody BText r)) serveCall rs (l, n)) as Hl.
  destruct (serveAll _ _ _ _ _) as [[l' n'] answers]. cbn [fst snd] in *. by subst n'.
Qed.
End serve_facts.

(** ** Witnesses *)

Definition demoHttp : HttpEnv Z :=
  mkHttpEnv 100 101 (mkPubEnv 102 []) (fun i => mkLoopEnv 103 104 (Pos.of_succ_nat i) (mkPubEnv 105 []))
    (fun a b => a +:+ "/" +:+ b) (inr []) [] [] (fun _ => None) (fun _ => "") (fun d => d) 0 (fun _ _ => 0) None.

Definition demoRequest (method path : string) : Request :=
  mkRequest method path "" (inr (mkSubmit "python" "print(1)")) (mkUpload None (inl "") "" "") (inl "") (inl "").

Definition demoServer : Node MemoryStore := NewNodeServer demoCfg (Some NewMemoryStore) (Some NewBus).

Example serve1 : snd (serve demoHttp (mkChecker true) (demoRequest "DELETE" "/tasks") demoServer) =
    Answered (mkResponse 405 (BText "Method Not Allowed")) /\
  snd (serve demoHttp (mkChecker true) (demoRequest "GET" "/api/v1/events") demoServer) = HandedOff EpEvents /\
  tID <$> (created demoHttp (demoRequest "POST" "/api/v1/submit")).*2 = ["inline--6795364578871345049"].
Proof. split; [|split]; vm_compute; reflexivity. Qed.

Lemma get_requests_are_safe_witness :
  exists b, nBus (fst (serve demoHttp (mkChecker true) (demoRequest "GET" "/api/v1/events") demoServer)) = Some b /\
    chNext b = 2%positive /\
    (fst (serve demoHttp (mkChecker true) (demoRequest "GET" "/api/v1/events") demoServer)) <| nBus := Some NewBus |> = demoServer.
Proof.
  destruct (get_requests_are_safe demoHttp (mkChecker true) (demoRequest "GET" "/api/v1/events") demoServer)
    as [E|(b & ch & _ & Hb & _ & _ & Hn & -> & Hr)]; [discriminate| |].
  - apply (f_equal nBus) in E. vm_compute in E. discriminate.
  - rewrite Hn. eexists. split; [reflexivity|]. vm_compute in Hb. injection Hb as <-. split; [reflexivity|exact Hr].
Defined.

Definition demoCall : Call (F := Z) := mkCall demoHttp (mkChecker true) (demoRequest "POST" "/api/v1/submit").

(** A limiter with tokens. *)
Definition demoAllow (_ : Time) (l : nat) : nat * bool := match l with O => (O, false) | S l => (l, true) end.

Lemma requests_conserve_tasks_witness :
  let '(_, n', answers) := httpServer demoAllow [(1, demoCall); (2, demoCall)] (1%nat, demoServer) in
  length answers = 2%nat /\ length (pool (nWorld n')) = 1%nat.
Proof.
  pose proof (requests_conserve_tasks demoAllow [(1, demoCall); (2, demoCall)] 1%nat demoServer) as Ht.
  assert (length (created demoHttp (demoRequest "POST" "/api/v1/submit")) = 1%nat) as Hl by (vm_compute; reflexivity).
  destruct (httpServer _ _ _) as [[l' n'] answers]. destruct Ht as (Ha & _ & Hp & _).
  - apply NewNodeServer_places.
  - split; [|split; [|exact I]].
    + split.
      * revert Hl. cbn [demoCall clEnv clRequest]. destruct (created _ _) as [|a [|]]; try discriminate. intros _. apply NoDup_singleton.
      * intros p _. apply not_elem_of_nil.
      * revert Hl. cbn [demoCall clEnv clRequest]. destruct (created _ _) as [|a [|]]; try discriminate. intros _. apply NoDup_singleton.
      * intros p t u _ Hu. by apply (proj1 (elem_of_nil u)) in Hu.
    + intros p _. apply not_elem_of_nil.
  - split; [exact Ha|]. rewrite (Permutation_length Hp). vm_compute. reflexivity.
Defined.
