(* ===== verification/LoadMaster.v ===== *)
(** * The load test against the master

    The client of [LoadTest], the rate limiter and the mux of [Router], and the node
    behind them: what the client counts is what the master holds. *)

From stdpp Require Import pretty.
From S2P Require Import Prelude GoTime Task Scheduler SchedulerFacts SchedulerProps CircuitBreaker Config Store Events.
From S2P Require Import NodeServer NodeFacts Master MasterFacts NodeTrace Lifecycle LoadTest Router.

Open Scope string_scope.
Open Scope list_scope.
Open Scope Z_scope.

(** ** The requests on the wire *)

(** The request [i]: its JSON body, decoded. *)
Definition loadRequest (i : Z) : Request :=
  mkRequest "POST" (loadURL "") "" (inr (mkSubmit "bash" (loadScript i))) (mkUpload None (inl "") "" "") (inl "") (inl "").

Section loads.
Context {S F : Type} `{TaskStore S}.
Implicit Types (n : Node S) (c : Call (F := F)) (a : Answer F).

(** What [http.Post] makes of an answer: it fails, or gives its status after some time. *)
Definition replyTo a (r : Reply) : Prop :=
  r = PostError \/ exists resp d, a = Answered resp /\ r = Replied (rsStatus resp) d.

(** The task that the request [i] creates. *)
Definition loadTask (env : HttpEnv F) (i : Z) : loc * Task :=
  let le := heLoop env 0%nat in
  (leLoc le, NewInline (leCreated le) ("inline-" +:+ pretty (UnixNano (leNow le))) (loadScript i) "bash").

Lemma load_route : exists r v, findHandler "POST" (loadURL "") = Found r v /\ rtEndpoint r = EpSubmit.
Proof. destruct (findHandler "POST" (loadURL "")) as [r v| | |] eqn:E; vm_compute in E; try discriminate. injection E as <- <-. eauto. Qed.

Lemma created_load env i : created env (loadRequest i) = [loadTask env i].
Proof. unfold created. destruct load_route as (r & v & E & Er). cbn [loadRequest rqMethod rqPath]. rewrite E, Er. reflexivity. Qed.

Lemma serve_load (c : Call (F := F)) i n : clRequest c = loadRequest i ->
  exists resp, snd (serveCall c n) = Answered resp /\ rsStatus resp = StatusOK.
Proof.
  intros Ec. unfold serveCall, serve, serveRoute. rewrite Ec. destruct load_route as (r & v & E & Er).
  cbn [loadRequest rqMethod rqPath]. rewrite E, Er. eexists. split; reflexivity.
Qed.

(** ** The admitted requests, in the order in which they are handled *)

Definition isLoad (c : Call (F := F)) : Prop := exists i, clRequest c = loadRequest i.

Definition scriptOf (c : Call (F := F)) : string :=
  match rqSubmit (clRequest c) with inr b => sbScript b | inl _ => "" end.

Definition locOf (c : Call (F := F)) : loc := leLoc (heLoop (clEnv c) 0%nat).

Lemma created_isLoad c : isLoad c -> exists t, created (clEnv c) (clRequest c) = [(locOf c, t)] /\ tContent t = scriptOf c.
Proof.
  intros [i E]. unfold scriptOf, locOf. rewrite E, created_load. eexists. split; [reflexivity|].
  cbn [loadRequest rqSubmit sbScript]. unfold NewInline, New. by simpl_fields_goal.
Qed.

(** Each of them leaves a task with its script. *)
Lemma handleAll_loads cs n :
  Places (nWorld n) -> freshCalls cs n -> Forall isLoad cs ->
  let n' := handleAll serveCall cs n in
  pool (nWorld n') ≡ₚ (locOf <$> cs) ++ pool (nWorld n) /\
  ((fun p => tContent (mem (nWorld n') !!! p)) <$> (locOf <$> cs)) = scriptOf <$> cs /\
  (forall p, p ∈ pool (nWorld n) -> mem (nWorld n') !!! p = mem (nWorld n) !!! p).
Proof.
  revert n. induction cs as [|c cs IH]; intros n HP Hf Hl; [done|]. apply Forall_cons in Hl as [Hc Hl].
  destruct Hf as (Hfr & Hdone & Hf). destruct (created_isLoad c Hc) as (t & Ec & Et).
  destruct (serve_conserves (clEnv c) (clChecker c) _ n HP Hfr Hdone) as (HP1 & Hp1 & _).
  assert (nWorld (fst (serveCall c n)) = nWorld (submitAll [(locOf c, t)] n)) as Hw.
  { destruct (serve_world (clEnv c) (clChecker c) (clRequest c) n) as [E|(id & E & _)]; rewrite Ec in E; [exact E|done]. }
  rewrite Ec in Hfr, Hp1. destruct (submitAll_spec _ n (pl_inv _ HP) Hfr) as [_ _ _ T M _]. rewrite <- Hw in T, M.
  destruct (IH _ HP1 Hf Hl) as (Hp & Hs & Hk). change (handleAll serveCall (c :: cs) n) with (handleAll serveCall cs (fst (serveCall c n))).
  set (n' := handleAll serveCall cs _) in *. cbn [fmap list_fmap fst] in Hp1. unfold serveCall in Hp.
  split; [|split].
  - rewrite Hp, Hp1. cbn [fmap list_fmap app]. by rewrite Permutation_middle.
  - cbn [fmap list_fmap]. f_equal; [|exact Hs]. rewrite Hk; [|unfold serveCall; rewrite Hp1; by left].
    rewrite (T _ t) by (by left). done.
  - intros p Hin. rewrite Hk by (unfold serveCall; rewrite Hp1; by right). apply M.
    intros ->%list_elem_of_singleton. eapply (fresh_pool _ _ Hfr); [by left|done].
Qed.

(** What the limiter lets through is answered with 200, and the rest with 429. *)
Lemma answers_loads {L} (allow : Time -> L -> L * bool) rs l n replies :
  Forall isLoad rs.*2 ->
  let '(_, _, answers) := httpServer allow rs (l, n) in
  Forall2 replyTo answers replies ->
  (length (omap accepted replies) <= length (admitted allow rs l))%nat /\
  (PostError ∉ replies -> length (omap accepted replies) = length (admitted allow rs l)).
Proof.
  unfold httpServer. revert l n replies. induction rs as [|[now c] rs IH]; intros l n replies Hl.
  { cbn. by intros ->%Forall2_nil_inv_l. }
  cbn [fmap list_fmap snd] in Hl. apply Forall_cons in Hl as [[i Hc] Hl]. rewrite serveAll_cons. cbn [admitted]. unfold Wrap.
  destruct (allow now l) as [l1 ok]. destruct (serve_load c i n Hc) as (resp & Er & Es).
  destruct ok; cbn [negb].
  - destruct (serveCall c n) as [n1 a]. cbn [snd] in Er. subst a. specialize (IH l1 n1).
    destruct (serveAll _ _ _ rs (l1, n1)) as [s2 as_]. destruct s2 as [l2 n2]. intros (r & rs' & Hr & HF & ->)%Forall2_cons_inv_l.
    destruct (IH rs' Hl HF) as [H1 H2]. rewrite not_elem_of_cons. destruct Hr as [->|(resp' & d & [= <-] & ->)]; cbn [omap list_omap accepted app length].
    + split; [lia|by intros []].
    + rewrite Es. cbn [negb Z.eqb]. change (200 =? StatusOK) with true. cbn. split; [lia|]. intros [_ Hn]. by rewrite H2.
  - specialize (IH l1 n). destruct (serveAll _ _ _ rs (l1, n)) as [[l2 n2] as_]. intros (r & rs' & Hr & HF & ->)%Forall2_cons_inv_l.
    destruct (IH rs' Hl HF) as [H1 H2]. rewrite not_elem_of_cons. destruct Hr as [->|(resp' & d & [= <-] & ->)]; cbn.
    + split; [lia|by intros []].
    + split; [lia|]. intros [_ Hn]. auto.
Qed.

End loads.

(** ** What the client counts *)

Lemma submittedOf_accepted replies :
  length ((GReturned <$> replies) ≫= submittedOf) = length (omap accepted replies) /\
  (length ((GReturned <$> replies) ≫= errorsOf) + length (omap accepted replies) = length replies)%nat.
Proof.
  induction replies as [|r rs [IH1 IH2]]; [done|]. cbn [fmap list_fmap mbind list_bind omap list_omap]. rewrite !length_app, IH1.
  cbn [submittedOf errorsOf length]. destruct (accepted r); cbn [length]; lia.
Qed.

Lemma report_counts count acts l replies :
  loadRun count acts newLoad = Some l -> finished count replies l -> 0 <= count < 2 ^ 31 ->
  ldSubmitted l = Z.of_nat (length (omap accepted replies)) /\ ldSubmitted l + ldErrors l = count.
Proof.
  intros Hr [Hg Hn] Hc. assert (LoadInv newLoad) as H0 by (split; try done; by intros ? ? ?%elem_of_nil).
  pose proof (loadRun_inv _ _ _ _ Hr H0) as [I1 I2 _ _]. rewrite Hg in I1, I2.
  destruct (submittedOf_accepted replies) as [E1 E2]. rewrite E1 in I2.
  rewrite I1, I2. unfold int32. rewrite !wrap_id; unfold in_range; lia.
Qed.

Lemma admitted_sublist {L Req} (allow : Time -> L -> L * bool) (rs : list (Time * Req)) l :
  admitted allow rs l `sublist_of` rs.*2.
Proof.
  revert l. induction rs as [|[now r] rs IH]; intros l; [done|]. cbn [admitted fmap list_fmap snd].
  destruct (allow now l) as [l' [|]]; cbn [app]; by constructor.
Qed.

(** ** Properties *)

Section theorems.
Context {S F L : Type} `{TaskStore S}.

(** Claim C32: the load test counts what the master holds. Its requests, one for each
    number, reach the mux through the rate limiter in any order, the answers come
    back or get lost, and its goroutines interleave in any way: the master then holds
    exactly one new task for each request that was let through, each with the script
    of a request of its own, and the client has counted at most these as submitted;
    when no answer was lost, it has counted exactly these, and all the others as
    errors. *)
Theorem load_test_against_master (allow : Time -> L -> L * bool) (rs : list (Time * Call (F := F))) l (n : Node S)
  count acts ld replies
  (HP : Places (nWorld n)) (Hf : freshCalls (admitted allow rs l) n)
  (Hrs : clRequest <$> rs.*2 ≡ₚ loadRequest <$> seqZ 0 count) (Hc : 0 <= count < 2 ^ 31)
  (Hrun : loadRun count acts newLoad = Some ld) (Hfin : finished count replies ld) :
  let '(_, n', answers) := httpServer allow rs (l, n) in
  forall received, Forall2 replyTo answers received -> received ≡ₚ replies ->
  exists new, pool (nWorld n') ≡ₚ new ++ pool (nWorld n) /\ length new = length (admitted allow rs l) /\
    ((fun p => tContent (mem (nWorld n') !!! p)) <$> new) ⊆+ loadScript <$> seqZ 0 count /\
    ldSubmitted ld <= Z.of_nat (length new) /\ ldSubmitted ld + ldErrors ld = count /\
    (PostError ∉ replies -> ldSubmitted ld = Z.of_nat (length new)).
Proof.
  assert (Forall isLoad rs.*2) as Hl.
  { apply Forall_forall. intros c Hin. assert (clRequest c ∈ clRequest <$> rs.*2) as Hr by (by apply list_elem_of_fmap_2).
    rewrite Hrs in Hr. apply list_elem_of_fmap in Hr as (i & E & _). by exists i. }
  assert (scriptOf <$> rs.*2 ≡ₚ loadScript <$> seqZ 0 count) as Hs.
  { set (f := fun r => match rqSubmit r with inr b => sbScript b | inl _ => "" end).
    change (scriptOf <$> rs.*2) with ((f ∘ clRequest) <$> rs.*2).
    rewrite (list_fmap_compose clRequest f), Hrs, <- list_fmap_compose. done. }
  pose proof (admitted_sublist allow rs l) as Hsub.
  assert (Forall isLoad (admitted allow rs l)) as Hla.
  { rewrite Forall_forall in *. intros c Hin. apply Hl. eapply elem_of_submseteq; [exact Hin|by apply sublist_submseteq]. }
  destruct (handleAll_loads _ _ HP Hf Hla) as (Hp & Hsc & _).
  destruct (report_counts _ _ _ _ Hrun Hfin Hc) as [E1 E2].
  pose proof (serveAll_admitted allow (fun r => Answered (mapBody BText r)) serveCall rs l n) as Ha.
  pose proof (answers_loads allow rs l n) as Han. unfold httpServer in *.
  destruct (serveAll _ _ _ rs (l, n)) as [[l' n'] answers]. cbn [fst snd] in Ha. subst n'.
  intros received HF Hperm. exists (locOf <$> admitted allow rs l). destruct (Han received Hl HF) as [H1 H2].
  assert (length (omap accepted received) = length (omap accepted replies)) as El by (by rewrite Hperm).
  rewrite length_fmap. split; [done|]. split; [done|]. split; [|split; [lia|split; [done|]]].
  - rewrite Hsc, <- Hs. apply sublist_submseteq. by apply fmap_sublist.
  - intros Hn. rewrite E1, <- El. rewrite H2; [done|]. by rewrite Hperm.
Qed.

End theorems.

(** Two requests, and a limiter with one token. *)
Definition demoLoadCall (i : Z) : Call (F := Z) := mkCall demoHttp (mkChecker true) (loadRequest i).

Definition demoLoadActs : list LoadAct :=
  [LSpawn; LSpawn; LReply 1 (Replied 429 6); LReply 0 (Replied 200 5); LAppend 0].

Lemma load_test_against_master_witness :
  exists ld n' new, loadRun 2 demoLoadActs newLoad = Some ld /\
    n' = snd (fst (httpServer demoAllow [(1, demoLoadCall 0); (2, demoLoadCall 1)] (1%nat, demoServer))) /\
    pool (nWorld n') ≡ₚ new /\ ldSubmitted ld = Z.of_nat (length new) /\ ldErrors ld = 1.
Proof.
  destruct (loadRun 2 demoLoadActs newLoad) as [ld|] eqn:E; [|vm_compute in E; discriminate].
  assert (finished 2 [Replied 200 5; Replied 429 6] ld) as Hfin by (vm_compute in E; injection E as <-; by split).
  assert (ldErrors ld = 1) as Herr by (vm_compute in E; injection E as <-; reflexivity).
  pose proof (load_test_against_master demoAllow [(1, demoLoadCall 0); (2, demoLoadCall 1)] 1%nat demoServer 2 demoLoadActs ld
    [Replied 200 5; Replied 429 6]) as Ht.
  destruct (httpServer _ _ _) as [[l' n'] answers] eqn:Eh. exists ld, n'.
  destruct Ht with (received := [Replied 200 5; Replied 429 6]) as (new & Hp & _ & _ & _ & _ & Hs); try done.
  - apply NewNodeServer_places.
  - split; [|split; [|exact I]].
    + change (fresh (created demoHttp (loadRequest 0)) demoServer). rewrite created_load. split.
      * apply NoDup_singleton.
      * intros p _. apply not_elem_of_nil.
      * apply NoDup_singleton.
      * intros p t u _ Hu. by apply (proj1 (elem_of_nil u)) in Hu.
    + intros p _. apply not_elem_of_nil.
  - vm_compute in Eh. injection Eh as <- <- <-. constructor; [|constructor; [|constructor]]; right; eexists; eexists; split; reflexivity.
  - exists new. split; [reflexivity|]. split; [reflexivity|]. rewrite app_nil_r in Hp. split; [exact Hp|].
    split; [apply Hs; set_solver|exact Herr].
Defined.
