(* ===== verification/Entry.v ===== *)
(** * Starting the processes: [main.go] and what a process sets up

    The choice of the role and the exit status, [NewWorker], the tickers, the
    heartbeats, opening the database, and the [tls] and [tracing] packages.  gRPC,
    badger and OpenTelemetry are arguments; so are the file system, the parsing of
    certificates and their verification. *)

From stdpp Require Import pretty.
From S2P Require Import Prelude GoTime Task Config Store NodeServer Lifecycle Worker.

Open Scope string_scope.
Open Scope list_scope.
Open Scope Z_scope.

(** ** The worker's construction *)

(** A worker's identity, the address of its connection, and its slots. *)
Record WorkerNode := mkWorkerNode { wnTarget : string; wnId : string; wnHostname : string; wnSlots : nat }.

(** [dial] is [grpc.NewClient]'s error, [hostname] and [pid] are the machine's. *)
Definition NewWorker (dial : string -> error) (hostname : string) (pid : Z) (target : string) (cfg : Config)
    : result WorkerNode :=
  match dial target with
  | Some err => inl ("gRPC connect to " +:+ target +:+ ": " +:+ err)
  | None => inr (mkWorkerNode target ("worker-" +:+ hostname +:+ "-" +:+ pretty pid) hostname (maxConcurrent cfg))
  end.

(** The registration that [Start] opens its stream with. *)
Definition registration (now : Time) (w : WorkerNode) : WorkerRegistration := mkReg (wnId w) (wnHostname w) now.

(** [Start]: [open] is the error of [AssignTask], [e] how the process of [Worker]
    leaves its loop. *)
Definition workerStart (open : error) (e : Exit) : error :=
  match open with
  | Some err => Some ("failed to open task stream: " +:+ err)
  | None => exitError e
  end.

(** ** The role *)

(** The end of the process: its exit status, whether the worker's connection was
    closed, and what it prints beside the log. [os.Exit] runs no deferred call. *)
Record Ended := mkEnded { exitCode : Z; connClosed : bool; printed : option string }.

Section main.
Variable dial : string -> error.
Variable hostname : string.
Variable pid : Z.
Variable startMaster : Config -> error.
Variable startWorker : Config -> WorkerNode -> error.

Definition main (args : list string) (cfg : Config) : Ended :=
  match args with
  | _ :: role :: _ =>
      let cfg := cfg <| Role := role |> in
      if String.eqb (Role cfg) "master" then
        match startMaster cfg with
        | Some _ => mkEnded 1 false None
        | None => mkEnded 0 false None
        end
      else if String.eqb (Role cfg) "worker" then
        match NewWorker dial hostname pid (MasterAddr cfg) cfg with
        | inl _ => mkEnded 1 false None
        | inr w =>
            match startWorker cfg w with
            | Some _ => mkEnded 1 false None
            | None => mkEnded 0 true None
            end
        end
      else mkEnded 1 false (Some ("Unknown role: " +:+ Role cfg +:+ ". Use 'master' or 'worker'."))
  | _ => mkEnded 1 false (Some "Usage: main [master|worker]")
  end.

End main.

(** ** Tickers *)

(** [time.NewTicker] panics for an interval that is not positive. *)
Definition NewTicker (d : Duration) : option Duration := if d <=? 0 then None else Some d.

(** The intervals of [StartHealthChecker]: health checks, retries, time-outs. *)
Definition healthTickers (cfg : Config) : option (Duration * Duration * Duration) :=
  h ← NewTicker (HeartbeatInterval cfg);
  r ← NewTicker (mulDuration 2 Second);
  t ← NewTicker (mulDuration 10 Second);
  Some (h, r, t).

(** What the heartbeat loop's [select] takes: a tick, with the counter it reads and
    the error of the RPC, or the end of the context. *)
Inductive HbEvent := HbTick (active : Z) (sent : error) | HbDone.

Fixpoint heartbeats (id : string) (evs : list HbEvent) : list Heartbeat :=
  match evs with
  | HbTick active _ :: evs => mkHeartbeat id active :: heartbeats id evs
  | HbDone :: _ | [] => []
  end.

Definition heartbeatLoop (cfg : Config) (w : WorkerNode) (evs : list HbEvent) : option (list Heartbeat) :=
  _ ← NewTicker (HeartbeatInterval cfg); Some (heartbeats (wnId w) evs).

(** ** Opening the database *)

Definition NewBadgerStore {DB : Type} (open : string -> result DB) (path : string) : result DB :=
  match open path with
  | inl err => inl ("badger open " +:+ path +:+ ": " +:+ err)
  | inr db => inr db
  end.

Definition BadgerClose {DB : Type} (close : DB -> DB * error) (db : DB) : DB * error := close db.

(** ** TLS *)

Inductive ClientAuthType := NoClientCert | RequireAndVerifyClientCert.

#[export] Instance ClientAuthType_eq_dec : EqDecision ClientAuthType.
Proof. solve_decision. Defined.

Definition VersionTLS12 : Z := 771.
Definition VersionTLS13 : Z := 772.

(** [crypto/tls.Config], the fields that the code sets. *)
Record TlsConfig (Cert Pool : Type) := mkTls {
  Certificates : list Cert; RootCAs : option Pool; ClientCAs : option Pool;
  ClientAuth : ClientAuthType; MinVersion : Z
}.
Arguments mkTls {Cert Pool}. Arguments Certificates {Cert Pool}. Arguments RootCAs {Cert Pool}.
Arguments ClientCAs {Cert Pool}. Arguments ClientAuth {Cert Pool}. Arguments MinVersion {Cert Pool}.

Section tls.
Context {Cert Pool : Type}.
Variable LoadX509KeyPair : string -> string -> result Cert.
Variable ReadFile : string -> result string.
Variable newPool : Pool.
Variable AppendCertsFromPEM : string -> Pool -> Pool * bool.

(** The two functions up to the fields of their configuration: [who] is the word
    in the first error text. *)
Definition loadCA (who certFile keyFile caFile : string) : result (Cert * Pool) :=
  match LoadX509KeyPair certFile keyFile with
  | inl err => inl ("load " +:+ who +:+ " keypair: " +:+ err)
  | inr cert =>
      match ReadFile caFile with
      | inl err => inl ("read CA cert: " +:+ err)
      | inr caCert =>
          let '(caPool, ok) := AppendCertsFromPEM caCert newPool in
          if ok then inr (cert, caPool) else inl "failed to add CA cert to pool"
      end
  end.

Definition ServerCredentials (certFile keyFile caFile : string) : result (TlsConfig Cert Pool) :=
  match loadCA "server" certFile keyFile caFile with
  | inl err => inl err
  | inr (cert, caPool) => inr (mkTls [cert] None (Some caPool) RequireAndVerifyClientCert VersionTLS13)
  end.

Definition ClientCredentials (certFile keyFile caFile : string) : result (TlsConfig Cert Pool) :=
  match loadCA "client" certFile keyFile caFile with
  | inl err => inl err
  | inr (cert, caPool) => inr (mkTls [cert] (Some caPool) None NoClientCert VersionTLS13)
  end.

(** The part of a handshake that the configurations decide: [version] is the one
    that the other side's own limits allow, [verify pool cert] says that the
    certificate verifies against the pool (without a pool, the system's). *)
Variable verify : option Pool -> Cert -> bool.

Definition clientAuthOk (server client : TlsConfig Cert Pool) : bool :=
  match ClientAuth server with
  | NoClientCert => true
  | RequireAndVerifyClientCert =>
      match Certificates client with c :: _ => verify (ClientCAs server) c | [] => false end
  end.

Definition handshake (version : Z) (client server : TlsConfig Cert Pool) : bool :=
  (MinVersion client <=? version) && (MinVersion server <=? version) &&
  match Certificates server with c :: _ => verify (RootCAs client) c | [] => false end &&
  clientAuthOk server client.

End tls.

(** ** Tracing *)

(** The global tracer provider; [newExporter] and [newResource] are the SDK's
    constructors, [newProvider] builds a provider of both. *)
Section tracing.
Context {Exporter Resource Provider : Type}.
Variable newExporter : result Exporter.
Variable newResource : string -> result Resource.
Variable newProvider : Exporter -> Resource -> Provider.

(** The new global provider, and the provider whose [Shutdown] the caller gets. *)
Definition Init (serviceName : string) (global : Provider) : Provider * result Provider :=
  match newExporter with
  | inl err => (global, inl err)
  | inr exporter =>
      match newResource serviceName with
      | inl err => (global, inl err)
      | inr res => let tp := newProvider exporter res in (tp, inr tp)
      end
  end.

Definition Tracer {T : Type} (tracer : Provider -> string -> T) (name : string) (global : Provider) : T :=
  tracer global name.

End tracing.

(** ** Properties: the end of a process *)

(** A process that ends with status 0 had a role, and the role's [Start] returned nil. *)
Lemma main_zero dial hostname pid master worker args cfg :
  exitCode (main dial hostname pid master worker args cfg) = 0 <->
  exists name role rest, args = name :: role :: rest /\
    (role = "master" /\ master (cfg <| Role := role |>) = None \/
     role = "worker" /\ exists w, NewWorker dial hostname pid (MasterAddr cfg) cfg = inr w /\
       worker (cfg <| Role := role |>) w = None).
Proof.
  unfold main. destruct args as [|name [|role rest]];
    [split; [discriminate|intros (? & ? & ? & [=] & _)]..|]. simpl_fields_goal.
  change (NewWorker dial hostname pid (MasterAddr cfg) (cfg <| Role := role |>))
    with (NewWorker dial hostname pid (MasterAddr cfg) cfg).
  destruct (String.eqb_spec role "master") as [->|Hm].
  { destruct (master _) eqn:E; cbn [exitCode]; split; try done.
    - intros (? & ? & ? & [= <- <- <-] & [[_ ?]|[? _]]); congruence.
    - intros _. exists name, "master", rest. auto. }
  destruct (String.eqb_spec role "worker") as [->|Hw].
  2:{ split; [done|]. intros (? & ? & ? & [= <- <- <-] & [[? _]|[? _]]); congruence. }
  destruct (NewWorker dial hostname pid (MasterAddr cfg) cfg) as [err|w] eqn:En; cbn [exitCode].
  { split; [done|]. intros (? & ? & ? & [= <- <- <-] & [[? _]|(_ & w & E & _)]); congruence. }
  destruct (worker _ w) eqn:E; cbn [exitCode]; split; try done.
  - intros (? & ? & ? & [= <- <- <-] & [[? _]|(_ & w' & [= <-] & ?)]); congruence.
  - intros _. exists name, "worker", rest. split; [done|]. right. eauto.
Qed.

Lemma main_master dial hostname pid r worker cfg :
  main dial hostname pid (fun _ => r) worker ["main"; "master"] cfg =
  mkEnded (match r with Some _ => 1 | None => 0 end) false None.
Proof. unfold main. simpl_fields_goal. by destruct r. Qed.

Lemma main_worker hostname pid master r cfg :
  main (fun _ => None) hostname pid master (fun _ _ => r) ["main"; "worker"] cfg =
  match r with Some _ => mkEnded 1 false None | None => mkEnded 0 true None end.
Proof. unfold main. simpl_fields_goal. by destruct r. Qed.

(** The status of a master process tells how it ended: for every run of
    its goroutines to the return of [Start], the process ends with status 0 exactly
    when both servers stopped without an error, and with status 1 otherwise; in
    both cases after they have ended and the store was closed, once. *)
Theorem master_exit_status dial hostname pid worker cfg acts l r :
  lifeRun cfg acts newLife = Some l -> lfResult l = Some r ->
  let o := main dial hostname pid (fun _ => r) worker ["main"; "master"] cfg in
  (exitCode o = 0 \/ exitCode o = 1) /\ lfClosed l = 1%nat /\
  exists g h, lfGrpc l = GReturned g /\ lfHttp l = HReturned h /\ (exitCode o = 0 <-> g = None /\ h = None).
Proof.
  intros Hr Er o.
  destruct (returned_servers l r (lifeRun_inv _ _ _ _ Hr newLife_inv) Er) as (Hc & _ & g & h & Hg & Hh & Hn & _).
  subst o. rewrite main_master. cbn [exitCode]. split; [destruct r; auto|]. split; [done|]. exists g, h. split; [done|]. split; [done|]. rewrite <- Hn.
  by destruct r.
Qed.

Lemma master_exit_status_witness :
  exitCode (main (fun _ => None) "host" 7 (fun _ => None) (fun _ _ => None) ["main"; "master"] demoConfig) = 0.
Proof.
  destruct (lifeRun demoConfig demoStopped newLife) as [l|] eqn:E; [|vm_compute in E; discriminate].
  assert (lfResult l = Some None) as Er by (vm_compute in E; injection E as <-; reflexivity).
  destruct (master_exit_status (fun _ => None) "host" 7 (fun _ _ => None) demoConfig demoStopped l None E Er)
    as (_ & _ & g & h & Hg & Hh & ->).
  vm_compute in E. injection E as <-. injection Hg as <-. injection Hh as <-. done.
Defined.

(** ** Properties: what a process sets up *)

Lemma ticker_bad frac env :
  NewTicker (HeartbeatInterval (Load frac env)) = None <->
  env "HEARTBEAT_INTERVAL" <> "" /\ exists d, ParseDuration frac (env "HEARTBEAT_INTERVAL") = Some d /\ d <= 0.
Proof.
  change (HeartbeatInterval (Load frac env)) with (envOrDefaultDuration frac env "HEARTBEAT_INTERVAL" (mulDuration 10 Second)).
  unfold envOrDefaultDuration. assert (NewTicker (mulDuration 10 Second) <> None) as Hd by (by vm_compute).
  destruct (String.eqb_spec (env "HEARTBEAT_INTERVAL") "") as [E|E]; cbn [negb]; [naive_solver|].
  destruct (ParseDuration frac (env "HEARTBEAT_INTERVAL")) as [d|]; [|naive_solver].
  unfold NewTicker. destruct (Z.leb_spec d 0); naive_solver lia.
Qed.

(** The ticks before the end of the context. *)
Fixpoint ticksBefore (evs : list HbEvent) : list Z :=
  match evs with HbTick active _ :: evs => active :: ticksBefore evs | _ => [] end.

(** A HEARTBEAT_INTERVAL that is well-formed and not positive is taken
    over from the environment and ends both processes with a panic, the master's
    at its health checker and the worker's at its heartbeat loop; for every other
    environment neither ticker panics, and the worker sends one heartbeat for each
    tick before the end of its context, also after failed ones. *)
Theorem heartbeat_interval_panics frac env w evs :
  let cfg := Load frac env in
  let bad := env "HEARTBEAT_INTERVAL" <> "" /\
    exists d, ParseDuration frac (env "HEARTBEAT_INTERVAL") = Some d /\ d <= 0 in
  (healthTickers cfg = None <-> bad) /\ (heartbeatLoop cfg w evs = None <-> bad) /\
  (forall hbs, heartbeatLoop cfg w evs = Some hbs ->
     hbActiveTasks <$> hbs = ticksBefore evs /\ Forall (fun hb => hbWorkerId hb = wnId w) hbs).
Proof.
  cbv zeta. rewrite <- (ticker_bad frac env). unfold healthTickers, heartbeatLoop. split_and!.
  - destruct (NewTicker (HeartbeatInterval _)); [|done]. by vm_compute.
  - by destruct (NewTicker (HeartbeatInterval _)).
  - intros hbs. destruct (NewTicker (HeartbeatInterval _)); [|done]. intros [= <-].
    induction evs as [|[active sent|] evs [IH1 IH2]]; cbn; [by repeat constructor| |by repeat constructor].
    rewrite IH1. split; [done|]. by constructor.
Qed.

Example zero_interval : healthTickers (Load (fun _ _ _ => 0) (fun k => if String.eqb k "HEARTBEAT_INTERVAL" then "0" else "")) = None.
Proof. reflexivity. Qed.

Section tls_facts.
Context {Cert Pool : Type}.
Variable LoadX509KeyPair : string -> string -> result Cert.
Variable ReadFile : string -> result string.
Variable newPool : Pool.
Variable AppendCertsFromPEM : string -> Pool -> Pool * bool.
Variable verify : option Pool -> Cert -> bool.

Lemma loadCA_inv who certFile keyFile caFile cert caPool :
  loadCA LoadX509KeyPair ReadFile newPool AppendCertsFromPEM who certFile keyFile caFile = inr (cert, caPool) ->
  LoadX509KeyPair certFile keyFile = inr cert /\
  exists caCert, ReadFile caFile = inr caCert /\ AppendCertsFromPEM caCert newPool = (caPool, true).
Proof.
  unfold loadCA. destruct (LoadX509KeyPair certFile keyFile) as [|cert']; [done|].
  destruct (ReadFile caFile) as [|caCert] eqn:Er; [done|].
  destruct (AppendCertsFromPEM caCert newPool) as [pool []] eqn:Ea; [|done]. intros [= -> ->]. eauto.
Qed.

(** The TLS configurations of the two sides give mutual authentication:
    a handshake between them succeeds exactly from TLS 1.3 on, when the server's
    certificate verifies against the client's CA file and the client's against the
    server's; a client without a certificate never gets in, whatever else its
    configuration says. *)
Theorem mutual_tls sCert sKey sCA cCert cKey cCA server client :
  ServerCredentials LoadX509KeyPair ReadFile newPool AppendCertsFromPEM sCert sKey sCA = inr server ->
  ClientCredentials LoadX509KeyPair ReadFile newPool AppendCertsFromPEM cCert cKey cCA = inr client ->
  exists sc cc sText cText sPool cPool,
    LoadX509KeyPair sCert sKey = inr sc /\ LoadX509KeyPair cCert cKey = inr cc /\
    ReadFile sCA = inr sText /\ AppendCertsFromPEM sText newPool = (sPool, true) /\
    ReadFile cCA = inr cText /\ AppendCertsFromPEM cText newPool = (cPool, true) /\
    (forall version, handshake verify version client server = true <->
       VersionTLS13 <= version /\ verify (Some cPool) sc = true /\ verify (Some sPool) cc = true) /\
    (forall version other, Certificates other = [] -> handshake verify version other server = false).
Proof.
  unfold ServerCredentials, ClientCredentials.
  destruct (loadCA _ _ _ _ "server" _ _ _) as [|[sc sPool]] eqn:Es; [done|].
  destruct (loadCA _ _ _ _ "client" _ _ _) as [|[cc cPool]] eqn:Ec; [done|]. intros [= <-] [= <-].
  apply loadCA_inv in Es as (H1 & sText & H2 & H3), Ec as (H4 & cText & H5 & H6).
  exists sc, cc, sText, cText, sPool, cPool. split_and!; try done.
  - intros version. unfold handshake, clientAuthOk. cbn. rewrite !andb_true_iff, Z.leb_le. tauto.
  - intros version other E. unfold handshake, clientAuthOk. cbn. by rewrite E, andb_false_r.
Qed.

End tls_facts.

Lemma mutual_tls_witness : exists server client,
  ServerCredentials (fun c _ => inr c) (fun f => inr f) "" (fun t _ => (t, true)) "server.pem" "server.key" "ca.pem" = inr server /\
  ClientCredentials (fun c _ => inr c) (fun f => inr f) "" (fun t _ => (t, true)) "client.pem" "client.key" "ca.pem" = inr client /\
  handshake (fun _ _ => true) VersionTLS13 client server = true /\
  handshake (fun _ _ => true) VersionTLS12 client server = false.
Proof.
  eexists _, _. split; [reflexivity|]. split; [reflexivity|].
  destruct (mutual_tls (fun c _ => inr c) (fun f => inr f) "" (fun t _ => (t, true)) (fun _ _ => true)
    "server.pem" "server.key" "ca.pem" "client.pem" "client.key" "ca.pem" _ _ eq_refl eq_refl)
    as (? & ? & ? & ? & ? & ? & _ & _ & _ & _ & _ & _ & H & _).
  split; [by apply H|reflexivity].
Defined.
