(* ===== verification/Durable.v ===== *)
(** * What a crash leaves: the node over the database

    The runs of [NodeTrace] with the database store of [Store] behind the node, and
    what [RecoverTasks] finds on the disk after any of them: the operations that
    save a task and those that only change it in memory, composed with the
    encoding and the database.  A save may fail: the node ignores the error, and
    the model keeps the ids whose last save did. *)

From stdpp Require Import gmap.
From S2P Require Import Prelude GoTime Heap Task Scheduler SchedulerFacts SchedulerProps.
From S2P Require Import CircuitBreaker Config Store Events NodeServer NodeFacts.
From S2P Require Import Master MasterFacts EndToEnd NodeTrace.

Open Scope string_scope.
Open Scope list_scope.
Open Scope Z_scope.

(** ** What each operation saves *)

Section saves.
Context {S : Type} `{TaskStore S}.
Implicit Types n : Node S.
Variable durationString : Duration -> string.

(** The task that an operation saves. *)
Definition saves (o : NodeOp) n : option loc :=
  match submission o, o with
  | Some (p, _), _ => Some p
  | None, NReport _ r => inFlight (sched (nWorld n)) !! rpTaskId r
  | None, NRound env workerID =>
      if snd (Allow (dsAllow env) (workerBreaker workerID (nBreakers n))) then snd (Dequeue (nWorld n)) else None
  | None, _ => None
  end.

(** A store after the save of a task, if there is one. *)
Definition saveIn (t : option loc) (m : Mem) (s : S) : S :=
  match t with Some t => fst (Save m t s) | None => s end.

Lemma submit_store p t n : nStore (submit n (p, t)) = saveIn (Some p) (mem (nWorld (submit n (p, t)))) <$> nStore n.
Proof. rewrite nWorld_submit. unfold submit, enqueue, allocTask, Enqueue. node. by world. Qed.

Lemma report_store env r n :
  nStore (ReportTaskStatus env r n) =
  saveIn (inFlight (sched (nWorld n)) !! rpTaskId r) (mem (nWorld (ReportTaskStatus env r n))) <$> nStore n.
Proof.
  rewrite nWorld_report. unfold ReportTaskStatus. destruct (Get _ _) as [regs cb].
  assert (forall n0 : Node S, nStore n0 = saveIn None (mem (nWorld n)) <$> nStore n0) as Hid
    by (intros n0; by destruct (nStore n0)).
  destruct (inFlight (sched (nWorld n)) !! rpTaskId r) as [t|] eqn:E.
  - case_decide; unfold reportCompleted, reportFailed; simpl_fields_goal.
    + destruct (SchedComplete_known (reNow env) _ (rpOutput r) (rpExitCode r) _ t E) as (w' & -> & _).
      unfold saveReturned. repeat case_match; by node.
    + rewrite (SchedFail_known (reFail env) _ (rpErrorMessage r) (rpExitCode r) _ t E).
      unfold saveReturned. repeat case_match; by node.
  - case_decide; unfold reportCompleted, reportFailed; simpl_fields_goal.
    + rewrite SchedComplete_unknown by done. unfold saveReturned. repeat case_match; node; by destruct (nStore n).
    + rewrite SchedFail_unknown by done. unfold saveReturned. repeat case_match; node; by destruct (nStore n).
Qed.

Lemma quiet_store o n :
  lawful o n -> submission o = None -> (forall env r, o <> NReport env r) -> (forall env id, o <> NRound env id) ->
  nStore (nodeStep durationString o n) = nStore n.
Proof.
  intros Hok Hs Hr Hd. destruct o; try discriminate Hs; cbn [nodeStep] in *;
    try (by destruct (Hr env r)); try (by destruct (Hd env workerID)).
  - unfold SendHeartbeat. destruct (nWorkers (emit _ n) !! _); by node.
  - unfold openStream. by node.
  - unfold closeStream. by node.
  - destruct t; cbn [onTick]; node; try done. apply (checkWorkerHealth_fields durationString now env ord n Hok).
  - unfold handleChaosKillWorker, DisconnectWorker, announce. repeat case_match; simplify_eq; cbn [fst]; by node.
  - unfold handleChaosTripCB, withBreaker, announce. repeat case_match; cbn [fst]; by node.
  - unfold handleChaosResetCB, withBreaker, announce. repeat case_match; cbn [fst]; by node.
  - unfold handleRetryDLQ. repeat case_match; cbn [fst]; by node.
Qed.

(** An operation writes at most one task, and that in one call of [Save]: a process
    that dies inside it leaves the store of before or the store of after. *)
Lemma step_writes o n : lawful o n ->
  exists t m, nStore (nodeStep durationString o n) = saveIn t m <$> nStore n.
Proof.
  intros Hok. assert (forall n0 m, nStore n0 = saveIn None m <$> nStore n0) as Hid by (intros n0 m; by destruct (nStore n0)).
  destruct (submission o) as [[p t]|] eqn:Es.
  { rewrite (proj1 (submission_step durationString o p t n Es)). eauto using submit_store. }
  assert ((exists env r, o = NReport env r) \/ (exists env id, o = NRound env id) \/
    ((forall env r, o <> NReport env r) /\ (forall env id, o <> NRound env id))) as [(env & r & ->)|[(env & id & ->)|[Hr Hd]]]
    by (destruct o; eauto; right; right; split; intros; discriminate).
  - eauto using report_store.
  - cbn [nodeStep]. unfold dispatchRound. destruct (Get _ _) as [regs cb]. destruct (Allow _ _) as [c ok].
    destruct ok; cbn [negb]; [|exists None, (mem (nWorld n)); cbn [fst]; node; apply Hid]. simpl_fields_goal.
    destruct (Dequeue (nWorld n)) as [w [t|]]; cbn [fst];
      [|exists None, (mem (nWorld n)); simpl_fields_goal; apply Hid].
    exists (Some t). unfold dispatchTask, sendFailed. destruct (dsSend env); cbn [fst]; eexists; node; reflexivity.
  - exists None, (mem (nWorld n)). rewrite quiet_store by done. apply Hid.
Qed.

End saves.

(** ** The disk and the scheduler *)

(** [ts] is the content of the database, by task id, and [stale] holds the ids whose
    last save failed.  But for those, every task that the scheduler holds is there,
    as the user submitted it, and not as a finished one unless it is dead or was
    taken out of the dead letter queue (the ids [revived]); and what is there and
    not finished is held. *)

Record onDisk (revived : list string) (stale : gset string) (w : World) (ts : gmap string Task) : Prop := {
  od_held : forall p, p ∈ pool w -> idOf (mem w) p ∉ stale ->
    exists u, ts !! idOf (mem w) p = Some u /\ sameKey (mem w !!! p) u /\
      (p ∉ deadLetter (sched w) -> idOf (mem w) p ∉ revived -> IsTerminal (tState u) = false);
  od_open : forall id u, ts !! id = Some u -> id ∉ stale -> IsTerminal (tState u) = false ->
    exists p, p ∈ pool w /\ idOf (mem w) p = id
}.

(** Nothing is saved. *)
Lemma onDisk_quiet R R' F w w' ts :
  Inv w -> conserves w w' -> R ⊆ R' ->
  (forall p, p ∈ deadLetter (sched w) -> p ∈ deadLetter (sched w') \/ idOf (mem w) p ∈ R') ->
  onDisk R F w ts -> onDisk R' F w' ts.
Proof.
  intros HI Hc HR Hd [Hh Ho]. destruct (Hc HI) as (_ & Hs & Hp).
  assert (forall p, idOf (mem w') p = idOf (mem w) p) as Hid by (intros p; symmetry; apply (Hs p)).
  split.
  - intros p Hin. rewrite Hid. rewrite Hp in Hin. intros HF. destruct (Hh p Hin HF) as (u & Hu & Hk & Ht).
    exists u. split; [done|]. split; [by rewrite <- (Hs p)|]. intros Hn HnR.
    apply Ht; [|by intros ?%HR]. intros Hin'. by destruct (Hd p Hin').
  - intros id u Hu HF Ht. destruct (Ho id u Hu HF Ht) as (p & Hin & Ep). exists p. by rewrite Hid, Hp.
Qed.

(** An operation changes the one task [t], which it then saves. *)
Record touches (w w' : World) (t : loc) : Prop := {
  tc_pool : forall p, p <> t -> (p ∈ pool w' <-> p ∈ pool w);
  tc_rest : forall p, p <> t -> p ∈ pool w -> sameKey (mem w !!! p) (mem w' !!! p) /\ idOf (mem w) p <> idOf (mem w') t;
  tc_id : t ∈ pool w -> idOf (mem w) t = idOf (mem w') t;
  tc_dead : forall p, p <> t -> p ∈ deadLetter (sched w) -> p ∈ deadLetter (sched w')
}.

Lemma touches_id w w' t p : touches w w' t -> p <> t -> p ∈ pool w -> idOf (mem w') p = idOf (mem w) p.
Proof. intros Ht Hne Hp. symmetry. apply (tc_rest _ _ _ Ht p Hne Hp). Qed.

(** The save of [t] succeeds, and [u] is read back. *)
Lemma onDisk_save R F w w' t u ts :
  touches w w' t -> sameKey (mem w' !!! t) u ->
  (t ∈ pool w' -> t ∉ deadLetter (sched w') -> IsTerminal (tState u) = false) ->
  (IsTerminal (tState u) = false -> t ∈ pool w') ->
  onDisk R F w ts -> onDisk R (F ∖ {[idOf (mem w') t]}) w' (<[idOf (mem w') t := u]> ts).
Proof.
  intros HT Hk Hlive Hopen [Hh Ho]. split.
  - intros p Hin HF. destruct (decide (p = t)) as [->|Hne].
    { exists u. rewrite lookup_insert_eq. auto. }
    apply (tc_pool _ _ _ HT p Hne) in Hin. destruct (tc_rest _ _ _ HT p Hne Hin) as [Hkp Hid].
    rewrite (touches_id w w' t p) in * by done.
    rewrite lookup_insert_ne by done. destruct (Hh p Hin) as (v & Hv & Hkv & Htv); [set_solver|].
    exists v. split; [done|]. split; [by rewrite <- Hkp|]. intros Hd. apply Htv. intros Hd'. by apply Hd, (tc_dead _ _ _ HT).
  - intros id v [[<- ->]|[Hne Hv]]%lookup_insert_Some HF Hter; [eauto|].
    destruct (Ho id v Hv) as (p & Hin & Ep); [set_solver|done|].
    assert (p <> t) as Hpt by (intros ->; apply Hne; rewrite <- Ep; symmetry; by apply (tc_id _ _ _ HT)).
    exists p. split; [by apply (tc_pool _ _ _ HT)|]. rewrite <- Ep. by apply (touches_id w w' t).
Qed.

(** The save of [t] fails. *)
Lemma onDisk_unsaved R F w w' t ts :
  touches w w' t -> onDisk R F w ts -> onDisk R ({[idOf (mem w') t]} ∪ F) w' ts.
Proof.
  intros HT [Hh Ho]. split.
  - intros p Hin HF. assert (p <> t) as Hne by set_solver. apply (tc_pool _ _ _ HT p Hne) in Hin.
    destruct (tc_rest _ _ _ HT p Hne Hin) as [Hkp Hid]. rewrite (touches_id w w' t p) in * by done.
    destruct (Hh p Hin) as (v & Hv & Hkv & Htv); [set_solver|].
    exists v. split; [done|]. split; [by rewrite <- Hkp|]. intros Hd. apply Htv. intros Hd'. by apply Hd, (tc_dead _ _ _ HT).
  - intros id v Hv HF Hter. destruct (Ho id v Hv) as (p & Hin & Ep); [set_solver|done|].
    assert (p <> t) as Hpt by (intros ->; rewrite (tc_id _ _ _ HT Hin) in Ep; set_solver).
    exists p. split; [by apply (tc_pool _ _ _ HT)|]. rewrite <- Ep. by apply (touches_id w w' t).
Qed.

(** Two held tasks with the same id are the same. *)
Lemma other_id w t p : Inv w -> t ∈ pool w -> p ∈ pool w -> p <> t -> idOf (mem w) p <> idOf (mem w) t.
Proof. intros HI Ht Hp Hne E. by apply Hne, (inv_unique w p t HI Hp Ht). Qed.

(** *** What recovery makes of it *)

Lemma recoverTask_fields t :
  sameKey t (recoverTask t) /\ tState (recoverTask t) = StateQueued /\ tWorkerID (recoverTask t) = "".
Proof. unfold recoverTask, sameKey, payload. by simpl_fields_goal. Qed.

Section recovered.
Variables (ts : gmap string Task) (l : list Task).
Hypothesis Hids : map_Forall (fun id t => tID t = id) ts.

Lemma stored_elem u : u ∈ (map_to_list ts).*2 <-> ts !! tID u = Some u.
Proof.
  rewrite list_elem_of_fmap. split.
  - intros ([id v] & -> & Hv%elem_of_map_to_list). cbn. by rewrite (Hids id v Hv).
  - intros Hu. exists (tID u, u). by rewrite elem_of_map_to_list.
Qed.

Lemma recovered_elem u :
  u ∈ recoverTask <$> filter (fun t => IsTerminal (tState t) = false) (map_to_list ts).*2 <->
  exists v, u = recoverTask v /\ IsTerminal (tState v) = false /\ ts !! tID v = Some v.
Proof. rewrite list_elem_of_fmap. by setoid_rewrite list_elem_of_filter; setoid_rewrite stored_elem. Qed.

Hypothesis Hl : l ≡ₚ recoverTask <$> filter (fun t => IsTerminal (tState t) = false) (map_to_list ts).*2.

Lemma recovered_nodup : NoDup (tID <$> l).
Proof using Hids Hl.
  rewrite Hl, <- list_fmap_compose. apply (NoDup_fmap_2_strong _ _).
  - intros u v [_ Hu%stored_elem]%list_elem_of_filter [_ Hv%stored_elem]%list_elem_of_filter E. cbn in E.
    assert (tID u = tID v) as E'
      by (by rewrite (proj1 (proj1 (recoverTask_fields u))), (proj1 (proj1 (recoverTask_fields v)))). congruence.
  - apply NoDup_filter. apply (NoDup_fmap_1 tID). rewrite <- list_fmap_compose.
    erewrite list_fmap_ext; [apply (NoDup_fst_map_to_list ts)|]. intros i [id u] Hi. cbn. apply Hids.
    apply elem_of_map_to_list. by eapply list_elem_of_lookup_2.
Qed.

End recovered.

(** ** The operations *)

Section ops.
Context {DB : Type} `{!KV DB, !KVLaws DB, !Codec}.
Implicit Types n : Node DB.
Variable durationString : Duration -> string.

(** The encoding keeps what makes a task: its identity, its work and its state. *)
Definition faithful (t : Task) : Prop :=
  match marshal t with
  | inl _ => True
  | inr data => match unmarshal data with inr u => sameKey t u /\ tState u = tState t | inl _ => False end
  end.

(** The ids whose last save failed, after an operation and after a run. *)
Definition mark (o : NodeOp) n (stale : gset string) : gset string :=
  match saves o n, nStore n with
  | Some t, Some db =>
      let task := mem (nWorld (nodeStep durationString o n)) !!! t in
      match snd (BadgerSave task db) with
      | None => stale ∖ {[tID task]}
      | Some _ => {[tID task]} ∪ stale
      end
  | _, _ => stale
  end.

Fixpoint unsaved (os : list NodeOp) n (stale : gset string) : gset string :=
  match os with
  | [] => stale
  | o :: os => unsaved os (nodeStep durationString o n) (mark o n stale)
  end.

(** What the run saves can be encoded faithfully, or not at all. *)
Definition encodable (o : NodeOp) n : Prop :=
  forall t, saves o n = Some t -> faithful (mem (nWorld (nodeStep durationString o n)) !!! t).

Lemma save_decodes t ts db : holds ts db -> faithful t ->
  match snd (BadgerSave t db) with
  | Some _ => holds ts (fst (BadgerSave t db))
  | None => exists u, holds (<[tID t := u]> ts) (fst (BadgerSave t db)) /\ sameKey t u /\ tState u = tState t
  end.
Proof.
  intros Hh Hf. destruct (BadgerSave t db) as [db' [err|]] eqn:E; cbn [fst snd].
  - destruct Hh as [Hup Hids (data & Hv & Hd)]. pose proof (BadgerSave_up t db Hup) as Hup'. rewrite E in Hup'.
    apply BadgerSave_view in E. split; [done|done|]. exists data. by rewrite E.
  - pose proof E as E'. unfold BadgerSave in E'. unfold faithful in Hf.
    destruct (marshal t) as [|data] eqn:Hm; [done|]. destruct (unmarshal data) as [|u] eqn:Hu; [done|].
    destruct Hf as [Hk Hst]. exists u. split; [|done].
    apply (BadgerSave_decoded t u data ts db); [done..|symmetry; apply Hk|done].
Qed.

Record Durable (R : list string) (F : gset string) n : Prop := {
  du_places : Places (nWorld n);
  du_disk : exists db ts, nStore n = Some db /\ holds ts db /\ onDisk R F (nWorld n) ts
}.

(** An operation that saves [t]. *)
Lemma Durable_save R F o n t :
  let n' := nodeStep durationString o n in
  Places (nWorld n') -> encodable o n -> saves o n = Some t ->
  nStore n' = saveIn (Some t) (mem (nWorld n')) <$> nStore n ->
  touches (nWorld n) (nWorld n') t ->
  (t ∈ pool (nWorld n') -> t ∉ deadLetter (sched (nWorld n')) -> IsTerminal (tState (mem (nWorld n') !!! t)) = false) ->
  (IsTerminal (tState (mem (nWorld n') !!! t)) = false -> t ∈ pool (nWorld n')) ->
  Durable R F n -> Durable R (mark o n F) n'.
Proof.
  intros n' HP He Es Hs HT Hlive Hopen [_ (db & ts & Edb & Hh & Ho)]. split; [done|].
  pose proof (save_decodes (mem (nWorld n') !!! t) ts db Hh (He t Es)) as Hd.
  unfold mark. rewrite Es, Edb. fold n'. cbv zeta. rewrite Edb in Hs. cbn in Hs.
  eexists. destruct (snd (BadgerSave (mem (nWorld n') !!! t) db)).
  - exists ts. split; [exact Hs|]. split; [exact Hd|]. by eapply onDisk_unsaved.
  - destruct Hd as (u & Hh' & Hk & Hst). exists (<[idOf (mem (nWorld n')) t := u]> ts).
    split; [exact Hs|]. split; [exact Hh'|].
    apply (onDisk_save R F (nWorld n)); rewrite ?Hst; done.
Qed.

(** An operation that saves nothing. *)
Lemma mark_none o n F : saves o n = None -> mark o n F = F.
Proof. intros E. unfold mark. by rewrite E. Qed.

Lemma submit_durable R F o p t n :
  submission o = Some (p, t) -> fresh [(p, t)] n -> p ∉ completed (sched (nWorld n)) ->
  encodable o n -> Durable R F n -> Durable R (mark o n F) (nodeStep durationString o n).
Proof.
  intros Es Hf Hc He HD. pose proof (du_places _ _ _ HD) as HP.
  destruct (submission_step durationString o p t n Es) as [Estep Hq].
  destruct (submit_spec p t n (pl_inv _ HP) Hf) as [_ Q (F0 & Rq & Dl & _) T M _].
  rewrite <- Estep in *. set (n' := nodeStep durationString o n) in *.
  assert (mem (nWorld n') !!! p = t) as Hp by (apply T; by left).
  assert (forall q, q <> p -> mem (nWorld n') !!! q = mem (nWorld n) !!! q) as Hm.
  { intros q Hq'. apply M. by intros ->%list_elem_of_singleton. }
  assert (pool (nWorld n') ≡ₚ p :: pool (nWorld n)) as Hpool
    by (unfold pool, flight; by rewrite Q, F0, Rq, Dl).
  assert (p ∉ pool (nWorld n)) as Hn by (apply (fresh_pool _ _ Hf); by left).
  apply (Durable_save R F o n p); fold n'; [| |by unfold saves; rewrite Es|rewrite Estep; apply submit_store|..|done]; try done.
  - rewrite Estep. by apply submit_places.
  - split.
    + intros q Hne. rewrite Hpool, elem_of_cons. tauto.
    + intros q Hne Hin. unfold idOf. rewrite Hp, Hm by done. split; [done|]. intros E.
      apply (fresh_idpool _ _ Hf p t q); [by left|done|by symmetry].
    + done.
    + intros q _. by rewrite Dl.
  - intros _ _. by rewrite Hp, Hq.
  - intros _. rewrite Hpool. by left.
Qed.

Lemma round_saves env workerID n n' r id t :
  Inv (nWorld n) -> queue (sched (nWorld n)) <> [] ->
  snd (Allow (dsAllow env) (workerBreaker workerID (nBreakers n))) = true -> dsSend env = None ->
  dispatchRound env workerID n = (n', r) -> inFlight (sched (nWorld n)) !! id = None ->
  inFlight (sched (nWorld n')) = <[id := t]> (inFlight (sched (nWorld n))) ->
  saves (NRound env workerID) n = Some t.
Proof.
  intros HI Hne Ha Hs E Hn Hf. unfold saves. cbn [submission]. rewrite Ha.
  destruct (dispatchRound_allowed env workerID n HI Hne Ha) as (w & u & regs & Ed & Hd & Er).
  rewrite Ed. cbn [snd]. f_equal. rewrite Er in E. pose proof (nWorld_dispatchTask env workerID u (n <| nBreakers := regs |> <| nWorld := w |>) Hs) as [Hw _].
  rewrite E in Hw. cbn [fst] in Hw. revert Hw. simpl_fields_goal. intros Hw.
  assert (inFlight (sched w) !! id = Some t) as Hl by (rewrite <- (lookup_insert_eq (inFlight (sched (nWorld n))) id t), <- Hf, Hw; by world).
  rewrite (deq_flight _ _ _ Hd) in Hl. apply lookup_insert_Some in Hl as [[_ ?]|[_ ?]]; congruence.
Qed.

Lemma round_durable R F env workerID n :
  dsSend env = None -> encodable (NRound env workerID) n ->
  Durable R F n -> Durable R (mark (NRound env workerID) n F) (fst (dispatchRound env workerID n)).
Proof.
  intros Hs He HD. pose proof (du_places _ _ _ HD) as HP. pose proof (dispatchRound_places env workerID n Hs HP) as HP'.
  destruct (decide (queue (sched (nWorld n)) = [] \/
    snd (Allow (dsAllow env) (workerBreaker workerID (nBreakers n))) = false)) as [Hidle|Hne].
  - rewrite mark_none.
    2:{ unfold saves. cbn [submission]. destruct (snd (Allow _ _)); [|done].
        destruct Hidle as [Hidle|]; [|done]. by rewrite Dequeue_empty. }
    pose proof (dispatchRound_idle env workerID n) as Hi. destruct (dispatchRound env workerID n) as [n' r].
    destruct Hi as (_ & Est & _ & Hw); [tauto|]. cbn [fst] in *.
    destruct HD as [_ (db & ts & Edb & Hh & Ho)]. split; [done|]. exists db, ts. split; [congruence|]. split; [done|].
    apply (onDisk_quiet R R F (nWorld n)); [apply HP| |done| |done].
    + rewrite Hw. case_match; [apply conserves_refl|apply Notify_conserves].
    + intros p Hp. left. rewrite Hw. case_match; [done|]. by world.
  - destruct (dispatched_world env workerID n (pl_inv _ HP)) as (t & Hin & Hd); [tauto|..|done|].
    { intros u. apply (pl_state _ HP Queued). }
    { destruct (snd _); tauto. }
    destruct (dispatchRound env workerID n) as [n' r] eqn:Er. cbn [fst] in *.
    assert (nodeStep durationString (NRound env workerID) n = n') as En by (cbn [nodeStep]; by rewrite Er).
    destruct Hd as (_ & _ & Hp & Hm & Hfr & Hfl & _ & Hdl & _ & _ & Hst).
    assert (t ∈ pool (nWorld n)) as Htp by (by apply (part_pool Queued)).
    assert (mem (nWorld n') !!! t = running env workerID (mem (nWorld n) !!! t)) as Ht by (by rewrite Hm, decide_True).
    assert (idOf (mem (nWorld n')) t = idOf (mem (nWorld n)) t) as Hid
      by (unfold idOf; rewrite Ht; unfold running; by simpl_fields_goal).
    rewrite <- En in *.
    apply (Durable_save R F _ n t); try done.
    + rewrite En in *. eapply round_saves; [apply HP|tauto| |done|exact Er|exact Hfr|exact Hfl]. destruct (snd _); tauto.
    + split.
      * intros p _. by rewrite Hp.
      * intros p Hne' Hp'. rewrite Hm, decide_False, Hid by done. split; [done|]. by apply other_id; [apply HP|..].
      * done.
      * intros p _. by rewrite Hdl.
    + intros _ _. rewrite Ht. unfold running. by simpl_fields_goal.
    + intros _. by rewrite Hp.
Qed.

Lemma complete_touches now output code id (w : World) t :
  Places w -> inFlight (sched w) !! id = Some t ->
  let w' := fst (SchedComplete now id output code w) in
  touches w w' t /\ (t ∉ pool w') /\ IsTerminal (tState (mem w' !!! t)) = true.
Proof.
  intros HP Ht w'. pose proof (pl_inv _ HP) as HI.
  assert (t ∈ pool w) as Htp by (by eapply (part_pool Flying), flying_elem).
  assert (tState (mem w !!! t) = StateRunning) as Hrun by (by eapply (pl_state _ HP Flying), flying_elem).
  destruct (SchedComplete_running now id output code w t HI Ht Hrun) as (HI' & Hp & _ & Hmt & Hm).
  destruct (SchedComplete_known now id output code w t Ht) as (w0 & E & _ & Hs).
  fold w' in HI', Hp, Hmt, Hm. assert (deadLetter (sched w') = deadLetter (sched w)) as Hd.
  { subst w'. rewrite E. cbn [fst]. rewrite Hs. unfold keepCompleted. by simpl_fields_goal. }
  assert (idOf (mem w') t = idOf (mem w) t) as Hid by (unfold idOf; rewrite Hmt; by simpl_fields_goal).
  assert (t ∉ pool w') as Hn.
  { pose proof (inv_pool_nodup w HI) as Hnd. rewrite Hp in Hnd. by apply NoDup_cons in Hnd as [? _]. }
  split; [|split; [done|rewrite Hmt; by simpl_fields_goal]]. split.
  - intros p Hne. rewrite Hp, elem_of_cons. tauto.
  - intros p Hne Hin. rewrite Hm, Hid by done. split; [done|]. by apply other_id.
  - done.
  - intros p _. by rewrite Hd.
Qed.

Lemma fail_touches env id msg code (w : World) t :
  Places w -> inFlight (sched w) !! id = Some t ->
  let w' := fst (SchedFail env id msg code w) in
  touches w w' t /\ t ∈ pool w' /\
  (t ∉ deadLetter (sched w') -> IsTerminal (tState (mem w' !!! t)) = false).
Proof.
  intros HP Ht w'. pose proof (pl_inv _ HP) as HI.
  assert (t ∈ pool w) as Htp by (by eapply (part_pool Flying), flying_elem).
  assert (tState (mem w !!! t) = StateRunning) as Hrun by (by eapply (pl_state _ HP Flying), flying_elem).
  destruct (SchedFail_conserves env id msg code w HI) as (_ & Hst & _).
  destruct (SchedFail_running env id msg code w t HI Ht Hrun) as (HI' & Hp & _ & (Hs & _) & Hm & Hwhere).
  fold w' in HI', Hp, Hs, Hm, Hwhere, Hst. assert (forall p, p ∈ deadLetter (sched w) -> p ∈ deadLetter (sched w')) as Hd.
  { subst w'. rewrite (SchedFail_known env id msg code w t Ht). cbn [fst].
    destruct (failing_fields env id msg code 1 t w) as (_ & _ & _ & _ & -> & _). intros p Hin. apply elem_of_app. by left. }
  assert (idOf (mem w') t = idOf (mem w) t) as Hid by (symmetry; apply (Hst t)).
  split; [|split; [by rewrite Hp|]]. { split.
    - intros p _. by rewrite Hp.
    - intros p Hne Hin. rewrite Hm, Hid by done. split; [done|]. by apply other_id.
    - done.
    - auto. }
  intros Hn. rewrite Hs. case_bool_decide; [|done]. case_decide; [done|congruence].
Qed.

Lemma report_durable R F env r n :
  encodable (NReport env r) n -> Durable R F n ->
  Durable R (mark (NReport env r) n F) (ReportTaskStatus env r n).
Proof.
  intros He HD. pose proof (du_places _ _ _ HD) as HP.
  assert (Places (nWorld (ReportTaskStatus env r n))) as HP'.
  { rewrite nWorld_report. case_decide; auto using SchedComplete_places, SchedFail_places. }
  pose proof (report_store env r n) as Hst.
  destruct (inFlight (sched (nWorld n)) !! rpTaskId r) as [t|] eqn:Ht.
  - change (ReportTaskStatus env r n) with (nodeStep durationString (NReport env r) n) in *.
    assert (touches (nWorld n) (nWorld (nodeStep durationString (NReport env r) n)) t /\
      (t ∈ pool (nWorld (nodeStep durationString (NReport env r) n)) ->
       t ∉ deadLetter (sched (nWorld (nodeStep durationString (NReport env r) n))) ->
       IsTerminal (tState (mem (nWorld (nodeStep durationString (NReport env r) n)) !!! t)) = false) /\
      (IsTerminal (tState (mem (nWorld (nodeStep durationString (NReport env r) n)) !!! t)) = false ->
       t ∈ pool (nWorld (nodeStep durationString (NReport env r) n)))) as (HT & Hlive & Hopen).
    { cbn [nodeStep]. rewrite nWorld_report. case_decide.
      - destruct (complete_touches (reNow env) (rpOutput r) (rpExitCode r) _ _ t HP Ht) as (HT & Hn & Hf).
        split_and!; [done|done|congruence].
      - destruct (fail_touches (reFail env) _ (rpErrorMessage r) (rpExitCode r) _ t HP Ht) as (HT & Hp & Hf). done. }
    by apply (Durable_save R F _ n t).
  - assert (nWorld (ReportTaskStatus env r n) = nWorld n) as Hw.
    { rewrite nWorld_report, SchedComplete_unknown, SchedFail_unknown by done. by case_decide. }
    rewrite mark_none by done.
    destruct HD as [_ (db & ts & Edb & Hd)]. split; [done|]. exists db, ts. rewrite Hst, Edb, Hw. done.
Qed.

Lemma Durable_weaken R R' F n : R ⊆ R' -> Durable R F n -> Durable R' F n.
Proof.
  intros HR [HP (db & ts & Edb & Hh & Ho)]. split; [done|]. exists db, ts. split; [done|]. split; [done|].
  apply (onDisk_quiet R R' F (nWorld n)); [apply HP|apply conserves_refl|done|by left|done].
Qed.

(** ** Runs *)

(** The tasks that were retried from the dead letter queue. *)
Definition revived (os : list NodeOp) : list string := os ≫= revive.

Lemma Durable_step R F o n :
  lawful o n -> sends o -> newId o n -> encodable o n -> Durable R F n ->
  Durable (R ++ revive o) (mark o n F) (nodeStep durationString o n).
Proof.
  intros Hl Hs Hi He HD. pose proof (du_places _ _ _ HD) as HP. pose proof (nodeOk_intro o n Hl Hs Hi) as Hok.
  destruct (submission o) as [[p t]|] eqn:Es.
  { assert (fresh [(p, t)] n /\ p ∉ completed (sched (nWorld n))) as [Hf Hc]
      by (destruct o; cbn [submission nodeOk] in *; congruence || by injection Es as <- <-).
    apply (Durable_weaken R); [set_solver|]. by eapply submit_durable. }
  assert ((exists env r, o = NReport env r) \/ (exists env id, o = NRound env id) \/
    ((forall env r, o <> NReport env r) /\ (forall env id, o <> NRound env id))) as [(env & r & ->)|[(env & id & ->)|[Hr Hd]]]
    by (destruct o; eauto; right; right; split; intros; discriminate).
  - apply (Durable_weaken R); [set_solver|]. by apply report_durable.
  - apply (Durable_weaken R); [set_solver|]. by apply round_durable.
  - destruct (quiet_world durationString o n Hok Es Hr Hd (pl_inv _ HP)) as [Hc Hdl].
    rewrite mark_none by (unfold saves; rewrite Es; destruct o; try done; [by destruct (Hr env r)|by destruct (Hd env workerID)]).
    destruct HD as [_ (db & ts & Edb & Hh & Ho)]. split; [by apply nodeStep_places|]. exists db, ts.
    rewrite quiet_store by done. split; [done|]. split; [done|].
    apply (onDisk_quiet R _ F (nWorld n)); [apply HP|done|set_solver| |done].
    intros p Hp. destruct (Hdl p Hp); [by left|right; set_solver].
Qed.

Lemma Durable_run R F os n :
  along durationString lawful os n -> Forall sends os -> along durationString newId os n ->
  along durationString encodable os n -> Durable R F n ->
  Durable (R ++ revived os) (unsaved os n F) (runNode durationString os n).
Proof.
  revert R F n. induction os as [|o os IH]; intros R F n; cbn [along].
  - intros. by rewrite app_nil_r.
  - intros [Hl Hls] [Hs Hss]%Forall_cons [Hi His] [He Hes] HD.
    change (revived (o :: os)) with (revive o ++ revived os). rewrite app_assoc.
    apply (IH _ _ (nodeStep durationString o n)); [done..|]. by apply Durable_step.
Qed.

Lemma Durable_start cfg bus db : kvUp db -> kvView db = ∅ -> Durable [] ∅ (NewNodeServer cfg (Some db) bus).
Proof.
  intros Hup Hv. split; [apply NewNodeServer_places|]. exists db, ∅. split; [done|].
  split; [by apply holds_empty|]. split.
  - intros p Hp. by apply elem_of_nil in Hp.
  - intros id u. by rewrite lookup_empty.
Qed.

End ops.

(** ** Properties *)

(** Claim C6: what a crash loses. The node runs over a database that is empty at
    first, its operations one after the other, under unused ids and with sends that
    succeed; a save may fail in any of them, and the ids whose last save did are
    collected in [unsaved]. Wherever the process dies, [RecoverTasks] succeeds and
    returns tasks with distinct ids, QUEUED and without a worker; each of them was
    held by the node, with the work, priority and limits it was submitted with,
    unless its last save failed; and every task that was queued, in flight or waiting
    for a retry is among them, unless its last save failed or it had been retried
    from the dead letter queue. So completed tasks are not executed again. Dying
    inside an operation is no different: the next operation changes the store by at
    most one call of [Save], so the disk is that of before or that of after it. *)
Theorem crash_recovers_held_tasks {DB : Type} `{!KV DB, !KVLaws DB, !Codec} (durationString : Duration -> string)
  (cfg : Config) (bus : option Bus) (db : DB) (os : list NodeOp)
  (Hup : kvUp db) (Hempty : kvView db = ∅) :
  let n0 := NewNodeServer cfg (Some db) bus in
  forall (Hlawful : along durationString lawful os n0) (Hsends : Forall sends os)
    (Hids : along durationString newId os n0) (Henc : along durationString (encodable durationString) os n0),
  let n := runNode durationString os n0 in
  let w := nWorld n in
  let lost := unsaved durationString os n0 ∅ in
  (exists db' l, nStore n = Some db' /\ RecoverTasks db' = (l, None) /\ NoDup (tID <$> l) /\
    (forall u, u ∈ l -> tState u = StateQueued /\ tWorkerID u = "" /\
       (tID u ∈ lost \/ exists p, p ∈ pool w /\ sameKey (mem w !!! p) u)) /\
    (forall p, p ∈ pool w -> p ∉ deadLetter (sched w) -> idOf (mem w) p ∉ lost -> idOf (mem w) p ∉ revived os ->
       exists u, u ∈ l /\ sameKey (mem w !!! p) u)) /\
  (forall o, lawful o n -> exists t m, nStore (nodeStep durationString o n) = saveIn t m <$> nStore n).
Proof.
  intros n0 Hl Hs Hi He n w lost. split; [|by intros o; apply step_writes].
  pose proof (Durable_run durationString [] ∅ os n0 Hl Hs Hi He (Durable_start cfg bus db Hup Hempty)) as HD.
  destruct HD as [_ (db' & ts & Edb & Hh & [Hheld Hopen])]. fold n w lost in Edb, Hheld, Hopen.
  destruct (RecoverTasks_holds _ _ Hh) as (l & El & Hrec). exists db', l. split; [done|]. split; [done|].
  pose proof (hd_ids _ _ Hh) as Hids. cbv beta in Hids.
  split; [by apply (recovered_nodup ts)|]. split.
  - intros u. rewrite Hrec, (recovered_elem ts) by done. intros (v & -> & Ht & Hv).
    destruct (recoverTask_fields v) as (Hk & Hq & Hw). split; [done|]. split; [done|].
    destruct (decide (tID v ∈ lost)) as [HF|HF]; [left; by rewrite <- (proj1 Hk)|right].
    destruct (Hopen _ v Hv HF Ht) as (p & Hp & Eid). exists p. split; [done|].
    destruct (Hheld p Hp) as (v' & Hv' & Hk' & _); [by rewrite Eid|]. rewrite Eid in Hv'.
    assert (v' = v) as -> by congruence. by rewrite Hk'.
  - intros p Hp Hd HF Hr. destruct (Hheld p Hp HF) as (v & Hv & Hk & Ht). exists (recoverTask v). split.
    + rewrite Hrec, (recovered_elem ts) by done. exists v. split; [done|]. split; [auto|]. by rewrite (Hids _ v Hv).
    + rewrite Hk. apply recoverTask_fields.
Qed.

(** ** Runs that can be computed *)

#[export] Instance sameKey_dec t u : Decision (sameKey t u).
Proof. unfold sameKey. apply _. Defined.

#[export] Instance faithful_dec `{!Codec} t : Decision (faithful t).
Proof. unfold faithful. destruct (marshal t); [apply _|]. destruct (unmarshal _); apply _. Defined.

#[export] Instance encodable_dec `{!KV DB, !Codec} ds o (n : Node DB) : Decision (encodable ds o n).
Proof.
  unfold encodable. destruct (saves o n) as [t|].
  - destruct (decide (faithful (mem (nWorld (nodeStep ds o n)) !!! t))) as [Hf|Hf]; [left; congruence|].
    right. intros Ha. by apply Hf, Ha.
  - by left.
Defined.

(** A database whose writes fail as planned, and then succeed. *)
Record Flaky := mkFlaky { fkView : gmap string string; fkPlan : list bool }.

Definition flakyWrite (f : gmap string string -> gmap string string) (db : Flaky) : Flaky * error :=
  match fkPlan db with
  | false :: plan => (mkFlaky (fkView db) plan, Some "no space left on device")
  | plan => (mkFlaky (f (fkView db)) (tail plan), None)
  end.

#[export] Instance flakyKV : KV Flaky := {
  kvSet k v := flakyWrite <[k := v]>;
  kvDelete k := flakyWrite (delete k);
  kvGet k db := inr (fkView db !! k);
  kvScan p db := inr (inr <$> (filter (fun kv => String.prefix p kv.1 = true) (map_to_list (fkView db))).*2)
}.

#[export] Program Instance flakyKV_laws : KVLaws Flaky := { kvView := fkView; kvUp _ := True }.
Next Obligation. done. Qed.
Next Obligation. done. Qed.
Next Obligation. intros k v [m [|[] plan]] db' E; by injection E as <-. Qed.
Next Obligation. intros k v [m [|[] plan]] db' e E; try discriminate; by injection E as <-. Qed.
Next Obligation. intros k [m [|[] plan]] db' E; by injection E as <-. Qed.
Next Obligation. intros k [m [|[] plan]] db' e E; try discriminate; by injection E as <-. Qed.
Next Obligation. done. Qed.
Next Obligation. intros p db _. by eexists. Qed.

(** Three tasks: when the master crashes the first is executed to its end, the
    save of the second failed, and the third is in flight. *)
Definition crashOps : list NodeOp :=
  [NEnqueueTask 0 1 "a" "run.sh"; NEnqueueTask 0 2 "b" "run.sh"; NEnqueueTask 0 3 "c" "run.sh";
   NOpen 11 (mkPubEnv 11 []) (mkReg "w1" "host" 5) 1;
   NRound demoEnv "w1"; NRound demoEnv "w1"; NReport demoReports (demoReport "a")].

Definition crashDisk : Flaky := mkFlaky ∅ [true; false].

Lemma crash_recovers_held_tasks_witness :
  let n0 := NewNodeServer demoCfg (Some crashDisk) (Some NewBus) in
  let n := runNode (fun _ => "") crashOps n0 in
  unsaved (fun _ => "") crashOps n0 ∅ = {["b"]} /\
  exists db l, nStore n = Some db /\ RecoverTasks db = (l, None) /\ tID <$> l = ["c"] /\
    exists u, u ∈ l /\ sameKey (mem (nWorld n) !!! 3%positive) u.
Proof.
  intros n0 n. assert (unsaved (fun _ => "") crashOps n0 ∅ = {["b"]}) as El by (vm_compute; reflexivity).
  split; [exact El|].
  destruct (crash_recovers_held_tasks (fun _ => "") demoCfg (Some NewBus) crashDisk crashOps)
    as [(db & l & Edb & Erec & _ & _ & Hl) _].
  - exact I.
  - reflexivity.
  - apply (bool_decide_unpack _). vm_compute. exact I.
  - apply (bool_decide_unpack _). vm_compute. exact I.
  - apply (bool_decide_unpack _). vm_compute. exact I.
  - apply (bool_decide_unpack _). vm_compute. exact I.
  - exists db, l. split; [exact Edb|]. split; [exact Erec|]. split.
    + vm_compute in Edb. injection Edb as <-. vm_compute in Erec. injection Erec as <-. reflexivity.
    + apply Hl; apply (bool_decide_unpack _); vm_compute; exact I.
Defined.

(** Three failed executions, and a retry from the dead letter queue. *)
Definition failedReport : NodeOp := NReport demoReports (mkReport "a" "w1" TASK_FAILED "" "boom" None None 1).

Definition reviveOps : list NodeOp :=
  [NEnqueueTask 0 1 "a" "run.sh"; NOpen 11 (mkPubEnv 11 []) (mkReg "w1" "host" 5) 1;
   NRound demoEnv "w1"; failedReport; NTick (RetryTick (10 ^ 12));
   NRound demoEnv "w1"; failedReport; NTick (RetryTick (10 ^ 12));
   NRound demoEnv "w1"; failedReport; NRetryDLQ "a"].

(** A retry from the dead letter queue is not saved. The task that the
    user retried is QUEUED and waits for a worker, but the disk still has it as
    DEAD: after a crash at this point nothing recovers it, though no save failed. *)
Theorem dead_letter_retry_is_not_saved :
  let n0 := NewNodeServer demoCfg (Some (∅ : gmap string string)) (Some NewBus) in
  let n := runNode (fun _ => "") reviveOps n0 in
  along (fun _ => "") lawful reviveOps n0 /\ Forall sends reviveOps /\ along (fun _ => "") newId reviveOps n0 /\
  unsaved (fun _ => "") reviveOps n0 ∅ = ∅ /\
  queue (sched (nWorld n)) = [1%positive] /\ tState (mem (nWorld n) !!! 1%positive) = StateQueued /\
  RecoverTasks <$> nStore n = Some ([], None).
Proof. split_and!; first [apply (bool_decide_unpack _); vm_compute; exact I | vm_compute; reflexivity]. Qed.
