(* ===== verification/Finish.v ===== *)
(** * Every task can be brought to its end

    A game over the steps of [Cluster]: the cluster (master, workers and network)
    chooses every step but what a command answers, which its opponent chooses.  From
    every reachable state the cluster can lead all the tasks that it holds to
    COMPLETED or to the dead letter queue: the number of executions that the waiting
    tasks have left is the measure. *)

From S2P Require Import Prelude GoTime Heap Task Scheduler SchedulerFacts SchedulerProps.
From S2P Require Import CircuitBreaker Config Store Events NodeServer Worker NodeFacts.
From S2P Require Import Master MasterFacts EndToEnd NodeTrace Cluster.

Open Scope string_scope.
Open Scope list_scope.
Open Scope Z_scope.

(** ** The executions that are left *)

(** Of a waiting task; the counter of attempts wraps around at 32 bits. *)
Definition chances (tk : Task) : nat := S (Z.to_nat ((tMaxRetries tk - tAttempt tk - 1) mod 2 ^ 32)).

Definition debtOf (m : Mem) (l : list loc) : nat := sum_list_with (fun p => chances (m !!! p)) l.

Definition debt (w : World) : nat := debtOf (mem w) (queue (sched w) ++ retryQueue (sched w)).

Lemma debtOf_perm m l l' : l ≡ₚ l' -> debtOf m l = debtOf m l'.
Proof. intros E. unfold debtOf. by rewrite E. Qed.

Lemma debtOf_ext m m' l : (forall p, p ∈ l -> chances (m !!! p) = chances (m' !!! p)) -> debtOf m l = debtOf m' l.
Proof.
  unfold debtOf. induction l as [|p l IH]; intros Hl; [done|]. cbn [sum_list_with].
  rewrite (Hl p) by (by left). rewrite IH; [done|]. intros q Hq. apply Hl. by right.
Qed.

(** A round makes an attempt. *)
Definition attempted (tk : Task) : Task := tk <| tAttempt := int32 (tAttempt tk + 1) |>.

(** An execution that fails with attempts left. *)
Lemma chances_attempted tk : tMaxRetries tk = 3 -> tAttempt (attempted tk) < 3 -> (chances (attempted tk) < chances tk)%nat.
Proof.
  unfold attempted, chances. simpl_fields_goal. intros ->. unfold int32, wrap. generalize (tAttempt tk). intros a Ha.
  apply -> Nat.succ_lt_mono. apply Z2Nat.inj_lt; [apply Z.mod_pos_bound; lia..|].
  Z.to_euclidean_division_equations. lia.
Qed.

(** ** What an execution does to the scheduler *)

(** From [w] to [w'] no task comes in, and those that go out are COMPLETED. *)
Record spends (w w' : World) : Prop := {
  sp_stable : stable (mem w) (mem w');
  sp_pool : forall p, p ∈ pool w -> p ∈ pool w' \/ tState (mem w' !!! p) = StateCompleted;
  sp_new : forall p, p ∈ pool w' -> p ∈ pool w;
  sp_out : forall p, p ∉ pool w -> mem w' !!! p = mem w !!! p
}.

Lemma spends_trans w1 w2 w3 : spends w1 w2 -> spends w2 w3 -> spends w1 w3.
Proof.
  intros [S1 P1 N1 O1] [S2 P2 N2 O2]. split; [by etrans| |auto|].
  - intros p Hp. destruct (decide (p ∈ pool w2)) as [H2|H2]; [auto|]. right. rewrite O2 by done. by destruct (P1 p Hp).
  - intros p Hp. rewrite O2; [auto|]. by intros ?%N1.
Qed.

(** The report of the task [t], in flight as [id]: it is COMPLETED, or DEAD, or waits
    for a retry with attempts left. *)
Record reported (w w' : World) (id : string) (t : loc) : Prop := {
  rp_stable : stable (mem w) (mem w');
  rp_rest : forall u, u <> t -> mem w' !!! u = mem w !!! u;
  rp_flight : inFlight (sched w') = delete id (inFlight (sched w));
  rp_queue : queue (sched w') = queue (sched w);
  rp_outcome :
    tState (mem w' !!! t) = StateCompleted /\ pool w ≡ₚ t :: pool w' /\ retryQueue (sched w') = retryQueue (sched w) \/
    pool w' ≡ₚ pool w /\ (retryQueue (sched w') = retryQueue (sched w) \/
      retryQueue (sched w') = retryQueue (sched w) ++ [t] /\ tAttempt (mem w' !!! t) = tAttempt (mem w !!! t) /\
      tAttempt (mem w !!! t) < tMaxRetries (mem w !!! t))
}.

Lemma complete_reported now id output code w t :
  Inv w -> inFlight (sched w) !! id = Some t -> tState (mem w !!! t) = StateRunning ->
  reported w (fst (SchedComplete now id output code w)) id t.
Proof.
  intros HI Ht Hrun. destruct (SchedComplete_inv now id output code w t HI Ht) as (_ & Hst & _).
  destruct (SchedComplete_running now id output code w t HI Ht Hrun) as (_ & Hp & Hf & Hmt & Hm).
  destruct (SchedComplete_known now id output code w t Ht) as (w' & E & _ & Hs). rewrite E in *. cbn [fst] in *.
  assert (queue (sched w') = queue (sched w) /\ retryQueue (sched w') = retryQueue (sched w)) as [Hq Hr]
    by (rewrite Hs; unfold keepCompleted; by simpl_fields_goal).
  split; try done. left. rewrite Hmt. by simpl_fields_goal.
Qed.

Lemma fail_reported env id msg code w t :
  Inv w -> inFlight (sched w) !! id = Some t -> tState (mem w !!! t) = StateRunning ->
  reported w (fst (SchedFail env id msg code w)) id t.
Proof.
  intros HI Ht Hrun. destruct (SchedFail_conserves env id msg code w HI) as (_ & Hst & Hp).
  destruct (SchedFail_running env id msg code w t HI Ht Hrun) as (_ & _ & Hf & (Hs & _ & _ & _ & Ha & _) & Hm & _).
  rewrite (SchedFail_known env id msg code w t Ht) in *. cbn [fst] in *.
  destruct (failing_fields env id msg code 1 t w) as (Hmt & Hq & _ & Hr & _).
  rewrite (Hmt t), (decide_True (P := t = t)) in Hs, Ha by done.
  split; try done. right. split; [done|]. rewrite Hr, Hs. case_bool_decide; [left|right].
  - rewrite decide_True by done. by rewrite app_nil_r.
  - rewrite decide_False by done. split; [done|]. rewrite Hmt, decide_True by done. split; [done|lia].
Qed.

(** A round and the report of what it sent. *)

Section execution.
Context {S : Type} `{TaskStore S}.
Implicit Types n : Node S.

Lemma report_reported renv os workerID st ct x t n :
  Inv (nWorld n) -> inFlight (sched (nWorld n)) !! asTaskId x = Some t -> tState (mem (nWorld n) !!! t) = StateRunning ->
  reported (nWorld n) (nWorld (ReportTaskStatus renv (snd (executeTask os workerID st ct x)) n)) (asTaskId x) t.
Proof.
  intros HI Ht Hrun. rewrite nWorld_report. unfold executeTask. destruct (execute os x) as [calls [output err]].
  cbn [snd rpState rpTaskId rpOutput rpExitCode rpErrorMessage].
  destruct err; [rewrite decide_False by done; by apply fail_reported|rewrite decide_True by done; by apply complete_reported].
Qed.

Lemma reported_spends w w' id t : t ∈ pool w -> reported w w' id t -> spends w w'.
Proof.
  intros Hin [Hst Hm _ _ Ho]. split; [done|..].
  - intros p Hp. destruct Ho as [(Hc & E & _)|[E _]]; [|left; by rewrite E]. rewrite E in Hp.
    apply elem_of_cons in Hp as [->|Hp]; auto.
  - intros p Hp. destruct Ho as [(_ & E & _)|[E _]]; [rewrite E; by right|by rewrite <- E].
  - intros p Hp. apply Hm. by intros ->.
Qed.

(** The executions that are left after the round that sends [t], and its report. *)
Lemma reported_debt w w' id t :
  Inv w -> t ∈ part Flying (sched w) -> reported w w' id t -> tMaxRetries (mem w !!! t) = 3 ->
  (debt w' <= debt w + (if decide (tAttempt (mem w !!! t) < 3)%Z then chances (mem w !!! t) else 0))%nat.
Proof.
  intros HI Hin [Hst Hm _ Hq Ho] H3. unfold debt. rewrite Hq.
  assert (t ∉ queue (sched w) ++ retryQueue (sched w)) as Hn.
  { rewrite elem_of_app. intros [Hx|Hx];
      [by pose proof (part_unique w t Queued Flying HI Hx Hin)|by pose proof (part_unique w t SchedulerProps.Waiting Flying HI Hx Hin)]. }
  assert (debtOf (mem w') (queue (sched w) ++ retryQueue (sched w)) = debtOf (mem w) (queue (sched w) ++ retryQueue (sched w))) as E.
  { apply debtOf_ext. intros p Hp. rewrite Hm; [done|]. by intros ->. }
  assert (chances (mem w' !!! t) = chances (mem w !!! t) \/ tAttempt (mem w' !!! t) <> tAttempt (mem w !!! t)) as Hl.
  { destruct (decide (tAttempt (mem w' !!! t) = tAttempt (mem w !!! t))) as [Ea|]; [left|by right]. unfold chances. rewrite Ea.
    destruct (Hst t) as (_ & _ & _ & Hpl). unfold payload in Hpl. by injection Hpl as _ _ _ _ _ -> _. }
  destruct Ho as [(_ & _ & ->)|[_ [->|(-> & Ea & Hlt)]]]; [rewrite E; lia..|].
  rewrite app_assoc. unfold debtOf at 1. rewrite sum_list_with_app. fold (debtOf (mem w') (queue (sched w) ++ retryQueue (sched w))).
  rewrite E. cbn [sum_list_with]. rewrite decide_True by lia. destruct Hl; [lia|done].
Qed.

(** The task [t] is taken out of the queue. *)
Lemma taken_debt w w' t :
  Inv w -> queue (sched w) ≡ₚ t :: queue (sched w') -> retryQueue (sched w') = retryQueue (sched w) ->
  (forall u, u <> t -> mem w' !!! u = mem w !!! u) -> debt w = (chances (mem w !!! t) + debt w')%nat.
Proof.
  intros HI Hq Hr Hm. unfold debt. rewrite (debtOf_perm _ _ ((t :: queue (sched w')) ++ retryQueue (sched w))) by (by rewrite Hq).
  unfold debtOf at 1. cbn [app sum_list_with]. fold (debtOf (mem w) (queue (sched w') ++ retryQueue (sched w))).
  rewrite Hr. f_equal. apply debtOf_ext. intros p Hp. rewrite Hm; [done|]. intros ->.
  pose proof (inv_pool_nodup _ HI) as Hnd. unfold pool in Hnd. rewrite Hq in Hnd. cbn [app] in Hnd.
  apply NoDup_cons in Hnd as [Hnd _]. apply Hnd. rewrite !elem_of_app in *. tauto.
Qed.

Lemma chances_running denv workerID tk : chances (running denv workerID tk) = chances (attempted tk).
Proof. unfold chances, running, attempted. by simpl_fields_goal. Qed.

Lemma execution_spends denv renv workerID n :
  Places (nWorld n) -> queue (sched (nWorld n)) <> [] ->
  (forall p, p ∈ pool (nWorld n) -> tMaxRetries (mem (nWorld n) !!! p) = 3) ->
  snd (Allow (dsAllow denv) (workerBreaker workerID (nBreakers n))) = true -> dsSend denv = None ->
  exists x, snd (dispatchRound denv workerID n) = RoundSent x /\ forall os st ct,
    let n' := ReportTaskStatus renv (snd (executeTask os workerID st ct x)) (fst (dispatchRound denv workerID n)) in
    inFlight (sched (nWorld n')) = inFlight (sched (nWorld n)) /\ spends (nWorld n) (nWorld n') /\
    (debt (nWorld n') < debt (nWorld n))%nat.
Proof.
  intros HP Hne H3 Ha Hs. pose proof (pl_inv _ HP) as HI.
  destruct (dispatched_world denv workerID n HI Hne) as (t & Hin & Hd); [intros u; apply (pl_state _ HP Queued)|done..|].
  destruct (dispatchRound denv workerID n) as [n1 round]. cbn [fst snd] in *.
  destruct Hd as (-> & HI1 & Hp1 & Hm1 & Hfr & Hf1 & Hr1 & _ & _ & Hq1 & _). eexists. split; [done|]. intros os st ct.
  assert (t ∈ pool (nWorld n)) as Hpt by (by apply (part_pool Queued)). specialize (H3 t Hpt).
  assert (mem (nWorld n1) !!! t = running denv workerID (mem (nWorld n) !!! t)) as Hmt by (by rewrite Hm1, decide_True).
  assert (forall u, u <> t -> mem (nWorld n1) !!! u = mem (nWorld n) !!! u) as Hmu by (intros u Hu; by rewrite Hm1, decide_False).
  set (tk := mem (nWorld n) !!! t) in *. set (x := assignment _ _).
  assert (asTaskId x = tID tk) as Hx by (subst x; unfold assignment, running; by simpl_fields_goal).
  assert (inFlight (sched (nWorld n1)) !! asTaskId x = Some t) as Hfl by (rewrite Hf1, Hx; apply lookup_insert_eq).
  pose proof (report_reported renv os workerID st ct x t n1 HI1 Hfl) as Hrep.
  rewrite Hmt in Hrep. specialize (Hrep ltac:(unfold running; by simpl_fields_goal)).
  set (n2 := ReportTaskStatus _ _ _) in *.
  assert (t ∈ part Flying (sched (nWorld n1))) as Hfly by (by eapply flying_elem).
  split; [rewrite (rp_flight _ _ _ _ Hrep), Hf1, Hx, delete_insert_eq; by apply delete_id|]. split.
  - apply (spends_trans _ (nWorld n1)); [|by eapply reported_spends; [apply (part_pool Flying)|]].
    split; [|by intros p; rewrite Hp1; left|by intros p; rewrite Hp1|intros p Hp; apply Hmu; by intros ->].
    intros u. destruct (decide (u = t)) as [->|Hu]; [|by rewrite Hmu]. rewrite Hmt.
    unfold sameKey, payload, running. by simpl_fields_goal.
  - pose proof (reported_debt _ _ _ t HI1 Hfly Hrep) as Hd. rewrite Hmt, chances_running in Hd.
    specialize (Hd ltac:(unfold running; by simpl_fields_goal)).
    rewrite (taken_debt (nWorld n) (nWorld n1) t HI Hq1 Hr1 Hmu). fold tk.
    assert (chances tk > 0)%nat by (unfold chances; lia).
    assert (tAttempt (attempted tk) < 3 -> (chances (attempted tk) < chances tk)%nat) by (by apply chances_attempted).
    assert (tAttempt (running denv workerID tk) = tAttempt (attempted tk)) as Ea by (unfold running, attempted; by simpl_fields_goal).
    rewrite Ea in Hd. case_decide; [specialize (H1 ltac:(done))|]; lia.
Qed.

End execution.

(** Once every backoff is over, the tasks that wait for a retry go to the queue. *)

Lemma all_due (m : Mem) l : exists now, due now m l = l /\ notDue now m l = [].
Proof.
  assert (exists now, forall t, t ∈ l -> After now (tNextRetryAt (m !!! t)) = true) as [now Hnow].
  { induction l as [|t l [now IH]]; [exists 0; by intros t ?%elem_of_nil|].
    exists (Z.max now (tNextRetryAt (m !!! t) + 1)). unfold After in *.
    intros u [->|Hu]%elem_of_cons; [lia|]. specialize (IH u Hu). lia. }
  exists now. unfold due, notDue. induction l as [|t l IH]; [done|]. rewrite !filter_cons.
  pose proof (Hnow t ltac:(by left)) as Ht. rewrite decide_True by done. rewrite decide_False by (by intros Hn).
  destruct IH as [-> ->]; [|done]. intros u Hu. apply Hnow. by right.
Qed.

Lemma retries_all w :
  Places w -> exists now, let w' := fst (ProcessRetries now w) in
    queue (sched w') ≡ₚ retryQueue (sched w) ++ queue (sched w) /\ retryQueue (sched w') = [] /\
    inFlight (sched w') = inFlight (sched w) /\ spends w w' /\ debt w' = debt w.
Proof.
  intros HP. pose proof (pl_inv _ HP) as HI. destruct (all_due (mem w) (retryQueue (sched w))) as (now & Hd & Hn).
  exists now. cbv zeta. destruct (ProcessRetries_conserves now w HI) as (_ & Hst & Hp).
  destruct (ProcessRetries_spec now w) as (w' & E & [Hm Hq Hs _ _]). rewrite E in *. cbn [fst] in *.
  rewrite Hd, Hn in *. revert Hst Hp. set (w2 := notifyIf _ _). intros Hst Hp.
  assert (mem w2 = mem w' /\ queue (sched w2) = queue (sched w') /\ retryQueue (sched w2) = [] /\
    inFlight (sched w2) = inFlight (sched w)) as (Em & Eq & Er & ->) by (subst w2; split_and!; world; try done; rewrite Hs; by simpl_fields_goal).
  rewrite Eq. split; [done|]. split; [done|]. split; [done|]. split.
  - split; [done|by intros p; rewrite Hp; left|by intros p; rewrite Hp|]. intros p Hout.
    rewrite Em, Hm, decide_False; [done|]. intros Hin. apply Hout. by apply (part_pool SchedulerProps.Waiting).
  - unfold debt. rewrite Em, Er, app_nil_r, Eq, (debtOf_perm _ _ _ Hq). rewrite (debtOf_perm (mem w) (queue (sched w) ++ _) _ (Permutation_app_comm _ _)).
    apply debtOf_ext. intros p Hin. rewrite Hm. case_decide as Hr; [|done].
    rewrite Requeue_retrying by (by apply (pl_state _ HP SchedulerProps.Waiting)). cbn [fst]. unfold chances. simpl_fields_goal. reflexivity.
Qed.

(** ** The limits of the tasks *)

Section limits.
Context {S : Type} `{TaskStore S}.
Implicit Types c : Cluster S.
Variable durationString : Duration -> string.

(** Every submission sets [MaxRetries] to 3, and nothing changes it. *)
Definition limited c : Prop := forall p, p ∈ pool (nWorld (cNode c)) -> tMaxRetries (mem (nWorld (cNode c)) !!! p) = 3.

Lemma submission_limit o p t : submission o = Some (p, t) -> tMaxRetries t = 3.
Proof. destruct o; intros [= <- <-]; unfold batchTask, NewInline, NewArchive, New; repeat case_match; by simpl_fields_goal. Qed.

Lemma sameKey_limit t u : sameKey t u -> tMaxRetries t = tMaxRetries u.
Proof. unfold sameKey, payload. intros (_ & _ & _ & E). by injection E. Qed.

Lemma nodeStep_limited o n :
  nodeOk o n -> Places (nWorld n) ->
  (forall p, p ∈ pool (nWorld n) -> tMaxRetries (mem (nWorld n) !!! p) = 3) ->
  let w' := nWorld (nodeStep durationString o n) in forall p, p ∈ pool w' -> tMaxRetries (mem w' !!! p) = 3.
Proof.
  intros Hok HP Hl w' p. subst w'. destruct (submission o) as [[q t]|] eqn:Es.
  - destruct (submission_step durationString o q t n Es) as [-> _].
    assert (fresh [(q, t)] n) as Hf by (destruct o; cbn [submission nodeOk] in *; congruence || (injection Es as <- <-; by destruct Hok)).
    destruct (submit_spec q t n (pl_inv _ HP) Hf) as [_ Q (F & Rq & Dl & _) T M _].
    assert (pool (nWorld (submit n (q, t))) ≡ₚ q :: pool (nWorld n)) as -> by (unfold pool, flight; by rewrite Q, F, Rq, Dl).
    intros Hin. destruct (decide (p = q)) as [->|Hne].
    + rewrite (T q t) by (by left). by eapply submission_limit.
    + rewrite M by (by intros ->%list_elem_of_singleton). apply Hl. by apply elem_of_cons in Hin as [->|].
  - destruct (nodeStep_stable durationString o n Hok HP Es) as [Hst Hp]. intros Hin.
    rewrite <- (sameKey_limit _ _ (Hst p)). auto.
Qed.

Lemma clusterStep_limited a c c' :
  clusterOk a c -> clusterStep durationString a c = Some c' -> ClusterInv c -> limited c -> limited c'.
Proof.
  unfold clusterOk, clusterStep, limited. intros Hok E HC Hl. destruct (linksStep a c) as [links|]; [|done].
  cbn [mbind option_bind] in E. injection E as <-. cbn [cNode].
  destruct (nodeOpOf a c) as [o|]; [|done]. apply nodeStep_limited; [done|apply HC|done].
Qed.

Lemma clusterRun_limited acts c c' :
  clusterRun durationString acts c c' -> ClusterInv c -> limited c -> limited c'.
Proof.
  induction 1 as [|a acts c c1 c' Hok E _ IH]; intros HC Hl; [done|].
  apply IH; [by eapply clusterStep_inv|by eapply clusterStep_limited].
Qed.

End limits.

(** ** The game *)

Section game.
Context {S : Type} `{TaskStore S}.
Implicit Types c : Cluster S.
Variable durationString : Duration -> string.

(** The moves of the cluster: not the answers of the commands, which the opponent
    gives, and not the loss of a report. *)
Definition ours (a : CAct) : Prop := match a with CCall _ _ _ _ _ | CLose _ _ => False | _ => True end.

(** The cluster can lead to [goal] from [c] in finitely many steps, whatever the
    commands answer, and whenever they do. *)
Inductive canLead (goal : Cluster S -> Prop) : Cluster S -> Prop :=
| lead_goal c : goal c -> canLead goal c
| lead_move a c c' :
    ours a -> clusterOk a c -> clusterStep durationString a c = Some c' -> canLead goal c' -> canLead goal c
| lead_answer sid i c :
    (forall os st ct, is_Some (clusterStep durationString (CCall sid i os st ct) c)) ->
    (forall os st ct c', clusterStep durationString (CCall sid i os st ct) c = Some c' -> canLead goal c') ->
    canLead goal c.

Lemma canLead_run (goal : Cluster S -> Prop) c (os : OsEnv) :
  canLead goal c -> exists acts c', clusterRun durationString acts c c' /\ goal c'.
Proof.
  induction 1 as [c Hg|a c c1 _ Hok E _ (acts & c' & Hr & Hg)|sid i c Hen _ IH].
  - exists [], c. split; [apply crun_nil|done].
  - exists (a :: acts), c'. split; [by eapply crun_cons|done].
  - destruct (Hen os 0 0) as [c1 E]. destruct (IH os 0 0 c1 E) as (acts & c' & Hr & Hg).
    exists (CCall sid i os 0 0 :: acts), c'. split; [by eapply crun_cons|done].
Qed.

Lemma canLead_weaken (goal goal' : Cluster S -> Prop) c :
  (forall c, goal c -> goal' c) -> canLead goal c -> canLead goal' c.
Proof. induction 2; [apply lead_goal; auto|by eapply lead_move|by eapply lead_answer]. Qed.

Lemma lead_closing goal acts c c' :
  clusterRun durationString acts c c' -> Forall closing acts -> canLead goal c' -> canLead goal c.
Proof.
  induction 1 as [|a acts c c1 c' Hok E _ IH]; [done|]. intros [Ha Hc]%Forall_cons Hl.
  eapply lead_move; [|done|exact E|auto]. by destruct a.
Qed.

(** A move at the end of a stream. *)
Definition nodeAfter (a : CAct) c : Node S :=
  match nodeOpOf a c with Some o => nodeStep durationString o (cNode c) | None => cNode c end.

Lemma link_step a sid l l' n links :
  let c := mkCluster n (<[sid := l]> links) in
  linkOf a = Some sid -> linkStep a (roundOf a c) l = Some l' ->
  clusterStep durationString a c = Some (mkCluster (nodeAfter a c) (<[sid := l']> links)).
Proof.
  intros c Ho Hs. unfold clusterStep, linksStep, nodeAfter. fold c. rewrite Ho. subst c. cbn [cLinks] in *.
  assert (forall l', Some (<[sid := l']> (<[sid := l]> links)) = Some (<[sid := l']> links)) as Hins by (intros; by rewrite insert_insert_eq).
  destruct a; try discriminate; cbn [mbind option_bind]; rewrite lookup_insert_eq; cbn [mbind option_bind];
    rewrite Hs; cbn [mbind option_bind]; by rewrite insert_insert_eq.
Qed.

Lemma lead_link goal a sid l l' n links :
  let c := mkCluster n (<[sid := l]> links) in
  ours a -> linkOf a = Some sid -> clusterOk a c -> linkStep a (roundOf a c) l = Some l' ->
  canLead goal (mkCluster (nodeAfter a c) (<[sid := l']> links)) -> canLead goal c.
Proof. intros c Ho Hl Hok Hs Hc. eapply lead_move; [done|done|by apply (link_step a sid l l')|done]. Qed.

End game.

(** ** One execution on a new worker *)

Section episode.
Context {S : Type} `{TaskStore S}.
Implicit Types n : Node S.
Implicit Types c : Cluster S.
Variable durationString : Duration -> string.
Variables (denv : DispatchEnv) (renv : ReportEnv) (pub : PubEnv) (cfg : Config).
Hypothesis sends : dsSend denv = None.

Lemma capacity : (0 < maxConcurrent cfg)%nat.
Proof. unfold maxConcurrent. destruct (Z.leb_spec (MaxConcurrentTasks cfg) 0); lia. Qed.

(** The goroutine of [x] in the new worker's process, once it runs. *)
Definition executingProc (x : TaskAssignment) : Worker.Worker :=
  setTask 1 x Executing (newWorker <| received := [x] |> <| sem := 1%nat |> <| wg := 1%nat |> <| activeTasks := 1 |> <| started := [x] |>).

(** A new worker executes the first assignment that it gets. *)
Lemma lead_execution goal n links sid workerID x :
  canLead durationString goal (mkCluster n (<[sid := mkLink workerID (maxConcurrent cfg) true [x] [] (executingProc x) ∅ []]> links)) ->
  canLead durationString goal (mkCluster n (<[sid := mkLink workerID (maxConcurrent cfg) true [x] [x] newWorker ∅ []]> links)).
Proof.
  intros Hl. pose proof capacity as Hc.
  apply (lead_link durationString goal (CRecv sid) sid _ (mkLink workerID (maxConcurrent cfg) true [x] []
    (newWorker <| receiver := Passing x |> <| received := [x] |>) ∅ [])); [done..|].
  apply (lead_link durationString goal (CWork sid TakeTask) sid _ (mkLink workerID (maxConcurrent cfg) true [x] []
    (newWorker <| received := [x] |> <| main := Worker.Waiting x |>) ∅ [])); [done..|].
  apply (lead_link durationString goal (CWork sid Acquire) sid _ (mkLink workerID (maxConcurrent cfg) true [x] []
    (newWorker <| received := [x] |> <| main := Spawning x |> <| sem := 1%nat |>) ∅ [])); [done..| |].
  { cbn. by rewrite bool_decide_eq_true_2. }
  by apply (lead_link durationString goal (CWork sid (Go 1)) sid _ (mkLink workerID (maxConcurrent cfg) true [x] []
    (executingProc x) ∅ [])).
Qed.

(** The command answers, and the report arrives. *)
Lemma lead_report goal n links sid workerID x :
  (forall os st ct, let n' := ReportTaskStatus renv (snd (executeTask os workerID st ct x)) n in
     forall links, canLead durationString goal (mkCluster n' links)) ->
  canLead durationString goal (mkCluster n (<[sid := mkLink workerID (maxConcurrent cfg) true [x] [] (executingProc x) ∅ []]> links)).
Proof.
  intros Hl. apply (lead_answer _ _ sid 1).
  - intros os st ct. eexists. by eapply link_step.
  - intros os st ct c' E. erewrite link_step in E by done. injection E as <-.
    apply (lead_link durationString goal (CHandle sid 1 renv) sid _
      (mkLink workerID (maxConcurrent cfg) true [x] [] (executingProc x) {[1%positive := Answered true]} [])); [done..| | |].
    + unfold clusterOk, nodeOpOf. cbn [cLinks]. by rewrite lookup_insert_eq.
    + done.
    + unfold nodeAfter at 1, nodeOpOf. cbn [cLinks cNode]. rewrite lookup_insert_eq. cbn. apply Hl.
Qed.

(** A worker that the master has not seen. *)
Lemma fresh_worker (r : Registry) : exists workerID, forall now, snd (Allow now (workerBreaker workerID r)) = true.
Proof.
  exists (base.fresh (dom (breakers r))). intros now. unfold workerBreaker, breakerOf.
  assert (breakers r !! base.fresh (dom (breakers r)) = None) as -> by (apply not_elem_of_dom, is_fresh).
  cbn [fmap option_fmap option_map default]. unfold NewCircuitBreaker, Allow. by simpl_fields_goal.
Qed.

Lemma lead_episode goal n links :
  Places (nWorld n) -> queue (sched (nWorld n)) <> [] ->
  (forall p, p ∈ pool (nWorld n) -> tMaxRetries (mem (nWorld n) !!! p) = 3) ->
  (forall n' links', Places (nWorld n') -> inFlight (sched (nWorld n')) = inFlight (sched (nWorld n)) ->
     spends (nWorld n) (nWorld n') -> (debt (nWorld n') < debt (nWorld n))%nat ->
     canLead durationString goal (mkCluster n' links')) ->
  canLead durationString goal (mkCluster n links).
Proof.
  intros HP Hne H3 Hl. destruct (fresh_worker (nBreakers n)) as [workerID Ha]. specialize (Ha (dsAllow denv)).
  set (sid := base.fresh (dom links)). assert (links !! sid = None) as Hsid by (apply not_elem_of_dom, is_fresh).
  set (reg := mkReg workerID "" 0). set (n1 := openStream 0 pub reg sid n).
  assert (nWorld n1 = nWorld n /\ nBreakers n1 = nBreakers n) as [Hw1 Hb1] by (subst n1; unfold openStream; split; by node).
  apply (lead_move _ _ (CConnect 0 pub reg sid cfg) _ (mkCluster n1 (<[sid := newLink workerID (maxConcurrent cfg)]> links))); [done..| |].
  { unfold clusterStep, linksStep. cbn [cLinks]. by rewrite Hsid. }
  rewrite <- Hw1 in HP, Hne, H3. rewrite <- Hb1 in Ha.
  destruct (execution_spends denv renv workerID n1 HP Hne H3 Ha sends) as (x & Hx & Hrep).
  pose proof (dispatchRound_places denv workerID n1 sends HP) as HP2.
  apply (lead_link durationString goal (CRound sid denv) sid _ (mkLink workerID (maxConcurrent cfg) true [x] [x] newWorker ∅ [])); [done..| | |].
  { unfold clusterOk, nodeOpOf. cbn [cLinks]. by rewrite lookup_insert_eq. }
  { unfold roundOf. cbn [cLinks cNode]. rewrite lookup_insert_eq. cbn [newLink lkWorker]. by rewrite Hx. }
  unfold nodeAfter, nodeOpOf. cbn [cLinks cNode]. rewrite lookup_insert_eq. cbn [mbind option_bind newLink lkWorker nodeStep].
  apply lead_execution, lead_report. intros os st ct n' links'. destruct (Hrep os st ct) as (Hf & Hsp & Hd).
  fold n' in Hf, Hsp, Hd. rewrite Hw1 in *. apply Hl; [|done..].
  subst n'. rewrite nWorld_report. case_decide; auto using SchedComplete_places, SchedFail_places.
Qed.

(** ** Until nothing is left *)

Definition idle n : Prop :=
  queue (sched (nWorld n)) = [] /\ inFlight (sched (nWorld n)) = ∅ /\ retryQueue (sched (nWorld n)) = [].

Definition settled (w : World) c : Prop := idle (cNode c) /\ Places (nWorld (cNode c)) /\ spends w (nWorld (cNode c)).

Lemma spends_limited w w' : spends w w' ->
  (forall p, p ∈ pool w -> tMaxRetries (mem w !!! p) = 3) -> forall p, p ∈ pool w' -> tMaxRetries (mem w' !!! p) = 3.
Proof. intros Hs H3 p Hp. rewrite <- (sameKey_limit _ _ (sp_stable _ _ Hs p)). by apply H3, (sp_new _ _ Hs). Qed.

Lemma spends_refl w : spends w w.
Proof. split; auto; reflexivity. Qed.

Lemma lead_idle n links :
  Places (nWorld n) -> inFlight (sched (nWorld n)) = ∅ ->
  (forall p, p ∈ pool (nWorld n) -> tMaxRetries (mem (nWorld n) !!! p) = 3) ->
  canLead durationString (settled (nWorld n)) (mkCluster n links).
Proof.
  intros HP Hf H3.
  enough (forall k n' links, debt (nWorld n') = k -> Places (nWorld n') -> inFlight (sched (nWorld n')) = ∅ -> spends (nWorld n) (nWorld n') ->
    canLead durationString (settled (nWorld n)) (mkCluster n' links)) as Hk
    by (apply (Hk _ n links eq_refl); auto using spends_refl).
  intros k. induction (lt_wf k) as [k _ IH]. intros n' links' Ek HP' Hf' Hs.
  assert (forall n2 links, Places (nWorld n2) -> inFlight (sched (nWorld n2)) = ∅ -> spends (nWorld n) (nWorld n2) ->
    debt (nWorld n2) = k -> queue (sched (nWorld n2)) <> [] ->
    canLead durationString (settled (nWorld n)) (mkCluster n2 links)) as Hep.
  { intros n2 links2 HP2 Hf2 Hs2 Ek2 Hne. apply lead_episode; [done|done|by eapply spends_limited|].
    intros n3 links3 HP3 Hf3 Hs3 Hd. eapply (IH (debt (nWorld n3))); [lia|done|done|congruence|by eapply spends_trans]. }
  destruct (decide (queue (sched (nWorld n')) = [])) as [Hq|Hq]; [|by apply Hep].
  destruct (decide (retryQueue (sched (nWorld n')) = [])) as [Hr|Hr]; [by apply lead_goal|].
  destruct (retries_all (nWorld n') HP') as (now & Hq2 & _ & Hf2 & Hs2 & Hd2).
  apply (lead_move _ _ (CNode (NTick (RetryTick now))) _ (mkCluster (onTick durationString (RetryTick now) n') links')); [done..|].
  pose proof (nodeStep_places durationString (NTick (RetryTick now)) n' I HP') as HP2. cbn [nodeStep] in HP2.
  assert (nWorld (onTick durationString (RetryTick now) n') = fst (ProcessRetries now (nWorld n'))) as Ew by (cbn [onTick]; by node).
  apply Hep; [done|rewrite Ew; congruence| |by rewrite Ew, Hd2|].
  - rewrite Ew. by eapply spends_trans.
  - rewrite Ew, Hq, app_nil_r in *. intros E. rewrite E in Hq2. by apply Permutation_nil in Hq2.
Qed.

End episode.

(** ** Properties *)

Section theorems.
Context {S : Type} `{TaskStore S}.
Variable durationString : Duration -> string.

Definition someDispatch : DispatchEnv := mkDispatchEnv 0 0 0 0 None (mkPubEnv 0 []).
Definition someReport : ReportEnv := mkReportEnv 0 (mkFailEnv 0 (mkRetryEnv 0 0 0)) 0 (mkPubEnv 0 []).

Lemma idle_pool (n : Node S) p : idle n -> p ∈ pool (nWorld n) -> p ∈ part Buried (sched (nWorld n)).
Proof. intros (Hq & Hf & Hr). unfold pool, flight. by rewrite Hq, Hf, Hr, map_to_list_empty. Qed.

(** Claim C5: work can always be finished. From every state that any interleaving of
    the operations of master, workers and network reaches (with sends that succeed
    and unused ids, [nodeOk]), the cluster can go on so that, whatever the commands
    answer and whenever, after finitely many steps the queue, the
    flight and the retry queue are empty and every task that was held is COMPLETED,
    or DEAD and in the dead letter queue, and still the work that was submitted. *)
Theorem work_can_always_finish (cfg : Config) (store : option S) (bus : option Bus) (acts : list CAct) c
  (Hrun : clusterRun durationString acts (mkCluster (NewNodeServer cfg store bus) ∅) c) :
  let w := nWorld (cNode c) in
  canLead durationString (fun c' =>
    let w' := nWorld (cNode c') in
    queue (sched w') = [] /\ inFlight (sched w') = ∅ /\ retryQueue (sched w') = [] /\
    forall p, p ∈ pool w -> sameKey (mem w !!! p) (mem w' !!! p) /\
      (tState (mem w' !!! p) = StateCompleted \/ tState (mem w' !!! p) = StateDead /\ p ∈ deadLetter (sched w'))) c.
Proof.
  cbv zeta. pose proof (newCluster_inv cfg store bus) as HC0.
  pose proof (clusterRun_inv _ _ _ _ Hrun HC0) as HC.
  assert (limited c) as Hl by (eapply clusterRun_limited; [exact Hrun|exact HC0|]; intros p Hp; by apply elem_of_nil in Hp).
  destruct (close_all durationString c (mkPubEnv 0 []) HC) as (closes & c1 & Hr & Hcl & HC1 & Hp & Hst & Ho).
  pose proof (clusterRun_limited durationString _ _ _ Hr HC Hl) as Hl1.
  apply (lead_closing durationString _ closes _ c1 Hr Hcl). destruct c1 as [n1 links1]. cbn [cNode cLinks] in *.
  pose proof (lead_idle durationString someDispatch someReport (mkPubEnv 0 []) cfg eq_refl n1 links1 (ci_places _ HC1)
    (no_stream_no_flight _ HC1 Ho) Hl1) as Hlead.
  eapply canLead_weaken; [|exact Hlead]. intros c' (Hi & HP & Hs). pose proof Hi as (Hq & Hf & Hrt).
  split_and!; [done..|]. intros p Hin. split; [etrans; [apply Hst|apply (sp_stable _ _ Hs)]|].
  rewrite <- Hp in Hin. destruct (sp_pool _ _ Hs p Hin) as [Hin'|Hd]; [right|by left].
  pose proof (idle_pool _ _ Hi Hin') as Hb. split; [|done]. by apply (pl_state _ HP Buried).
Qed.

End theorems.

(** One task, started on the first of two workers. *)
Lemma work_can_always_finish_witness :
  exists acts (c : Cluster MemoryStore), clusterRun (fun _ => "") acts (after demoDispatch) c /\
    queue (sched (nWorld (cNode c))) = [] /\ inFlight (sched (nWorld (cNode c))) = ∅ /\
    (tState (mem (nWorld (cNode c)) !!! 1%positive) = StateCompleted \/
     tState (mem (nWorld (cNode c)) !!! 1%positive) = StateDead).
Proof.
  assert (pool (nWorld (cNode (after demoDispatch))) = [1%positive]) as E by (vm_compute; reflexivity).
  destruct (canLead_run _ _ _ (demoOs "" None) (work_can_always_finish (fun _ => "") demoCfg (Some NewMemoryStore) (Some NewBus)
    demoDispatch (after demoDispatch) ltac:(run_after))) as (acts & c & Hr & Hq & Hf & _ & Hp).
  exists acts, c. split; [exact Hr|]. split; [exact Hq|]. split; [exact Hf|].
  rewrite E in Hp. destruct (Hp 1%positive (list_elem_of_here _ _)) as (_ & [Hs|[Hs _]]); [left|right]; exact Hs.
Defined.
