(* ===== verification/Net.v ===== *)
(** * The loops, the wire and the workers, interleaved

    The dispatch loops of [Dispatch], one lock operation at a time and with sends
    that may fail, together with the streams and worker processes of [Cluster]: at
    any point a loop may take its next step, a worker may receive, execute or
    report, a report may reach the master or fail, a ticker may fire, a task may be
    submitted under any id, and a stream may end.  Nothing is assumed of the order,
    the sends, the reports or the ids. *)

From stdpp Require Import gmap.
From S2P Require Import Prelude GoTime Heap Task Scheduler SchedulerFacts SchedulerProps SchedulerSpec.
From S2P Require Import CircuitBreaker Config Store Events NodeServer NodeFacts Worker Cluster Dispatch.

Open Scope string_scope.
Open Scope list_scope.
Open Scope Z_scope.

(** ** State *)

(** The scheduler with the master's loops, and the other end of each stream.  Two
    histories are kept beside them: which stream's loop took an in-flight entry out
    of the queue, and the entries that the cleanup of that stream passed over
    because their task named another worker at that moment. *)

Record Net := mkNet {
  ntSys : System; ntLinks : gmap streamId Link;
  ntOrigin : gmap string streamId; ntStray : gset string
}.

#[export] Instance Net_struct : Struct Net := fun n => mkNet (ntSys n) (ntLinks n) (ntOrigin n) (ntStray n).

Definition netStart (m : Mem) (timeout : Duration) : Net := mkNet (initial m timeout) ∅ ∅ ∅.

(** ** Steps *)

Inductive NAct :=
| NtOpen (i : streamId) (workerID : string) (cap : nat)
| NtOutside (o : Op)                        (* submissions, tickers, the API, other clients' reports *)
| NtLoop (i : streamId) (now : Time) (good : bool) (ord : list (string * loc))
| NtCancel (i : streamId)                   (* the context of the stream is done *)
| NtWorker (a : CAct)                       (* a step of a worker process or of its RPCs *)
| NtHandle (i : streamId) (k : positive) (env : ReportEnv).

(** The call of the scheduler in [ReportTaskStatus]. *)
Definition reportOp (env : ReportEnv) (r : TaskReport) : Op :=
  if decide (rpState r = TASK_COMPLETED) then OpComplete (reNow env) (rpTaskId r) (rpOutput r) (rpExitCode r)
  else OpFail (reFail env) (rpTaskId r) (rpErrorMessage r) (rpExitCode r).

(** [stream.Send] of [x]. *)
Definition onWire (x : TaskAssignment) (l : Link) : Link :=
  l <| lkSent := lkSent l ++ [x] |> <| lkWire := lkWire l ++ [x] |>.

Definition workerSide (a : CAct) : bool :=
  match a with CHeartbeat _ _ | CRecv _ | CWork _ _ | CCall _ _ _ _ _ | CLose _ _ | CReturn _ _ => true | _ => false end.

Definition putLink (i : streamId) (l : Link) (n : Net) : Net := n <| ntLinks := <[i := l]> (ntLinks n) |>.

(** The stream [i] takes the task out of the queue. *)
Definition taking (i : streamId) (o : option loc) (w : World) (n : Net) : Net :=
  match o with
  | Some t => n <| ntOrigin := <[tID (mem w !!! t) := i]> (ntOrigin n) |> <| ntStray := ntStray n ∖ {[tID (mem w !!! t)]} |>
  | None => n
  end.

(** The entries of stream [i] whose task names another worker than [workerID]. *)
Definition strays (i : streamId) (workerID : string) (n : Net) : gset string :=
  dom (filter (fun e => ntOrigin n !! e.1 = Some i /\ tWorkerID (mem (sWorld (ntSys n)) !!! e.2) <> workerID)
    (inFlight (sched (sWorld (ntSys n))))).

Definition netAct (a : NAct) (n : Net) : option Net :=
  match a with
  | NtOpen i workerID cap =>
      s ← act (ActOpen i workerID) (ntSys n); Some (putLink i (newLink workerID cap) (n <| ntSys := s |>))
  | NtOutside o => s ← act (ActOutside o) (ntSys n); Some (n <| ntSys := s |>)
  | NtLoop i now good ord =>
      lp ← sLoops (ntSys n) !! i; l ← ntLinks n !! i; s ← actLoop i now good ord lp (ntSys n);
      let w := sWorld (ntSys n) in
      Some (match lpPC lp with
      | MayDequeue => taking i (snd (Dequeue w)) w (n <| ntSys := s |>)
      | Sending t => if good then putLink i (onWire (assignment now (mem w !!! t)) l) (n <| ntSys := s |>)
                     else n <| ntSys := s |>
      | Cleanup => putLink i (l <| lkOpen := false |>) (n <| ntSys := s |>)
                     <| ntStray := strays i (lpWorker lp) n ∪ ntStray n |>
      | _ => n <| ntSys := s |>
      end)
  | NtCancel i => s ← act (ActCancel i) (ntSys n); Some (n <| ntSys := s |>)
  | NtWorker a =>
      if workerSide a then
        i ← linkOf a; l ← ntLinks n !! i; l ← linkStep a RoundContinue l; Some (putLink i l n)
      else None
  | NtHandle i k env =>
      l ← ntLinks n !! i;
      match lkCalls l !! k with
      | Some (Calling r) =>
          l ← linkStep (CHandle i k env) RoundContinue l;
          Some (putLink i l (n <| ntSys := mkSystem (opStep (reportOp env r) (sWorld (ntSys n))) (sLoops (ntSys n)) |>))
      | _ => None
      end
  end.

Fixpoint netActs (acts : list NAct) (n : Net) : option Net :=
  match acts with [] => Some n | a :: acts => n ← netAct a n; netActs acts n end.

(** ** Where the task of an in-flight entry is *)

(** The loop is between [Dequeue] and the end of its round with the task. *)
Definition handing (pc : PC) (t : loc) : Prop :=
  pc = Holding t \/ pc = Assigned t \/ pc = Sending t \/ pc = SendFailed t.

(** The stream that took it is served, and its loop or its worker has the task. *)
Definition inCharge (n : Net) (id : string) (t : loc) : Prop :=
  exists i lp l, ntOrigin n !! id = Some i /\ sLoops (ntSys n) !! i = Some lp /\ ntLinks n !! i = Some l /\
    lpPC lp <> Closed /\ (handing (lpPC lp) t \/ accounted l id).

Definition somewhere (n : Net) (id : string) (t : loc) : Prop :=
  t ∈ queue (sched (sWorld (ntSys n))) \/ id ∈ ntStray n \/ inCharge n id t.

Record NetInv (n : Net) : Prop := {
  ni_loose : Loose (sWorld (ntSys n));
  ni_links : forall i l, ntLinks n !! i = Some l -> LinkInv l;
  ni_loops : forall i lp, sLoops (ntSys n) !! i = Some lp ->
    exists l, ntLinks n !! i = Some l /\ lkWorker l = lpWorker lp /\ (lkOpen l = true <-> lpPC lp <> Closed);
  ni_flight : forall id t, inFlight (sched (sWorld (ntSys n))) !! id = Some t -> somewhere n id t
}.

(** ** Lemmas: what the scheduler's calls keep *)

(** Nothing new is in flight, and what is queued stays queued. *)
Record shrinks (w w' : World) : Prop := {
  sh_flight : forall id t, inFlight (sched w') !! id = Some t -> inFlight (sched w) !! id = Some t;
  sh_queue : forall t, t ∈ queue (sched w) -> t ∈ queue (sched w')
}.

#[export] Instance shrinks_preorder : PreOrder shrinks.
Proof. split; [by split|]. intros a b c [] []. split; auto. Qed.

Lemma withTask_shrinks f t w : shrinks w (withTask f t w).
Proof. split; by world. Qed.

Lemma pushQueue_shrinks t w : shrinks w (pushQueue t w).
Proof. split; world; [done|]. intros u. rewrite heapPush_perm, elem_of_cons. auto. Qed.

Lemma Notify_shrinks w : shrinks w (Notify w).
Proof. split; by world. Qed.

Lemma notifyIf_shrinks k w : shrinks w (notifyIf k w).
Proof. unfold notifyIf. case_match; [apply Notify_shrinks|done]. Qed.

Lemma foldl_shrinks {A B} (f : A -> B -> A) (g : A -> World) (l : list B) a :
  (forall a b, shrinks (g a) (g (f a b))) -> shrinks (g a) (g (foldl f a l)).
Proof. intros Hf. revert a. induction l as [|b l IH]; intros a; [done|]. cbn [foldl]. etrans; [apply Hf|apply IH]. Qed.

Lemma failing_shrinks env id msg code n t w :
  shrinks w (retryOrBury (failRetry env) t (failing env id msg code n t w)).
Proof.
  destruct (failing_fields env id msg code n t w) as (_ & Hq & Hf & _). split; rewrite ?Hq, ?Hf; [|done].
  by intros i u [_ ?]%lookup_delete_Some.
Qed.

Lemma timeoutLoop_shrinks envs i ts w : shrinks w (timeoutLoop envs i ts w).
Proof.
  revert i w. induction ts as [|t ts IH]; intros i w; [done|]. cbn [timeoutLoop].
  etrans; [|apply IH]. rewrite timeoutOne_failing. apply failing_shrinks.
Qed.

Lemma SchedComplete_shrinks now id out code w : shrinks w (fst (SchedComplete now id out code w)).
Proof.
  destruct (inFlight (sched w) !! id) as [t|] eqn:E; [|by rewrite SchedComplete_unknown].
  destruct (SchedComplete_known now id out code w t E) as (w' & -> & _ & Hs). cbn [fst].
  split; rewrite Hs; unfold keepCompleted; simpl_fields_goal; [|done]. by intros i u [_ ?]%lookup_delete_Some.
Qed.

Lemma SchedFail_shrinks env id msg code w : shrinks w (fst (SchedFail env id msg code w)).
Proof.
  destruct (inFlight (sched w) !! id) as [t|] eqn:E; [|by rewrite SchedFail_unknown].
  rewrite (SchedFail_known env id msg code w t E). apply failing_shrinks.
Qed.

Lemma outside_shrinks o w : outside o = true -> shrinks w (opStep o w).
Proof.
  destruct o; cbn [outside opStep]; try done; intros _.
  - unfold Enqueue. etrans; [apply pushQueue_shrinks|apply Notify_shrinks].
  - apply SchedComplete_shrinks.
  - apply SchedFail_shrinks.
  - unfold ProcessRetries.
    assert (shrinks w (fst (fst (foldl (retryOne now) (w, [], 0) (retryQueue (sched w)))))) as Hx.
    { apply (foldl_shrinks (retryOne now) (fun a => fst (fst a)) (retryQueue (sched w)) (w, [], 0)). intros [[w0 l] c] t. unfold retryOne.
      destruct (After _ _); cbn [fst]; [|done]. etrans; [apply withTask_shrinks|apply pushQueue_shrinks]. }
    destruct (foldl _ _ _) as [[w' r] c]. cbn [fst] in *. etrans; [exact Hx|].
    etrans; [|apply notifyIf_shrinks]. split; by world.
  - apply timeoutLoop_shrinks.
  - unfold SchedRetryFromDLQ. destruct (findTask _ _ _) as [i|]; [|done].
    destruct (deadLetter (sched w) !! i) as [t|]; [|done]. cbn [fst].
    etrans; [|apply Notify_shrinks]. etrans; [|apply pushQueue_shrinks].
    etrans; [|apply withTask_shrinks]. split; by world.
Qed.

Lemma report_shrinks env r w :
  shrinks w (opStep (reportOp env r) w) /\ inFlight (sched (opStep (reportOp env r) w)) !! rpTaskId r = None.
Proof.
  unfold reportOp. case_decide; cbn [opStep].
  - split; [apply SchedComplete_shrinks|]. destruct (inFlight (sched w) !! rpTaskId r) as [t|] eqn:E;
      [|by rewrite SchedComplete_unknown].
    destruct (SchedComplete_known (reNow env) _ (rpOutput r) (rpExitCode r) w t E) as (w' & -> & _ & Hs). cbn [fst].
    rewrite Hs. unfold keepCompleted. simpl_fields_goal. apply lookup_delete_eq.
  - split; [apply SchedFail_shrinks|]. destruct (inFlight (sched w) !! rpTaskId r) as [t|] eqn:E;
      [|by rewrite SchedFail_unknown].
    rewrite (SchedFail_known (reFail env) _ (rpErrorMessage r) (rpExitCode r) w t E). cbn [fst].
    destruct (failing_fields (reFail env) (rpTaskId r) (rpErrorMessage r) (rpExitCode r) 1 t w) as (_ & _ & -> & _).
    apply lookup_delete_eq.
Qed.

(** The cleanup takes the entries of the worker's tasks out of the in-flight map. *)
Lemma cleanup_flight wid ord w id t :
  Loose w -> map_order (inFlight (sched w)) ord ->
  shrinks w (fst (RequeueFromWorker wid ord w)) /\
  (inFlight (sched (fst (RequeueFromWorker wid ord w))) !! id = Some t -> tWorkerID (mem w !!! t) <> wid).
Proof.
  intros HL Ho. destruct (RequeueFromWorker_spec wid ord w HL Ho) as (w' & E & Hr). rewrite E. cbn [fst].
  destruct (requeued_exact _ _ _ _ HL Ho Hr) as (_ & _ & Hf & Hq & _). split; [split|].
  - intros i u. rewrite Hf. intros (v & Hv & Hi)%bind_Some. case_decide; by simplify_eq.
  - intros u Hu. rewrite Hq. apply elem_of_app. by right.
  - rewrite Hf. intros (v & Hv & Hi)%bind_Some. case_decide; by simplify_eq.
Qed.

(** ** Lemmas: a step of one loop *)

(** The entry was there before the step of loop [i], from [lp] to [pc], and what
    told where its task is still does. *)
Record stays (i : streamId) (lp : Loop) (pc : PC) (l l' : Link) (n n' : Net) (id : string) (t : loc) : Prop := {
  sy_flight : inFlight (sched (sWorld (ntSys n))) !! id = Some t;
  sy_origin : ntOrigin n' !! id = ntOrigin n !! id;
  sy_stray : id ∈ ntStray n -> id ∈ ntStray n';
  sy_queue : t ∈ queue (sched (sWorld (ntSys n))) -> t ∈ queue (sched (sWorld (ntSys n')));
  sy_here : ntOrigin n !! id = Some i -> handing (lpPC lp) t \/ accounted l id ->
    (t ∈ queue (sched (sWorld (ntSys n')))) \/ id ∈ ntStray n' \/ (pc <> Closed /\ (handing pc t \/ accounted l' id))
}.

Lemma stays_somewhere i lp pc l l' n n' id t :
  sLoops (ntSys n) !! i = Some lp -> ntLinks n !! i = Some l ->
  sLoops (ntSys n') = setPC i pc lp (ntSys n) -> ntLinks n' = <[i := l']> (ntLinks n) ->
  stays i lp pc l l' n n' id t -> somewhere n id t -> somewhere n' id t.
Proof.
  intros Hlp Hl Eloops Elinks [_ Ho Hs Hq Hh] [Hin|[Hin|(j & lj & kj & Hj & Hlj & Hkj & Hpc & Hwhere)]].
  - left. auto.
  - right. left. auto.
  - destruct (decide (j = i)) as [->|Hne].
    + assert (lj = lp) as -> by congruence. assert (kj = l) as -> by congruence.
      destruct (Hh Hj Hwhere) as [?|[?|[Hn Hw]]]; [by left|by right; left|]. right. right.
      exists i, (mkLoop (lpWorker lp) pc), l'. rewrite Ho, Eloops, Elinks. unfold setPC. rewrite !lookup_insert_eq. done.
    + right. right. exists j, lj, kj. rewrite Ho, Eloops, Elinks. unfold setPC. by rewrite !lookup_insert_ne.
Qed.

Lemma NetInv_loop n n' i lp pc l l' :
  NetInv n -> sLoops (ntSys n) !! i = Some lp -> ntLinks n !! i = Some l ->
  sLoops (ntSys n') = setPC i pc lp (ntSys n) -> ntLinks n' = <[i := l']> (ntLinks n) ->
  tidy (sWorld (ntSys n)) (sWorld (ntSys n')) ->
  LinkInv l' -> lkWorker l' = lkWorker l -> (lkOpen l' = true <-> pc <> Closed) ->
  (forall id t, inFlight (sched (sWorld (ntSys n'))) !! id = Some t ->
     somewhere n' id t \/ stays i lp pc l l' n n' id t) ->
  NetInv n'.
Proof.
  intros [HL Hlinks Hloops Hfl] Hlp Hl Eloops Elinks Ht HI' Hw Hop Hall. split.
  - by apply Ht.
  - intros j k. rewrite Elinks. intros [[<- <-]|[_ Hk]]%lookup_insert_Some; [done|eauto].
  - intros j k. rewrite Eloops, Elinks. unfold setPC. intros [[<- <-]|[Hne Hk]]%lookup_insert_Some.
    + exists l'. rewrite lookup_insert_eq. split; [done|]. cbn [lpWorker lpPC]. split; [|done].
      destruct (Hloops i lp Hlp) as (l0 & Hl0 & Hw0 & _). congruence.
    + rewrite lookup_insert_ne by done. auto.
  - intros id t Hid. destruct (Hall id t Hid) as [|Hst]; [done|].
    eapply stays_somewhere; eauto using sy_flight.
Qed.

(** A step that leaves the stream's other end and the histories as they are. *)
Lemma NetInv_quiet n s i lp pc l :
  NetInv n -> sLoops (ntSys n) !! i = Some lp -> ntLinks n !! i = Some l -> lpPC lp <> Closed -> pc <> Closed ->
  sLoops s = setPC i pc lp (ntSys n) -> tidy (sWorld (ntSys n)) (sWorld s) -> shrinks (sWorld (ntSys n)) (sWorld s) ->
  (forall t, handing (lpPC lp) t -> handing pc t \/ t ∈ queue (sched (sWorld s))) ->
  NetInv (n <| ntSys := s |>).
Proof.
  intros HI Hlp Hl Hopen Hpc El Ht Hs Hh. destruct (ni_loops _ HI i lp Hlp) as (l0 & Hl0 & _ & Hop).
  assert (l0 = l) as -> by congruence.
  apply (NetInv_loop n _ i lp pc l l); simpl_fields_goal; try done; [by rewrite insert_id|by eapply ni_links|tauto|].
  intros id t Hid. right. split; simpl_fields_goal; try done; [by apply Hs|by apply Hs|].
  intros _ [Hhand|Ha]; [|by right; right; auto]. destruct (Hh t Hhand); [|by left]. right; right; auto.
Qed.

Lemma onWire_step x l :
  LinkInv l -> lkOpen l = true -> LinkInv (onWire x l) /\ lkWorker (onWire x l) = lkWorker l /\
  lkOpen (onWire x l) = true /\ (forall id, accounted l id -> accounted (onWire x l) id) /\ accounted (onWire x l) (asTaskId x).
Proof.
  intros HI Ho. assert (linkStep (CRound 1 (mkDispatchEnv 0 0 0 0 None (mkPubEnv 0 []))) (RoundSent x) l = Some (onWire x l)) as E
    by (cbn [linkStep]; by rewrite Ho).
  destruct (linkStep_spec _ _ _ _ E HI) as [H1 H2 H3 H4]. split_and!; try done; [by rewrite H3|intros id Ha; apply H4; [done|intros []]|].
  left. left. unfold onWire. simpl_fields_goal. rewrite !fmap_app. set_solver.
Qed.

Lemma flight_id n id t : NetInv n -> inFlight (sched (sWorld (ntSys n))) !! id = Some t -> tID (mem (sWorld (ntSys n)) !!! t) = id.
Proof. intros HI Hid. by apply (ls_keyed _ (ni_loose _ HI)). Qed.

Lemma dequeue_inv n i lp l w o :
  NetInv n -> sLoops (ntSys n) !! i = Some lp -> ntLinks n !! i = Some l -> lpPC lp = MayDequeue ->
  Dequeue (sWorld (ntSys n)) = (w, o) ->
  NetInv (taking i o (sWorld (ntSys n))
    (n <| ntSys := mkSystem w (setPC i (match o with Some t => Holding t | None => AtSelect end) lp (ntSys n)) |>)).
Proof.
  intros HI Hlp Hl Hpc Ed. pose proof (ni_loose _ HI) as HL.
  assert (tidy (sWorld (ntSys n)) w) as Htidy by (pose proof (Dequeue_tidy (sWorld (ntSys n))) as Ht; by rewrite Ed in Ht).
  assert (forall u, ~ handing (lpPC lp) u) as Hnone by (intros u [|[|[|]]]; congruence).
  destruct (decide (queue (sched (sWorld (ntSys n))) = [])) as [Hq|Hq].
  - rewrite Dequeue_empty in Ed by done. injection Ed as <- <-. cbn [taking].
    apply (NetInv_quiet n _ i lp AtSelect l); cbn [sLoops sWorld]; try done; [by rewrite Hpc|].
    intros u Hu. by destruct (Hnone u).
  - destruct (Dequeue_takes _ HL Hq) as (w' & t & Ed' & Htk). rewrite Ed in Ed'. injection Ed' as -> ->. cbn [taking].
    destruct (ni_loops _ HI i lp Hlp) as (l0 & Hl0 & _ & Hop). assert (l0 = l) as -> by congruence.
    apply (NetInv_loop n _ i lp (Holding t) l l); simpl_fields_goal; cbn [sLoops sWorld]; try done;
      [by rewrite insert_id|by eapply ni_links|rewrite Hop, Hpc; by split|].
    intros id u. rewrite (tk_flight _ _ _ Htk). change (idOf (mem (sWorld (ntSys n))) t) with (tID (mem (sWorld (ntSys n)) !!! t)).
    intros [[<- <-]|[Hne Hid]]%lookup_insert_Some.
    + left. right. right. exists i, (mkLoop (lpWorker lp) (Holding t)), l. simpl_fields_goal. cbn [sLoops].
      unfold setPC. rewrite !lookup_insert_eq. split_and!; try done. left. by left.
    + right. split; simpl_fields_goal; cbn [sWorld sLoops]; [done|by rewrite lookup_insert_ne|set_solver|..].
      * intros Hin. rewrite (tk_queue _ _ _ Htk) in Hin. apply elem_of_cons in Hin as [->|Hin]; [|done].
        by destruct Hne; apply (flight_id n).
      * intros _ [Hh|Ha]; [by destruct (Hnone u)|]. right; right. split; [done|by right].
Qed.

Lemma sent_inv n i lp l t now :
  NetInv n -> sLoops (ntSys n) !! i = Some lp -> ntLinks n !! i = Some l -> lpPC lp = Sending t ->
  NetInv (putLink i (onWire (assignment now (mem (sWorld (ntSys n)) !!! t)) l)
    (n <| ntSys := mkSystem (sWorld (ntSys n)) (setPC i AtSelect lp (ntSys n)) |>)).
Proof.
  intros HI Hlp Hl Hpc. destruct (ni_loops _ HI i lp Hlp) as (l0 & Hl0 & _ & Hop). assert (l0 = l) as -> by congruence.
  assert (lkOpen l = true) as Ho by (apply Hop; congruence).
  destruct (onWire_step (assignment now (mem (sWorld (ntSys n)) !!! t)) l (ni_links _ HI i l Hl) Ho) as (H1 & H2 & H3 & H4 & H5).
  apply (NetInv_loop n _ i lp AtSelect l (onWire (assignment now (mem (sWorld (ntSys n)) !!! t)) l));
    unfold putLink; simpl_fields_goal; cbn [sLoops sWorld]; try done.
  intros id u Hid. right. split; simpl_fields_goal; cbn [sLoops sWorld]; try done.
  intros _ [Hh|Ha]; right; right; (split; [done|right; auto]).
  assert (u = t) as -> by (destruct Hh as [|[|[|]]]; congruence).
  rewrite <- (flight_id n id t HI Hid). exact H5.
Qed.

Lemma strays_elem i wid n id t :
  inFlight (sched (sWorld (ntSys n))) !! id = Some t -> ntOrigin n !! id = Some i ->
  tWorkerID (mem (sWorld (ntSys n)) !!! t) <> wid -> id ∈ strays i wid n.
Proof. intros Hid Ho Hw. apply elem_of_dom. exists t. by apply map_lookup_filter_Some. Qed.

Lemma cleanup_inv n i lp l ord :
  NetInv n -> sLoops (ntSys n) !! i = Some lp -> ntLinks n !! i = Some l -> lpPC lp = Cleanup ->
  map_order (inFlight (sched (sWorld (ntSys n)))) ord ->
  NetInv (putLink i (l <| lkOpen := false |>)
    (n <| ntSys := mkSystem (fst (RequeueFromWorker (lpWorker lp) ord (sWorld (ntSys n)))) (setPC i Closed lp (ntSys n)) |>)
    <| ntStray := strays i (lpWorker lp) n ∪ ntStray n |>).
Proof.
  intros HI Hlp Hl Hpc Hord. pose proof (ni_loose _ HI) as HL.
  assert (LinkInv (l <| lkOpen := false |>)) as HL'.
  { destruct (ni_links _ HI i l Hl) as [I1 I2 I3 I4]. by split; simpl_fields_goal. }
  apply (NetInv_loop n _ i lp Closed l (l <| lkOpen := false |>)); unfold putLink; simpl_fields_goal; cbn [sLoops sWorld];
    try done; [apply (opStep_tidy (OpRequeueFromWorker _ _))|].
  intros id t Hid. right. destruct (cleanup_flight (lpWorker lp) ord _ id t HL Hord) as [Hsh Hw].
  split; simpl_fields_goal; cbn [sLoops sWorld]; [by apply Hsh|done|set_solver|apply Hsh|].
  intros Ho _. right. left. apply elem_of_union. left. eapply strays_elem; [by apply Hsh|done|by apply Hw].
Qed.

Lemma loop_inv n n' i now good ord : netAct (NtLoop i now good ord) n = Some n' -> NetInv n -> NetInv n'.
Proof.
  cbn [netAct]. intros (lp & Hlp & (l & Hl & (s & Hs & E)%bind_Some)%bind_Some)%bind_Some HI. injection E as <-.
  unfold actLoop in Hs.
  assert (forall pc w, lpPC lp <> Closed -> pc <> Closed ->
    tidy (sWorld (ntSys n)) w -> shrinks (sWorld (ntSys n)) w ->
    (forall t, handing (lpPC lp) t -> handing pc t \/ t ∈ queue (sched w)) ->
    NetInv (n <| ntSys := mkSystem w (setPC i pc lp (ntSys n)) |>)) as Hq
    by (intros; by eapply (NetInv_quiet n _ i lp pc l)).
  assert (forall w w0, receiveNotify w0 = Some w -> tidy w0 w /\ shrinks w0 w) as Hrecv.
  { intros w w0. unfold receiveNotify. destruct (notify (sched w0)); [|done]. intros [= <-].
    split; [by apply withSched_tidy; cbv beta; simpl_fields_goal|split; by world]. }
  destruct (lpPC lp) as [| | | |t|t|t|t| |] eqn:Hpc.
  - apply bind_Some in Hs as (w & Hw & [= <-]). destruct (Hrecv _ _ Hw). apply Hq; try done. intros t [|[|[|]]]; congruence.
  - injection Hs as <-. destruct good; apply Hq; try done; try apply tidy_refl; intros t [|[|[|]]]; congruence.
  - injection Hs as <-. apply Hq; [done|done|apply Notify_tidy|apply Notify_shrinks|]. intros t [|[|[|]]]; congruence.
  - destruct (Dequeue (sWorld (ntSys n))) as [w o] eqn:Ed. injection Hs as <-. by eapply dequeue_inv.
  - injection Hs as <-. apply Hq; [done|done|apply withTask_tidy; intros; apply (call_sameKey (CallAssign _ _))|apply withTask_shrinks|].
    intros u [[= <-]|[|[|]]]; try congruence. left. by right; left.
  - injection Hs as <-. apply Hq; [done|done|apply withTask_tidy; intros; apply (call_sameKey (CallStart _))|apply withTask_shrinks|].
    intros u [|[[= <-]|[|]]]; try congruence. left. by right; right; left.
  - destruct good; injection Hs as <-; [by apply sent_inv|].
    apply Hq; [done|done|apply withTask_tidy, release_sameKey|apply withTask_shrinks|].
    intros u [|[|[[= <-]|]]]; try congruence. left. by right; right; right.
  - injection Hs as <-. apply Hq; [done|done|apply (opStep_tidy (OpEnqueue t))|by apply (outside_shrinks (OpEnqueue t))|].
    intros u [|[|[|[= <-]]]]; try congruence. right. unfold Enqueue. world. rewrite heapPush_perm. by left.
  - destruct (decide (map_order (inFlight (sched (sWorld (ntSys n)))) ord)) as [Ho|]; [|done]. injection Hs as <-.
    by apply cleanup_inv.
  - done.
Qed.

(** ** Lemmas: the other steps *)

(** A step that leaves the loops alone, and the entries whose task it leaves in
    flight in their places. *)
Lemma NetInv_keep n n' :
  NetInv n -> tidy (sWorld (ntSys n)) (sWorld (ntSys n')) -> shrinks (sWorld (ntSys n)) (sWorld (ntSys n')) ->
  sLoops (ntSys n') = sLoops (ntSys n) -> ntOrigin n' = ntOrigin n -> ntStray n' = ntStray n ->
  (forall i l, ntLinks n !! i = Some l -> exists l', ntLinks n' !! i = Some l' /\ lkWorker l' = lkWorker l /\ lkOpen l' = lkOpen l /\
     (forall id, is_Some (inFlight (sched (sWorld (ntSys n'))) !! id) -> accounted l id -> accounted l' id)) ->
  (forall i l, ntLinks n' !! i = Some l -> LinkInv l) -> NetInv n'.
Proof.
  intros [HL Hlinks Hloops Hfl] Ht Hs El Eo Es Hk HI'. split; [by apply Ht|done| |].
  - intros i lp. rewrite El. intros Hlp. destruct (Hloops i lp Hlp) as (l & Hl & Hw & Ho).
    destruct (Hk i l Hl) as (l' & Hl' & Hw' & Ho' & _). exists l'. by rewrite Hw', Ho'.
  - intros id t Hid. destruct (Hfl id t) as [Hq|[Hst|(i & lp & l & Hi & Hlp & Hl & Hpc & Hwh)]]; [by apply Hs|..].
    + left. by apply Hs.
    + right. left. by rewrite Es.
    + right. right. destruct (Hk i l Hl) as (l' & Hl' & _ & _ & Ha). exists i, lp, l'. rewrite Eo, El.
      split_and!; try done. destruct Hwh as [|Hwh]; [by left|right]. apply Ha; [by eexists|done].
Qed.

Lemma putLink_keep n i l l' (P : string -> Prop) :
  ntLinks n !! i = Some l -> lkWorker l' = lkWorker l -> lkOpen l' = lkOpen l ->
  (forall id, P id -> accounted l id -> accounted l' id) ->
  forall j k, ntLinks n !! j = Some k -> exists k', <[i := l']> (ntLinks n) !! j = Some k' /\ lkWorker k' = lkWorker k /\
    lkOpen k' = lkOpen k /\ (forall id, P id -> accounted k id -> accounted k' id).
Proof.
  intros Hl Hw Ho Ha j k Hk. destruct (decide (j = i)) as [->|Hne].
  - assert (k = l) as -> by congruence. exists l'. by rewrite lookup_insert_eq.
  - exists k. by rewrite lookup_insert_ne.
Qed.

Lemma netAct_inv a n n' : netAct a n = Some n' -> NetInv n -> NetInv n'.
Proof.
  destruct a as [i wid cap|o|i now good ord|i|a|i k env]; cbn [netAct].
  - intros (s & Hs & [= <-])%bind_Some HI. cbn [act] in Hs. destruct (sLoops (ntSys n) !! i) as [|] eqn:E; [done|].
    injection Hs as <-. destruct HI as [HL Hlinks Hloops Hfl]. split; unfold putLink; simpl_fields_goal; cbn [sWorld sLoops]; [done|..].
    + intros j l [[<- <-]|[_ Hl]]%lookup_insert_Some; [apply newLink_inv|eauto].
    + intros j lp [[<- <-]|[Hne Hlp]]%lookup_insert_Some.
      * eexists. rewrite lookup_insert_eq. split; [done|]. by split.
      * rewrite lookup_insert_ne by done. auto.
    + intros id t Hid. unfold somewhere, inCharge. simpl_fields_goal. cbn [sWorld sLoops].
      destruct (Hfl id t Hid) as [?|[?|(j & lp & l & Hj & Hlp & Hl & Hx)]]; [by left|by right; left|].
      right. right. assert (i <> j) by (intros ->; congruence). exists j, lp, l. by rewrite !lookup_insert_ne.
  - intros (s & Hs & [= <-])%bind_Some HI. cbn [act] in Hs. destruct (outside o) eqn:E; [|done]. injection Hs as <-.
    apply (NetInv_keep n); simpl_fields_goal; cbn [sWorld sLoops]; try done;
      [apply opStep_tidy|by apply outside_shrinks|by intros i l Hl; exists l|apply HI].
  - by apply loop_inv.
  - intros (s & Hs & [= <-])%bind_Some HI. cbn [act] in Hs. apply bind_Some in Hs as (lp & Hlp & Hs).
    destruct (lpPC lp) eqn:Hpc; try done. injection Hs as <-. destruct (ni_loops _ HI i lp Hlp) as (l & Hl & _).
    apply (NetInv_quiet n _ i lp Cleanup l); cbn [sWorld sLoops]; rewrite ?Hpc; try done.
    intros t [|[|[|]]]; congruence.
  - destruct (workerSide a) eqn:Ew; [|done].
    intros (i & Hi & (l & Hl & (l' & Hs & [= <-])%bind_Some)%bind_Some)%bind_Some HI.
    destruct (linkStep_spec _ _ _ _ Hs (ni_links _ HI i l Hl)) as [H1 H2 H3 H4].
    apply (NetInv_keep n); unfold putLink; simpl_fields_goal; try done.
    + apply putLink_keep with l; try done; [by rewrite H3; destruct a|]. intros id _ Ha. apply H4; [done|]. destruct a; try discriminate; intros [].
    + intros j k [[<- <-]|[_ Hk]]%lookup_insert_Some; [done|by eapply ni_links].
  - intros (l & Hl & Hs)%bind_Some HI. destruct (lkCalls l !! k) as [[r|]|] eqn:Ec; try done.
    apply bind_Some in Hs as (l' & Hs & [= <-]).
    destruct (linkStep_spec _ _ _ _ Hs (ni_links _ HI i l Hl)) as [H1 H2 H3 H4].
    destruct (report_shrinks env r (sWorld (ntSys n))) as [Hsh Hgone].
    apply (NetInv_keep n); unfold putLink; simpl_fields_goal; cbn [sWorld sLoops]; try done; [apply opStep_tidy|..].
    + apply putLink_keep with l; try done. intros id [t Hid] Ha. apply H4; [done|]. intros (r' & Hr' & <-).
      rewrite Ec in Hr'. injection Hr' as <-. congruence.
    + intros j k' [[<- <-]|[_ Hk]]%lookup_insert_Some; [done|by eapply ni_links].
Qed.

Lemma netStart_inv m timeout : NetInv (netStart m timeout).
Proof.
  split; cbn.
  - apply (inv_loose _ (NewScheduler_inv m timeout)).
  - intros i l. by rewrite lookup_empty.
  - intros i l. by rewrite lookup_empty.
  - intros i l. by rewrite lookup_empty.
Qed.

Lemma netActs_inv acts n n' : netActs acts n = Some n' -> NetInv n -> NetInv n'.
Proof.
  revert n. induction acts as [|a acts IH]; intros n; cbn [netActs]; [by intros [= ->]|].
  intros (n1 & H1 & H2)%bind_Some HI. eapply IH; [exact H2|]. by eapply netAct_inv.
Qed.

(** ** Properties *)

(** Claim C4: no task gets lost between the master and its workers. However the
    loops' lock operations, failed sends, submissions under any id, reports,
    tickers, workers and disconnections interleave, each entry in flight is filed
    under its task's id and its task is queued to be sent again, or some stream is
    in charge of it: the stream is still served, and either its loop is between the
    [Dequeue] and the end of the round with this task, or the assignment is on the
    wire, with the worker, or executed with the report on its way, unless the report
    failed or that worker is shutting down or has lost the stream.  The one other
    case are the entries that the cleanup of their stream left because their task
    named another worker at that moment.  So once every stream has ended nothing is
    in flight but those and what is queued again. *)
Theorem in_flight_tasks_accounted_for (m : Mem) (timeout : Duration) (acts : list NAct) (n : Net)
  (Hrun : netActs acts (netStart m timeout) = Some n) :
  let w := sWorld (ntSys n) in
  (forall id t, inFlight (sched w) !! id = Some t ->
     tID (mem w !!! t) = id /\
     (t ∈ queue (sched w) \/ id ∈ ntStray n \/
      exists i lp l, sLoops (ntSys n) !! i = Some lp /\ ntLinks n !! i = Some l /\ lkWorker l = lpWorker lp /\
        lpPC lp <> Closed /\ (handing (lpPC lp) t \/ carries l id \/ id ∈ lkLost l \/ ending l))) /\
  ((forall i lp, sLoops (ntSys n) !! i = Some lp -> lpPC lp = Closed) ->
     forall id t, inFlight (sched w) !! id = Some t -> t ∈ queue (sched w) \/ id ∈ ntStray n).
Proof.
  pose proof (netActs_inv _ _ _ Hrun (netStart_inv m timeout)) as HI. split.
  - intros id t Hid. split; [by apply flight_id|].
    destruct (ni_flight _ HI id t Hid) as [?|[?|(i & lp & l & _ & Hlp & Hl & Hpc & Hw)]]; [by left|by right; left|].
    right. right. destruct (ni_loops _ HI i lp Hlp) as (l0 & Hl0 & Ew & _). assert (l0 = l) as -> by congruence.
    exists i, lp, l. done.
  - intros Hall id t Hid. destruct (ni_flight _ HI id t Hid) as [?|[?|(i & lp & l & _ & Hlp & _ & Hpc & _)]]; [by left|by right|].
    by destruct Hpc; eapply Hall.
Qed.

(** ** Examples *)

(** Three steps of a loop: up to the [Dequeue], or from there to the send. *)
Definition three (i : streamId) (now : Time) : list NAct := [NtLoop i now true []; NtLoop i now true []; NtLoop i now true []].

(** The worker has received the task and holds it. *)
Definition sentActs : list NAct :=
  [NtOutside (OpEnqueue 1); NtOpen 1 "w1" 4] ++ three 1 20 ++ three 1 21 ++ [NtWorker (CRecv 1); NtWorker (CWork 1 TakeTask)].

Definition sentNet : Net := default (netStart ∅ 0) (netActs sentActs (netStart demoMem (300 * Second))).

Lemma in_flight_tasks_accounted_for_witness :
  exists l, ntLinks sentNet !! 1%positive = Some l /\ (carries l "a" \/ "a" ∈ lkLost l \/ ending l).
Proof.
  destruct (in_flight_tasks_accounted_for demoMem (300 * Second) sentActs sentNet) as [H _]; [vm_compute; reflexivity|].
  assert (inFlight (sched (sWorld (ntSys sentNet))) !! "a" = Some 1%positive) as Hid by (vm_compute; reflexivity).
  destruct (H "a" 1%positive Hid) as (_ & [Hin|[Hin|(i & lp & l & Hlp & Hl & _ & _ & Hw)]]).
  - exfalso. revert Hin. apply (bool_decide_unpack _). vm_compute. exact I.
  - exfalso. revert Hin. apply (bool_decide_unpack _). vm_compute. exact I.
  - assert (sLoops (ntSys sentNet) = {[1%positive := mkLoop "w1" AtSelect]}) as E by (vm_compute; reflexivity).
    rewrite E in Hlp. apply lookup_singleton_Some in Hlp as [<- <-].
    exists l. split; [exact Hl|]. destruct Hw as [[Hpc|[Hpc|[Hpc|Hpc]]]|Hw]; [discriminate Hpc..|exact Hw].
Defined.

(** [w1] times out; while [w2]'s loop holds the retried task, the late report of [w1]
    puts it back, and [w3]'s loop takes it before [w2]'s assigns it. *)
Definition late (t : Time) : FailEnv := mkFailEnv t (mkRetryEnv t 0 0).

Definition strayActs : list NAct :=
  [NtOutside (OpEnqueue 1); NtOpen 1 "w1" 4] ++ three 1 20 ++ three 1 21 ++
  [NtOutside (OpCheckTimeouts (1000 * Second) (fun _ => late (1000 * Second)) [("a", 1%positive)]);
   NtOutside (OpProcessRetries (2000 * Second)); NtOpen 2 "w2" 4] ++ three 2 40 ++
  [NtOutside (OpFail (late 3000) "a" "late" 1); NtOutside (OpProcessRetries (3000 * Second)); NtOpen 3 "w3" 4] ++
  three 3 50 ++ three 2 60 ++ three 3 63 ++ [NtCancel 3; NtLoop 3 70 true [("a", 1%positive)]].

(** The last case of [in_flight_tasks_accounted_for] arises with no failed
    send and one task only. A late report makes two loops hold the same task at once; both
    send it, the task names the worker whose loop assigned it first, and the end of
    the other worker's stream leaves the entry, which a retry on the first worker
    shares: two workers were sent one attempt. *)
Theorem late_report_duplicates_dispatch :
  exists n l2 l3, netActs strayActs (netStart demoMem (300 * Second)) = Some n /\
    ntLinks n !! 2%positive = Some l2 /\ ntLinks n !! 3%positive = Some l3 /\
    (asTaskId <$> lkWire l2 = ["a"]) /\ (asTaskId <$> lkWire l3 = ["a"]) /\
    (asAttempt <$> lkWire l2 = asAttempt <$> lkWire l3) /\
    ntStray n = {["a"]} /\ inFlight (sched (sWorld (ntSys n))) !! "a" = Some 1%positive /\
    tWorkerID (mem (sWorld (ntSys n)) !!! 1%positive) = "w2".
Proof. do 3 eexists. split; [vm_compute; reflexivity|]. split; [vm_compute; reflexivity|]. split; [vm_compute; reflexivity|]. vm_compute. repeat split. Qed.
